(** * Vela runtime: heap and collector, signal graph, actor mailboxes, boxed objects

    A shallow embedding of the C runtime (gc.c, signals.c, actors.c,
    runtime.c) and the properties of its specification.

    Conventions of the embedding.
    - A pointer is its address, a [Z]; [NULL] is [0].  [size_t] values and
      addresses are 64-bit: arithmetic on them is written with [wrap].
    - The process-wide singletons ([gc_heap], [gc_stats], [signals_state],
      [actor_system]) are fields of an explicit state that every operation
      takes and returns.
    - Structs that live behind pointers are cells of a finite map from
      addresses to records; a field access through a pointer is a lookup, a
      field store is an insert.  A read through an address that holds no such
      struct is outside the model and yields [Fault].
    - [while] loops over pointer chains take a fuel argument and yield
      [OutOfFuel] when it runs out; the termination lemmas give the fuel
      that suffices.
    - The answer of the C library allocator ([malloc], [realloc]) is an
      argument of the operation that asks for it. *)

From Stdlib Require Import ZArith Lia List Bool.
From stdpp Require Import base gmap list strings.

Local Open Scope Z_scope.

(** ** Machine words and results *)

Definition NULL : Z := 0.

(** Arithmetic on [size_t] and on addresses is modulo 2^64. *)
Definition wrap (z : Z) : Z := z mod 2 ^ 64.

(** The outcome of running a piece of C code in the model. *)
Inductive res (A : Type) : Type :=
| Ok (a : A)
| OutOfFuel
| Fault.
Arguments Ok {A} a.
Arguments OutOfFuel {A}.
Arguments Fault {A}.

#[global] Instance res_ret : MRet res := fun A a => Ok a.
#[global] Instance res_bind : MBind res := fun A B f m =>
  match m with
  | Ok a => f a
  | OutOfFuel => OutOfFuel
  | Fault => Fault
  end.

(** Load of a struct through a pointer. *)
Definition load {A : Type} (m : gmap Z A) (p : Z) : res A :=
  match m !! p with
  | Some a => Ok a
  | None => Fault
  end.

(** The entries of a list at even and at odd positions. *)
Fixpoint evens (l : list Z) : list Z :=
  match l with
  | [] => []
  | a :: l' => a :: odds l'
  end
with odds (l : list Z) : list Z :=
  match l with
  | [] => []
  | _ :: l' => evens l'
  end.

(** ** gc.h / gc.c: bump allocator and mark-and-sweep collector *)

Module GC.

(** [sizeof(gc_header_t)] on an LP64 target: a 4-byte flag word padded to 8,
    an 8-byte size and an 8-byte link. *)
Definition sizeof_gc_header : Z := 24.

Definition GC_FLAG_MARKED : Z := 0x01.
Definition GC_FLAG_ROOT   : Z := 0x02.
Definition GC_FLAG_ARRAY  : Z := 0x04.
Definition GC_FLAG_OBJECT : Z := 0x10.

Record gc_header_t := mk_header {
  flags : Z;
  size  : Z;
  next  : Z
}.

Record gc_heap_t := mk_heap {
  heap_start    : Z;
  heap_end      : Z;
  heap_size     : Z;
  free_ptr      : Z;
  objects       : Z;
  object_count  : Z;
  roots         : list Z;   (* roots[0 .. root_count) *)
  root_capacity : Z;
  gc_running    : bool
}.

Definition root_count (h : gc_heap_t) : Z := Z.of_nat (length (roots h)).

Record gc_stats_t := mk_stats {
  stats_heap_size    : Z;
  used_bytes         : Z;
  free_bytes         : Z;
  stats_object_count : Z;
  collection_count   : Z;
  total_allocated    : Z;
  total_collected    : Z
}.

(** The two file-level statics of gc.c and the headers stored in memory. *)
Record gc_state := mk_state {
  gc_heap  : option gc_heap_t;
  gc_stats : gc_stats_t;
  mem      : gmap Z gc_header_t
}.

Definition set_flags (f : Z) (hd : gc_header_t) : gc_header_t :=
  {| flags := f; size := size hd; next := next hd |}.

Definition set_next (n : Z) (hd : gc_header_t) : gc_header_t :=
  {| flags := flags hd; size := size hd; next := n |}.

Definition set_objects (p : Z) (h : gc_heap_t) : gc_heap_t :=
  {| heap_start := heap_start h; heap_end := heap_end h;
     heap_size := heap_size h; free_ptr := free_ptr h;
     objects := p; object_count := object_count h;
     roots := roots h; root_capacity := root_capacity h;
     gc_running := gc_running h |}.

Definition set_object_count (n : Z) (h : gc_heap_t) : gc_heap_t :=
  {| heap_start := heap_start h; heap_end := heap_end h;
     heap_size := heap_size h; free_ptr := free_ptr h;
     objects := objects h; object_count := n;
     roots := roots h; root_capacity := root_capacity h;
     gc_running := gc_running h |}.

Definition set_free_ptr (p : Z) (h : gc_heap_t) : gc_heap_t :=
  {| heap_start := heap_start h; heap_end := heap_end h;
     heap_size := heap_size h; free_ptr := p;
     objects := objects h; object_count := object_count h;
     roots := roots h; root_capacity := root_capacity h;
     gc_running := gc_running h |}.

Definition set_roots (r : list Z) (cap : Z) (h : gc_heap_t) : gc_heap_t :=
  {| heap_start := heap_start h; heap_end := heap_end h;
     heap_size := heap_size h; free_ptr := free_ptr h;
     objects := objects h; object_count := object_count h;
     roots := r; root_capacity := cap;
     gc_running := gc_running h |}.

Definition set_gc_running (b : bool) (h : gc_heap_t) : gc_heap_t :=
  {| heap_start := heap_start h; heap_end := heap_end h;
     heap_size := heap_size h; free_ptr := free_ptr h;
     objects := objects h; object_count := object_count h;
     roots := roots h; root_capacity := root_capacity h;
     gc_running := b |}.

Definition marked (hd : gc_header_t) : bool :=
  negb (Z.land (flags hd) GC_FLAG_MARKED =? 0).

(** [gc_init]: the three [malloc] answers are [p_heap] (the heap struct),
    [p_arena] (the arena) and [p_roots] (the root array). *)
Definition gc_init (heap_size0 p_heap p_arena p_roots : Z) (s : gc_state)
  : bool * gc_state :=
  match gc_heap s with
  | Some _ => (false, s)
  | None =>
    if p_heap =? NULL then (false, s)
    else if p_arena =? NULL then (false, s)
    else if p_roots =? NULL then (false, s)
    else
      let h := {| heap_start := p_arena;
                  heap_end := wrap (p_arena + heap_size0);
                  heap_size := heap_size0;
                  free_ptr := p_arena;
                  objects := NULL; object_count := 0;
                  roots := []; root_capacity := 64;
                  gc_running := false |} in
      let st := gc_stats s in
      (true,
       {| gc_heap := Some h;
          gc_stats := {| stats_heap_size := heap_size0;
                         used_bytes := 0;
                         free_bytes := heap_size0;
                         stats_object_count := stats_object_count st;
                         collection_count := 0;
                         total_allocated := total_allocated st;
                         total_collected := total_collected st |};
          mem := mem s |})
  end.

Definition gc_is_heap_ptr (s : gc_state) (ptr : Z) : bool :=
  match gc_heap s with
  | None => false
  | Some h =>
    if ptr =? NULL then false
    else (heap_start h <=? ptr) && (ptr <? heap_end h)
  end.

Definition gc_get_header (s : gc_state) (ptr : Z) : Z :=
  if negb (gc_is_heap_ptr s ptr) then NULL
  else wrap (ptr - sizeof_gc_header).

Definition gc_mark_object (s : gc_state) (ptr : Z) : res gc_state :=
  if (ptr =? NULL) || negb (gc_is_heap_ptr s ptr) then Ok s
  else
    let header := gc_get_header s ptr in
    if header =? NULL then Ok s
    else
      hd ← load (mem s) header;
      if marked hd then Ok s
      else Ok {| gc_heap := gc_heap s; gc_stats := gc_stats s;
                 mem := <[header := set_flags (Z.lor (flags hd) GC_FLAG_MARKED) hd]>
                          (mem s) |}.

(** First loop of [gc_mark]: walk the object list and clear every mark. *)
Fixpoint gc_mark_clear (fuel : nat) (m : gmap Z gc_header_t) (current : Z)
  : res (gmap Z gc_header_t) :=
  match fuel with
  | O => OutOfFuel
  | S fuel' =>
    if current =? NULL then Ok m
    else
      hd ← load m current;
      gc_mark_clear fuel'
        (<[current := set_flags (Z.land (flags hd) (Z.lnot GC_FLAG_MARKED)) hd]> m)
        (next hd)
  end.

(** Second loop of [gc_mark]: [for (i = 0; i < root_count; i++)]. *)
Fixpoint gc_mark_roots (rs : list Z) (s : gc_state) : res gc_state :=
  match rs with
  | [] => Ok s
  | r :: rs' =>
    s' ← (if r =? NULL then Ok s else gc_mark_object s r);
    gc_mark_roots rs' s'
  end.

Definition gc_mark (fuel : nat) (s : gc_state) : res gc_state :=
  match gc_heap s with
  | None => Ok s
  | Some h =>
    m' ← gc_mark_clear fuel (mem s) (objects h);
    gc_mark_roots (roots h)
      {| gc_heap := gc_heap s; gc_stats := gc_stats s; mem := m' |}
  end.

(** [gc_header_t** current] of [gc_sweep]: the address of the list head in the
    heap struct, or of the [next] field of the header at an address. *)
Inductive link : Type :=
| HeadLink
| NextLink (a : Z).

Definition read_link (h : gc_heap_t) (m : gmap Z gc_header_t) (c : link) : res Z :=
  match c with
  | HeadLink => Ok (objects h)
  | NextLink a => hd ← load m a; Ok (next hd)
  end.

Definition write_link (h : gc_heap_t) (m : gmap Z gc_header_t) (c : link) (p : Z)
  : res (gc_heap_t * gmap Z gc_header_t) :=
  match c with
  | HeadLink => Ok (set_objects p h, m)
  | NextLink a => hd ← load m a; Ok (h, <[a := set_next p hd]> m)
  end.

Fixpoint gc_sweep_loop (fuel : nat) (h : gc_heap_t) (m : gmap Z gc_header_t)
    (current : link) (collected_bytes : Z)
  : res (gc_heap_t * gmap Z gc_header_t * Z) :=
  match fuel with
  | O => OutOfFuel
  | S fuel' =>
    p ← read_link h m current;
    if p =? NULL then Ok (h, m, collected_bytes)
    else
      header ← load m p;
      if negb (marked header) then
        '(h1, m1) ← write_link h m current (next header);
        gc_sweep_loop fuel'
          (set_object_count (wrap (object_count h1 - 1)) h1) m1
          current (wrap (collected_bytes + size header))
      else
        gc_sweep_loop fuel' h m (NextLink p) collected_bytes
  end.

Definition add_total_collected (n : Z) (st : gc_stats_t) : gc_stats_t :=
  {| stats_heap_size := stats_heap_size st; used_bytes := used_bytes st;
     free_bytes := free_bytes st; stats_object_count := stats_object_count st;
     collection_count := collection_count st;
     total_allocated := total_allocated st;
     total_collected := wrap (total_collected st + n) |}.

Definition gc_sweep (fuel : nat) (s : gc_state) : res gc_state :=
  match gc_heap s with
  | None => Ok s
  | Some h =>
    '(h', m', collected_bytes) ← gc_sweep_loop fuel h (mem s) HeadLink 0;
    Ok {| gc_heap := Some h';
          gc_stats := add_total_collected collected_bytes (gc_stats s);
          mem := m' |}
  end.

Definition incr_collection_count (st : gc_stats_t) : gc_stats_t :=
  {| stats_heap_size := stats_heap_size st; used_bytes := used_bytes st;
     free_bytes := free_bytes st; stats_object_count := stats_object_count st;
     collection_count := wrap (collection_count st + 1);
     total_allocated := total_allocated st;
     total_collected := total_collected st |}.

Definition with_gc_running (b : bool) (s : gc_state) : gc_state :=
  {| gc_heap := set_gc_running b <$> gc_heap s;
     gc_stats := gc_stats s; mem := mem s |}.

Definition gc_collect (fuel : nat) (s : gc_state) : res gc_state :=
  match gc_heap s with
  | None => Ok s
  | Some h =>
    if gc_running h then Ok s
    else
      s2 ← gc_mark fuel (with_gc_running true s);
      s3 ← gc_sweep fuel s2;
      let s4 := with_gc_running false s3 in
      Ok {| gc_heap := gc_heap s4;
            gc_stats := incr_collection_count (gc_stats s4);
            mem := mem s4 |}
  end.

Definition stats_after_alloc (total_size sz : Z) (st : gc_stats_t) : gc_stats_t :=
  {| stats_heap_size := stats_heap_size st;
     used_bytes := wrap (used_bytes st + total_size);
     free_bytes := wrap (free_bytes st - total_size);
     stats_object_count := stats_object_count st;
     collection_count := collection_count st;
     total_allocated := wrap (total_allocated st + sz);
     total_collected := total_collected st |}.

(** The tail of [gc_alloc], once the space check has passed. *)
Definition gc_alloc_bump (total_size sz flgs : Z) (h : gc_heap_t) (s : gc_state)
  : Z * gc_state :=
  let header := free_ptr h in
  let h1 := set_free_ptr (wrap (free_ptr h + total_size)) h in
  let hd := {| flags := flgs; size := sz; next := objects h1 |} in
  let h2 := set_object_count (wrap (object_count h1 + 1)) (set_objects header h1) in
  (wrap (header + sizeof_gc_header),
   {| gc_heap := Some h2;
      gc_stats := stats_after_alloc total_size sz (gc_stats s);
      mem := <[header := hd]> (mem s) |}).

Definition gc_alloc (fuel : nat) (sz flgs : Z) (s : gc_state) : res (Z * gc_state) :=
  match gc_heap s with
  | None => Ok (NULL, s)
  | Some h =>
    let total_size := wrap (sizeof_gc_header + sz) in
    if heap_end h <? wrap (free_ptr h + total_size) then
      s1 ← gc_collect fuel s;
      match gc_heap s1 with
      | None => Fault
      | Some h1 =>
        if heap_end h1 <? wrap (free_ptr h1 + total_size) then Ok (NULL, s1)
        else Ok (gc_alloc_bump total_size sz flgs h1 s1)
      end
    else Ok (gc_alloc_bump total_size sz flgs h s)
  end.

(** [gc_add_root]; [p_new] is the answer of [realloc] when the array is full. *)
Definition gc_add_root (p_new : Z) (ptr : Z) (s : gc_state) : bool * gc_state :=
  match gc_heap s with
  | None => (false, s)
  | Some h =>
    if ptr =? NULL then (false, s)
    else if existsb (Z.eqb ptr) (roots h) then (true, s)
    else
      let grow := root_capacity h <=? root_count h in
      if grow && (p_new =? NULL) then (false, s)
      else
        let cap := if grow then wrap (root_capacity h * 2) else root_capacity h in
        (true, {| gc_heap := Some (set_roots (roots h ++ [ptr]) cap h);
                  gc_stats := gc_stats s; mem := mem s |})
  end.

(** Removal of the first entry equal to [ptr], the later ones shifted down. *)
Fixpoint remove_first (ptr : Z) (l : list Z) : list Z :=
  match l with
  | [] => []
  | x :: l' => if x =? ptr then l' else x :: remove_first ptr l'
  end.

Definition gc_remove_root (ptr : Z) (s : gc_state) : gc_state :=
  match gc_heap s with
  | None => s
  | Some h =>
    if ptr =? NULL then s
    else {| gc_heap := Some (set_roots (remove_first ptr (roots h)) (root_capacity h) h);
            gc_stats := gc_stats s; mem := mem s |}
  end.

Definition gc_get_stats (s : gc_state) : gc_stats_t := gc_stats s.

(** Public wrappers. *)
Definition vela_gc_init (p_heap p_arena p_roots : Z) (s : gc_state) : gc_state :=
  snd (gc_init (1024 * 1024) p_heap p_arena p_roots s).

Definition vela_gc_alloc (fuel : nat) (sz : Z) (s : gc_state) : res (Z * gc_state) :=
  gc_alloc fuel sz 0 s.

Definition vela_gc_collect (fuel : nat) (s : gc_state) : res gc_state :=
  gc_collect fuel s.

Definition vela_gc_add_root (p_new ptr : Z) (s : gc_state) : gc_state :=
  snd (gc_add_root p_new ptr s).

(** The state of the process before [gc_init]: no heap, zeroed statistics. *)
Definition boot : gc_state :=
  {| gc_heap := None;
     gc_stats := mk_stats 0 0 0 0 0 0 0;
     mem := ∅ |}.

(** *** Invariants of the heap, used to state the properties below *)

(** [chain m p l]: following [next] from [p] visits exactly the headers at
    the addresses [l], in this order, and ends at [NULL]. *)
Fixpoint chain (m : gmap Z gc_header_t) (p : Z) (l : list Z) : Prop :=
  match l with
  | [] => p = NULL
  | a :: l' =>
    p = a ∧ a ≠ NULL ∧ ∃ hd, m !! a = Some hd ∧ chain m (next hd) l'
  end.

(** The executable walk of the object list: the addresses of its headers. *)
Fixpoint object_list (fuel : nat) (m : gmap Z gc_header_t) (p : Z) : res (list Z) :=
  match fuel with
  | O => OutOfFuel
  | S fuel' =>
    if p =? NULL then Ok []
    else hd ← load m p; l ← object_list fuel' m (next hd); Ok (p :: l)
  end.

(** The payload pointer of the object whose header is at [a]. *)
Definition payload (a : Z) : Z := a + sizeof_gc_header.

(** Some root entry passes [gc_is_heap_ptr] and has its header at [a]:
    the test that [gc_mark_object] applies to the entries of the root array. *)
Definition root_hits (s : gc_state) (rs : list Z) (a : Z) : bool :=
  existsb (fun r => gc_is_heap_ptr s r && (gc_get_header s r =? a)) rs.

Definition rooted (s : gc_state) (a : Z) : bool :=
  match gc_heap s with
  | None => false
  | Some h => root_hits s (roots h) a
  end.

(** Every root entry that [gc_mark_object] dereferences has a header behind it. *)
Definition roots_readable (s : gc_state) (rs : list Z) : Prop :=
  ∀ r, r ∈ rs → gc_is_heap_ptr s r = true → gc_get_header s r ≠ NULL →
       is_Some (mem s !! gc_get_header s r).

(** A heap between two calls of the API, with live-object list [l]. *)
Record heap_ok (s : gc_state) (h : gc_heap_t) (l : list Z) : Prop := {
  ok_heap     : gc_heap s = Some h;
  ok_idle     : gc_running h = false;
  ok_start    : 0 < heap_start h;
  ok_cursor   : heap_start h ≤ free_ptr h ≤ heap_end h;
  ok_end      : heap_end h < 2 ^ 64;
  ok_chain    : chain (mem s) (objects h) l;
  ok_nodup    : NoDup l;
  ok_inside   : ∀ a, a ∈ l → heap_start h ≤ a ∧ a + sizeof_gc_header ≤ free_ptr h;
  ok_roots    : roots_readable s (roots h)
}.

(** [used_bytes + free_bytes == heap_size], in [size_t] arithmetic. *)
Definition stats_balanced (st : gc_stats_t) : Prop :=
  wrap (used_bytes st + free_bytes st) = stats_heap_size st.

(** What [gc_mark_object] does to the header it reaches. *)
Definition mark_header (hd : gc_header_t) : gc_header_t :=
  if marked hd then hd else set_flags (Z.lor (flags hd) GC_FLAG_MARKED) hd.

Definition is_marked (m : gmap Z gc_header_t) (a : Z) : bool :=
  match m !! a with
  | Some hd => marked hd
  | None => false
  end.

(** The cell that a [link] points into lies outside the list being swept. *)
Definition link_ok (m : gmap Z gc_header_t) (c : link) (l : list Z) : Prop :=
  match c with
  | HeadLink => True
  | NextLink a => (a ∉ l) ∧ is_Some (m !! a)
  end.

(** Two heap structs that differ at most in the object list and its count. *)
Definition same_arena (h h' : gc_heap_t) : Prop :=
  heap_start h' = heap_start h ∧ heap_end h' = heap_end h ∧
  heap_size h' = heap_size h ∧ free_ptr h' = free_ptr h ∧
  roots h' = roots h ∧ root_capacity h' = root_capacity h ∧
  gc_running h' = gc_running h.

(** The addresses of the headers on the live-object list of a state. *)
Definition live_objects (fuel : nat) (s : gc_state) : res (list Z) :=
  match gc_heap s with
  | None => Ok []
  | Some h => object_list fuel (mem s) (objects h)
  end.

(** *** States used in the examples *)

(** After [gc_init(24)]: an arena of exactly one header, placed at 65536. *)
Definition one_header_heap : gc_state :=
  snd (gc_init 24 4096 65536 8192 boot).

(** After [vela_gc_init()]: the default arena of 1 MiB, placed at 65536. *)
Definition default_heap : gc_state := vela_gc_init 4096 65536 8192 boot.

Definition default_heap_struct : gc_heap_t :=
  {| heap_start := 65536; heap_end := 65536 + 1048576; heap_size := 1048576;
     free_ptr := 65536; objects := NULL; object_count := 0;
     roots := []; root_capacity := 64; gc_running := false |}.

(** Two objects of 16 and 32 bytes in the default arena, the first one
    registered as a root. *)
Definition two_objects_heap : gc_state :=
  {| gc_heap := Some
       {| heap_start := 65536; heap_end := 65536 + 1048576; heap_size := 1048576;
          free_ptr := 65536 + 40 + 56; objects := 65536 + 40; object_count := 2;
          roots := [65536 + 24]; root_capacity := 64; gc_running := false |};
     gc_stats := {| stats_heap_size := 1048576; used_bytes := 96;
                    free_bytes := 1048576 - 96; stats_object_count := 0;
                    collection_count := 0; total_allocated := 48;
                    total_collected := 0 |};
     mem := <[65536 + 40 := {| flags := 0; size := 32; next := 65536 |}]>
            (<[65536 := {| flags := 0; size := 16; next := NULL |}]> ∅) |}.

Definition two_objects_heap_struct : gc_heap_t :=
  {| heap_start := 65536; heap_end := 65536 + 1048576; heap_size := 1048576;
     free_ptr := 65536 + 40 + 56; objects := 65536 + 40; object_count := 2;
     roots := [65536 + 24]; root_capacity := 64; gc_running := false |}.

(** *** Shutdown and the remaining wrappers *)

(** The blocks that [gc_init] obtained from [malloc] are the heap struct, the
    root array and the arena; of these the state holds the address of the
    arena, [heap_start].  [free(p)] is defined for the address of a block
    that is still allocated and for nothing else: not for an address inside
    the arena, and not for the arena a second time.  A call of [free] that is
    not defined, and a read of a header once the arena is released, are
    outside the model.

    The loop of [gc_shutdown]: [next] is read from the header, then the
    header is handed to [free].  [arena_live] says whether the arena is
    still allocated; the result is its value after the loop. *)
Fixpoint gc_shutdown_loop (fuel : nat) (arena : Z) (m : gmap Z gc_header_t)
    (current : Z) (arena_live : bool) : res bool :=
  match fuel with
  | O => OutOfFuel
  | S fuel' =>
    if current =? NULL then Ok arena_live
    else if negb arena_live then Fault
    else
      hd ← load m current;
      if current =? arena then gc_shutdown_loop fuel' arena m (next hd) false
      else Fault
  end.

(** [gc_shutdown]: the loop, then the releases of the root array, of the
    arena and of the heap struct.  The headers go with the arena. *)
Definition gc_shutdown (fuel : nat) (s : gc_state) : res gc_state :=
  match gc_heap s with
  | None => Ok s
  | Some h =>
    arena_live ← gc_shutdown_loop fuel (heap_start h) (mem s) (objects h) true;
    if heap_start h =? NULL then
      Ok {| gc_heap := None; gc_stats := gc_stats s; mem := mem s |}
    else if arena_live : bool then
      Ok {| gc_heap := None; gc_stats := gc_stats s; mem := ∅ |}
    else Fault
  end.

Definition vela_gc_shutdown (fuel : nat) (s : gc_state) : res gc_state :=
  gc_shutdown fuel s.

Definition vela_gc_remove_root (ptr : Z) (s : gc_state) : gc_state :=
  gc_remove_root ptr s.

(** [vela_gc_get_stats] with both out-pointers given: [used_bytes] and
    [total_bytes]. *)
Definition vela_gc_get_stats (s : gc_state) : Z * Z :=
  (used_bytes (gc_stats s), stats_heap_size (gc_stats s)).

(** *** Calls of the API, used to state what every call keeps *)

Inductive gc_call : Type :=
| Alloc (sz flgs : Z)
| Collect
| AddRoot (p_new ptr : Z)
| RemoveRoot (ptr : Z).

Definition gc_do (fuel : nat) (c : gc_call) (s : gc_state) : res gc_state :=
  match c with
  | Alloc sz flgs => '(_, s') ← gc_alloc fuel sz flgs s; Ok s'
  | Collect => gc_collect fuel s
  | AddRoot p_new ptr => Ok (snd (gc_add_root p_new ptr s))
  | RemoveRoot ptr => Ok (gc_remove_root ptr s)
  end.

Fixpoint gc_run (fuel : nat) (cs : list gc_call) (s : gc_state) : res gc_state :=
  match cs with
  | [] => Ok s
  | c :: cs' => s' ← gc_do fuel c s; gc_run fuel cs' s'
  end.

(** The calls a program may make: a size whose block cannot run past the end
    of the address space, and a root that is null, outside the arena, or the
    payload pointer of an object that was allocated. *)
Definition call_ok (c : gc_call) (s : gc_state) : Prop :=
  match c with
  | Alloc sz _ =>
    0 ≤ sz ∧ ∀ h, gc_heap s = Some h → heap_end h + sizeof_gc_header + sz < 2 ^ 64
  | AddRoot _ ptr =>
    gc_is_heap_ptr s ptr = true → gc_get_header s ptr ≠ NULL →
    is_Some (mem s !! gc_get_header s ptr)
  | Collect | RemoveRoot _ => True
  end.

Fixpoint calls_ok (fuel : nat) (cs : list gc_call) (s : gc_state) : Prop :=
  match cs with
  | [] => True
  | c :: cs' =>
    call_ok c s ∧
    match gc_do fuel c s with
    | Ok s' => calls_ok fuel cs' s'
    | _ => True
    end
  end.

(** The sum of the sizes recorded in the headers at [l]. *)
Fixpoint live_bytes (m : gmap Z gc_header_t) (l : list Z) : Z :=
  match l with
  | [] => 0
  | a :: l' =>
    match m !! a with
    | Some hd => size hd
    | None => 0
    end + live_bytes m l'
  end.

(** [packed m l bound]: the blocks of the headers at [l], newest first, lie
    one behind the other: each block, header and payload, ends at or before
    the header of the block allocated next, the newest at or before [bound]. *)
Fixpoint packed (m : gmap Z gc_header_t) (l : list Z) (bound : Z) : Prop :=
  match l with
  | [] => True
  | a :: l' =>
    ∃ hd, m !! a = Some hd ∧ 0 ≤ size hd ∧
          a + sizeof_gc_header + size hd ≤ bound ∧ packed m l' a
  end.

(** The heap's own counter and the two running totals of the statistics
    agree with the live-object list, in [size_t] arithmetic. *)
Record counters_ok (s : gc_state) (h : gc_heap_t) (l : list Z) : Prop := {
  count_is_length : object_count h = wrap (Z.of_nat (length l));
  bytes_are_live  : wrap (total_allocated (gc_stats s) - total_collected (gc_stats s))
                    = wrap (live_bytes (mem s) l)
}.

(** The byte statistics describe the bump cursor. *)
Record cursor_ok (s : gc_state) (h : gc_heap_t) : Prop := {
  used_is_cursor : used_bytes (gc_stats s) = free_ptr h - heap_start h;
  free_is_rest   : free_bytes (gc_stats s) = heap_end h - free_ptr h;
  size_is_arena  : stats_heap_size (gc_stats s) = heap_end h - heap_start h
}.

(** [two_objects_heap] after the root is taken out and a collection has run:
    no object is live, and both objects count as allocated and collected. *)
Definition swept_heap : gc_state :=
  match gc_collect 3 (gc_remove_root (65536 + 24) two_objects_heap) with
  | Ok s => s
  | _ => two_objects_heap
  end.

End GC.

(** ** signals.h / signals.c: reactive signals *)

Module Signals.

(** [sizeof(vela_signal_t)] and [sizeof(vela_computed_t)] on an LP64 target. *)
Definition sizeof_vela_signal : Z := 48.
Definition sizeof_vela_computed : Z := 64.

(** A signal cell.  The last two fields are those that [vela_computed_t] adds
    behind its [base]; the code reads them only when [is_computed] is set.
    [dependents] holds the entries [0 .. dependent_count) of the array. *)
Record vela_signal_t := mk_signal {
  value              : Z;
  dependents         : list Z;
  dependent_capacity : Z;
  is_computed        : bool;
  data               : Z;      (* the union of [raw_value] and [compute_fn] *)
  compute_fn         : Z;
  needs_recompute    : bool
}.

Definition dependent_count (c : vela_signal_t) : Z :=
  Z.of_nat (length (dependents c)).

Record signals_state_t := mk_signals_state {
  all_signals         : list Z;   (* all_signals[0 .. signal_count) *)
  signal_capacity     : Z;
  propagation_running : bool;
  dirty_signals       : list Z    (* dirty_signals[0 .. dirty_count) *)
}.

Definition signal_count (ss : signals_state_t) : Z :=
  Z.of_nat (length (all_signals ss)).
Definition dirty_count (ss : signals_state_t) : Z :=
  Z.of_nat (length (dirty_signals ss)).

(** The collector state, the static [signals_state], and the signal cells. *)
Record state := mk_state {
  gc            : GC.gc_state;
  signals_state : option signals_state_t;
  sigmem        : gmap Z vela_signal_t
}.

Definition set_gc (g : GC.gc_state) (st : state) : state :=
  {| gc := g; signals_state := signals_state st; sigmem := sigmem st |}.

Definition set_signals_state (ss : signals_state_t) (st : state) : state :=
  {| gc := gc st; signals_state := Some ss; sigmem := sigmem st |}.

Definition store (p : Z) (c : vela_signal_t) (st : state) : state :=
  {| gc := gc st; signals_state := signals_state st;
     sigmem := <[p := c]> (sigmem st) |}.

Definition set_value (v : Z) (c : vela_signal_t) : vela_signal_t :=
  {| value := v; dependents := dependents c;
     dependent_capacity := dependent_capacity c; is_computed := is_computed c;
     data := data c; compute_fn := compute_fn c;
     needs_recompute := needs_recompute c |}.

Definition set_data (v : Z) (c : vela_signal_t) : vela_signal_t :=
  {| value := value c; dependents := dependents c;
     dependent_capacity := dependent_capacity c; is_computed := is_computed c;
     data := v; compute_fn := compute_fn c;
     needs_recompute := needs_recompute c |}.

Definition set_needs_recompute (b : bool) (c : vela_signal_t) : vela_signal_t :=
  {| value := value c; dependents := dependents c;
     dependent_capacity := dependent_capacity c; is_computed := is_computed c;
     data := data c; compute_fn := compute_fn c;
     needs_recompute := b |}.

Definition set_dependents (ds : list Z) (cap : Z) (c : vela_signal_t) : vela_signal_t :=
  {| value := value c; dependents := ds;
     dependent_capacity := cap; is_computed := is_computed c;
     data := data c; compute_fn := compute_fn c;
     needs_recompute := needs_recompute c |}.

Definition set_dirty (ds : list Z) (cap : Z) (ss : signals_state_t) : signals_state_t :=
  {| all_signals := all_signals ss; signal_capacity := cap;
     propagation_running := propagation_running ss; dirty_signals := ds |}.

Definition set_propagation_running (b : bool) (ss : signals_state_t) : signals_state_t :=
  {| all_signals := all_signals ss; signal_capacity := signal_capacity ss;
     propagation_running := b; dirty_signals := dirty_signals ss |}.

(** [signals_init]; the three [malloc] answers are its first arguments. *)
Definition signals_init (p_state p_all p_dirty : Z) (st : state) : bool * state :=
  match signals_state st with
  | Some _ => (false, st)
  | None =>
    if p_state =? NULL then (false, st)
    else if p_all =? NULL then (false, st)
    else if p_dirty =? NULL then (false, st)
    else (true,
          set_signals_state
            {| all_signals := []; signal_capacity := 64;
               propagation_running := false; dirty_signals := [] |} st)
  end.

(** [signals_register_signal]; [p_new] is the answer of [realloc] when the
    registry is full. *)
Definition signals_register_signal (p_new : Z) (signal : Z) (st : state)
  : bool * state :=
  match signals_state st with
  | None => (false, st)
  | Some ss =>
    if signal =? NULL then (false, st)
    else
      let grow := signal_capacity ss <=? signal_count ss in
      if grow && (p_new =? NULL) then (false, st)
      else
        let cap := if grow then wrap (signal_capacity ss * 2)
                   else signal_capacity ss in
        (true,
         set_signals_state
           {| all_signals := all_signals ss ++ [signal]; signal_capacity := cap;
              propagation_running := propagation_running ss;
              dirty_signals := dirty_signals ss |} st)
  end.

(** [signal_create]; [p_deps] is the answer of the [malloc] of the dependents
    array, [p_reg] that of the [realloc] inside the registration. *)
Definition signal_create (fuel : nat) (p_deps p_reg : Z) (initial_value : Z)
    (st : state) : res (Z * state) :=
  match signals_state st with
  | None => Ok (NULL, st)
  | Some _ =>
    '(signal, g) ← GC.vela_gc_alloc fuel sizeof_vela_signal (gc st);
    let st := set_gc g st in
    if signal =? NULL then Ok (NULL, st)
    else
      let cell := {| value := initial_value; dependents := [];
                     dependent_capacity := 8; is_computed := false;
                     data := initial_value; compute_fn := NULL;
                     needs_recompute := false |} in
      let st := store signal cell st in
      if p_deps =? NULL then Ok (NULL, st)
      else
        let '(ok, st) := signals_register_signal p_reg signal st in
        if negb ok then Ok (NULL, st) else Ok (signal, st)
  end.

(** [signal_add_dependent]; [p_new] is the answer of [realloc] when the
    dependents array is full. *)
Definition signal_add_dependent (p_new : Z) (signal dependent : Z) (st : state)
  : res (bool * state) :=
  if (signal =? NULL) || (dependent =? NULL) then Ok (false, st)
  else
    cell ← load (sigmem st) signal;
    if existsb (Z.eqb dependent) (dependents cell) then Ok (true, st)
    else
      let grow := dependent_capacity cell <=? dependent_count cell in
      if grow && (p_new =? NULL) then Ok (false, st)
      else
        let cap := if grow then wrap (dependent_capacity cell * 2)
                   else dependent_capacity cell in
        Ok (true,
            store signal (set_dependents (dependents cell ++ [dependent]) cap cell) st).

Definition signal_remove_dependent (signal dependent : Z) (st : state) : res state :=
  if (signal =? NULL) || (dependent =? NULL) then Ok st
  else
    cell ← load (sigmem st) signal;
    Ok (store signal
          (set_dependents (GC.remove_first dependent (dependents cell))
             (dependent_capacity cell) cell) st).

(** The loop over the dependents inside [signal_mark_dirty]; [mark] is the
    recursive call. *)
Fixpoint mark_dependents (mark : Z → state → res state) (ds : list Z)
    (st : state) : res state :=
  match ds with
  | [] => Ok st
  | dependent :: ds' =>
    dcell ← load (sigmem st) dependent;
    let st := if is_computed dcell
              then store dependent (set_needs_recompute true dcell) st
              else st in
    st ← mark dependent st;
    mark_dependents mark ds' st
  end.

(** [signal_mark_dirty]; [p_new] is the answer [realloc] gives during this
    call, should the dirty array be full.  The state holds the entries of the
    dirty array and the capacity the code compares with, which it shares with
    the registry; it does not hold the size of the block, 64 slots from
    [signals_init] on.  The function describes the code as long as the dirty
    entries fit that block. *)
Fixpoint signal_mark_dirty (fuel : nat) (p_new : Z) (signal : Z) (st : state)
  : res state :=
  match fuel with
  | O => OutOfFuel
  | S fuel' =>
    if signal =? NULL then Ok st
    else
      match signals_state st with
      | None => Ok st
      | Some ss =>
        if existsb (Z.eqb signal) (dirty_signals ss) then Ok st
        else
          let grow := signal_capacity ss <=? dirty_count ss in
          if grow && (p_new =? NULL) then Ok st
          else
            let cap := if grow then wrap (signal_capacity ss * 2)
                       else signal_capacity ss in
            let st := set_signals_state
                        (set_dirty (dirty_signals ss ++ [signal]) cap ss) st in
            cell ← load (sigmem st) signal;
            mark_dependents (signal_mark_dirty fuel' p_new) (dependents cell) st
      end
  end.

Definition signal_needs_recompute (signal : Z) (st : state) : res bool :=
  if signal =? NULL then Ok false
  else
    cell ← load (sigmem st) signal;
    Ok (is_computed cell && needs_recompute cell).

Definition signal_dependent_count (signal : Z) (st : state) : res Z :=
  if signal =? NULL then Ok 0
  else cell ← load (sigmem st) signal; Ok (dependent_count cell).

Section WithCode.

(** The meaning of a call through a [vela_compute_fn] pointer: code of the
    compiled program, which may call back into the runtime. *)
Variable call : Z → state → res (Z * state).

Definition computed_recompute (computed : Z) (st : state) : res state :=
  if computed =? NULL then Ok st
  else
    cell ← load (sigmem st) computed;
    if compute_fn cell =? NULL then Ok st
    else
      '(v, st) ← call (compute_fn cell) st;
      cell ← load (sigmem st) computed;
      Ok (store computed (set_needs_recompute false (set_value v cell)) st).

(** The loop of [signals_propagate_changes]: [dirty_count] is read again at
    every iteration. *)
Fixpoint propagate_loop (fuel : nat) (i : nat) (st : state) : res state :=
  match fuel with
  | O => OutOfFuel
  | S fuel' =>
    match signals_state st with
    | None => Fault
    | Some ss =>
      match dirty_signals ss !! i with
      | None => Ok st
      | Some signal =>
        st ← (if signal =? NULL then Ok st
              else
                cell ← load (sigmem st) signal;
                if is_computed cell && needs_recompute cell
                then computed_recompute signal st
                else Ok st);
        propagate_loop fuel' (S i) st
      end
    end
  end.

Definition signals_propagate_changes (fuel : nat) (st : state) : res state :=
  match signals_state st with
  | None => Ok st
  | Some ss =>
    if propagation_running ss then Ok st
    else
      st ← propagate_loop fuel 0
             (set_signals_state (set_propagation_running true ss) st);
      match signals_state st with
      | None => Fault
      | Some ss =>
        Ok (set_signals_state
              (set_propagation_running false
                 (set_dirty [] (signal_capacity ss) ss)) st)
      end
  end.

Definition signal_set_value (fuel : nat) (p_new : Z) (signal v : Z) (st : state)
  : res state :=
  if signal =? NULL then Ok st
  else
    cell ← load (sigmem st) signal;
    if is_computed cell then Ok st
    else
      let st := store signal (set_data v (set_value v cell)) st in
      st ← signal_mark_dirty fuel p_new signal st;
      signals_propagate_changes fuel st.

Definition signal_get_value (signal : Z) (st : state) : res (Z * state) :=
  if signal =? NULL then Ok (NULL, st)
  else
    cell ← load (sigmem st) signal;
    st ← (if is_computed cell && needs_recompute cell
          then computed_recompute signal st
          else Ok st);
    cell ← load (sigmem st) signal;
    Ok (value cell, st).

(** [computed_create]; [p_deps] and [p_reg] as in [signal_create]. *)
Definition computed_create (fuel : nat) (p_deps p_reg : Z) (fn : Z) (st : state)
  : res (Z * state) :=
  match signals_state st with
  | None => Ok (NULL, st)
  | Some _ =>
    if fn =? NULL then Ok (NULL, st)
    else
      '(computed, g) ← GC.vela_gc_alloc fuel sizeof_vela_computed (gc st);
      let st := set_gc g st in
      if computed =? NULL then Ok (NULL, st)
      else
        let cell := {| value := NULL; dependents := [];
                       dependent_capacity := 8; is_computed := true;
                       data := NULL; compute_fn := fn;
                       needs_recompute := true |} in
        let st := store computed cell st in
        if p_deps =? NULL then Ok (NULL, st)
        else
          let '(ok, st) := signals_register_signal p_reg computed st in
          if negb ok then Ok (NULL, st)
          else
            st ← computed_recompute computed st;
            Ok (computed, st)
  end.

(** Public wrappers. *)
Definition vela_signal_set := signal_set_value.
Definition vela_signal_get := signal_get_value.
Definition vela_computed_create := computed_create.
Definition vela_computed_get := signal_get_value.

End WithCode.

Definition vela_signal_create := signal_create.

(** *** Notions used to state the properties below *)

(** The cell that [signal_create] writes. *)
Definition fresh_signal (v : Z) : vela_signal_t :=
  {| value := v; dependents := []; dependent_capacity := 8;
     is_computed := false; data := v; compute_fn := NULL;
     needs_recompute := false |}.

(** The cell that [computed_create] writes before the first computation. *)
Definition fresh_computed (fn : Z) : vela_signal_t :=
  {| value := NULL; dependents := []; dependent_capacity := 8;
     is_computed := true; data := NULL; compute_fn := fn;
     needs_recompute := true |}.

(** What the caller of a [void] function can observe of an error: the call
    does not return normally, or it returns in a state that differs from the
    one before (an error flag, a log entry, a changed field). *)
Definition reports_error (st : state) (r : res state) : Prop := r ≠ Ok st.

(** The runtime after [vela_gc_init] and [vela_signals_init]. *)
Definition booted : state :=
  snd (signals_init 4096 4608 5120
         {| gc := GC.default_heap; signals_state := None; sigmem := ∅ |}).

(** A compute function that returns twice the value of the plain signal at
    65560, whatever pointer it is called through. *)
Definition double_of_65560 (fn : Z) (st : state) : res (Z * state) :=
  cell ← load (sigmem st) 65560;
  if is_computed cell then Fault else Ok (2 * value cell, st).

(** The states of the example: [s] created with value 1, [c] created with
    the doubling function, [c] registered as a dependent of [s]. *)
Definition state_of {A : Type} (r : res (A * state)) : state :=
  match r with
  | Ok (_, st) => st
  | _ => booted
  end.

Definition with_s : state := state_of (signal_create 1 4096 4096 1 booted).
Definition with_s_c : state :=
  state_of (computed_create double_of_65560 1 4096 4096 4198400 with_s).
Definition with_s_c_linked : state :=
  state_of (signal_add_dependent 4096 65560 65632 with_s_c).

(** *** Destruction and shutdown *)

Definition signals_unregister_signal (signal : Z) (st : state) : state :=
  match signals_state st with
  | None => st
  | Some ss =>
    if signal =? NULL then st
    else set_signals_state
           {| all_signals := GC.remove_first signal (all_signals ss);
              signal_capacity := signal_capacity ss;
              propagation_running := propagation_running ss;
              dirty_signals := dirty_signals ss |} st
  end.

(** [signal_destroy]: the signal leaves the registry and its dependents array
    is handed to [free].  The signal struct is collector memory and stays.
    The array is allocated from the creation of the signal to its
    destruction, and for just that time the signal is in the registry:
    [signal_create] enters it, [signals_unregister_signal] takes it out.  So
    the release is defined when the signal is found in the registry.  The
    destruction of a signal that is not there releases an array that was
    released before; it is outside the model, as is a destruction when there
    is no registry to look at. *)
Definition signal_destroy (signal : Z) (st : state) : res state :=
  if signal =? NULL then Ok st
  else
    match signals_state st with
    | None => Fault
    | Some ss =>
      if existsb (Z.eqb signal) (all_signals ss) then
        let st := signals_unregister_signal signal st in
        _ ← load (sigmem st) signal;
        Ok st
      else Fault
    end.

Definition computed_destroy (computed : Z) (st : state) : res state :=
  signal_destroy computed st.

(** The loop of [signals_shutdown]: [signal_count] is read again at every
    iteration, after [signal_destroy] has shortened the registry.  The result
    lists the signals that were handed to [signal_destroy], in order. *)
Fixpoint signals_shutdown_loop (fuel : nat) (i : nat) (st : state)
  : res (list Z * state) :=
  match fuel with
  | O => OutOfFuel
  | S fuel' =>
    match signals_state st with
    | None => Fault
    | Some ss =>
      match all_signals ss !! i with
      | None => Ok ([], st)
      | Some signal =>
        if signal =? NULL then signals_shutdown_loop fuel' (S i) st
        else
          st ← signal_destroy signal st;
          '(destroyed, st) ← signals_shutdown_loop fuel' (S i) st;
          Ok (signal :: destroyed, st)
      end
    end
  end.

Definition signals_shutdown (fuel : nat) (st : state) : res (list Z * state) :=
  match signals_state st with
  | None => Ok ([], st)
  | Some _ =>
    '(destroyed, st) ← signals_shutdown_loop fuel 0 st;
    Ok (destroyed, {| gc := gc st; signals_state := None; sigmem := sigmem st |})
  end.

(** Public wrappers. *)
Definition vela_signals_init (p_state p_all p_dirty : Z) (st : state) : state :=
  snd (signals_init p_state p_all p_dirty st).
Definition vela_signals_shutdown := signals_shutdown.
Definition vela_signal_destroy := signal_destroy.
Definition vela_computed_destroy := computed_destroy.

(** *** Notions used to state the properties of the dependency graph *)

(** No signal lives at the null address, and every entry of a dependents
    array is a signal. *)
Record graph_ok (m : gmap Z vela_signal_t) : Prop := {
  graph_null   : m !! NULL = None;
  graph_closed : ∀ x c d, m !! x = Some c → d ∈ dependents c → is_Some (m !! d)
}.

(** [depends_on m x y]: [y] is reached from [x] along one or more dependents
    entries. *)
Inductive depends_on (m : gmap Z vela_signal_t) : Z → Z → Prop :=
| depends_direct x c d :
    m !! x = Some c → d ∈ dependents c → depends_on m x d
| depends_trans x c d y :
    m !! x = Some c → d ∈ dependents c → depends_on m d y → depends_on m x y.

(** A computed signal at [x] that is flagged for recomputation. *)
Definition flagged (m : gmap Z vela_signal_t) (x : Z) : Prop :=
  ∃ c, m !! x = Some c ∧ (is_computed c = true → needs_recompute c = true).

(** A computed signal at [x] that is up to date. *)
Definition clean (m : gmap Z vela_signal_t) (x : Z) : Prop :=
  ∃ c, m !! x = Some c ∧ (is_computed c = true → needs_recompute c = false).

(** The cell [c'] is [c], or [c] with the recomputation flag raised. *)
Definition raised (c c' : vela_signal_t) : Prop :=
  c' = c ∨ (is_computed c = true ∧ c' = set_needs_recompute true c).

(** Compute functions that return and write nothing of the signal graph. *)
Definition pure_compute (call : Z → state → res (Z * state)) : Prop :=
  ∀ fn st, ∃ v, call fn st = Ok (v, st).

(** The signals the dirty list does not hold yet. *)
Definition unmarked (m : gmap Z vela_signal_t) (dirty : list Z) : gset Z :=
  dom m ∖ list_to_set dirty.

(** The cells of [m'] are those of [m], some with the flag raised. *)
Definition raised_from (m m' : gmap Z vela_signal_t) : Prop :=
  ∀ x, match m !! x with
       | Some c => ∃ c', m' !! x = Some c' ∧ raised c c'
       | None => m' !! x = None
       end.

(** What marking does between two states when the dirty array has room: it
    appends [new] to the dirty list and raises flags, and it touches nothing
    else. *)
Record marks (st : state) (ss : signals_state_t)
    (st' : state) (ss' : signals_state_t) (new : list Z) : Prop := {
  marks_gc      : gc st' = gc st;
  marks_state   : signals_state st' = Some ss';
  marks_all     : all_signals ss' = all_signals ss;
  marks_running : propagation_running ss' = propagation_running ss;
  marks_capacity : signal_capacity ss' = signal_capacity ss;
  marks_dirty   : dirty_signals ss' = dirty_signals ss ++ new;
  marks_nodup   : NoDup (dirty_signals ss');
  marks_cells   : raised_from (sigmem st) (sigmem st')
}.

(** The signals of [new] have all their dependents on the dirty list of
    [ss'], flagged where they are computed. *)
Definition closed_under_dependents (m0 : gmap Z vela_signal_t)
    (st' : state) (ss' : signals_state_t) (new : list Z) : Prop :=
  ∀ x c0 d, x ∈ new → m0 !! x = Some c0 → d ∈ dependents c0 →
            d ∈ dirty_signals ss' ∧ flagged (sigmem st') d.

(** The cell [c'] is [c], or the computed cell [c] after a recomputation:
    a new value and the flag cleared. *)
Definition recomputed (c c' : vela_signal_t) : Prop :=
  c' = c ∨ (is_computed c = true ∧ compute_fn c ≠ NULL ∧
            ∃ v, c' = set_needs_recompute false (set_value v c)).

(** What a propagation over the dirty entries [l] does to the cells: the
    cells of [l] are recomputed where they were flagged, computed cells of [l]
    with a compute function end unflagged, and the other cells stay. *)
Definition settles (l : list Z) (m m' : gmap Z vela_signal_t) : Prop :=
  ∀ x, match m !! x with
       | Some c => ∃ c', m' !! x = Some c' ∧ recomputed c c' ∧
                         (x ∉ l → c' = c) ∧
                         (x ∈ l → is_computed c = true → compute_fn c ≠ NULL →
                          needs_recompute c' = false)
       | None => m' !! x = None
       end.

(** *** Example graphs *)

(** A plain signal at 100 whose dependents are the computed signals at 200 and
    300; these two depend on each other, and 300 also feeds the computed
    signal at 500.  The plain signal at 400 stands apart. *)
Definition plain_cell (v : Z) (ds : list Z) : vela_signal_t :=
  {| value := v; dependents := ds; dependent_capacity := 8;
     is_computed := false; data := v; compute_fn := NULL;
     needs_recompute := false |}.

Definition computed_cell (v : Z) (ds : list Z) (fn : Z) : vela_signal_t :=
  {| value := v; dependents := ds; dependent_capacity := 8;
     is_computed := true; data := NULL; compute_fn := fn;
     needs_recompute := false |}.

Definition cyclic_cells : gmap Z vela_signal_t :=
  <[100 := plain_cell 1 [200; 300]]>
    (<[200 := computed_cell 2 [300] 4198400]>
       (<[300 := computed_cell 3 [200; 500] 4198464]>
          (<[400 := plain_cell 4 []]>
             (<[500 := computed_cell 5 [] 4198528]> ∅)))).

Definition cyclic_graph : state :=
  {| gc := GC.default_heap;
     signals_state := Some {| all_signals := [100; 200; 300; 400; 500];
                              signal_capacity := 64;
                              propagation_running := false;
                              dirty_signals := [] |};
     sigmem := cyclic_cells |}.

(** A compute function, the same behind every function pointer, that returns
    twice the [value] field of the signal at 100, or 0 when there is none. *)
Definition twice_value_of_100 (fn : Z) (st : state) : res (Z * state) :=
  Ok (match sigmem st !! 100 with
      | Some c => wrap (2 * value c)
      | None => 0
      end, st).

End Signals.

(** ** actors.h / actors.c: actors, mailboxes, scheduling *)

Module Actors.

(** A thread of the process.  The model runs one call at a time; a call that
    reaches [pthread_cond_wait] parks its thread in the wait set of the
    condition variable and yields [Suspended]. *)
Definition tid := nat.

Inductive outcome (A : Type) : Type :=
| Returned (a : A)
| Suspended.
Arguments Returned {A} a.
Arguments Suspended {A}.

(** A mailbox.  [messages] is the ring buffer of message pointers, of length
    [capacity]; [not_empty] and [not_full] are the wait sets of the two
    condition variables.  The mutex is held for the whole of each modelled
    step, so it has no field. *)
Record message_queue_t := mk_queue {
  messages  : list Z;
  count     : Z;
  capacity  : Z;
  head      : Z;
  tail      : Z;
  not_empty : list tid;
  not_full  : list tid
}.

Record vela_actor_t := mk_actor {
  id       : Z;
  behavior : Z;
  state    : Z;
  mailbox  : Z;
  running  : bool;
  stopped  : bool
}.

Record vela_actor_system_t := mk_system {
  actors         : list Z;   (* actors[0 .. actor_count) *)
  actor_capacity : Z;
  next_actor_id  : Z;
  system_running : bool;     (* the field [running] of the system *)
  worker_count   : Z
}.

Definition actor_count (sys : vela_actor_system_t) : Z :=
  Z.of_nat (length (actors sys)).

(** The static [actor_system], the actor and mailbox structs, and the calls
    of behaviors made so far, as pairs of actor and message. *)
Record world := mk_world {
  actor_system : option vela_actor_system_t;
  actormem     : gmap Z vela_actor_t;
  queuemem     : gmap Z message_queue_t;
  calls        : list (Z * Z)
}.

Definition max_actors : Z := 1024.
Definition max_mailbox_size : Z := 256.
Definition worker_threads : Z := 4.

Definition set_system (sys : vela_actor_system_t) (w : world) : world :=
  {| actor_system := Some sys; actormem := actormem w;
     queuemem := queuemem w; calls := calls w |}.

Definition set_system_running (b : bool) (sys : vela_actor_system_t)
  : vela_actor_system_t :=
  {| actors := actors sys; actor_capacity := actor_capacity sys;
     next_actor_id := next_actor_id sys; system_running := b;
     worker_count := worker_count sys |}.

Definition store_queue (p : Z) (q : message_queue_t) (w : world) : world :=
  {| actor_system := actor_system w; actormem := actormem w;
     queuemem := <[p := q]> (queuemem w); calls := calls w |}.

Definition store_actor (p : Z) (a : vela_actor_t) (w : world) : world :=
  {| actor_system := actor_system w; actormem := <[p := a]> (actormem w);
     queuemem := queuemem w; calls := calls w |}.

Definition log_call (actor message : Z) (before : list (Z * Z)) (w : world) : world :=
  {| actor_system := actor_system w; actormem := actormem w;
     queuemem := queuemem w; calls := before ++ [(actor, message)] |}.

(** [actors_init(NULL)]: the default configuration; the three [malloc]
    answers are the arguments. *)
Definition actors_init (p_system p_actors p_workers : Z) (w : world) : bool * world :=
  match actor_system w with
  | Some _ => (false, w)
  | None =>
    if p_system =? NULL then (false, w)
    else if p_actors =? NULL then (false, w)
    else if p_workers =? NULL then (false, w)
    else (true,
          set_system {| actors := []; actor_capacity := max_actors;
                        next_actor_id := 1; system_running := false;
                        worker_count := worker_threads |} w)
  end.

(** [actors_start]; [threads_ok] tells whether every [pthread_create]
    succeeded. *)
Definition actors_start (threads_ok : bool) (w : world) : bool * world :=
  match actor_system w with
  | None => (false, w)
  | Some sys =>
    if system_running sys then (false, w)
    else if threads_ok then (true, set_system (set_system_running true sys) w)
    else (false, set_system (set_system_running false sys) w)
  end.

(** [actors_stop]: the flag is cleared, then the scheduler and the workers
    are joined.  The joins wait for those threads and write nothing; no
    condition variable is signalled. *)
Definition actors_stop (w : world) : world :=
  match actor_system w with
  | None => w
  | Some sys =>
    if negb (system_running sys) then w
    else set_system (set_system_running false sys) w
  end.

Definition message_queue_empty (q : message_queue_t) : bool := count q =? 0.
Definition message_queue_full (q : message_queue_t) : bool := capacity q <=? count q.

(** [pthread_cond_signal]: one parked thread, if any, leaves the wait set. *)
Definition cond_signal (waiters : list tid) : list tid := List.tl waiters.

(** [pthread_cond_wait]: the calling thread joins the wait set. *)
Definition cond_wait (self : tid) (waiters : list tid) : list tid :=
  if bool_decide (self ∈ waiters) then waiters else waiters ++ [self].

(** [message_queue_create]; [p_queue] and [p_messages] are the [malloc]
    answers.  The slots of the fresh array are not initialised by the code;
    they are [NULL] here. *)
Definition message_queue_create (p_queue p_messages : Z) (cap : Z) (w : world)
  : Z * world :=
  if p_queue =? NULL then (NULL, w)
  else if p_messages =? NULL then (NULL, w)
  else (p_queue,
        store_queue p_queue
          {| messages := replicate (Z.to_nat cap) NULL; count := 0;
             capacity := cap; head := 0; tail := 0;
             not_empty := []; not_full := [] |} w).

(** [message_queue_put], from its entry or from a wake-up inside the loop:
    both start at the loop test. *)
Definition message_queue_put (self : tid) (queue message : Z) (w : world)
  : res (outcome bool * world) :=
  if (queue =? NULL) || (message =? NULL) then Ok (Returned false, w)
  else
    q ← load (queuemem w) queue;
    match actor_system w with
    | None => Fault
    | Some sys =>
      if message_queue_full q && system_running sys then
        Ok (Suspended,
            store_queue queue
              {| messages := messages q; count := count q;
                 capacity := capacity q; head := head q; tail := tail q;
                 not_empty := not_empty q;
                 not_full := cond_wait self (not_full q) |} w)
      else if negb (system_running sys) then Ok (Returned false, w)
      else if bool_decide (0 ≤ tail q < Z.of_nat (length (messages q))) then
        Ok (Returned true,
            store_queue queue
              {| messages := <[Z.to_nat (tail q) := message]> (messages q);
                 count := wrap (count q + 1);
                 capacity := capacity q; head := head q;
                 tail := wrap (tail q + 1) mod capacity q;
                 not_empty := cond_signal (not_empty q);
                 not_full := not_full q |} w)
      else Fault
    end.

(** [message_queue_get]; the message written through the out-pointer is the
    [Some] of the result, a [false] return is [None]. *)
Definition message_queue_get (self : tid) (queue : Z) (w : world)
  : res (outcome (option Z) * world) :=
  if queue =? NULL then Ok (Returned None, w)
  else
    q ← load (queuemem w) queue;
    match actor_system w with
    | None => Fault
    | Some sys =>
      if message_queue_empty q && system_running sys then
        Ok (Suspended,
            store_queue queue
              {| messages := messages q; count := count q;
                 capacity := capacity q; head := head q; tail := tail q;
                 not_empty := cond_wait self (not_empty q);
                 not_full := not_full q |} w)
      else if negb (system_running sys) || message_queue_empty q
      then Ok (Returned None, w)
      else
        match messages q !! Z.to_nat (head q) with
        | None => Fault
        | Some message =>
          Ok (Returned (Some message),
              store_queue queue
                {| messages := messages q;
                   count := wrap (count q - 1);
                   capacity := capacity q;
                   head := wrap (head q + 1) mod capacity q;
                   tail := tail q;
                   not_empty := not_empty q;
                   not_full := cond_signal (not_full q) |} w)
        end
    end.

(** [actor_create]; [p_actor], [p_queue] and [p_messages] are the [malloc]
    answers. *)
Definition actor_create (p_actor p_queue p_messages : Z)
    (behavior0 initial_state : Z) (w : world) : Z * world :=
  match actor_system w with
  | None => (NULL, w)
  | Some sys =>
    if behavior0 =? NULL then (NULL, w)
    else if actor_capacity sys <=? actor_count sys then (NULL, w)
    else if p_actor =? NULL then (NULL, w)
    else
      let w := set_system
                 {| actors := actors sys; actor_capacity := actor_capacity sys;
                    next_actor_id := (next_actor_id sys + 1) mod 2 ^ 32;
                    system_running := system_running sys;
                    worker_count := worker_count sys |} w in
      let '(mb, w) := message_queue_create p_queue p_messages max_mailbox_size w in
      if mb =? NULL then (NULL, w)
      else
        let a := {| id := next_actor_id sys; behavior := behavior0;
                    state := initial_state; mailbox := mb;
                    running := true; stopped := false |} in
        let w := store_actor p_actor a w in
        match actor_system w with
        | None => (NULL, w)
        | Some sys =>
          (p_actor,
           set_system
             {| actors := actors sys ++ [p_actor];
                actor_capacity := actor_capacity sys;
                next_actor_id := next_actor_id sys;
                system_running := system_running sys;
                worker_count := worker_count sys |} w)
        end
  end.

Definition actor_send (self : tid) (actor message : Z) (w : world)
  : res (outcome bool * world) :=
  if (actor =? NULL) || (message =? NULL) then Ok (Returned false, w)
  else
    a ← load (actormem w) actor;
    if mailbox a =? NULL then Ok (Returned false, w)
    else message_queue_put self (mailbox a) message w.

Section WithBehaviors.

(** The meaning of a call [behavior(actor, message)] through a
    [vela_actor_fn] pointer: code of the compiled program. *)
Variable invoke : Z → Z → Z → world → res world.

(** [actor_schedule], run by the thread [self]. *)
Definition actor_schedule (self : tid) (actor : Z) (w : world)
  : res (outcome bool * world) :=
  if actor =? NULL then Ok (Returned false, w)
  else
    a ← load (actormem w) actor;
    if negb (running a) then Ok (Returned false, w)
    else
      '(got, w) ← message_queue_get self (mailbox a) w;
      match got with
      | Suspended => Ok (Suspended, w)
      | Returned None => Ok (Returned false, w)
      | Returned (Some message) =>
        w ← (if behavior a =? NULL then Ok w
             else
               w' ← invoke (behavior a) actor message w;
               Ok (log_call actor message (calls w) w'));
        Ok (Returned true, w)
      end.

(** [n] calls of [actor_schedule] on the same actor, one after the other. *)
Fixpoint schedule_times (n : nat) (self : tid) (actor : Z) (w : world)
  : res (list (outcome bool) * world) :=
  match n with
  | O => Ok ([], w)
  | S n' =>
    '(r, w) ← actor_schedule self actor w;
    '(rs, w) ← schedule_times n' self actor w;
    Ok (r :: rs, w)
  end.

End WithBehaviors.

(** The sends of a list of messages to one actor, one after the other. *)
Fixpoint send_all (self : tid) (actor : Z) (ms : list Z) (w : world)
  : res (list (outcome bool) * world) :=
  match ms with
  | [] => Ok ([], w)
  | m :: ms' =>
    '(r, w) ← actor_send self actor m w;
    '(rs, w) ← send_all self actor ms' w;
    Ok (r :: rs, w)
  end.

(** *** Notions used to state the properties below *)

(** [ring q l]: the mailbox holds the messages [l], oldest first, in the
    slots from [head] on, and [tail] is the slot behind them. *)
Record ring (q : message_queue_t) (l : list Z) : Prop := {
  ring_capacity : 0 < capacity q < 2 ^ 64;
  ring_length   : Z.of_nat (length (messages q)) = capacity q;
  ring_count    : count q = Z.of_nat (length l);
  ring_fits     : count q ≤ capacity q;
  ring_head     : 0 ≤ head q < capacity q;
  ring_tail     : tail q = (head q + count q) mod capacity q;
  ring_slots    : ∀ (i : nat) m, l !! i = Some m →
                    messages q !! Z.to_nat ((head q + Z.of_nat i) mod capacity q)
                    = Some m
}.

(** The behavior of an actor returns and leaves alone the system flags, the
    actor struct and the actor's own mailbox. *)
Definition behavior_frames (invoke : Z → Z → Z → world → res world)
    (actor : Z) (a : vela_actor_t) : Prop :=
  ∀ m w, ∃ w',
    invoke (behavior a) actor m w = Ok w' ∧
    actor_system w' = actor_system w ∧
    actormem w' !! actor = actormem w !! actor ∧
    queuemem w' !! mailbox a = queuemem w !! mailbox a.

(** *** Example worlds *)

(** A behavior that does nothing. *)
Definition idle_behavior (fn actor message : Z) (w : world) : res world := Ok w.

(** After [vela_actors_init], [vela_actors_run] and one [actor_create]: the
    actor struct at 12288, its mailbox at 16384. *)
Definition one_actor : world :=
  let w := {| actor_system := None; actormem := ∅; queuemem := ∅; calls := [] |} in
  let w := snd (actors_init 4096 4608 5120 w) in
  let w := snd (actors_start true w) in
  snd (actor_create 12288 16384 20480 4198400 0 w).

(** The same world with the mailbox filled to its capacity of 256 by the
    messages 1000, 1001, ..., 1255. *)
Definition full_mailbox : world :=
  match send_all 1%nat 12288 (map (λ i, 1000 + Z.of_nat i) (seq 0 256)) one_actor with
  | Ok (_, w) => w
  | _ => one_actor
  end.

(** *** Queries *)

Definition message_queue_size (queue : Z) (w : world) : res Z :=
  if queue =? NULL then Ok 0
  else q ← load (queuemem w) queue; Ok (count q).

Definition actor_get_state (actor : Z) (w : world) : res Z :=
  if actor =? NULL then Ok NULL
  else a ← load (actormem w) actor; Ok (state a).

Definition actor_set_state (actor new_state : Z) (w : world) : res world :=
  if actor =? NULL then Ok w
  else
    a ← load (actormem w) actor;
    Ok (store_actor actor
          {| id := id a; behavior := behavior a; state := new_state;
             mailbox := mailbox a; running := running a; stopped := stopped a |} w).

Definition actors_count (w : world) : Z :=
  match actor_system w with
  | None => 0
  | Some sys => actor_count sys
  end.

Definition actor_is_running (actor : Z) (w : world) : res bool :=
  if actor =? NULL then Ok false
  else a ← load (actormem w) actor; Ok (running a && negb (stopped a)).

(** The loop of [actor_find_by_id] over the entries of the actor array. *)
Fixpoint find_by_id_loop (am : gmap Z vela_actor_t) (id0 : Z) (entries : list Z)
  : res Z :=
  match entries with
  | [] => Ok NULL
  | p :: entries' =>
    if p =? NULL then find_by_id_loop am id0 entries'
    else
      a ← load am p;
      if id a =? id0 then Ok p else find_by_id_loop am id0 entries'
  end.

Definition actor_find_by_id (id0 : Z) (w : world) : res Z :=
  match actor_system w with
  | None => Ok NULL
  | Some sys => find_by_id_loop (actormem w) id0 (actors sys)
  end.

(** *** Destruction

    A struct that is handed to [free] is no longer a cell of its map. *)

Definition free_queue (p : Z) (w : world) : world :=
  {| actor_system := actor_system w; actormem := actormem w;
     queuemem := delete p (queuemem w); calls := calls w |}.

Definition free_actor (p : Z) (w : world) : world :=
  {| actor_system := actor_system w; actormem := delete p (actormem w);
     queuemem := queuemem w; calls := calls w |}.

(** The loop of [message_queue_destroy]; the result lists the messages that
    were handed to [free], in order. *)
Fixpoint message_queue_drain (fuel : nat) (self : tid) (queue : Z) (w : world)
  : res (outcome (list Z) * world) :=
  match fuel with
  | O => OutOfFuel
  | S fuel' =>
    q ← load (queuemem w) queue;
    if message_queue_empty q then Ok (Returned [], w)
    else
      '(got, w) ← message_queue_get self queue w;
      match got with
      | Suspended => Ok (Suspended, w)
      | Returned None => message_queue_drain fuel' self queue w
      | Returned (Some message) =>
        '(r, w) ← message_queue_drain fuel' self queue w;
        match r with
        | Suspended => Ok (Suspended, w)
        | Returned freed => Ok (Returned (message :: freed), w)
        end
      end
  end.

Definition message_queue_destroy (fuel : nat) (self : tid) (queue : Z) (w : world)
  : res (outcome (list Z) * world) :=
  if queue =? NULL then Ok (Returned [], w)
  else
    '(r, w) ← message_queue_drain fuel self queue w;
    match r with
    | Suspended => Ok (Suspended, w)
    | Returned freed => Ok (Returned freed, free_queue queue w)
    end.

Definition set_actors (entries : list Z) (sys : vela_actor_system_t)
  : vela_actor_system_t :=
  {| actors := entries; actor_capacity := actor_capacity sys;
     next_actor_id := next_actor_id sys; system_running := system_running sys;
     worker_count := worker_count sys |}.

Definition actor_destroy (fuel : nat) (self : tid) (actor : Z) (w : world)
  : res (outcome (list Z) * world) :=
  if actor =? NULL then Ok (Returned [], w)
  else
    a ← load (actormem w) actor;
    let w := store_actor actor
               {| id := id a; behavior := behavior a; state := state a;
                  mailbox := mailbox a; running := false; stopped := true |} w in
    '(r, w) ← (if mailbox a =? NULL then Ok (Returned [], w)
               else message_queue_destroy fuel self (mailbox a) w);
    match r with
    | Suspended => Ok (Suspended, w)
    | Returned freed =>
      match actor_system w with
      | None => Fault
      | Some sys =>
        Ok (Returned freed,
            free_actor actor
              (set_system (set_actors (GC.remove_first actor (actors sys)) sys) w))
      end
    end.

(** The loop of [actors_shutdown]: [actor_count] is read again at every
    iteration, after [actor_destroy] has shortened the array. *)
Fixpoint actors_shutdown_loop (fuel : nat) (self : tid) (i : nat) (w : world)
  : res (outcome unit * world) :=
  match fuel with
  | O => OutOfFuel
  | S fuel' =>
    match actor_system w with
    | None => Fault
    | Some sys =>
      match actors sys !! i with
      | None => Ok (Returned (), w)
      | Some actor =>
        '(r, w) ← (if actor =? NULL then Ok (Returned [], w)
                   else actor_destroy fuel' self actor w);
        match r with
        | Suspended => Ok (Suspended, w)
        | Returned _ => actors_shutdown_loop fuel' self (S i) w
        end
      end
    end
  end.

Definition actors_shutdown (fuel : nat) (self : tid) (w : world)
  : res (outcome unit * world) :=
  match actor_system w with
  | None => Ok (Returned (), w)
  | Some _ =>
    '(r, w) ← actors_shutdown_loop fuel self 0 (actors_stop w);
    match r with
    | Suspended => Ok (Suspended, w)
    | Returned _ =>
      Ok (Returned (),
          {| actor_system := None; actormem := actormem w;
             queuemem := queuemem w; calls := calls w |})
    end
  end.

Section WithBehaviors_scheduler.

Variable invoke : Z → Z → Z → world → res world.

(** One pass of the [for] loop of [actor_scheduler], from index [i] on:
    [actor_count] and [running] are read again at every iteration. *)
Fixpoint scheduler_pass (fuel : nat) (self : tid) (i : nat) (w : world)
  : res (outcome unit * world) :=
  match fuel with
  | O => OutOfFuel
  | S fuel' =>
    match actor_system w with
    | None => Fault
    | Some sys =>
      match actors sys !! i with
      | None => Ok (Returned (), w)
      | Some actor =>
        if negb (system_running sys) then Ok (Returned (), w)
        else
          '(r, w) ←
            (if actor =? NULL then Ok (Returned false, w)
             else
               a ← load (actormem w) actor;
               if negb (running a) then Ok (Returned false, w)
               else
                 empty ← (if mailbox a =? NULL then Ok true
                          else q ← load (queuemem w) (mailbox a);
                               Ok (message_queue_empty q));
                 if empty : bool then Ok (Returned false, w)
                 else actor_schedule invoke self actor w);
          match r with
          | Suspended => Ok (Suspended, w)
          | Returned _ => scheduler_pass fuel' self (S i) w
          end
      end
    end
  end.

End WithBehaviors_scheduler.

(** Public wrappers. *)
Definition vela_actor_create := actor_create.
Definition vela_actor_destroy := actor_destroy.
Definition vela_actor_send := actor_send.
Definition vela_actor_get_state := actor_get_state.
Definition vela_actors_shutdown := actors_shutdown.

(** *** Notions used to state the properties of the registry *)

(** The actor array holds distinct non-null actors whose ids are distinct
    and below the next id to be given. *)
Record registry_ok (w : world) (sys : vela_actor_system_t) : Prop := {
  reg_system   : actor_system w = Some sys;
  reg_nodup    : NoDup (actors sys);
  reg_nonnull  : ∀ p, p ∈ actors sys → p ≠ NULL;
  reg_ids      : ∀ p, p ∈ actors sys →
                   ∃ a, actormem w !! p = Some a ∧ 1 ≤ id a < next_actor_id sys;
  reg_distinct : ∀ p p' a a', p ∈ actors sys → p' ∈ actors sys →
                   actormem w !! p = Some a → actormem w !! p' = Some a' →
                   id a = id a' → p = p';
  reg_next     : 1 ≤ next_actor_id sys
}.

(** An actor with an allocated, empty mailbox. *)
Definition idle_actor (w : world) (A : Z) : Prop :=
  A ≠ NULL ∧ ∃ a q, actormem w !! A = Some a ∧ mailbox a ≠ NULL ∧
                    queuemem w !! mailbox a = Some q ∧ count q = 0.

(** No two actors of [l] share a mailbox. *)
Definition own_mailboxes (w : world) (l : list Z) : Prop :=
  ∀ A B a b, A ∈ l → B ∈ l → actormem w !! A = Some a → actormem w !! B = Some b →
             mailbox a = mailbox b → A = B.

(** The behaviors return and write none of the structs of the actor system:
    they neither send nor create nor destroy. *)
Definition behaviors_keep_system (invoke : Z → Z → Z → world → res world) : Prop :=
  ∀ fn actor m w, ∃ w',
    invoke fn actor m w = Ok w' ∧ actor_system w' = actor_system w ∧
    actormem w' = actormem w ∧ queuemem w' = queuemem w.

(** A running actor with a behavior, whose mailbox holds the messages [l]. *)
Definition ready_actor (w : world) (A : Z) (l : list Z) : Prop :=
  A ≠ NULL ∧ ∃ a q, actormem w !! A = Some a ∧ running a = true ∧
                    behavior a ≠ NULL ∧ mailbox a ≠ NULL ∧
                    queuemem w !! mailbox a = Some q ∧ ring q l.

(** The call a scheduler pass makes for an actor whose mailbox holds [l]. *)
Definition turn (A : Z) (l : list Z) : list (Z * Z) :=
  match l with
  | [] => []
  | m :: _ => [(A, m)]
  end.

(** *** More example worlds *)

(** [one_actor] with two more actors: the structs at 12352 and 12416, their
    mailboxes at 24576 and 32768. *)
Definition three_actors : world :=
  let w := snd (actor_create 12352 24576 28672 4198400 0 one_actor) in
  snd (actor_create 12416 32768 36864 4198400 0 w).

(** The same world after the messages 1000, 1001 and 1002 were sent to the
    first actor. *)
Definition three_actors_busy : world :=
  match send_all 1%nat 12288 [1000; 1001; 1002] three_actors with
  | Ok (_, w) => w
  | _ => three_actors
  end.

(** A running system in which a mailbox of two slots, at 16384, is full with
    the messages 1000 and 1001. *)
Definition small_full_queue : world :=
  let w := {| actor_system := None; actormem := ∅; queuemem := ∅; calls := [] |} in
  let w := snd (actors_init 4096 4608 5120 w) in
  let w := snd (actors_start true w) in
  let w := snd (message_queue_create 16384 20480 2 w) in
  match message_queue_put 1%nat 16384 1000 w with
  | Ok (_, w) =>
    match message_queue_put 1%nat 16384 1001 w with
    | Ok (_, w) => w
    | _ => w
    end
  | _ => w
  end.

(** The messages queued in [three_actors_busy], by actor. *)
Definition busy_pending (A : Z) : list Z :=
  if A =? 12288 then [1000; 1001; 1002] else [].

End Actors.

(** ** runtime.c: boxed key/value objects *)

Module Runtime.

(** The collector state, the payloads of the boxed objects seen as arrays of
    pointer-sized words, and the C strings of the program by address (the
    runtime reads them and never writes them). *)
Record state := mk_state {
  gc       : GC.gc_state;
  payloads : gmap Z (list Z);
  cstrings : gmap Z string
}.

(** [sizeof(size_t) + 256 * sizeof(void* )]: 2056 bytes, 257 words. *)
Definition object_size : Z := 8 + 256 * 8.
Definition object_words : nat := 257.

(** The entries the loops of [vela_object_set] and [vela_object_get] visit:
    [i = 0, 2, ..., 254], that is [capacity / 2] iterations. *)
Definition capacity : nat := 256.
Definition iterations : nat := 128.

(** [strcmp(a, b) == 0]. *)
Definition strcmp_is_zero (cs : gmap Z string) (a b : Z) : res bool :=
  sa ← load cs a; sb ← load cs b; Ok (bool_decide (sa = sb)).

Definition read_entry (entries : list Z) (i : nat) : res Z :=
  match entries !! i with
  | Some x => Ok x
  | None => Fault
  end.

(** [vela_object_create]: the payload is zeroed by [memset]. *)
Definition vela_object_create (fuel : nat) (st : state) : res (Z * state) :=
  '(object, g) ← GC.vela_gc_alloc fuel object_size (gc st);
  if object =? NULL then
    Ok (NULL, {| gc := g; payloads := payloads st; cstrings := cstrings st |})
  else
    let header := GC.gc_get_header g object in
    g ← (if header =? NULL then Ok g
         else
           hd ← load (GC.mem g) header;
           Ok {| GC.gc_heap := GC.gc_heap g; GC.gc_stats := GC.gc_stats g;
                 GC.mem := <[header := GC.set_flags
                                         (Z.lor (GC.flags hd) GC.GC_FLAG_OBJECT) hd]>
                             (GC.mem g) |});
    Ok (object,
        {| gc := g;
           payloads := <[object := replicate object_words 0]> (payloads st);
           cstrings := cstrings st |}).

(** The loop of [vela_object_set], [n] iterations from index [i] on; the
    result is the changed array, or [None] when the loop ran to its end. *)
Fixpoint object_set_scan (n : nat) (i : nat) (cs : gmap Z string)
    (entries : list Z) (key value : Z) : res (option (list Z)) :=
  match n with
  | O => Ok None
  | S n' =>
    existing_key ← read_entry entries i;
    if existing_key =? NULL then
      Ok (Some (<[S i := value]> (<[i := key]> entries)))
    else
      same ← strcmp_is_zero cs existing_key key;
      if same : bool then Ok (Some (<[S i := value]> entries))
      else object_set_scan n' (i + 2)%nat cs entries key value
  end.

Definition vela_object_set (object key value : Z) (st : state) : res (bool * state) :=
  if (object =? NULL) || (key =? NULL) then Ok (false, st)
  else
    entries ← load (payloads st) object;
    r ← object_set_scan iterations 0 (cstrings st) entries key value;
    match r with
    | Some entries' =>
      Ok (true, {| gc := gc st;
                   payloads := <[object := entries']> (payloads st);
                   cstrings := cstrings st |})
    | None => Ok (false, st)
    end.

(** The loop of [vela_object_get]. *)
Fixpoint object_get_scan (n : nat) (i : nat) (cs : gmap Z string)
    (entries : list Z) (key : Z) : res Z :=
  match n with
  | O => Ok NULL
  | S n' =>
    existing_key ← read_entry entries i;
    if existing_key =? NULL then Ok NULL
    else
      same ← strcmp_is_zero cs existing_key key;
      if same : bool then read_entry entries (S i)
      else object_get_scan n' (i + 2)%nat cs entries key
  end.

Definition vela_object_get (object key : Z) (st : state) : res Z :=
  if (object =? NULL) || (key =? NULL) then Ok NULL
  else
    entries ← load (payloads st) object;
    object_get_scan iterations 0 (cstrings st) entries key.

(** A list of [vela_object_set] calls on one object, one after the other. *)
Fixpoint set_all (object : Z) (kvs : list (Z * Z)) (st : state)
  : res (list bool * state) :=
  match kvs with
  | [] => Ok ([], st)
  | (key, value) :: kvs' =>
    '(ok, st) ← vela_object_set object key value st;
    '(oks, st) ← set_all object kvs' st;
    Ok (ok :: oks, st)
  end.

(** *** Notions used to state the properties below *)

(** [table_in cs entries tbl]: the array [entries] stores the key/value pairs
    [tbl], in the order in which their keys were first set: pair [j] occupies
    the entries [2j] and [2j+1], the key entry points to the key string, and
    the key entries behind the stored pairs are [NULL]. *)
Record table_in (cs : gmap Z string) (entries : list Z)
    (tbl : list (string * Z)) : Prop := {
  table_words  : length entries = object_words;
  table_bound  : (length tbl ≤ iterations)%nat;
  table_nodup  : NoDup (tbl.*1);
  table_pairs  : ∀ j s v, tbl !! j = Some (s, v) →
                   ∃ kp, entries !! (2 * j)%nat = Some kp ∧ kp ≠ NULL ∧
                         cs !! kp = Some s ∧
                         entries !! S (2 * j) = Some v;
  table_unused : ∀ j, (length tbl ≤ j < iterations)%nat →
                   entries !! (2 * j)%nat = Some NULL
}.

(** [holds st o tbl]: the object at [o] stores the pairs [tbl]. *)
Definition holds (st : state) (o : Z) (tbl : list (string * Z)) : Prop :=
  ∃ entries, payloads st !! o = Some entries ∧
             table_in (cstrings st) entries tbl.

(** The value stored under a key string, [NULL] when there is none. *)
Fixpoint stored (s : string) (tbl : list (string * Z)) : Z :=
  match tbl with
  | [] => NULL
  | (s', v) :: tbl' => if bool_decide (s' = s) then v else stored s tbl'
  end.

(** The pairs after a successful set of key string [s] to [v]. *)
Fixpoint updated (s : string) (v : Z) (tbl : list (string * Z)) : list (string * Z) :=
  match tbl with
  | [] => [(s, v)]
  | (s', v') :: tbl' =>
    if bool_decide (s' = s) then (s', v) :: tbl' else (s', v') :: updated s v tbl'
  end.

(** *** Example states *)

(** The key strings of the examples: at address [1000 + i] the one-character
    string whose character has code [i + 1], for [i] from 0 to 199. *)
Definition example_strings : gmap Z string :=
  list_to_map
    (map (λ i : nat, (1000 + Z.of_nat i,
                      String (Ascii.ascii_of_nat (S i)) EmptyString))
         (seq 0 200)).

(** The runtime after [vela_gc_init] and one [vela_object_create]. *)
Definition with_object : state :=
  match vela_object_create 1
          {| gc := GC.default_heap; payloads := ∅; cstrings := example_strings |} with
  | Ok (_, st) => st
  | _ => {| gc := GC.default_heap; payloads := ∅; cstrings := example_strings |}
  end.

(** Sets of the keys [1000 + from], ..., [1000 + from + n - 1], key [1000 + i]
    to value [5000 + i]. *)
Definition sets_of (from n : nat) : list (Z * Z) :=
  map (λ i : nat, (1000 + Z.of_nat i, 5000 + Z.of_nat i)) (seq from n).

(** *** The key strings belong to the caller *)

(** The program overwrites the C string at [k] with [s]: the runtime holds
    pointers to the key strings, it has no copies of them. *)
Definition with_cstring (k : Z) (s : string) (st : state) : state :=
  {| gc := gc st; payloads := payloads st; cstrings := <[k := s]> (cstrings st) |}.

End Runtime.

(** ** runtime.c: arrays and strings *)

Module Arrays.

(** The collector state, and the bytes of the process by address: the
    payloads of the collector's blocks and the data of the program.  A read
    of a byte that the map does not hold is outside the model. *)
Record state := mk_state {
  gc    : GC.gc_state;
  bytes : gmap Z Z
}.

Definition sizeof_size_t : Z := 8.

(** A [size_t] in memory: eight bytes, the least significant first (x86-64,
    AArch64). *)
Definition size_t_bytes (v : Z) : list Z :=
  map (λ i : nat, (v / 2 ^ (8 * Z.of_nat i)) mod 256) (seq 0 8).

Fixpoint size_t_value (bs : list Z) : Z :=
  match bs with
  | [] => 0
  | b :: bs' => b + 256 * size_t_value bs'
  end.

Fixpoint read_bytes (m : gmap Z Z) (p : Z) (n : nat) : res (list Z) :=
  match n with
  | O => Ok []
  | S n' => b ← load m p; bs ← read_bytes m (p + 1) n'; Ok (b :: bs)
  end.

Fixpoint write_bytes (p : Z) (bs : list Z) (m : gmap Z Z) : gmap Z Z :=
  match bs with
  | [] => m
  | b :: bs' => <[p := b]> (write_bytes (p + 1) bs' m)
  end.

(** [*(size_t* )p]. *)
Definition load_size_t (m : gmap Z Z) (p : Z) : res Z :=
  bs ← read_bytes m p 8; Ok (size_t_value bs).

(** The stores of the runtime go into the block it holds at that point,
    [block, block + size): a store of [n] bytes at [p] that leaves the block
    is outside the model. *)
Definition inside (block size p n : Z) : bool :=
  (block <=? p) && (p + n <=? block + size).

Definition store_in (block size p : Z) (bs : list Z) (m : gmap Z Z)
  : res (gmap Z Z) :=
  if inside block size p (Z.of_nat (length bs)) then Ok (write_bytes p bs m)
  else Fault.

(** [memset(p, c, n)]. *)
Definition memset_in (block size p c n : Z) (m : gmap Z Z) : res (gmap Z Z) :=
  if inside block size p n then Ok (write_bytes p (replicate (Z.to_nat n) c) m)
  else Fault.

(** [header->flags |= flag] behind the test [header != NULL]. *)
Definition set_type_flag (flag : Z) (g : GC.gc_state) (object : Z) : res GC.gc_state :=
  let header := GC.gc_get_header g object in
  if header =? NULL then Ok g
  else
    hd ← load (GC.mem g) header;
    Ok {| GC.gc_heap := GC.gc_heap g; GC.gc_stats := GC.gc_stats g;
          GC.mem := <[header := GC.set_flags (Z.lor (GC.flags hd) flag) hd]>
                      (GC.mem g) |}.

Definition vela_array_create (fuel : nat) (element_count element_size : Z)
    (st : state) : res (Z * state) :=
  if (element_count =? 0) || (element_size =? 0) then Ok (NULL, st)
  else
    let total_size := wrap (sizeof_size_t + wrap (element_count * element_size)) in
    '(array, g) ← GC.vela_gc_alloc fuel total_size (gc st);
    if array =? NULL then Ok (NULL, {| gc := g; bytes := bytes st |})
    else
      g ← set_type_flag GC.GC_FLAG_ARRAY g array;
      m ← store_in array total_size array (size_t_bytes element_count) (bytes st);
      let elements := wrap (array + sizeof_size_t) in
      m ← memset_in array total_size elements 0
            (wrap (element_count * element_size)) m;
      Ok (array, {| gc := g; bytes := m |}).

Definition vela_array_get (array index : Z) (st : state) : res Z :=
  if array =? NULL then Ok NULL
  else
    length ← load_size_t (bytes st) array;
    if length <=? index then Ok NULL
    else
      let header := GC.gc_get_header (gc st) array in
      if header =? NULL then Ok NULL
      else
        hd ← load (GC.mem (gc st)) header;
        let total_size := GC.size hd in
        let element_size := wrap (total_size - sizeof_size_t) / length in
        let elements := wrap (array + sizeof_size_t) in
        Ok (wrap (elements + wrap (index * element_size))).

(** [vela_array_set]; [memcpy] reads its source before it writes. *)
Definition vela_array_set (array index value : Z) (st : state)
  : res (bool * state) :=
  if (array =? NULL) || (value =? NULL) then Ok (false, st)
  else
    element_ptr ← vela_array_get array index st;
    if element_ptr =? NULL then Ok (false, st)
    else
      length ← load_size_t (bytes st) array;
      let header := GC.gc_get_header (gc st) array in
      if header =? NULL then Ok (false, st)
      else
        hd ← load (GC.mem (gc st)) header;
        let total_size := GC.size hd in
        let element_size := wrap (total_size - sizeof_size_t) / length in
        src ← read_bytes (bytes st) value (Z.to_nat element_size);
        m ← store_in array total_size element_ptr src (bytes st);
        Ok (true, {| gc := gc st; bytes := m |}).

Definition vela_array_length (array : Z) (st : state) : res Z :=
  if array =? NULL then Ok 0 else load_size_t (bytes st) array.






(** *** Notions used to state the properties below *)


(** The array at [array]: a block of the collector of
    [8 + count * width] bytes that passes [gc_is_heap_ptr], with the element
    count in its first eight bytes. *)
Record array_at (st : state) (array count width : Z) : Prop := {
  arr_count  : 0 < count < 2 ^ 64;
  arr_width  : 0 < width;
  arr_fits   : array + sizeof_size_t + count * width < 2 ^ 64;
  arr_header : GC.gc_get_header (gc st) array = array - GC.sizeof_gc_header;
  arr_block  : ∃ hd, GC.mem (gc st) !! (array - GC.sizeof_gc_header) = Some hd ∧
                     GC.size hd = sizeof_size_t + count * width;
  arr_nonnull : 0 < array - GC.sizeof_gc_header;
  arr_length : read_bytes (bytes st) array 8 = Ok (size_t_bytes count)
}.

(** The address of element [i] of an array of elements [width] bytes wide. *)
Definition element (array width i : Z) : Z := array + sizeof_size_t + i * width.

(** *** Example states *)

(** The program data of the examples: the string "hi" at 5000 and the four
    bytes 1, 2, 3, 4 at 6000. *)
Definition program_bytes : gmap Z Z :=
  write_bytes 5000 [104; 105; 0] (write_bytes 6000 [1; 2; 3; 4] ∅).

Definition fresh : state := {| gc := GC.default_heap; bytes := program_bytes |}.

Definition state_of {A : Type} (r : res (A * state)) : state :=
  match r with
  | Ok (_, st) => st
  | _ => fresh
  end.

(** [fresh] after [vela_array_create(3, 4)]. *)
Definition with_array : state := state_of (vela_array_create 1 3 4 fresh).

End Arrays.

(** * Properties *)

(** ** The result monad *)

Lemma res_bind_ok {A B : Type} (m : res A) (f : A → res B) (b : B) :
  m ≫= f = Ok b → ∃ a, m = Ok a ∧ f a = Ok b.
Proof. destruct m as [a| |]; simpl; intros H; try discriminate. by exists a. Qed.

Lemma load_ok {A : Type} (m : gmap Z A) (p : Z) (a : A) :
  load m p = Ok a ↔ m !! p = Some a.
Proof. unfold load. destruct (m !! p); split; intros H; congruence. Qed.

Lemma wrap_small (z : Z) : 0 ≤ z < 2 ^ 64 → wrap z = z.
Proof. intros H. unfold wrap. by apply Z.mod_small. Qed.

Lemma wrap_range (z : Z) : 0 ≤ wrap z < 2 ^ 64.
Proof. unfold wrap. apply Z.mod_pos_bound. lia. Qed.

Lemma eqb_null_false p : p ≠ NULL → (p =? NULL) = false.
Proof. by apply Z.eqb_neq. Qed.

Lemma existsb_eqb_false (x : Z) (l : list Z) : x ∉ l → existsb (Z.eqb x) l = false.
Proof.
  intros H. apply not_true_is_false. intros Hex.
  apply existsb_exists in Hex as (y & Hy & Heq). apply Z.eqb_eq in Heq. subst y.
  by apply H, list_elem_of_In.
Qed.

Lemma existsb_eqb_true (x : Z) (l : list Z) : x ∈ l → existsb (Z.eqb x) l = true.
Proof.
  intros H. apply existsb_exists. exists x.
  split; [by apply list_elem_of_In|apply Z.eqb_refl].
Qed.

(** ** Heap and collector *)

Section GC_properties.
Import GC.

Implicit Types (m : gmap Z gc_header_t) (l : list Z) (s : gc_state).

Lemma marked_clear (hd : gc_header_t) :
  marked (set_flags (Z.land (flags hd) (Z.lnot GC_FLAG_MARKED)) hd) = false.
Proof.
  unfold marked, set_flags; simpl.
  rewrite <- Z.land_assoc. change (Z.land (Z.lnot GC_FLAG_MARKED) GC_FLAG_MARKED) with 0.
  by rewrite Z.land_0_r.
Qed.

Lemma marked_set (hd : gc_header_t) :
  marked (set_flags (Z.lor (flags hd) GC_FLAG_MARKED) hd) = true.
Proof.
  unfold marked, set_flags; simpl.
  rewrite Z.land_lor_distr_l. change (Z.land GC_FLAG_MARKED GC_FLAG_MARKED) with 1.
  apply negb_true_iff, Z.eqb_neq. intros H. apply Z.lor_eq_0_iff in H. lia.
Qed.

Lemma chain_ext m m' p l :
  (∀ a, a ∈ l → next <$> m' !! a = next <$> m !! a) →
  chain m p l → chain m' p l.
Proof.
  revert p. induction l as [|a l IH]; intros p Hagree Hc; simpl in *; [done|].
  destruct Hc as (-> & Hnz & hd & Hhd & Hc).
  split; [done|]. split; [done|].
  specialize (Hagree a (list_elem_of_here _ _)) as Ha.
  rewrite Hhd in Ha. simpl in Ha.
  destruct (m' !! a) as [hd'|] eqn:Hhd'; simpl in Ha; [|done].
  exists hd'. split; [done|].
  injection Ha as ->. apply IH; [|done].
  intros b Hb. apply Hagree. by apply list_elem_of_further.
Qed.

Lemma chain_nonnull m p l a : chain m p l → a ∈ l → a ≠ NULL.
Proof.
  revert p. induction l as [|b l IH]; intros p Hc Ha; [by apply elem_of_nil in Ha|].
  simpl in Hc. destruct Hc as (-> & Hnz & hd & Hhd & Hc).
  apply elem_of_cons in Ha as [->|Ha]; [done|]. by eapply IH.
Qed.

Lemma chain_lookup m p l a : chain m p l → a ∈ l → is_Some (m !! a).
Proof.
  revert p. induction l as [|b l IH]; intros p Hc Ha; [by apply elem_of_nil in Ha|].
  simpl in Hc. destruct Hc as (-> & Hnz & hd & Hhd & Hc).
  apply elem_of_cons in Ha as [->|Ha]; [by eexists|]. by eapply IH.
Qed.

(** A chain determines its list. *)
Lemma chain_functional m p l1 l2 : chain m p l1 → chain m p l2 → l1 = l2.
Proof.
  revert p l2. induction l1 as [|a l1 IH]; intros p [|b l2] H1 H2; simpl in *.
  - done.
  - destruct H2 as (-> & Hnz & _). by subst.
  - destruct H1 as (-> & Hnz & _). by subst.
  - destruct H1 as (-> & Hnz & hd & Hhd & H1).
    destruct H2 as (<- & _ & hd2 & Hhd2 & H2).
    rewrite Hhd in Hhd2. injection Hhd2 as <-.
    f_equal. by eapply IH.
Qed.

(** The executable walk agrees with [chain]. *)
Lemma object_list_chain m p l fuel :
  chain m p l → (length l < fuel)%nat → object_list fuel m p = Ok l.
Proof.
  revert p fuel. induction l as [|a l IH]; intros p fuel Hc Hfuel.
  - simpl in Hc. subst p. destruct fuel; [simpl in Hfuel; lia|]. done.
  - simpl in Hc. destruct Hc as (-> & Hnz & hd & Hhd & Hc).
    destruct fuel as [|fuel]; [simpl in Hfuel; lia|]. simpl.
    apply Z.eqb_neq in Hnz. rewrite Hnz.
    unfold load. rewrite Hhd. simpl.
    rewrite (IH (next hd) fuel Hc); [done|]. simpl in Hfuel. lia.
Qed.

Lemma object_list_sound fuel m p l : object_list fuel m p = Ok l → chain m p l.
Proof.
  revert m p l. induction fuel as [|fuel IH]; intros m p l H; [done|].
  simpl in H. destruct (p =? NULL) eqn:Hp.
  - injection H as <-. simpl. by apply Z.eqb_eq.
  - apply res_bind_ok in H as (hd & Hhd & H).
    apply res_bind_ok in H as (l' & Hl' & H). injection H as <-.
    simpl. apply Z.eqb_neq in Hp. split; [done|]. split; [done|].
    exists hd. split; [by apply load_ok|]. by apply IH.
Qed.

(** *** Mark phase *)

Lemma gc_mark_clear_spec l : ∀ m p fuel,
  chain m p l → NoDup l → (length l < fuel)%nat →
  ∃ m', gc_mark_clear fuel m p = Ok m' ∧
    (∀ a, a ∈ l → ∃ hd, m !! a = Some hd ∧
       m' !! a = Some (set_flags (Z.land (flags hd) (Z.lnot GC_FLAG_MARKED)) hd)) ∧
    (∀ a, a ∉ l → m' !! a = m !! a).
Proof.
  induction l as [|a l IH]; intros m p fuel Hc Hnd Hfuel.
  - simpl in Hc. subst p. destruct fuel; [simpl in Hfuel; lia|].
    exists m. split; [done|]. split; [|done].
    intros a Ha. by apply elem_of_nil in Ha.
  - simpl in Hc. destruct Hc as (-> & Hnz & hd & Hhd & Hc).
    apply NoDup_cons in Hnd as [Hnotin Hnd].
    destruct fuel as [|fuel]; [simpl in Hfuel; lia|]. simpl.
    apply Z.eqb_neq in Hnz as Hnzb. rewrite Hnzb.
    unfold load. rewrite Hhd. simpl.
    set (m1 := <[a:=set_flags (Z.land (flags hd) (Z.lnot GC_FLAG_MARKED)) hd]> m).
    assert (Hc1 : chain m1 (next hd) l).
    { eapply chain_ext; [|exact Hc]. intros b Hb. unfold m1.
      rewrite lookup_insert_ne; [done|]. intros ->. done. }
    destruct (IH m1 (next hd) fuel Hc1 Hnd) as (m' & Hrun & Hin & Hout).
    { simpl in Hfuel. lia. }
    exists m'. split; [done|]. split.
    + intros b Hb. apply elem_of_cons in Hb as [->|Hb].
      * exists hd. split; [done|]. rewrite (Hout a Hnotin). unfold m1.
        by rewrite lookup_insert_eq.
      * destruct (Hin b Hb) as (hb & Hhb & Hb').
        exists hb. split; [|done]. unfold m1 in Hhb.
        rewrite lookup_insert_ne in Hhb; [done|]. intros ->. done.
    + intros b Hb. apply not_elem_of_cons in Hb as [Hne Hb].
      rewrite (Hout b Hb). unfold m1. by rewrite lookup_insert_ne.
Qed.

Lemma gc_is_heap_ptr_heap s s' r :
  gc_heap s' = gc_heap s → gc_is_heap_ptr s' r = gc_is_heap_ptr s r.
Proof. intros H. unfold gc_is_heap_ptr. by rewrite H. Qed.

Lemma gc_get_header_heap s s' r :
  gc_heap s' = gc_heap s → gc_get_header s' r = gc_get_header s r.
Proof. intros H. unfold gc_get_header. by rewrite (gc_is_heap_ptr_heap _ _ _ H). Qed.

Lemma root_hits_heap s s' rs a :
  gc_heap s' = gc_heap s → root_hits s' rs a = root_hits s rs a.
Proof.
  intros H. unfold root_hits. induction rs as [|r rs IH]; [done|]. simpl.
  by rewrite IH, (gc_is_heap_ptr_heap _ _ _ H), (gc_get_header_heap _ _ _ H).
Qed.

Lemma gc_is_heap_ptr_nonnull s r : gc_is_heap_ptr s r = true → r ≠ NULL.
Proof.
  unfold gc_is_heap_ptr. destruct (gc_heap s); [|done].
  destruct (r =? NULL) eqn:E; [done|]. intros _. by apply Z.eqb_neq.
Qed.

Lemma mark_header_marked hd : marked (mark_header hd) = true.
Proof.
  unfold mark_header. destruct (marked hd) eqn:E; [done|]. apply marked_set.
Qed.

Lemma mark_header_idem hd : mark_header (mark_header hd) = mark_header hd.
Proof. unfold mark_header at 1. by rewrite mark_header_marked. Qed.

Lemma gc_mark_object_spec s r :
  (gc_is_heap_ptr s r = true → gc_get_header s r ≠ NULL →
   is_Some (mem s !! gc_get_header s r)) →
  ∃ s', gc_mark_object s r = Ok s' ∧
    gc_heap s' = gc_heap s ∧ gc_stats s' = gc_stats s ∧
    ∀ a, a ≠ NULL →
      mem s' !! a =
      (if gc_is_heap_ptr s r && (gc_get_header s r =? a)
       then mark_header else id) <$> mem s !! a.
Proof.
  intros Hread. unfold gc_mark_object.
  destruct (gc_is_heap_ptr s r) eqn:Hheap; simpl.
  - apply gc_is_heap_ptr_nonnull in Hheap as Hnz.
    apply Z.eqb_neq in Hnz. rewrite Hnz. simpl.
    destruct (gc_get_header s r =? NULL) eqn:Hhdr.
    + exists s. repeat split; try done. intros a Ha.
      apply Z.eqb_eq in Hhdr. rewrite Hhdr.
      destruct (NULL =? a) eqn:E; [apply Z.eqb_eq in E; congruence|].
      by rewrite option_fmap_id.
    + apply Z.eqb_neq in Hhdr. destruct (Hread eq_refl Hhdr) as [hd Hhd].
      unfold load. rewrite Hhd. simpl. destruct (marked hd) eqn:Hm.
      * exists s. repeat split; try done. intros a Ha.
        destruct (gc_get_header s r =? a) eqn:E.
        -- apply Z.eqb_eq in E. subst a. rewrite Hhd. simpl.
           unfold mark_header. by rewrite Hm.
        -- by rewrite option_fmap_id.
      * eexists. split; [done|]. simpl. repeat split; try done. intros a Ha.
        destruct (gc_get_header s r =? a) eqn:E.
        -- apply Z.eqb_eq in E. subst a. rewrite lookup_insert_eq, Hhd. simpl.
           unfold mark_header. by rewrite Hm.
        -- apply Z.eqb_neq in E. rewrite lookup_insert_ne; [|done].
           by rewrite option_fmap_id.
  - rewrite orb_true_r. exists s. repeat split; try done.
    intros a Ha. by rewrite option_fmap_id.
Qed.

Lemma gc_mark_roots_spec rs : ∀ s,
  roots_readable s rs →
  ∃ s', gc_mark_roots rs s = Ok s' ∧
    gc_heap s' = gc_heap s ∧ gc_stats s' = gc_stats s ∧
    ∀ a, a ≠ NULL →
      mem s' !! a = (if root_hits s rs a then mark_header else id) <$> mem s !! a.
Proof.
  induction rs as [|r rs IH]; intros s Hread.
  - exists s. repeat split; try done. intros a Ha. by rewrite option_fmap_id.
  - destruct (gc_mark_object_spec s r) as (s1 & Hrun1 & Hheap1 & Hst1 & Hmem1).
    { intros H1 H2. apply Hread; [apply list_elem_of_here|done|done]. }
    assert (Hread1 : roots_readable s1 rs).
    { intros x Hx Hheap Hhdr.
      rewrite (gc_is_heap_ptr_heap _ _ _ Hheap1) in Hheap.
      rewrite (gc_get_header_heap _ _ _ Hheap1) in Hhdr |- *.
      rewrite (Hmem1 _ Hhdr). apply fmap_is_Some.
      apply Hread; [by apply list_elem_of_further|done|done]. }
    destruct (IH s1 Hread1) as (s2 & Hrun2 & Hheap2 & Hst2 & Hmem2).
    exists s2. split.
    { simpl. assert (Hstep : (if r =? NULL then Ok s else gc_mark_object s r) = Ok s1).
      { destruct (r =? NULL) eqn:E; [|done].
        apply Z.eqb_eq in E. subst r. by rewrite <- Hrun1. }
      by rewrite Hstep. }
    split; [congruence|]. split; [congruence|].
    intros a Ha. rewrite (Hmem2 a Ha), (Hmem1 a Ha).
    rewrite (root_hits_heap _ _ _ _ Hheap1). simpl.
    destruct (mem s !! a) as [hd|]; simpl; [|by repeat case_match].
    destruct (gc_is_heap_ptr s r && (gc_get_header s r =? a));
      destruct (root_hits s rs a); simpl; try done.
    by rewrite mark_header_idem.
Qed.

(** *** Sweep phase *)

Lemma same_arena_refl (h : gc_heap_t) : same_arena h h.
Proof. by repeat split. Qed.

Lemma same_arena_trans (h1 h2 h3 : gc_heap_t) :
  same_arena h1 h2 → same_arena h2 h3 → same_arena h1 h3.
Proof.
  unfold same_arena. intros (?&?&?&?&?&?&?) (?&?&?&?&?&?&?).
  repeat split; congruence.
Qed.

Lemma is_marked_filter_ext m m' l :
  (∀ a, a ∈ l → m' !! a = m !! a) →
  List.filter (is_marked m') l = List.filter (is_marked m) l.
Proof.
  intros H. apply List.filter_ext_in. intros a Ha.
  apply list_elem_of_In in Ha. unfold is_marked. by rewrite (H a Ha).
Qed.

Lemma gc_sweep_loop_spec l : ∀ h m c coll fuel p,
  read_link h m c = Ok p → chain m p l → NoDup l → link_ok m c l →
  (length l < fuel)%nat →
  ∃ h' m' coll' p',
    gc_sweep_loop fuel h m c coll = Ok (h', m', coll') ∧
    read_link h' m' c = Ok p' ∧
    chain m' p' (List.filter (is_marked m) l) ∧
    same_arena h h' ∧
    (c ≠ HeadLink → objects h' = objects h) ∧
    (∀ a, flags <$> m' !! a = flags <$> m !! a ∧
          size <$> m' !! a = size <$> m !! a) ∧
    (∀ a, a ∉ l → NextLink a ≠ c → m' !! a = m !! a).
Proof.
  induction l as [|a l IH]; intros h m c coll fuel p Hread Hc Hnd Hlink Hfuel;
    (destruct fuel as [|fuel]; [simpl in Hfuel; lia|]).
  - simpl in Hc. subst p. simpl. rewrite Hread. simpl.
    exists h, m, coll, NULL. repeat split; try done.
  - simpl in Hc. destruct Hc as (-> & Hnz & hd & Hhd & Hc).
    apply NoDup_cons in Hnd as [Hnotin Hnd].
    simpl gc_sweep_loop. rewrite Hread. simpl.
    apply Z.eqb_neq in Hnz as Hnzb. rewrite Hnzb.
    unfold load at 1. rewrite Hhd. simpl.
    assert (Hma : is_marked m a = marked hd) by (unfold is_marked; by rewrite Hhd).
    simpl List.filter. rewrite Hma.
    destruct (marked hd) eqn:Hmark; simpl.
    + (* marked: step to the next link *)
      destruct (IH h m (NextLink a) coll fuel (next hd))
        as (h' & m' & coll' & p' & Hrun & Hread' & Hc' & Har & Hobj & Hfs & Hout).
      { simpl. unfold load. by rewrite Hhd. }
      { done. } { done. } { simpl. split; [done|by eexists]. }
      { simpl in Hfuel. lia. }
      exists h', m', coll', a. split; [done|].
      assert (Hread_c : read_link h' m' c = Ok a).
      { destruct c as [|x]; simpl in *.
        - rewrite Hobj; [done|discriminate].
        - destruct Hlink as [Hx _]. apply not_elem_of_cons in Hx as [Hxa Hx].
          unfold load in *. rewrite (Hout x Hx); [done|]. congruence. }
      split; [done|]. split.
      { simpl. split; [done|]. split; [done|].
        simpl in Hread'. apply res_bind_ok in Hread' as (hd' & Hhd' & Hp').
        injection Hp' as <-. exists hd'. split; [by apply load_ok|done]. }
      split; [done|]. split; [intros Hne; apply Hobj; discriminate|].
      split; [done|].
      intros b Hb Hbc. apply not_elem_of_cons in Hb as [Hba Hb].
      apply Hout; [done|congruence].
    + (* unmarked: unlink the header *)
      assert (Hw : ∃ h1 m1, write_link h m c (next hd) = Ok (h1, m1) ∧
                 same_arena h h1 ∧ (c ≠ HeadLink → objects h1 = objects h) ∧
                 read_link h1 m1 c = Ok (next hd) ∧
                 (∀ b, flags <$> m1 !! b = flags <$> m !! b ∧
                       size <$> m1 !! b = size <$> m !! b) ∧
                 (∀ b, NextLink b ≠ c → m1 !! b = m !! b) ∧
                 link_ok m1 c l).
      { destruct c as [|x]; simpl in *.
        - exists (set_objects (next hd) h), m. repeat split; try done.
        - destruct Hlink as [Hx [hx Hhx]].
          exists h, (<[x:=set_next (next hd) hx]> m).
          unfold load. rewrite Hhx. simpl. split; [done|].
          split; [apply same_arena_refl|]. split; [done|].
          split; [by rewrite lookup_insert_eq|].
          split.
          { intros b. destruct (decide (b = x)) as [->|Hne].
            - by rewrite lookup_insert_eq, Hhx.
            - by rewrite lookup_insert_ne. }
          split.
          { intros b Hb. rewrite lookup_insert_ne; [done|]. congruence. }
          split; [by apply not_elem_of_cons in Hx as [_ Hx]|].
          rewrite lookup_insert_eq. by eexists. }
      destruct Hw as (h1 & m1 & Hw & Har1 & Hobj1 & Hread1 & Hfs1 & Hout1 & Hlink1).
      rewrite Hw. simpl.
      assert (Hagree : ∀ b, b ∈ l → m1 !! b = m !! b).
      { intros b Hb. apply Hout1. intros <-.
        destruct Hlink as [Hx _]. apply Hx. by apply list_elem_of_further. }
      destruct (IH (set_object_count (wrap (object_count h1 - 1)) h1) m1 c
                  (wrap (coll + size hd)) fuel (next hd))
        as (h' & m' & coll' & p' & Hrun & Hread' & Hc' & Har & Hobj & Hfs & Hout).
      { destruct c; simpl in *; done. }
      { eapply chain_ext; [|exact Hc]. intros b Hb. by rewrite (Hagree b Hb). }
      { done. } { done. } { simpl in Hfuel. lia. }
      exists h', m', coll', p'. split; [done|]. split; [done|].
      split; [by rewrite <- (is_marked_filter_ext m m1 l Hagree)|].
      split.
      { eapply same_arena_trans; [exact Har1|].
        eapply same_arena_trans; [|exact Har]. by repeat split. }
      split; [intros Hne; rewrite (Hobj Hne); simpl; by apply Hobj1|].
      split.
      { intros b. destruct (Hfs b) as [-> ->]. apply Hfs1. }
      intros b Hb Hbc. apply not_elem_of_cons in Hb as [Hba Hb].
      rewrite (Hout b Hb Hbc). by apply Hout1.
Qed.

(** *** A whole collection *)

Lemma gc_is_heap_ptr_arena s s' h h' r :
  gc_heap s = Some h → gc_heap s' = Some h' →
  heap_start h' = heap_start h → heap_end h' = heap_end h →
  gc_is_heap_ptr s' r = gc_is_heap_ptr s r.
Proof. intros H H' Hs He. unfold gc_is_heap_ptr. by rewrite H, H', Hs, He. Qed.

Lemma gc_get_header_arena s s' h h' r :
  gc_heap s = Some h → gc_heap s' = Some h' →
  heap_start h' = heap_start h → heap_end h' = heap_end h →
  gc_get_header s' r = gc_get_header s r.
Proof.
  intros H H' Hs He. unfold gc_get_header.
  by rewrite (gc_is_heap_ptr_arena _ _ _ _ _ H H' Hs He).
Qed.

Lemma root_hits_arena s s' h h' rs a :
  gc_heap s = Some h → gc_heap s' = Some h' →
  heap_start h' = heap_start h → heap_end h' = heap_end h →
  root_hits s' rs a = root_hits s rs a.
Proof.
  intros H H' Hs He. unfold root_hits. induction rs as [|r rs IH]; [done|]. simpl.
  by rewrite IH, (gc_is_heap_ptr_arena _ _ _ _ _ H H' Hs He),
             (gc_get_header_arena _ _ _ _ _ H H' Hs He).
Qed.

Lemma mark_header_size hd : size (mark_header hd) = size hd.
Proof. unfold mark_header. by destruct (marked hd). Qed.

Lemma mark_header_next hd : next (mark_header hd) = next hd.
Proof. unfold mark_header. by destruct (marked hd). Qed.

(** The marks that [gc_mark] leaves on the headers of the object list. *)
Lemma gc_mark_spec s h l fuel :
  gc_heap s = Some h → chain (mem s) (objects h) l → NoDup l →
  roots_readable s (roots h) → (length l < fuel)%nat →
  ∃ s', gc_mark fuel s = Ok s' ∧
    gc_heap s' = gc_heap s ∧ gc_stats s' = gc_stats s ∧
    (∀ a, a ≠ NULL →
       size <$> mem s' !! a = size <$> mem s !! a ∧
       next <$> mem s' !! a = next <$> mem s !! a) ∧
    (∀ a, a ∈ l → is_marked (mem s') a = root_hits s (roots h) a).
Proof.
  intros Hheap Hc Hnd Hread Hfuel. unfold gc_mark. rewrite Hheap.
  destruct (gc_mark_clear_spec l (mem s) (objects h) fuel Hc Hnd Hfuel)
    as (m1 & Hrun1 & Hin1 & Hout1).
  rewrite Hrun1. simpl.
  set (s1 := {| gc_heap := Some h; gc_stats := gc_stats s; mem := m1 |}).
  assert (Hsn1 : ∀ a, size <$> m1 !! a = size <$> mem s !! a ∧
                      next <$> m1 !! a = next <$> mem s !! a).
  { intros a. destruct (decide (a ∈ l)) as [Ha|Ha].
    - destruct (Hin1 a Ha) as (hd & -> & ->). done.
    - by rewrite (Hout1 a Ha). }
  assert (Hread1 : roots_readable s1 (roots h)).
  { intros r Hr Hp Hh.
    rewrite (gc_is_heap_ptr_heap s s1) in Hp by done.
    rewrite (gc_get_header_heap s s1) in Hh |- * by done.
    simpl. destruct (Hsn1 (gc_get_header s r)) as [Hsz _].
    destruct (Hread r Hr Hp Hh) as [hd Hhd]. rewrite Hhd in Hsz.
    destruct (m1 !! gc_get_header s r); [by eexists|done]. }
  destruct (gc_mark_roots_spec (roots h) s1 Hread1)
    as (s2 & Hrun2 & Hheap2 & Hst2 & Hmem2).
  exists s2. split; [done|]. split; [by rewrite Hheap2|]. split; [done|]. split.
  - intros a Ha. rewrite (Hmem2 a Ha). simpl. destruct (Hsn1 a) as [<- <-].
    destruct (m1 !! a) as [hd|]; simpl; [|done].
    destruct (root_hits s1 (roots h) a); simpl; [|done].
    by rewrite mark_header_size, mark_header_next.
  - intros a Ha. unfold is_marked.
    rewrite (Hmem2 a (chain_nonnull _ _ _ _ Hc Ha)). simpl.
    rewrite (root_hits_heap s s1) by done.
    destruct (Hin1 a Ha) as (hd & _ & ->).
    destruct (root_hits s (roots h) a); simpl.
    + apply mark_header_marked.
    + apply marked_clear.
Qed.

Lemma rooted_eq s h a : gc_heap s = Some h → rooted s a = root_hits s (roots h) a.
Proof. intros H. unfold rooted. by rewrite H. Qed.

(** [gc_collect] on a heap at rest: it returns, the live-object list becomes
    the sublist of the headers that a root entry reaches, and nothing else of
    the heap or of the byte statistics changes. *)
Lemma gc_collect_spec s h l fuel :
  heap_ok s h l → (length l < fuel)%nat →
  ∃ s' h',
    gc_collect fuel s = Ok s' ∧
    heap_ok s' h' (List.filter (rooted s) l) ∧
    same_arena h h' ∧
    used_bytes (gc_stats s') = used_bytes (gc_stats s) ∧
    free_bytes (gc_stats s') = free_bytes (gc_stats s) ∧
    stats_heap_size (gc_stats s') = stats_heap_size (gc_stats s) ∧
    collection_count (gc_stats s') = wrap (collection_count (gc_stats s) + 1) ∧
    (∀ a, a ≠ NULL → size <$> mem s' !! a = size <$> mem s !! a).
Proof.
  intros [Hheap Hidle Hstart Hcur Hend Hc Hnd Hin Hroots] Hfuel.
  unfold gc_collect. rewrite Hheap, Hidle.
  set (h1 := set_gc_running true h).
  set (s1 := with_gc_running true s).
  assert (Hheap1 : gc_heap s1 = Some h1) by (unfold s1, with_gc_running; by rewrite Hheap).
  assert (Hread1 : roots_readable s1 (roots h1)).
  { intros r Hr Hp Hh.
    rewrite (gc_is_heap_ptr_arena s s1 h h1) in Hp by done.
    rewrite (gc_get_header_arena s s1 h h1) in Hh |- * by done.
    by apply Hroots. }
  destruct (gc_mark_spec s1 h1 l fuel Hheap1 Hc Hnd Hread1 Hfuel)
    as (s2 & Hrun2 & Hheap2 & Hst2 & Hsn2 & Hmk2).
  rewrite Hrun2. simpl.
  assert (Hc2 : chain (mem s2) (objects h1) l).
  { eapply chain_ext; [|exact Hc]. intros a Ha.
    by destruct (Hsn2 a (chain_nonnull _ _ _ _ Hc Ha)) as [_ ->]. }
  rewrite Hheap1 in Hheap2.
  destruct (gc_sweep_loop_spec l h1 (mem s2) HeadLink 0 fuel (objects h1))
    as (h3 & m3 & coll & p3 & Hrun3 & Hread3 & Hc3 & Har3 & _ & Hfs3 & Hout3);
    try done.
  unfold gc_sweep. rewrite Hheap2, Hrun3. simpl.
  simpl in Hread3. injection Hread3 as <-.
  assert (Hfilter : List.filter (is_marked (mem s2)) l = List.filter (rooted s) l).
  { apply List.filter_ext_in. intros a Ha. apply list_elem_of_In in Ha.
    rewrite (Hmk2 a Ha), (rooted_eq s h a Hheap).
    by apply (root_hits_arena s s1 h h1). }
  rewrite Hfilter in Hc3.
  destruct Har3 as (Hs3 & He3 & Hsz3 & Hfp3 & Hr3 & Hcap3 & Hrun).
  assert (Hsize : ∀ a, a ≠ NULL → size <$> m3 !! a = size <$> mem s !! a).
  { intros a Ha. destruct (Hfs3 a) as [_ ->]. by destruct (Hsn2 a Ha) as [-> _]. }
  eexists. exists (set_gc_running false h3).
  split; [done|]. split.
  2:{ unfold same_arena. simpl. rewrite Hst2. simpl.
      repeat split; try done; by rewrite ?Hs3, ?He3, ?Hsz3, ?Hfp3, ?Hr3, ?Hcap3. }
  split; simpl; try done.
  - by rewrite Hs3.
  - by rewrite Hs3, Hfp3, He3.
  - by rewrite He3.
  - apply NoDup_ListNoDup, List.NoDup_filter. by apply NoDup_ListNoDup.
  - intros a Ha. apply list_elem_of_In, List.filter_In in Ha as [Ha _].
    apply list_elem_of_In in Ha. rewrite Hs3, Hfp3. by apply Hin.
  - intros r Hr Hp Hh. rewrite Hr3 in Hr. simpl in Hr.
    set (s4 := {| gc_heap := Some (set_gc_running false h3) |}) in *.
    rewrite (gc_is_heap_ptr_arena s s4 h (set_gc_running false h3)) in Hp by done.
    rewrite (gc_get_header_arena s s4 h (set_gc_running false h3)) in Hh |- * by done.
    simpl. destruct (Hroots r Hr Hp Hh) as [hd Hhd].
    specialize (Hsize _ Hh). rewrite Hhd in Hsize.
    destruct (m3 !! gc_get_header s r); [by eexists|done].
Qed.

(** *** Which headers the root array reaches *)

Lemma gc_is_heap_ptr_true s h r :
  gc_heap s = Some h →
  gc_is_heap_ptr s r = true ↔ r ≠ NULL ∧ heap_start h ≤ r < heap_end h.
Proof.
  intros Hheap. unfold gc_is_heap_ptr. rewrite Hheap.
  destruct (r =? NULL) eqn:E.
  - apply Z.eqb_eq in E. split; [done|]. intros [? _]. done.
  - apply Z.eqb_neq in E. rewrite andb_true_iff, Z.leb_le, Z.ltb_lt. tauto.
Qed.

(** An object whose payload pointer lies below the arena end survives a
    collection exactly when that pointer is an entry of the root array. *)
Lemma rooted_payload s h l a :
  heap_ok s h l → a ∈ l → payload a < heap_end h →
  rooted s a = bool_decide (payload a ∈ roots h).
Proof.
  intros [Hheap Hidle Hstart Hcur Hend Hc Hnd Hin Hroots] Ha Hlt.
  destruct (Hin a Ha) as [Hlo Hhi].
  rewrite (rooted_eq s h a Hheap). unfold root_hits, payload in *.
  unfold sizeof_gc_header in *.
  apply eq_true_iff_eq. rewrite bool_decide_eq_true, existsb_exists. split.
  - intros (r & Hr & Hhit). apply andb_true_iff in Hhit as [Hp Hh].
    apply Z.eqb_eq in Hh. unfold gc_get_header in Hh. rewrite Hp in Hh. simpl in Hh.
    apply (gc_is_heap_ptr_true s h r Hheap) in Hp as [Hnz Hrange].
    apply list_elem_of_In in Hr.
    assert (r = a + 24) as <-; [|done].
    unfold wrap, sizeof_gc_header in Hh.
    destruct (decide (24 ≤ r)) as [Hge|Hsmall].
    + rewrite Z.mod_small in Hh by lia. lia.
    + assert (Hm : (r - 24) mod 2 ^ 64 = r - 24 + 2 ^ 64).
      { symmetry. apply (Z.mod_unique_pos _ _ (-1)); lia. }
      lia.
  - intros Hr. exists (a + 24). split; [by apply list_elem_of_In|].
    assert (Hp : gc_is_heap_ptr s (a + 24) = true).
    { apply (gc_is_heap_ptr_true s h _ Hheap). unfold NULL. lia. }
    rewrite Hp. simpl. apply Z.eqb_eq. unfold gc_get_header. rewrite Hp. simpl.
    unfold sizeof_gc_header. replace (a + 24 - 24) with a by lia.
    apply wrap_small. lia.
Qed.

(** The payload pointer of a zero-size object allocated flush with the arena
    end is the arena end itself, which [gc_is_heap_ptr] rejects. *)
Lemma payload_at_heap_end_not_heap_ptr s h :
  gc_heap s = Some h → gc_is_heap_ptr s (heap_end h) = false.
Proof.
  intros Hheap. unfold gc_is_heap_ptr. rewrite Hheap.
  destruct (heap_end h =? NULL); [done|].
  apply andb_false_iff. right. apply Z.ltb_ge. lia.
Qed.

(** Mark and sweep, when no live object sits flush with the arena end: the
    collection returns and keeps exactly the objects whose payload pointer is
    in the root array. *)
Lemma gc_collect_keeps_exactly_rooted s h l fuel :
  heap_ok s h l → (∀ a, a ∈ l → payload a < heap_end h) →
  (length l < fuel)%nat →
  ∃ s' h', gc_collect fuel s = Ok s' ∧ same_arena h h' ∧
    heap_ok s' h' (List.filter (λ a, bool_decide (payload a ∈ roots h)) l).
Proof.
  intros Hok Hbelow Hfuel.
  destruct (gc_collect_spec s h l fuel Hok Hfuel) as (s' & h' & Hrun & Hok' & Har & _).
  exists s', h'. split; [done|]. split; [done|].
  erewrite List.filter_ext_in; [exact Hok'|].
  intros a Ha. apply list_elem_of_In in Ha. symmetry.
  by eapply rooted_payload; [| |apply Hbelow].
Qed.

(** *** Allocation *)

Lemma gc_init_ok heap_size0 p_heap p_arena p_roots s s' :
  gc_init heap_size0 p_heap p_arena p_roots s = (true, s') →
  0 < p_arena → 0 ≤ heap_size0 → p_arena + heap_size0 < 2 ^ 64 →
  ∃ h, heap_ok s' h [] ∧ heap_start h = p_arena ∧
       heap_end h = p_arena + heap_size0 ∧ free_ptr h = p_arena.
Proof.
  unfold gc_init. intros Hinit Hpos Hsz Hfit.
  destruct (gc_heap s); [done|].
  destruct (p_heap =? NULL); [done|].
  destruct (p_arena =? NULL); [done|].
  destruct (p_roots =? NULL); [done|].
  injection Hinit as <-. eexists. split; [split; [reflexivity|..]|]; cbn; try done.
  - rewrite wrap_small; lia.
  - rewrite wrap_small; lia.
  - apply NoDup_nil_2.
  - intros a Ha. by apply elem_of_nil in Ha.
  - intros r Hr. by apply elem_of_nil in Hr.
  - cbn. rewrite wrap_small; [done|lia].
Qed.

Lemma gc_alloc_bump_ok s h l sz flgs :
  heap_ok s h l → 0 ≤ sz →
  free_ptr h + sizeof_gc_header + sz ≤ heap_end h →
  ∃ s' h',
    gc_alloc_bump (wrap (sizeof_gc_header + sz)) sz flgs h s
      = (payload (free_ptr h), s') ∧
    heap_ok s' h' (free_ptr h :: l) ∧
    objects h' = free_ptr h ∧
    free_ptr h' = free_ptr h + sizeof_gc_header + sz ∧
    heap_start h' = heap_start h ∧ heap_end h' = heap_end h ∧
    roots h' = roots h ∧
    mem s' !! free_ptr h = Some {| flags := flgs; size := sz; next := objects h |} ∧
    collection_count (gc_stats s') = collection_count (gc_stats s).
Proof.
  intros [Hheap Hidle Hstart Hcur Hend Hc Hnd Hin Hroots] Hsz Hfit.
  unfold sizeof_gc_header in *.
  assert (Hfresh : free_ptr h ∉ l).
  { intros Hfp. destruct (Hin _ Hfp). unfold sizeof_gc_header in *. lia. }
  assert (Htot : wrap (24 + sz) = 24 + sz) by (apply wrap_small; lia).
  unfold gc_alloc_bump. rewrite Htot. simpl.
  rewrite (wrap_small (free_ptr h + (24 + sz))) by lia.
  rewrite (wrap_small (free_ptr h + sizeof_gc_header)) by (unfold sizeof_gc_header; lia).
  eexists. eexists. split; [reflexivity|].
  split; [split; [reflexivity|..]; cbn; try done; try lia|].
  - split; [done|]. split; [unfold NULL; lia|].
    eexists. split; [by rewrite lookup_insert_eq|]. simpl.
    eapply chain_ext; [|exact Hc]. intros a Ha.
    rewrite lookup_insert_ne; [done|]. intros <-. done.
  - by apply NoDup_cons.
  - intros a Ha. unfold sizeof_gc_header. apply elem_of_cons in Ha as [->|Ha].
    + lia.
    + destruct (Hin a Ha). unfold sizeof_gc_header in *. lia.
  - intros r Hr Hp Hh. simpl in *.
    set (s' := {| gc_heap := _ |}) in *.
    rewrite (gc_is_heap_ptr_arena s s' h _ r Hheap eq_refl) in Hp by done.
    rewrite (gc_get_header_arena s s' h _ r Hheap eq_refl) in Hh |- * by done.
    apply lookup_insert_is_Some'. right. by apply Hroots.
  - simpl. rewrite lookup_insert_eq. repeat split; try done. lia.
Qed.

(** *** Root set *)

(** Registering the payload pointer of an allocated object, or any pointer
    that [gc_mark_object] will skip, keeps the heap at rest. *)
Lemma gc_add_root_ok p_new ptr s h l b s' :
  heap_ok s h l →
  (gc_is_heap_ptr s ptr = true → gc_get_header s ptr ≠ NULL →
   is_Some (mem s !! gc_get_header s ptr)) →
  gc_add_root p_new ptr s = (b, s') →
  ∃ h', heap_ok s' h' l ∧ objects h' = objects h ∧
        (b = true → ptr ∈ roots h') ∧ (∀ r, r ∈ roots h → r ∈ roots h').
Proof.
  intros Hok Hptr Hadd. pose proof Hok as [Hheap Hidle Hstart Hcur Hend Hc Hnd Hin Hroots].
  unfold gc_add_root in Hadd. rewrite Hheap in Hadd.
  destruct (ptr =? NULL) eqn:Hnull.
  { injection Hadd as <- <-. exists h. split; [exact Hok|]. by split. }
  destruct (existsb (Z.eqb ptr) (roots h)) eqn:Hex.
  { injection Hadd as <- <-. exists h. split; [exact Hok|]. split; [done|].
    split; [|done]. intros _.
    apply existsb_exists in Hex as (x & Hx & Heq). apply Z.eqb_eq in Heq. subst x.
    by apply list_elem_of_In. }
  destruct (_ && _).
  { injection Hadd as <- <-. exists h. split; [exact Hok|]. by split. }
  injection Hadd as <- <-. eexists. split; [split; [reflexivity|..]; cbn; try done|].
  - intros r Hr Hp Hh. set (s' := {| gc_heap := _ |}) in *.
    rewrite (gc_is_heap_ptr_arena s s' h _ r Hheap eq_refl) in Hp by done.
    rewrite (gc_get_header_arena s s' h _ r Hheap eq_refl) in Hh |- * by done.
    cbn. apply elem_of_app in Hr as [Hr|Hr]; [by apply Hroots|].
    apply list_elem_of_singleton in Hr as ->. by apply Hptr.
  - cbn. split; [done|]. split.
    + intros _. apply elem_of_app. right. by apply list_elem_of_singleton.
    + intros r Hr. apply elem_of_app. by left.
Qed.

Lemma remove_first_subset (ptr : Z) (rs : list Z) (r : Z) :
  r ∈ GC.remove_first ptr rs → r ∈ rs.
Proof.
  induction rs as [|x rs IH]; simpl; [done|].
  destruct (x =? ptr).
  - intros Hr. by apply list_elem_of_further.
  - intros Hr. apply elem_of_cons in Hr as [->|Hr]; [apply list_elem_of_here|].
    apply list_elem_of_further. by apply IH.
Qed.

Lemma gc_remove_root_ok ptr s h l :
  heap_ok s h l →
  ∃ h', heap_ok (gc_remove_root ptr s) h' l ∧ objects h' = objects h ∧
        (∀ r, r ∈ roots h' → r ∈ roots h).
Proof.
  intros Hok. pose proof Hok as [Hheap Hidle Hstart Hcur Hend Hc Hnd Hin Hroots].
  unfold gc_remove_root. rewrite Hheap.
  destruct (ptr =? NULL); [exists h; split; [exact Hok|by split]|].
  eexists. split; [split; [reflexivity|..]; cbn; try done|].
  - intros r Hr Hp Hh. set (s' := {| gc_heap := _ |}) in *.
    rewrite (gc_is_heap_ptr_arena s s' h _ r Hheap eq_refl) in Hp by done.
    rewrite (gc_get_header_arena s s' h _ r Hheap eq_refl) in Hh |- * by done.
    cbn. apply Hroots; [|done|done]. by eapply remove_first_subset.
  - cbn. split; [done|]. intros r. apply remove_first_subset.
Qed.

(** *** Byte statistics: what every call leaves alone *)

Lemma gc_mark_object_frame s r s' :
  gc_mark_object s r = Ok s' → gc_heap s' = gc_heap s ∧ gc_stats s' = gc_stats s.
Proof.
  unfold gc_mark_object. intros H.
  destruct ((r =? NULL) || negb (gc_is_heap_ptr s r)); [by injection H as <-|].
  destruct (gc_get_header s r =? NULL); [by injection H as <-|].
  apply res_bind_ok in H as (hd & _ & H).
  destruct (marked hd); by injection H as <-.
Qed.

Lemma gc_mark_roots_frame rs : ∀ s s',
  gc_mark_roots rs s = Ok s' → gc_heap s' = gc_heap s ∧ gc_stats s' = gc_stats s.
Proof.
  induction rs as [|r rs IH]; intros s s' H; simpl in H.
  - by injection H as <-.
  - apply res_bind_ok in H as (s1 & H1 & H).
    destruct (IH _ _ H) as [-> ->].
    destruct (r =? NULL); [by injection H1 as <-|].
    by apply gc_mark_object_frame in H1.
Qed.

Lemma gc_mark_frame fuel s s' :
  gc_mark fuel s = Ok s' → gc_heap s' = gc_heap s ∧ gc_stats s' = gc_stats s.
Proof.
  unfold gc_mark. intros H. destruct (gc_heap s) as [h|] eqn:Hh.
  - apply res_bind_ok in H as (m' & _ & H).
    apply gc_mark_roots_frame in H as [-> ->]. simpl. by rewrite ?Hh.
  - by injection H as <-.
Qed.

Lemma gc_collect_bytes fuel s s' :
  gc_collect fuel s = Ok s' →
  used_bytes (gc_stats s') = used_bytes (gc_stats s) ∧
  free_bytes (gc_stats s') = free_bytes (gc_stats s) ∧
  stats_heap_size (gc_stats s') = stats_heap_size (gc_stats s).
Proof.
  unfold gc_collect. intros H. destruct (gc_heap s) as [h|]; [|by injection H as <-].
  destruct (gc_running h); [by injection H as <-|].
  apply res_bind_ok in H as (s2 & H2 & H).
  apply res_bind_ok in H as (s3 & H3 & H). injection H as <-. simpl.
  apply gc_mark_frame in H2 as [_ Hst2]. simpl in Hst2.
  unfold gc_sweep in H3. destruct (gc_heap s2); [|injection H3 as <-; by rewrite Hst2].
  apply res_bind_ok in H3 as ([[h' m'] coll] & _ & H3). injection H3 as <-.
  simpl. by rewrite Hst2.
Qed.

Lemma stats_after_alloc_balanced total sz st :
  stats_balanced st → stats_balanced (stats_after_alloc total sz st).
Proof.
  unfold stats_balanced, stats_after_alloc, wrap. simpl. intros <-.
  rewrite <- Z.add_mod by lia. f_equal. lia.
Qed.

Lemma gc_alloc_bytes fuel sz flgs s p s' :
  gc_alloc fuel sz flgs s = Ok (p, s') →
  stats_heap_size (gc_stats s') = stats_heap_size (gc_stats s) ∧
  ((used_bytes (gc_stats s') = used_bytes (gc_stats s) ∧
    free_bytes (gc_stats s') = free_bytes (gc_stats s) ∧ p = NULL) ∨
   (used_bytes (gc_stats s') = wrap (used_bytes (gc_stats s) + (sizeof_gc_header + sz)) ∧
    free_bytes (gc_stats s') = wrap (free_bytes (gc_stats s) - (sizeof_gc_header + sz)))).
Proof.
  assert (Hu : ∀ u, wrap (u + wrap (sizeof_gc_header + sz))
                    = wrap (u + (sizeof_gc_header + sz))).
  { intros u. unfold wrap. by rewrite Z.add_mod_idemp_r by lia. }
  assert (Hf : ∀ f, wrap (f - wrap (sizeof_gc_header + sz))
                    = wrap (f - (sizeof_gc_header + sz))).
  { intros f. unfold wrap. by rewrite Zminus_mod_idemp_r. }
  unfold gc_alloc. intros H. destruct (gc_heap s) as [h|].
  2:{ injection H as <- <-. split; [done|]. by left. }
  destruct (heap_end h <? _).
  - apply res_bind_ok in H as (s1 & H1 & H).
    apply gc_collect_bytes in H1 as (Hused & Hfree & Hsize).
    destruct (gc_heap s1) as [h1|]; [|done].
    destruct (heap_end h1 <? _).
    + injection H as <- <-. split; [done|]. by left.
    + injection H as <- <-. simpl. split; [done|]. right.
      by rewrite Hu, Hf, Hused, Hfree.
  - injection H as <- <-. simpl. split; [done|]. right. by rewrite Hu, Hf.
Qed.

(** *** Example states *)

Lemma default_heap_ok : heap_ok default_heap default_heap_struct [].
Proof.
  split; try reflexivity; cbn; try lia.
  - apply NoDup_nil_2.
  - intros a Ha. by apply elem_of_nil in Ha.
  - intros r Hr. by apply elem_of_nil in Hr.
Defined.

(** [two_objects_heap] is what the public API builds. *)
Example two_objects_heap_reachable :
  ('(p1, s1) ← vela_gc_alloc 1 16 default_heap;
   '(p2, s2) ← vela_gc_alloc 1 32 s1;
   Ok (vela_gc_add_root NULL p1 s2)) = Ok two_objects_heap.
Proof. vm_compute. reflexivity. Qed.

Lemma two_objects_heap_ok :
  heap_ok two_objects_heap two_objects_heap_struct [65576; 65536].
Proof.
  split; try reflexivity; cbn; try lia.
  - split; [reflexivity|]. split; [done|]. eexists. split; [reflexivity|]. cbn.
    split; [reflexivity|]. split; [done|]. eexists. split; [reflexivity|]. reflexivity.
  - apply NoDup_cons. split; [|apply NoDup_singleton].
    intros H. apply list_elem_of_singleton in H. done.
  - intros a Ha. unfold sizeof_gc_header.
    apply elem_of_cons in Ha as [->|Ha]; [lia|].
    apply list_elem_of_singleton in Ha as ->. lia.
  - intros r Hr _ _. apply list_elem_of_singleton in Hr as ->.
    eexists. vm_compute. reflexivity.
Defined.

(** *** The properties of the specification *)

(** C1 (mark-sweep correctness), evaluated where the code departs from it.
    In an arena of exactly one header, [gc_alloc(0, 0)] succeeds and returns
    the payload pointer 65560, which is the arena end.  The pointer is then
    registered with [gc_add_root].  The following [gc_collect] nevertheless
    unlinks the object: before the collection the live-object list holds its
    header 65536, afterwards the list is empty although 65560 is still in the
    root array.  [gc_mark_object] skipped the root entry because
    [gc_is_heap_ptr] rejects a pointer equal to [heap_end]. *)
Theorem gc_collect_unlinks_rooted_zero_size_object :
  ∃ s1 s2 s3,
    gc_alloc 1 0 0 one_header_heap = Ok (65560, s1) ∧
    gc_add_root NULL 65560 s1 = (true, s2) ∧
    (roots <$> gc_heap s2) = Some [65560] ∧
    live_objects 2 s2 = Ok [65536] ∧
    payload 65536 = 65560 ∧
    gc_is_heap_ptr s2 65560 = false ∧
    gc_collect 2 s2 = Ok s3 ∧
    (roots <$> gc_heap s3) = Some [65560] ∧
    live_objects 2 s3 = Ok [].
Proof.
  do 3 eexists. split; [vm_compute; reflexivity|].
  split; [vm_compute; reflexivity|].
  repeat split; vm_compute; reflexivity.
Qed.

(** The same loss through the public wrappers and the default 1 MiB arena:
    one allocation fills the arena up to its last 24 bytes, the zero-size
    allocation that follows takes exactly those. *)
Example default_arena_loses_rooted_zero_size_object :
  ∃ s1 s2 s3,
    vela_gc_alloc 1 (1048576 - 48) default_heap = Ok (65560, s1) ∧
    vela_gc_alloc 1 0 s1 = Ok (65536 + 1048576, s2) ∧
    live_objects 3 (vela_gc_add_root NULL (65536 + 1048576) s2)
      = Ok [65536 + 1048576 - 24; 65536] ∧
    vela_gc_collect 3 (vela_gc_add_root NULL (65536 + 1048576) s2) = Ok s3 ∧
    (roots <$> gc_heap s3) = Some [65536 + 1048576] ∧
    live_objects 3 s3 = Ok [].
Proof.
  do 3 eexists. split; [vm_compute; reflexivity|].
  split; [vm_compute; reflexivity|].
  repeat split; vm_compute; reflexivity.
Qed.

(** C2, as stated, fails: a successful [gc_alloc] may return a pointer that
    [gc_is_heap_ptr] rejects.  In an arena of exactly one header a request of
    size 0 passes the space check, links a header at 65536, and returns
    65560, the arena end. *)
Lemma gc_alloc_zero_size_result_not_heap_ptr :
  ∃ s1,
    gc_alloc 1 0 0 one_header_heap = Ok (65560, s1) ∧
    65560 ≠ NULL ∧
    live_objects 2 s1 = Ok [65536] ∧
    gc_is_heap_ptr s1 65560 = false.
Proof.
  eexists. split; [vm_compute; reflexivity|]. split; [done|].
  split; vm_compute; reflexivity.
Qed.

(** What [gc_alloc] does for every other request whose end address fits the
    machine word.  On a heap at rest:
    - if the bump cursor plus header and payload exceeds the arena end,
      [gc_alloc] runs one collection (its state is that of one [gc_collect],
      whose counter went up by one), checks again, and returns [NULL];
    - otherwise it returns, without collecting, the payload pointer behind the
      old cursor, and the new header, carrying the requested flags and size,
      is the head of the object list and links to the previous head;
      [gc_is_heap_ptr] accepts the pointer, except for a request of size 0
      whose header ends flush with the arena.
    In both cases the outcome is a value, never a fault. *)
Lemma gc_alloc_collects_once_or_bumps s h l sz flgs fuel :
  heap_ok s h l → 0 ≤ sz →
  free_ptr h + sizeof_gc_header + sz < 2 ^ 64 →
  (length l < fuel)%nat →
  (heap_end h < free_ptr h + sizeof_gc_header + sz →
     ∃ s1, gc_collect fuel s = Ok s1 ∧
           gc_alloc fuel sz flgs s = Ok (NULL, s1) ∧
           collection_count (gc_stats s1)
             = wrap (collection_count (gc_stats s) + 1)) ∧
  (free_ptr h + sizeof_gc_header + sz ≤ heap_end h →
     ∃ s' h',
       gc_alloc fuel sz flgs s = Ok (payload (free_ptr h), s') ∧
       (0 < sz ∨ free_ptr h + sizeof_gc_header < heap_end h →
        gc_is_heap_ptr s' (payload (free_ptr h)) = true) ∧
       (sz = 0 → free_ptr h + sizeof_gc_header = heap_end h →
        gc_is_heap_ptr s' (payload (free_ptr h)) = false) ∧
       gc_heap s' = Some h' ∧ objects h' = free_ptr h ∧
       mem s' !! free_ptr h
         = Some {| flags := flgs; size := sz; next := objects h |} ∧
       collection_count (gc_stats s') = collection_count (gc_stats s) ∧
       heap_ok s' h' (free_ptr h :: l)).
Proof.
  intros Hok Hsz Hfit Hfuel.
  pose proof Hok as [Hheap Hidle Hstart Hcur Hend Hc Hnd Hin Hroots].
  unfold sizeof_gc_header in *.
  assert (Htot : wrap (24 + sz) = 24 + sz) by (apply wrap_small; lia).
  assert (Hnew : wrap (free_ptr h + (24 + sz)) = free_ptr h + 24 + sz).
  { rewrite wrap_small; lia. }
  split.
  - intros Hfull.
    destruct (gc_collect_spec s h l fuel Hok Hfuel)
      as (s1 & h1 & Hrun & Hok1 & Har & _ & _ & _ & Hcount & _).
    exists s1. split; [done|]. split; [|done].
    unfold gc_alloc. rewrite Hheap. cbv zeta. unfold sizeof_gc_header.
    rewrite Htot, Hnew.
    replace (heap_end h <? free_ptr h + 24 + sz) with true
      by (symmetry; apply Z.ltb_lt; lia).
    rewrite Hrun. simpl. rewrite (ok_heap _ _ _ Hok1).
    destruct Har as (_ & -> & _ & -> & _). rewrite Hnew.
    by replace (heap_end h <? free_ptr h + 24 + sz) with true
      by (symmetry; apply Z.ltb_lt; lia).
  - intros Hroom.
    destruct (gc_alloc_bump_ok s h l sz flgs Hok) as
      (s' & h' & Hrun & Hok' & Hobj & Hfp & Hs & He & Hr & Hmem & Hcount);
      [lia|unfold sizeof_gc_header; lia|].
    exists s', h'. split.
    { unfold gc_alloc. rewrite Hheap. cbv zeta. unfold sizeof_gc_header in *.
      rewrite Htot in Hrun |- *. rewrite Hnew.
      replace (heap_end h <? free_ptr h + 24 + sz) with false
        by (symmetry; apply Z.ltb_ge; lia).
      by rewrite Hrun. }
    split.
    { intros Hin_arena.
      apply (gc_is_heap_ptr_true s' h' _ (ok_heap _ _ _ Hok')).
      unfold payload, sizeof_gc_header, NULL. lia. }
    split.
    { intros -> Hflush. apply not_true_is_false. intros Htrue.
      apply (gc_is_heap_ptr_true s' h' _ (ok_heap _ _ _ Hok')) in Htrue.
      unfold payload, sizeof_gc_header in Htrue. lia. }
    by rewrite (ok_heap _ _ _ Hok').
Qed.

(** Both outcomes on concrete heaps: 16 bytes from the default arena, and 8
    bytes from an arena of exactly one header. *)
Lemma gc_alloc_collects_once_or_bumps_witness :
  (∃ s' h',
     gc_alloc 1 16 7 default_heap = Ok (65560, s') ∧
     gc_is_heap_ptr s' 65560 = true ∧
     gc_heap s' = Some h' ∧ objects h' = 65536 ∧
     mem s' !! 65536 = Some {| flags := 7; size := 16; next := NULL |} ∧
     collection_count (gc_stats s') = 0 ∧
     heap_ok s' h' [65536]) ∧
  (∃ s1,
     gc_collect 1 one_header_heap = Ok s1 ∧
     gc_alloc 1 8 0 one_header_heap = Ok (NULL, s1) ∧
     collection_count (gc_stats s1) = 1).
Proof.
  assert (H1 : 0 ≤ 16) by done.
  assert (H2 : free_ptr default_heap_struct + sizeof_gc_header + 16 < 2 ^ 64)
    by reflexivity.
  assert (H3 : (length (@nil Z) < 1)%nat) by (simpl; lia).
  assert (H4 : free_ptr default_heap_struct + sizeof_gc_header + 16
               ≤ heap_end default_heap_struct) by (by vm_compute).
  split.
  - destruct (proj2 (gc_alloc_collects_once_or_bumps default_heap default_heap_struct
                       [] 16 7 1 default_heap_ok H1 H2 H3) H4)
      as (s' & h' & Hrun & Hptr & _ & Hrest).
    exists s', h'. split; [exact Hrun|]. split; [|exact Hrest].
    apply Hptr. by left.
  - destruct (gc_init_ok 24 4096 65536 8192 boot one_header_heap)
      as (h & Hok & _ & He & Hf); [reflexivity|done|done|done|].
    assert (H5 : 0 ≤ 8) by done.
    assert (H6 : free_ptr h + sizeof_gc_header + 8 < 2 ^ 64).
    { rewrite Hf. reflexivity. }
    assert (H7 : heap_end h < free_ptr h + sizeof_gc_header + 8).
    { rewrite Hf, He. reflexivity. }
    exact (proj1 (gc_alloc_collects_once_or_bumps one_header_heap h [] 8 0 1
                    Hok H5 H6 H3) H7).
Defined.

(** C7 (no-reclaim invariant).  On every heap at rest, [gc_collect] returns;
    whatever part of the live-object list it unlinks, the [free_bytes]
    statistic is not larger afterwards (it is the same), and the bump cursor
    has not moved: the memory of the unlinked objects is not handed back. *)
Theorem gc_collect_does_not_raise_free_bytes s h l fuel :
  heap_ok s h l → (length l < fuel)%nat →
  ∃ s' h',
    gc_collect fuel s = Ok s' ∧
    heap_ok s' h' (List.filter (rooted s) l) ∧
    free_bytes (gc_stats s') ≤ free_bytes (gc_stats s) ∧
    free_bytes (gc_stats s') = free_bytes (gc_stats s) ∧
    free_ptr h' = free_ptr h.
Proof.
  intros Hok Hfuel.
  destruct (gc_collect_spec s h l fuel Hok Hfuel)
    as (s' & h' & Hrun & Hok' & Har & _ & Hfree & _).
  exists s', h'. split; [done|]. split; [done|].
  split; [lia|]. split; [done|]. by destruct Har as (_ & _ & _ & -> & _).
Qed.

Lemma gc_collect_does_not_raise_free_bytes_witness :
  heap_ok two_objects_heap two_objects_heap_struct [65576; 65536] ∧
  ∃ s' h',
    gc_collect 3 two_objects_heap = Ok s' ∧
    heap_ok s' h' [65536] ∧
    free_bytes (gc_stats s') ≤ 1048576 - 96 ∧
    free_bytes (gc_stats s') = 1048576 - 96 ∧
    free_ptr h' = 65536 + 96.
Proof.
  split; [exact two_objects_heap_ok|].
  assert (Hfuel : (length [65576; 65536]%Z < 3)%nat) by (simpl; lia).
  exact (gc_collect_does_not_raise_free_bytes two_objects_heap
           two_objects_heap_struct [65576; 65536] 3 two_objects_heap_ok Hfuel).
Defined.

(** The changes of [used_bytes] and [free_bytes] read as integers, when the
    sums stay inside the machine word. *)
Lemma gc_alloc_bytes_exact fuel sz flgs s p s' :
  gc_alloc fuel sz flgs s = Ok (p, s') → p ≠ NULL →
  0 ≤ used_bytes (gc_stats s) →
  used_bytes (gc_stats s) + (sizeof_gc_header + sz) < 2 ^ 64 →
  sizeof_gc_header + sz ≤ free_bytes (gc_stats s) < 2 ^ 64 → 0 ≤ sz →
  used_bytes (gc_stats s') = used_bytes (gc_stats s) + (sizeof_gc_header + sz) ∧
  free_bytes (gc_stats s') = free_bytes (gc_stats s) - (sizeof_gc_header + sz).
Proof.
  intros H Hp Hu Hu' Hf Hsz.
  destruct (gc_alloc_bytes _ _ _ _ _ _ H) as [_ [(_ & _ & ?)|[-> ->]]]; [done|].
  unfold sizeof_gc_header in *. rewrite !wrap_small; lia.
Qed.

(** C10 (statistics accounting).  In [size_t] arithmetic,
    [used_bytes + free_bytes == heap_size]
    - holds after a successful [gc_init];
    - is kept by every [gc_alloc] that returns, and an allocation that
      returns a pointer has added [sizeof(gc_header_t) + size] to [used_bytes]
      and taken the same amount from [free_bytes];
    - is kept by every [gc_collect] that returns, which changes neither
      [used_bytes] nor [free_bytes];
    and on a heap at rest both [gc_collect] and [gc_alloc] do return. *)
Theorem gc_stats_accounting :
  (∀ heap_size0 p_heap p_arena p_roots s s',
     0 ≤ heap_size0 < 2 ^ 64 →
     gc_init heap_size0 p_heap p_arena p_roots s = (true, s') →
     stats_balanced (gc_stats s') ∧
     used_bytes (gc_stats s') = 0 ∧ free_bytes (gc_stats s') = heap_size0) ∧
  (∀ fuel sz flgs s p s',
     stats_balanced (gc_stats s) →
     gc_alloc fuel sz flgs s = Ok (p, s') →
     stats_balanced (gc_stats s') ∧
     (p ≠ NULL →
      used_bytes (gc_stats s')
        = wrap (used_bytes (gc_stats s) + (sizeof_gc_header + sz)) ∧
      free_bytes (gc_stats s')
        = wrap (free_bytes (gc_stats s) - (sizeof_gc_header + sz)))) ∧
  (∀ fuel s s',
     stats_balanced (gc_stats s) →
     gc_collect fuel s = Ok s' →
     stats_balanced (gc_stats s') ∧
     used_bytes (gc_stats s') = used_bytes (gc_stats s) ∧
     free_bytes (gc_stats s') = free_bytes (gc_stats s)) ∧
  (∀ s h l fuel sz flgs,
     heap_ok s h l → (length l < fuel)%nat →
     (∃ s', gc_collect fuel s = Ok s') ∧
     (∃ p s', gc_alloc fuel sz flgs s = Ok (p, s'))).
Proof.
  split; [|split; [|split]].
  - intros heap_size0 p_heap p_arena p_roots s s' Hrange Hinit.
    unfold gc_init in Hinit. destruct (gc_heap s); [done|].
    destruct (p_heap =? NULL); [done|].
    destruct (p_arena =? NULL); [done|].
    destruct (p_roots =? NULL); [done|].
    injection Hinit as <-. unfold stats_balanced. cbn.
    split; [by apply wrap_small|done].
  - intros fuel sz flgs s p s' Hbal Hrun.
    destruct (gc_alloc_bytes _ _ _ _ _ _ Hrun) as [Hsize [(Hu & Hf & Hp)|[Hu Hf]]].
    + split; [|done]. unfold stats_balanced in *. by rewrite Hu, Hf, Hsize.
    + split; [|done]. unfold stats_balanced in *. rewrite Hu, Hf, Hsize, <- Hbal.
      unfold wrap. rewrite <- Z.add_mod by lia. f_equal. lia.
  - intros fuel s s' Hbal Hrun.
    destruct (gc_collect_bytes _ _ _ Hrun) as (Hu & Hf & Hsize).
    split; [|done]. unfold stats_balanced in *. by rewrite Hu, Hf, Hsize.
  - intros s h l fuel sz flgs Hok Hfuel.
    destruct (gc_collect_spec s h l fuel Hok Hfuel) as (s1 & h1 & Hrun & Hok1 & _).
    split; [by exists s1|].
    unfold gc_alloc. rewrite (ok_heap _ _ _ Hok). cbv zeta.
    destruct (heap_end h <? _); [|by eexists _, _].
    rewrite Hrun. simpl. rewrite (ok_heap _ _ _ Hok1).
    destruct (heap_end h1 <? _); by eexists _, _.
Qed.

Lemma gc_stats_accounting_witness :
  stats_balanced (gc_stats default_heap) ∧
  (∃ s', gc_alloc 1 16 0 default_heap = Ok (65560, s') ∧
         stats_balanced (gc_stats s') ∧
         used_bytes (gc_stats s') = 40 ∧
         free_bytes (gc_stats s') = 1048576 - 40) ∧
  (∃ s', gc_collect 3 two_objects_heap = Ok s' ∧
         stats_balanced (gc_stats s') ∧
         used_bytes (gc_stats s') = 96 ∧
         free_bytes (gc_stats s') = 1048576 - 96).
Proof.
  destruct gc_stats_accounting as (Hinit & Halloc & Hcollect & Htotal).
  assert (Hbal0 : stats_balanced (gc_stats default_heap)).
  { apply (Hinit 1048576 4096 65536 8192 boot default_heap); [by vm_compute|].
    reflexivity. }
  split; [exact Hbal0|]. split.
  - eexists. split; [vm_compute; reflexivity|].
    match goal with
    | |- stats_balanced (gc_stats ?s1) ∧ _ =>
      destruct (Halloc 1%nat 16 0 default_heap 65560 s1 Hbal0) as [Hbal Hd];
        [vm_compute; reflexivity|]
    end.
    split; [exact Hbal|]. destruct Hd as [Hu Hf]; [done|].
    split; [exact Hu|exact Hf].
  - eexists. split; [vm_compute; reflexivity|].
    assert (Hbal1 : stats_balanced (gc_stats two_objects_heap)) by reflexivity.
    match goal with
    | |- stats_balanced (gc_stats ?s1) ∧ _ =>
      destruct (Hcollect 3%nat two_objects_heap s1 Hbal1) as (Hbal & Hu & Hf);
        [vm_compute; reflexivity|]
    end.
    split; [exact Hbal|]. split; [exact Hu|exact Hf].
Defined.

End GC_properties.

(** ** Heap and collector: the rest of the API *)

Section GC_api.
Import GC.

Implicit Types (m : gmap Z gc_header_t) (l : list Z) (s : gc_state).


Lemma wrap_add_l (a b : Z) : wrap (wrap a + b) = wrap (a + b).
Proof. unfold wrap. by rewrite Zplus_mod_idemp_l. Qed.

Lemma wrap_add_r (a b : Z) : wrap (a + wrap b) = wrap (a + b).
Proof. unfold wrap. by rewrite Zplus_mod_idemp_r. Qed.

Lemma wrap_sub_l (a b : Z) : wrap (wrap a - b) = wrap (a - b).
Proof. unfold wrap. by rewrite Zminus_mod_idemp_l. Qed.

Lemma wrap_sub_r (a b : Z) : wrap (a - wrap b) = wrap (a - b).
Proof. unfold wrap. by rewrite Zminus_mod_idemp_r. Qed.

Lemma wrap_wrap (a : Z) : wrap (wrap a) = wrap a.
Proof. unfold wrap. by rewrite Zmod_mod. Qed.

(** *** What a sweep counts *)

Lemma live_bytes_ext m m' l :
  (∀ a, a ∈ l → size <$> m' !! a = size <$> m !! a) →
  live_bytes m' l = live_bytes m l.
Proof.
  induction l as [|a l IH]; intros H; simpl; [done|].
  rewrite IH by (intros b Hb; apply H; by apply list_elem_of_further).
  specialize (H a (list_elem_of_here _ _)).
  destruct (m' !! a), (m !! a); simpl in H; congruence.
Qed.

Lemma live_bytes_split m (P : Z → bool) l :
  live_bytes m l
  = live_bytes m (List.filter P l) + live_bytes m (List.filter (λ a, negb (P a)) l).
Proof.
  induction l as [|a l IH]; simpl; [done|].
  destruct (P a); simpl; lia.
Qed.

Lemma filter_length_split (P : Z → bool) l :
  length l = (length (List.filter P l) + length (List.filter (λ a, negb (P a)) l))%nat.
Proof.
  induction l as [|a l IH]; simpl; [done|].
  destruct (P a); simpl; lia.
Qed.

Lemma write_link_unlink h m c a l q :
  link_ok m c (a :: l) →
  ∃ h1 m1, write_link h m c q = Ok (h1, m1) ∧
    object_count h1 = object_count h ∧
    read_link h1 m1 c = Ok q ∧
    (∀ b, NextLink b ≠ c → m1 !! b = m !! b) ∧
    link_ok m1 c l.
Proof.
  intros Hlink. destruct c as [|x]; simpl in *.
  - exists (set_objects q h), m. by repeat split.
  - destruct Hlink as [Hx [hx Hhx]].
    exists h, (<[x:=set_next q hx]> m).
    unfold load. rewrite Hhx. simpl. split; [done|]. split; [done|].
    split; [by rewrite lookup_insert_eq|]. split.
    { intros b Hb. rewrite lookup_insert_ne; [done|]. congruence. }
    split; [by apply not_elem_of_cons in Hx as [_ Hx]|].
    rewrite lookup_insert_eq. by eexists.
Qed.

Lemma gc_sweep_loop_counts l : ∀ h m c coll fuel p h' m' coll',
  read_link h m c = Ok p → chain m p l → NoDup l → link_ok m c l →
  gc_sweep_loop fuel h m c coll = Ok (h', m', coll') →
  (∀ n, object_count h = wrap n →
     object_count h'
     = wrap (n - Z.of_nat (length (List.filter (λ a, negb (is_marked m a)) l)))) ∧
  wrap coll'
    = wrap (coll + live_bytes m (List.filter (λ a, negb (is_marked m a)) l)).
Proof.
  induction l as [|a l IH]; intros h m c coll fuel p h' m' coll'
    Hread Hc Hnd Hlink Hrun; (destruct fuel as [|fuel]; [done|]).
  - simpl in Hc. subst p. simpl in Hrun. rewrite Hread in Hrun. simpl in Hrun.
    injection Hrun as <- <- <-. simpl. split; [|by rewrite Z.add_0_r].
    intros n ->. by rewrite Z.sub_0_r.
  - simpl in Hc. destruct Hc as (-> & Hnz & hd & Hhd & Hc).
    apply NoDup_cons in Hnd as [Hnotin Hnd].
    simpl gc_sweep_loop in Hrun. rewrite Hread in Hrun. simpl in Hrun.
    apply Z.eqb_neq in Hnz as Hnzb. rewrite Hnzb in Hrun.
    unfold load at 1 in Hrun. rewrite Hhd in Hrun. simpl in Hrun.
    assert (Hma : is_marked m a = marked hd) by (unfold is_marked; by rewrite Hhd).
    simpl List.filter. rewrite Hma.
    destruct (marked hd) eqn:Hmark; simpl in Hrun |- *.
    + eapply (IH h m (NextLink a) coll fuel (next hd)); try done; simpl.
      unfold load. by rewrite Hhd.
    + destruct (write_link_unlink h m c a l (next hd) Hlink)
        as (h1 & m1 & Hw & Hcount1 & Hread1 & Hout1 & Hlink1).
      rewrite Hw in Hrun. simpl in Hrun.
      assert (Hagree : ∀ b, b ∈ l → m1 !! b = m !! b).
      { intros b Hb. apply Hout1. intros <-.
        destruct Hlink as [Hx _]. apply Hx. by apply list_elem_of_further. }
      assert (Hfilter : List.filter (λ b, negb (is_marked m1 b)) l
                        = List.filter (λ b, negb (is_marked m b)) l).
      { apply List.filter_ext_in. intros b Hb. apply list_elem_of_In in Hb.
        unfold is_marked. by rewrite (Hagree b Hb). }
      destruct (IH (set_object_count (wrap (object_count h1 - 1)) h1) m1 c
                  (wrap (coll + size hd)) fuel (next hd) h' m' coll')
        as [Hcount Hcoll]; try done.
      { eapply chain_ext; [|exact Hc]. intros b Hb. by rewrite (Hagree b Hb). }
      rewrite Hfilter in Hcount, Hcoll. split.
      * intros n Hn. rewrite (Hcount (n - 1)).
        -- f_equal. rewrite Nat2Z.inj_succ. lia.
        -- simpl. by rewrite Hcount1, Hn, wrap_sub_l.
      * rewrite Hcoll, wrap_add_l. rewrite Hhd. f_equal.
        rewrite (live_bytes_ext m m1); [lia|].
        intros b Hb. apply list_elem_of_In, List.filter_In in Hb as [Hb _].
        apply list_elem_of_In in Hb. by rewrite (Hagree b Hb).
Qed.

Lemma gc_collect_counts s h l fuel s' :
  heap_ok s h l → (length l < fuel)%nat → gc_collect fuel s = Ok s' →
  ∃ h', gc_heap s' = Some h' ∧
    (∀ n, object_count h = wrap n →
       object_count h'
       = wrap (n - Z.of_nat (length (List.filter (λ a, negb (rooted s a)) l)))) ∧
    total_collected (gc_stats s')
      = wrap (total_collected (gc_stats s)
              + live_bytes (mem s) (List.filter (λ a, negb (rooted s a)) l)) ∧
    total_allocated (gc_stats s') = total_allocated (gc_stats s) ∧
    stats_object_count (gc_stats s') = stats_object_count (gc_stats s).
Proof.
  intros [Hheap Hidle Hstart Hcur Hend Hc Hnd Hin Hroots] Hfuel Hrun.
  unfold gc_collect in Hrun. rewrite Hheap, Hidle in Hrun.
  set (h1 := set_gc_running true h) in *.
  set (s1 := with_gc_running true s) in *.
  assert (Hheap1 : gc_heap s1 = Some h1) by (unfold s1, with_gc_running; by rewrite Hheap).
  assert (Hread1 : roots_readable s1 (roots h1)).
  { intros r Hr Hp Hh.
    rewrite (gc_is_heap_ptr_arena s s1 h h1) in Hp by done.
    rewrite (gc_get_header_arena s s1 h h1) in Hh |- * by done.
    by apply Hroots. }
  destruct (gc_mark_spec s1 h1 l fuel Hheap1 Hc Hnd Hread1 Hfuel)
    as (s2 & Hrun2 & Hheap2 & Hst2 & Hsn2 & Hmk2).
  rewrite Hrun2 in Hrun. simpl in Hrun.
  assert (Hc2 : chain (mem s2) (objects h1) l).
  { eapply chain_ext; [|exact Hc]. intros a Ha.
    by destruct (Hsn2 a (chain_nonnull _ _ _ _ Hc Ha)) as [_ ->]. }
  rewrite Hheap1 in Hheap2.
  destruct (gc_sweep_loop_spec l h1 (mem s2) HeadLink 0 fuel (objects h1))
    as (h3 & m3 & coll & p3 & Hrun3 & _); try done.
  unfold gc_sweep in Hrun. rewrite Hheap2, Hrun3 in Hrun. simpl in Hrun.
  injection Hrun as <-. simpl.
  assert (Hfilter : List.filter (λ a, negb (is_marked (mem s2) a)) l
                    = List.filter (λ a, negb (rooted s a)) l).
  { apply List.filter_ext_in. intros a Ha. apply list_elem_of_In in Ha.
    rewrite (Hmk2 a Ha), (rooted_eq s h a Hheap).
    by rewrite (root_hits_arena s s1 h h1). }
  exists (set_gc_running false h3). split; [done|].
  destruct (gc_sweep_loop_counts l h1 (mem s2) HeadLink 0 fuel (objects h1)
              h3 m3 coll eq_refl Hc2 Hnd I Hrun3) as [Hcount Hcoll].
  rewrite Hfilter in Hcount, Hcoll. split.
  { intros n Hn. simpl. by apply (Hcount n). }
  rewrite Hst2. simpl. split; [|done].
  rewrite <- wrap_add_r, Hcoll, wrap_add_r. simpl. f_equal. f_equal.
  apply live_bytes_ext. intros a Ha.
  apply list_elem_of_In, List.filter_In in Ha as [Ha _]. apply list_elem_of_In in Ha.
  by destruct (Hsn2 a (chain_nonnull _ _ _ _ Hc Ha)) as [-> _].
Qed.

(** *** What each call of the API does to a heap at rest *)

Lemma gc_alloc_cases s h l sz flgs fuel :
  heap_ok s h l → 0 ≤ sz → heap_end h + sizeof_gc_header + sz < 2 ^ 64 →
  (length l < fuel)%nat →
  (heap_end h < free_ptr h + sizeof_gc_header + sz ∧
   ∃ s1, gc_collect fuel s = Ok s1 ∧ gc_alloc fuel sz flgs s = Ok (NULL, s1)) ∨
  (free_ptr h + sizeof_gc_header + sz ≤ heap_end h ∧
   gc_alloc fuel sz flgs s
   = Ok (gc_alloc_bump (wrap (sizeof_gc_header + sz)) sz flgs h s)).
Proof.
  intros Hok Hsz Hfit Hfuel.
  pose proof Hok as [Hheap Hidle Hstart Hcur Hend Hc Hnd Hin Hroots].
  unfold sizeof_gc_header in *.
  assert (Htot : wrap (24 + sz) = 24 + sz) by (apply wrap_small; lia).
  assert (Hnew : wrap (free_ptr h + (24 + sz)) = free_ptr h + 24 + sz).
  { rewrite wrap_small; lia. }
  unfold gc_alloc. rewrite Hheap. cbv zeta. unfold sizeof_gc_header.
  rewrite Htot, Hnew.
  destruct (Z.ltb_spec (heap_end h) (free_ptr h + 24 + sz)) as [Hfull|Hroom].
  - left. split; [done|].
    destruct (gc_collect_spec s h l fuel Hok Hfuel)
      as (s1 & h1 & Hrun & Hok1 & Har & _).
    exists s1. split; [done|]. rewrite Hrun. simpl. rewrite (ok_heap _ _ _ Hok1).
    destruct Har as (_ & -> & _ & -> & _). rewrite Hnew.
    by replace (heap_end h <? free_ptr h + 24 + sz) with true
      by (symmetry; apply Z.ltb_lt; lia).
  - right. by split.
Qed.

Lemma gc_alloc_bump_effect s h l sz flgs :
  heap_ok s h l → 0 ≤ sz →
  free_ptr h + sizeof_gc_header + sz ≤ heap_end h →
  ∃ s' h',
    gc_alloc_bump (wrap (sizeof_gc_header + sz)) sz flgs h s
      = (payload (free_ptr h), s') ∧
    heap_ok s' h' (free_ptr h :: l) ∧
    free_ptr h' = free_ptr h + sizeof_gc_header + sz ∧
    heap_start h' = heap_start h ∧ heap_end h' = heap_end h ∧
    roots h' = roots h ∧
    object_count h' = wrap (object_count h + 1) ∧
    mem s' = <[free_ptr h := {| flags := flgs; size := sz; next := objects h |}]> (mem s) ∧
    gc_stats s' = stats_after_alloc (sizeof_gc_header + sz) sz (gc_stats s) ∧
    free_ptr h ∉ l.
Proof.
  intros Hok Hsz Hroom.
  destruct (gc_alloc_bump_ok s h l sz flgs Hok Hsz Hroom)
    as (s' & h' & Hrun & Hok' & Hobj & Hfp & Hs & He & Hr & Hmem & Hcount).
  exists s', h'. split; [done|]. split; [done|].
  do 4 (split; [done|]).
  pose proof (ok_heap _ _ _ Hok') as Hheap'.
  pose proof Hok as [Hheap Hidle Hstart Hcur Hend Hc Hnd Hin Hroots].
  assert (Htot : wrap (sizeof_gc_header + sz) = sizeof_gc_header + sz).
  { apply wrap_small. unfold sizeof_gc_header in *. lia. }
  apply (f_equal snd) in Hrun. simpl in Hrun. subst s'. simpl in *.
  injection Hheap' as <-. simpl. rewrite Htot.
  repeat split; try done.
  intros Hin'. apply Hin in Hin'. unfold sizeof_gc_header in *. lia.
Qed.

Lemma gc_add_root_frame p_new ptr s h :
  gc_heap s = Some h →
  ∃ h', gc_heap (snd (gc_add_root p_new ptr s)) = Some h' ∧
    gc_stats (snd (gc_add_root p_new ptr s)) = gc_stats s ∧
    mem (snd (gc_add_root p_new ptr s)) = mem s ∧
    object_count h' = object_count h ∧ free_ptr h' = free_ptr h ∧
    heap_start h' = heap_start h ∧ heap_end h' = heap_end h.
Proof.
  intros Hheap. unfold gc_add_root. rewrite Hheap.
  destruct (ptr =? NULL); [by exists h|].
  destruct (existsb _ _); [by exists h|].
  destruct (_ && _); [by exists h|].
  by eexists.
Qed.

Lemma gc_remove_root_frame ptr s h :
  gc_heap s = Some h →
  ∃ h', gc_heap (gc_remove_root ptr s) = Some h' ∧
    gc_stats (gc_remove_root ptr s) = gc_stats s ∧
    mem (gc_remove_root ptr s) = mem s ∧
    object_count h' = object_count h ∧ free_ptr h' = free_ptr h ∧
    heap_start h' = heap_start h ∧ heap_end h' = heap_end h.
Proof.
  intros Hheap. unfold gc_remove_root. rewrite Hheap.
  destruct (ptr =? NULL); [by exists h|]. by eexists.
Qed.

(** Every call the program may make returns and leaves a heap at rest. *)
Lemma gc_do_heap_ok fuel c s h l :
  heap_ok s h l → call_ok c s → (length l < fuel)%nat →
  ∃ s' h' l', gc_do fuel c s = Ok s' ∧ heap_ok s' h' l' ∧
    (length l' ≤ S (length l))%nat ∧
    heap_start h' = heap_start h ∧ heap_end h' = heap_end h ∧
    free_ptr h ≤ free_ptr h'.
Proof.
  intros Hok Hcall Hfuel. pose proof (ok_heap _ _ _ Hok) as Hheap.
  assert (Hsweep : ∃ s' h' l', gc_collect fuel s = Ok s' ∧ heap_ok s' h' l' ∧
            (length l' ≤ S (length l))%nat ∧
            heap_start h' = heap_start h ∧ heap_end h' = heap_end h ∧
            free_ptr h ≤ free_ptr h').
  { destruct (gc_collect_spec s h l fuel Hok Hfuel)
      as (s1 & h1 & Hrun & Hok1 & Har & _).
    exists s1, h1, (List.filter (rooted s) l). split; [done|]. split; [done|].
    destruct Har as (-> & -> & _ & -> & _). split; [|done].
    pose proof (List.filter_length_le (rooted s) l). lia. }
  destruct c as [sz flgs| |p_new ptr|ptr]; unfold gc_do, call_ok in *.
  - destruct Hcall as [Hsz Hfit]. specialize (Hfit h Hheap).
    destruct (gc_alloc_cases s h l sz flgs fuel Hok Hsz Hfit Hfuel)
      as [(_ & s1 & Hrun & Hal)|(Hroom & Hal)]; rewrite Hal.
    + destruct Hsweep as (s' & h' & l' & Hrun' & H). rewrite Hrun in Hrun'.
      injection Hrun' as ->. by exists s', h', l'.
    + destruct (gc_alloc_bump_effect s h l sz flgs Hok Hsz Hroom)
        as (s' & h' & Hb & Hok' & Hfp & Hs & He & _). rewrite Hb.
      exists s', h', (free_ptr h :: l). do 5 (split; [done|]).
      unfold sizeof_gc_header in *. lia.
  - done.
  - destruct (gc_add_root p_new ptr s) as [b s'] eqn:Hadd.
    destruct (gc_add_root_ok p_new ptr s h l b s' Hok Hcall Hadd) as (h' & Hok' & _).
    destruct (gc_add_root_frame p_new ptr s h Hheap) as (h2 & Hh2 & _ & _ & _ & Hfp & Hs & He).
    rewrite Hadd in Hh2. simpl in Hh2. rewrite (ok_heap _ _ _ Hok') in Hh2.
    injection Hh2 as <-. exists s', h', l. split; [done|]. split; [done|].
    split; [lia|]. split; [done|]. split; [done|]. lia.
  - destruct (gc_remove_root_ok ptr s h l Hok) as (h' & Hok' & _).
    destruct (gc_remove_root_frame ptr s h Hheap) as (h2 & Hh2 & _ & _ & _ & Hfp & Hs & He).
    rewrite (ok_heap _ _ _ Hok') in Hh2. injection Hh2 as <-.
    eexists _, h', l. split; [done|]. split; [done|].
    split; [lia|]. split; [done|]. split; [done|]. lia.
Qed.

(** *** Counters *)

Lemma counters_after_collect s h l fuel s' h' :
  heap_ok s h l → counters_ok s h l → (length l < fuel)%nat →
  gc_collect fuel s = Ok s' → gc_heap s' = Some h' →
  (∀ a, a ≠ NULL → size <$> mem s' !! a = size <$> mem s !! a) →
  counters_ok s' h' (List.filter (rooted s) l) ∧
  stats_object_count (gc_stats s') = stats_object_count (gc_stats s).
Proof.
  intros Hok [Hcount Hbytes] Hfuel Hrun Hheap' Hsize.
  destruct (gc_collect_counts s h l fuel s' Hok Hfuel Hrun)
    as (h2 & Hh2 & Hc & Hcoll & Hta & Hoc).
  rewrite Hheap' in Hh2. injection Hh2 as <-. split; [|done]. split.
  - rewrite (Hc _ Hcount). f_equal.
    pose proof (filter_length_split (rooted s) l). lia.
  - rewrite Hta, Hcoll, wrap_sub_r.
    rewrite (live_bytes_ext (mem s) (mem s')).
    2:{ intros a Ha. apply list_elem_of_In, List.filter_In in Ha as [Ha _].
        apply list_elem_of_In in Ha. apply Hsize.
        exact (chain_nonnull _ _ _ _ (ok_chain _ _ _ Hok) Ha). }
    rewrite (live_bytes_split (mem s) (rooted s) l) in Hbytes.
    set (kept := live_bytes (mem s) (List.filter (rooted s) l)) in *.
    set (gone := live_bytes (mem s) (List.filter (λ a, negb (rooted s a)) l)) in *.
    replace (total_allocated (gc_stats s) - (total_collected (gc_stats s) + gone))
      with (total_allocated (gc_stats s) - total_collected (gc_stats s) - gone) by lia.
    rewrite <- wrap_sub_l, Hbytes, wrap_sub_l. f_equal. lia.
Qed.

(** X1 (live-object counters).  The calls considered are [gc_collect],
    [gc_remove_root], [gc_alloc] of a size for which
    [heap_end + sizeof(gc_header_t) + size] fits the machine word, and
    [gc_add_root] of a pointer that is null, outside the arena, or has the
    header of an allocated object 24 bytes below it ([call_ok]).  Right after
    [gc_init] in a fresh process, and after every such call on a heap at rest
    where this holds: the call returns, [object_count] of the heap is the
    length of the live-object list, and [total_allocated] minus
    [total_collected] is the sum of the sizes recorded in the live headers,
    all in [size_t] arithmetic.  The field [object_count] of the statistics is
    written by none of these calls: it stays at 0. *)
Theorem gc_calls_keep_counters :
  (∀ n p_heap p_arena p_roots s0,
     gc_init n p_heap p_arena p_roots boot = (true, s0) →
     0 < p_arena → 0 ≤ n → p_arena + n < 2 ^ 64 →
     ∃ h0, heap_ok s0 h0 [] ∧ counters_ok s0 h0 [] ∧
           stats_object_count (gc_stats s0) = 0) ∧
  (∀ fuel c s h l,
     heap_ok s h l → counters_ok s h l → call_ok c s → (length l < fuel)%nat →
     ∃ s' h' l',
       gc_do fuel c s = Ok s' ∧ heap_ok s' h' l' ∧ counters_ok s' h' l' ∧
       stats_object_count (gc_stats s') = stats_object_count (gc_stats s)).
Proof.
  split.
  - intros n p_heap p_arena p_roots s0 Hinit Hp Hn Hfit.
    destruct (gc_init_ok _ _ _ _ _ _ Hinit Hp Hn Hfit) as (h0 & Hok0 & _).
    exists h0. split; [done|].
    pose proof (ok_heap _ _ _ Hok0) as Hheap0.
    unfold gc_init in Hinit. simpl in Hinit.
    destruct (p_heap =? NULL); [done|]. destruct (p_arena =? NULL); [done|].
    destruct (p_roots =? NULL); [done|]. injection Hinit as <-.
    simpl in *. injection Hheap0 as <-. by split.
  - intros fuel c s h l Hok Hcnt Hcall Hfuel.
    pose proof (ok_heap _ _ _ Hok) as Hheap.
    assert (Hsweep : ∀ s1, gc_collect fuel s = Ok s1 →
              ∃ h' l', heap_ok s1 h' l' ∧ counters_ok s1 h' l' ∧
                stats_object_count (gc_stats s1) = stats_object_count (gc_stats s)).
    { intros s1 Hrun.
      destruct (gc_collect_spec s h l fuel Hok Hfuel)
        as (s2 & h1 & Hrun2 & Hok1 & _ & _ & _ & _ & _ & Hsize).
      rewrite Hrun in Hrun2. injection Hrun2 as <-.
      exists h1, (List.filter (rooted s) l). split; [done|].
      exact (counters_after_collect s h l fuel s1 h1 Hok Hcnt Hfuel Hrun
               (ok_heap _ _ _ Hok1) Hsize). }
    destruct c as [sz flgs| |p_new ptr|ptr]; unfold gc_do, call_ok in *.
    + destruct Hcall as [Hsz Hfit]. specialize (Hfit h Hheap).
      destruct (gc_alloc_cases s h l sz flgs fuel Hok Hsz Hfit Hfuel)
        as [(_ & s1 & Hrun & Hal)|(Hroom & Hal)]; rewrite Hal.
      * destruct (Hsweep s1 Hrun) as (h' & l' & H). by exists s1, h', l'.
      * destruct (gc_alloc_bump_effect s h l sz flgs Hok Hsz Hroom)
          as (s' & h' & Hb & Hok' & _ & _ & _ & _ & Hoc & Hmem & Hst & Hnew).
        rewrite Hb. exists s', h', (free_ptr h :: l).
        split; [done|]. split; [done|]. destruct Hcnt as [Hcount Hbytes].
        split; [|by rewrite Hst]. split.
        -- rewrite Hoc, Hcount, wrap_add_l. f_equal. simpl length. lia.
        -- rewrite Hst, Hmem. simpl. rewrite lookup_insert_eq. simpl.
           rewrite (live_bytes_ext (mem s) (<[free_ptr h:=_]> (mem s))).
           2:{ intros a Ha. rewrite lookup_insert_ne; [done|]. by intros <-. }
           rewrite wrap_sub_l.
           replace (total_allocated (gc_stats s) + sz - total_collected (gc_stats s))
             with (sz + (total_allocated (gc_stats s) - total_collected (gc_stats s)))
             by lia.
           by rewrite <- wrap_add_r, Hbytes, wrap_add_r.
    + destruct (gc_collect_spec s h l fuel Hok Hfuel) as (s1 & h1 & Hrun & _).
      destruct (Hsweep s1 Hrun) as (h' & l' & H). rewrite Hrun. by exists s1, h', l'.
    + destruct (gc_add_root p_new ptr s) as [b s'] eqn:Hadd.
      destruct (gc_add_root_ok p_new ptr s h l b s' Hok Hcall Hadd) as (h' & Hok' & _).
      destruct (gc_add_root_frame p_new ptr s h Hheap)
        as (h2 & Hh2 & Hst & Hmem & Hoc & _).
      rewrite Hadd in Hh2, Hst, Hmem. simpl in *.
      rewrite (ok_heap _ _ _ Hok') in Hh2. injection Hh2 as <-.
      exists s', h', l. split; [done|]. split; [done|]. destruct Hcnt as [Hcount Hbytes].
      split; [|by rewrite Hst]. split; [by rewrite Hoc|by rewrite Hst, Hmem].
    + destruct (gc_remove_root_ok ptr s h l Hok) as (h' & Hok' & _).
      destruct (gc_remove_root_frame ptr s h Hheap)
        as (h2 & Hh2 & Hst & Hmem & Hoc & _).
      rewrite (ok_heap _ _ _ Hok') in Hh2. injection Hh2 as <-.
      eexists _, h', l. split; [done|]. split; [done|]. destruct Hcnt as [Hcount Hbytes].
      split; [|by rewrite Hst]. split; [by rewrite Hoc|by rewrite Hst, Hmem].
Qed.

(** *** The bump cursor *)

(** X2 (the cursor only advances).  The calls considered are [gc_collect],
    [gc_remove_root], [gc_alloc] of a size for which
    [heap_end + sizeof(gc_header_t) + size] fits the machine word, and
    [gc_add_root] of a pointer that is null, outside the arena, or has the
    header of an allocated object 24 bytes below it ([call_ok]).  After
    [gc_init], and after every such call on a heap at rest where this holds,
    [used_bytes] is the distance of the bump cursor from the start of the
    arena and [free_bytes] the distance from the cursor to its end.  None of
    these calls moves the cursor back, and only [gc_alloc] moves it at all: a
    collection gives no byte of the arena back to the allocator.
    [vela_gc_get_stats] reports these two numbers. *)
Theorem gc_calls_never_reclaim :
  (∀ n p_heap p_arena p_roots s s0,
     gc_init n p_heap p_arena p_roots s = (true, s0) →
     0 < p_arena → 0 ≤ n → p_arena + n < 2 ^ 64 →
     ∃ h0, heap_ok s0 h0 [] ∧ cursor_ok s0 h0 ∧ free_ptr h0 = heap_start h0) ∧
  (∀ fuel c s h l,
     heap_ok s h l → cursor_ok s h → call_ok c s → (length l < fuel)%nat →
     ∃ s' h' l',
       gc_do fuel c s = Ok s' ∧ heap_ok s' h' l' ∧ cursor_ok s' h' ∧
       heap_start h' = heap_start h ∧ heap_end h' = heap_end h ∧
       free_ptr h ≤ free_ptr h' ∧
       (free_ptr h' ≠ free_ptr h → ∃ sz flgs, c = Alloc sz flgs) ∧
       vela_gc_get_stats s' = (free_ptr h' - heap_start h', heap_end h - heap_start h)).
Proof.
  split.
  - intros n p_heap p_arena p_roots s s0 Hinit Hp Hn Hfit.
    destruct (gc_init_ok _ _ _ _ _ _ Hinit Hp Hn Hfit) as (h0 & Hok0 & Hs & He & Hf).
    exists h0. split; [done|]. split; [|congruence].
    pose proof (ok_heap _ _ _ Hok0) as Hheap0.
    unfold gc_init in Hinit. destruct (gc_heap s); [done|].
    destruct (p_heap =? NULL); [done|]. destruct (p_arena =? NULL); [done|].
    destruct (p_roots =? NULL); [done|]. injection Hinit as <-.
    simpl in *. split; simpl; lia.
  - intros fuel c s h l Hok Hcur Hcall Hfuel.
    pose proof (ok_heap _ _ _ Hok) as Hheap.
    assert (Hstats : ∀ s' h', cursor_ok s' h' → heap_start h' = heap_start h →
              heap_end h' = heap_end h →
              vela_gc_get_stats s' = (free_ptr h' - heap_start h', heap_end h - heap_start h)).
    { intros s' h' [Hu _ Hz] Hs He. unfold vela_gc_get_stats. by rewrite Hu, Hz, Hs, He. }
    assert (Hsweep : ∀ s1, gc_collect fuel s = Ok s1 →
              ∃ h' l', heap_ok s1 h' l' ∧ cursor_ok s1 h' ∧
                heap_start h' = heap_start h ∧ heap_end h' = heap_end h ∧
                free_ptr h' = free_ptr h).
    { intros s1 Hrun.
      destruct (gc_collect_spec s h l fuel Hok Hfuel)
        as (s2 & h1 & Hrun2 & Hok1 & Har & Hu & Hf & Hz & _).
      rewrite Hrun in Hrun2. injection Hrun2 as <-.
      exists h1, (List.filter (rooted s) l). split; [done|].
      destruct Har as (Hs1 & He1 & _ & Hfp1 & _). destruct Hcur as [Hcu Hcf Hcz].
      split; [|done]. split; congruence. }
    destruct c as [sz flgs| |p_new ptr|ptr]; unfold gc_do, call_ok in *.
    + destruct Hcall as [Hsz Hfit]. specialize (Hfit h Hheap).
      destruct (gc_alloc_cases s h l sz flgs fuel Hok Hsz Hfit Hfuel)
        as [(_ & s1 & Hrun & Hal)|(Hroom & Hal)]; rewrite Hal.
      * destruct (Hsweep s1 Hrun) as (h' & l' & Hok' & Hcur' & Hs & He & Hfp).
        exists s1, h', l'. do 5 (split; [done|]). split; [lia|].
        split; [by eauto|]. by apply Hstats.
      * destruct (gc_alloc_bump_effect s h l sz flgs Hok Hsz Hroom)
          as (s' & h' & Hb & Hok' & Hfp & Hs & He & _ & _ & _ & Hst & _).
        rewrite Hb. exists s', h', (free_ptr h :: l).
        split; [done|]. split; [done|].
        assert (Hcur' : cursor_ok s' h').
        { destruct Hcur as [Hcu Hcf Hcz]. destruct Hok as [_ _ ? ? ? _ _ _ _].
          unfold sizeof_gc_header in *.
          split; rewrite Hst; simpl; rewrite ?Hcu, ?Hcf, ?Hcz, ?Hfp, ?Hs, ?He;
            [rewrite wrap_small|rewrite wrap_small|]; lia. }
        split; [done|]. split; [done|]. split; [done|].
        split; [unfold sizeof_gc_header in *; lia|].
        split; [by eauto|]. by apply Hstats.
    + destruct (gc_collect_spec s h l fuel Hok Hfuel) as (s1 & h1 & Hrun & _).
      destruct (Hsweep s1 Hrun) as (h' & l' & Hok' & Hcur' & Hs & He & Hfp).
      rewrite Hrun. exists s1, h', l'. do 5 (split; [done|]). split; [lia|].
      split; [done|]. by apply Hstats.
    + destruct (gc_add_root p_new ptr s) as [b s'] eqn:Hadd.
      destruct (gc_add_root_ok p_new ptr s h l b s' Hok Hcall Hadd) as (h' & Hok' & _).
      destruct (gc_add_root_frame p_new ptr s h Hheap)
        as (h2 & Hh2 & Hst & Hmem & Hoc & Hfp & Hs & He).
      rewrite Hadd in Hh2, Hst, Hmem. simpl in *.
      rewrite (ok_heap _ _ _ Hok') in Hh2. injection Hh2 as <-.
      assert (Hcur' : cursor_ok s' h').
      { destruct Hcur as [Hcu Hcf Hcz]. split; congruence. }
      exists s', h', l. do 5 (split; [done|]). split; [lia|].
      split; [done|]. by apply Hstats.
    + destruct (gc_remove_root_ok ptr s h l Hok) as (h' & Hok' & _).
      destruct (gc_remove_root_frame ptr s h Hheap)
        as (h2 & Hh2 & Hst & Hmem & Hoc & Hfp & Hs & He).
      rewrite (ok_heap _ _ _ Hok') in Hh2. injection Hh2 as <-.
      assert (Hcur' : cursor_ok (gc_remove_root ptr s) h').
      { destruct Hcur as [Hcu Hcf Hcz]. split; congruence. }
      eexists _, h', l. do 5 (split; [done|]). split; [lia|].
      split; [done|]. by apply Hstats.
Qed.

(** *** Blocks *)

Lemma packed_weaken m l b b' : packed m l b → b ≤ b' → packed m l b'.
Proof.
  destruct l as [|a l]; simpl; [done|].
  intros (hd & Hhd & Hsz & Hb & Hp) Hle. exists hd. repeat split; try done. lia.
Qed.

Lemma packed_below m l b a : packed m l b → a ∈ l → a < b.
Proof.
  revert b. induction l as [|x l IH]; intros b Hp Ha; [by apply elem_of_nil in Ha|].
  simpl in Hp. destruct Hp as (hd & Hhd & Hsz & Hb & Hp).
  unfold sizeof_gc_header in *.
  apply elem_of_cons in Ha as [->|Ha]; [lia|].
  specialize (IH x Hp Ha). lia.
Qed.

Lemma packed_filter m (P : Z → bool) l b : packed m l b → packed m (List.filter P l) b.
Proof.
  revert b. induction l as [|a l IH]; intros b Hp; simpl; [done|].
  simpl in Hp. destruct Hp as (hd & Hhd & Hsz & Hb & Hp).
  destruct (P a); simpl.
  - exists hd. repeat split; try done. by apply IH.
  - apply IH. eapply packed_weaken; [exact Hp|]. unfold sizeof_gc_header in *. lia.
Qed.

Lemma packed_ext m m' l b :
  (∀ a, a ∈ l → is_Some (m' !! a) ∧ size <$> m' !! a = size <$> m !! a) →
  packed m l b → packed m' l b.
Proof.
  revert b. induction l as [|a l IH]; intros b H Hp; simpl; [done|].
  simpl in Hp. destruct Hp as (hd & Hhd & Hsz & Hb & Hp).
  destruct (H a (list_elem_of_here _ _)) as [[hd' Hhd'] Hsize].
  rewrite Hhd, Hhd' in Hsize. simpl in Hsize. injection Hsize as Hsize.
  exists hd'. rewrite Hsize. repeat split; try done.
  apply IH; [|done]. intros x Hx. apply H. by apply list_elem_of_further.
Qed.

(** Two blocks of a packed list do not overlap, and each lies below the bound. *)
Lemma packed_apart m l b :
  packed m l b →
  (∀ x, x ∈ l → ∃ hd, m !! x = Some hd ∧ 0 ≤ size hd ∧
                      x + sizeof_gc_header + size hd ≤ b) ∧
  (∀ x y, x ∈ l → y ∈ l → x ≠ y →
     ∃ hx hy, m !! x = Some hx ∧ m !! y = Some hy ∧
       (x + sizeof_gc_header + size hx ≤ y ∨ y + sizeof_gc_header + size hy ≤ x)).
Proof.
  revert b. induction l as [|a l IH]; intros b Hp.
  { split; [intros x Hx|intros x y Hx]; by apply elem_of_nil in Hx. }
  simpl in Hp. destruct Hp as (hd & Hhd & Hsz & Hb & Hp).
  destruct (IH a Hp) as [Hin Hap].
  assert (Hin' : ∀ x, x ∈ l → ∃ hx, m !! x = Some hx ∧ 0 ≤ size hx ∧
                   x + sizeof_gc_header + size hx ≤ a) by done.
  split.
  - intros x Hx. apply elem_of_cons in Hx as [->|Hx]; [by exists hd|].
    destruct (Hin x Hx) as (hx & Hhx & Hsx & Hbx). exists hx.
    repeat split; try done. unfold sizeof_gc_header in *. lia.
  - intros x y Hx Hy Hne.
    apply elem_of_cons in Hx as [->|Hx]; apply elem_of_cons in Hy as [->|Hy].
    + done.
    + destruct (Hin' y Hy) as (hy & Hhy & _ & Hby). exists hd, hy. by eauto.
    + destruct (Hin' x Hx) as (hx & Hhx & _ & Hbx). exists hx, hd. by eauto.
    + by apply Hap.
Qed.

(** X3 (blocks do not overlap).  The calls considered are [gc_collect],
    [gc_remove_root], [gc_alloc] of a size for which
    [heap_end + sizeof(gc_header_t) + size] fits the machine word, and
    [gc_add_root] of a pointer that is null, outside the arena, or has the
    header of an allocated object 24 bytes below it ([call_ok]).  On a heap at
    rest whose live blocks lie one behind the other below the cursor, every
    such call returns and leaves such a heap: each live block, header and
    payload, lies inside the arena, and two different live blocks never share
    a byte. *)
Theorem gc_calls_keep_blocks_apart fuel c s h l :
  heap_ok s h l → packed (mem s) l (free_ptr h) → call_ok c s →
  (length l < fuel)%nat →
  ∃ s' h' l',
    gc_do fuel c s = Ok s' ∧ heap_ok s' h' l' ∧ packed (mem s') l' (free_ptr h') ∧
    (∀ x, x ∈ l' → ∃ hd, mem s' !! x = Some hd ∧ 0 ≤ size hd ∧ heap_start h' ≤ x ∧
                         x + sizeof_gc_header + size hd ≤ heap_end h') ∧
    (∀ x y, x ∈ l' → y ∈ l' → x ≠ y →
       ∃ hx hy, mem s' !! x = Some hx ∧ mem s' !! y = Some hy ∧
         (x + sizeof_gc_header + size hx ≤ y ∨ y + sizeof_gc_header + size hy ≤ x)).
Proof.
  intros Hok Hpk Hcall Hfuel.
  pose proof (ok_heap _ _ _ Hok) as Hheap.
  assert (Hfin : ∀ s' h' l', gc_do fuel c s = Ok s' → heap_ok s' h' l' →
            packed (mem s') l' (free_ptr h') →
            ∃ s' h' l',
              gc_do fuel c s = Ok s' ∧ heap_ok s' h' l' ∧
              packed (mem s') l' (free_ptr h') ∧
              (∀ x, x ∈ l' → ∃ hd, mem s' !! x = Some hd ∧ 0 ≤ size hd ∧
                 heap_start h' ≤ x ∧ x + sizeof_gc_header + size hd ≤ heap_end h') ∧
              (∀ x y, x ∈ l' → y ∈ l' → x ≠ y →
                 ∃ hx hy, mem s' !! x = Some hx ∧ mem s' !! y = Some hy ∧
                   (x + sizeof_gc_header + size hx ≤ y ∨
                    y + sizeof_gc_header + size hy ≤ x))).
  { intros s' h' l' Hrun Hok' Hpk'. exists s', h', l'.
    do 3 (split; [done|]). destruct (packed_apart _ _ _ Hpk') as [Hin Hap].
    split; [|done]. intros x Hx. destruct (Hin x Hx) as (hd & Hhd & Hsz & Hb).
    exists hd. do 2 (split; [done|]).
    destruct Hok' as [_ _ _ Hcur _ _ _ Hins _]. destruct (Hins x Hx). lia. }
  assert (Hsweep : ∀ s1, gc_collect fuel s = Ok s1 →
            ∃ h' l', heap_ok s1 h' l' ∧ packed (mem s1) l' (free_ptr h')).
  { intros s1 Hrun.
    destruct (gc_collect_spec s h l fuel Hok Hfuel)
      as (s2 & h1 & Hrun2 & Hok1 & Har & _ & _ & _ & _ & Hsize).
    rewrite Hrun in Hrun2. injection Hrun2 as <-.
    exists h1, (List.filter (rooted s) l). split; [done|].
    destruct Har as (_ & _ & _ & -> & _).
    eapply packed_ext; [|by apply packed_filter].
    intros a Ha. split.
    - exact (chain_lookup _ _ _ _ (ok_chain _ _ _ Hok1) Ha).
    - apply Hsize. exact (chain_nonnull _ _ _ _ (ok_chain _ _ _ Hok1) Ha). }
  destruct c as [sz flgs| |p_new ptr|ptr]; unfold gc_do, call_ok in *.
  - destruct Hcall as [Hsz Hfit]. specialize (Hfit h Hheap).
    destruct (gc_alloc_cases s h l sz flgs fuel Hok Hsz Hfit Hfuel)
      as [(_ & s1 & Hrun & Hal)|(Hroom & Hal)]; rewrite Hal in Hfin |- *.
    + destruct (Hsweep s1 Hrun) as (h' & l' & Hok' & Hpk'). by eapply Hfin.
    + destruct (gc_alloc_bump_effect s h l sz flgs Hok Hsz Hroom)
        as (s' & h' & Hb & Hok' & Hfp & _ & _ & _ & _ & Hmem & _ & Hnew).
      rewrite Hb in Hfin |- *. eapply (Hfin s' h' (free_ptr h :: l)); [done|done|].
      simpl. rewrite Hmem, lookup_insert_eq. eexists. split; [done|]. simpl.
      split; [done|]. split; [lia|].
      eapply packed_ext; [|exact Hpk]. intros a Ha.
      rewrite lookup_insert_ne by (by intros <-). split; [|done].
      exact (chain_lookup _ _ _ _ (ok_chain _ _ _ Hok) Ha).
  - destruct (gc_collect_spec s h l fuel Hok Hfuel) as (s1 & h1 & Hrun & _).
    destruct (Hsweep s1 Hrun) as (h' & l' & Hok' & Hpk'). by eapply Hfin.
  - destruct (gc_add_root p_new ptr s) as [b s'] eqn:Hadd.
    destruct (gc_add_root_ok p_new ptr s h l b s' Hok Hcall Hadd) as (h' & Hok' & _).
    destruct (gc_add_root_frame p_new ptr s h Hheap)
      as (h2 & Hh2 & Hst & Hmem & Hoc & Hfp & Hs & He).
    rewrite Hadd in Hh2, Hst, Hmem. simpl in *.
    rewrite (ok_heap _ _ _ Hok') in Hh2. injection Hh2 as <-.
    eapply (Hfin s' h' l); [done|done|]. by rewrite Hmem, Hfp.
  - destruct (gc_remove_root_ok ptr s h l Hok) as (h' & Hok' & _).
    destruct (gc_remove_root_frame ptr s h Hheap)
      as (h2 & Hh2 & Hst & Hmem & Hoc & Hfp & Hs & He).
    rewrite (ok_heap _ _ _ Hok') in Hh2. injection Hh2 as <-.
    eapply (Hfin _ h' l); [done|done|]. by rewrite Hmem, Hfp.
Qed.

(** *** Size overflow *)

(** X4 (size overflow in [gc_alloc]).  The sum [sizeof(gc_header_t) + size]
    is computed in [size_t] and is not checked.  For a request of 2^64 - 24
    bytes or more it wraps to less than the size of a header: when that
    little is left in the arena, [gc_alloc] returns a non-null pointer, the
    header records the requested size, and the cursor ends below the pointer
    that was returned, inside the header just written. *)
Theorem gc_alloc_wraps_oversized_request s h l sz flgs fuel :
  heap_ok s h l → 2 ^ 64 - sizeof_gc_header ≤ sz < 2 ^ 64 →
  free_ptr h + (sz + sizeof_gc_header - 2 ^ 64) ≤ heap_end h →
  heap_end h + sizeof_gc_header < 2 ^ 64 →
  ∃ s' h',
    gc_alloc fuel sz flgs s = Ok (payload (free_ptr h), s') ∧
    payload (free_ptr h) ≠ NULL ∧
    gc_heap s' = Some h' ∧ objects h' = free_ptr h ∧
    mem s' !! free_ptr h = Some {| flags := flgs; size := sz; next := objects h |} ∧
    free_ptr h' = free_ptr h + (sz + sizeof_gc_header - 2 ^ 64) ∧
    free_ptr h' < payload (free_ptr h).
Proof.
  intros [Hheap Hidle Hstart Hcur Hend Hc Hnd Hin Hroots] Hsz Hroom Htop.
  unfold sizeof_gc_header, payload, NULL in *.
  assert (Htot : wrap (24 + sz) = sz + 24 - 2 ^ 64).
  { unfold wrap. symmetry. apply (Z.mod_unique _ _ 1); lia. }
  assert (Hnew : wrap (free_ptr h + (sz + 24 - 2 ^ 64)) = free_ptr h + (sz + 24 - 2 ^ 64)).
  { apply wrap_small. lia. }
  unfold gc_alloc. rewrite Hheap. cbv zeta. unfold sizeof_gc_header.
  rewrite Htot, Hnew.
  replace (heap_end h <? free_ptr h + (sz + 24 - 2 ^ 64)) with false
    by (symmetry; apply Z.ltb_ge; lia).
  unfold gc_alloc_bump. cbv zeta. unfold sizeof_gc_header. simpl.
  rewrite Hnew, (wrap_small (free_ptr h + 24)) by lia.
  eexists _, _. split; [reflexivity|]. simpl.
  split; [lia|]. split; [reflexivity|]. simpl. split; [done|].
  split; [by rewrite lookup_insert_eq|]. split; [done|]. lia.
Qed.

(** *** Collecting again *)

Lemma rooted_same_arena s s' h h' a :
  gc_heap s = Some h → gc_heap s' = Some h' → same_arena h h' →
  rooted s' a = rooted s a.
Proof.
  intros Hh Hh' (Hs & He & _ & _ & Hr & _).
  rewrite (rooted_eq s h a Hh), (rooted_eq s' h' a Hh'), Hr.
  by apply (root_hits_arena s s' h h').
Qed.

Lemma filter_filter_same (P Q : Z → bool) l :
  (∀ a, a ∈ l → Q a = P a) → List.filter Q (List.filter P l) = List.filter P l.
Proof.
  induction l as [|a l IH]; intros H; simpl; [done|].
  assert (IH' := IH (λ b Hb, H b (list_elem_of_further _ _ _ Hb))).
  destruct (P a) eqn:HP; simpl; [|done].
  by rewrite (H a (list_elem_of_here _ _)), HP, IH'.
Qed.

Lemma filter_negb_filter (P Q : Z → bool) l :
  (∀ a, a ∈ l → Q a = P a) →
  List.filter (λ a, negb (Q a)) (List.filter P l) = [].
Proof.
  induction l as [|a l IH]; intros H; simpl; [done|].
  assert (IH' := IH (λ b Hb, H b (list_elem_of_further _ _ _ Hb))).
  destruct (P a) eqn:HP; simpl; [|done].
  by rewrite (H a (list_elem_of_here _ _)), HP.
Qed.

(** X5 (collecting twice).  A second [gc_collect] right after the first one
    returns, unlinks nothing more and adds nothing to [total_collected]; the
    live-object list and its head are those the first collection left, and
    [collection_count] has grown by two. *)
Theorem gc_collect_twice_unlinks_nothing_more s h l fuel :
  heap_ok s h l → (length l < fuel)%nat →
  ∃ s1 h1 s2 h2,
    gc_collect fuel s = Ok s1 ∧ heap_ok s1 h1 (List.filter (rooted s) l) ∧
    gc_collect fuel s1 = Ok s2 ∧ heap_ok s2 h2 (List.filter (rooted s) l) ∧
    objects h2 = objects h1 ∧
    total_collected (gc_stats s2) = total_collected (gc_stats s1) ∧
    collection_count (gc_stats s2) = wrap (collection_count (gc_stats s) + 2).
Proof.
  intros Hok Hfuel.
  destruct (gc_collect_spec s h l fuel Hok Hfuel)
    as (s1 & h1 & Hrun1 & Hok1 & Har1 & _ & _ & _ & Hcc1 & _).
  assert (Hfuel1 : (length (List.filter (rooted s) l) < fuel)%nat).
  { pose proof (List.filter_length_le (rooted s) l). lia. }
  destruct (gc_collect_spec s1 h1 _ fuel Hok1 Hfuel1)
    as (s2 & h2 & Hrun2 & Hok2 & Har2 & _ & _ & _ & Hcc2 & _).
  assert (Hsame : ∀ a, a ∈ l → rooted s1 a = rooted s a).
  { intros a _. exact (rooted_same_arena s s1 h h1 a (ok_heap _ _ _ Hok)
                         (ok_heap _ _ _ Hok1) Har1). }
  rewrite (filter_filter_same (rooted s) (rooted s1) l Hsame) in Hok2.
  exists s1, h1, s2, h2. do 4 (split; [done|]). split.
  { pose proof (ok_chain _ _ _ Hok1) as Hc1. pose proof (ok_chain _ _ _ Hok2) as Hc2.
    destruct (List.filter (rooted s) l) as [|a l']; simpl in *; [congruence|].
    destruct Hc1 as [-> _]. by destruct Hc2 as [-> _]. }
  split.
  - destruct (gc_collect_counts s h l fuel s1 Hok Hfuel Hrun1)
      as (h1' & _ & _ & Hcoll1 & _).
    destruct (gc_collect_counts s1 h1 _ fuel s2 Hok1 Hfuel1 Hrun2)
      as (h2' & _ & _ & Hcoll2 & _).
    rewrite (filter_negb_filter (rooted s) (rooted s1) l Hsame) in Hcoll2.
    simpl in Hcoll2. by rewrite Hcoll2, Z.add_0_r, Hcoll1, wrap_wrap.
  - rewrite Hcc2, Hcc1, wrap_add_l. f_equal. lia.
Qed.

(** *** The root set *)

Lemma remove_first_app_new (ptr : Z) (rs : list Z) :
  ptr ∉ rs → remove_first ptr (rs ++ [ptr]) = rs.
Proof.
  induction rs as [|x rs IH]; intros Hnot; simpl.
  - by rewrite Z.eqb_refl.
  - apply not_elem_of_cons in Hnot as [Hne Hnot].
    replace (x =? ptr) with false by (symmetry; apply Z.eqb_neq; congruence).
    by rewrite IH.
Qed.

Lemma remove_first_absent (ptr : Z) (rs : list Z) :
  ptr ∉ rs → remove_first ptr rs = rs.
Proof.
  induction rs as [|x rs IH]; intros Hnot; simpl; [done|].
  apply not_elem_of_cons in Hnot as [Hne Hnot].
  replace (x =? ptr) with false by (symmetry; apply Z.eqb_neq; congruence).
  by rewrite IH.
Qed.

Lemma elem_of_remove_first (ptr x : Z) (rs : list Z) :
  NoDup rs → x ∈ remove_first ptr rs ↔ x ∈ rs ∧ x ≠ ptr.
Proof.
  induction rs as [|y rs IH]; intros Hnd; simpl.
  - split; [intros H; by apply elem_of_nil in H|intros [H _]; by apply elem_of_nil in H].
  - apply NoDup_cons in Hnd as [Hy Hnd].
    destruct (Z.eqb_spec y ptr) as [->|Hne].
    + split.
      * intros Hx. split; [by apply list_elem_of_further|]. by intros ->.
      * intros [Hx Hn]. by apply elem_of_cons in Hx as [->|Hx].
    + rewrite !elem_of_cons, (IH Hnd). split.
      * intros [->|[Hx Hn]]; [by split; [left|]|by split; [right|]].
      * intros [[->|Hx] Hn]; [by left|by right].
Qed.

(** X6 (root set round trip).  [gc_add_root] of a non-null pointer that is
    not yet a root appends it to the root array and returns true, provided
    the [realloc] of a full array succeeds; the array stays free of
    duplicates.  Adding the same pointer again returns true and changes
    nothing.  [gc_remove_root] then brings the root array back to what it was
    and touches neither the headers nor the statistics. *)
Theorem gc_add_root_then_remove_root p_new p_again ptr s h :
  gc_heap s = Some h → ptr ≠ NULL → NoDup (roots h) → ptr ∉ roots h →
  (root_capacity h ≤ root_count h → p_new ≠ NULL) →
  ∃ s1 h1,
    gc_add_root p_new ptr s = (true, s1) ∧ gc_heap s1 = Some h1 ∧
    roots h1 = roots h ++ [ptr] ∧ NoDup (roots h1) ∧
    gc_add_root p_again ptr s1 = (true, s1) ∧
    (roots <$> gc_heap (gc_remove_root ptr s1)) = Some (roots h) ∧
    mem (gc_remove_root ptr s1) = mem s ∧
    gc_stats (gc_remove_root ptr s1) = gc_stats s.
Proof.
  intros Hheap Hptr Hnd Hnew Hgrow.
  unfold gc_add_root at 1. rewrite Hheap, (eqb_null_false _ Hptr).
  rewrite (existsb_eqb_false _ _ Hnew).
  assert (Hno : (root_capacity h <=? root_count h) && (p_new =? NULL) = false).
  { destruct (Z.leb_spec (root_capacity h) (root_count h)) as [Hle|]; [|done].
    simpl. by apply eqb_null_false, Hgrow. }
  rewrite Hno. eexists _, _. split; [reflexivity|]. split; [reflexivity|].
  simpl. split; [done|]. split.
  { apply NoDup_app. split; [done|]. split; [|apply NoDup_singleton].
    intros x Hx Hx'. apply list_elem_of_singleton in Hx' as ->. done. }
  split.
  { unfold gc_add_root. simpl. rewrite (eqb_null_false _ Hptr).
    rewrite existsb_eqb_true; [done|]. apply elem_of_app. right.
    by apply list_elem_of_singleton. }
  unfold gc_remove_root. simpl. rewrite (eqb_null_false _ Hptr). simpl.
  by rewrite remove_first_app_new.
Qed.

(** X7 (unrooting).  On a heap at rest whose root array has no duplicates and
    where no payload pointer coincides with the end of the arena: after
    [gc_remove_root] of the payload pointer of a live object, the next
    [gc_collect] returns and unlinks that object; the objects that stay are
    exactly the other ones whose payload pointer is a root. *)
Theorem gc_remove_root_then_collect_unlinks s h l a fuel :
  heap_ok s h l → NoDup (roots h) →
  (∀ b, b ∈ l → payload b < heap_end h) →
  a ∈ l → (length l < fuel)%nat →
  ∃ s' h' l',
    gc_collect fuel (gc_remove_root (payload a) s) = Ok s' ∧
    heap_ok s' h' l' ∧ (a ∉ l') ∧
    (∀ b, b ∈ l' ↔ b ∈ l ∧ payload b ∈ roots h ∧ b ≠ a).
Proof.
  intros Hok Hnd Hpay Ha Hfuel.
  pose proof Hok as [Hheap Hidle Hstart Hcur Hend Hc Hndl Hin Hroots].
  assert (Hpa : payload a ≠ NULL).
  { destruct (Hin a Ha). unfold payload, sizeof_gc_header, NULL in *. lia. }
  destruct (gc_remove_root_ok (payload a) s h l Hok) as (h1 & Hok1 & _).
  pose proof (ok_heap _ _ _ Hok1) as Hheap1.
  assert (Hr1 : roots h1 = remove_first (payload a) (roots h) ∧
                heap_end h1 = heap_end h).
  { unfold gc_remove_root in Hheap1. rewrite Hheap, (eqb_null_false _ Hpa) in Hheap1.
    simpl in Hheap1. by injection Hheap1 as <-. }
  destruct Hr1 as [Hr1 He1].
  destruct (gc_collect_keeps_exactly_rooted _ h1 l fuel Hok1) as (s' & h' & Hrun & _ & Hok');
    [by rewrite He1|done|].
  eexists s', h', _. split; [done|]. split; [done|].
  assert (Hiff : ∀ b, b ∈ List.filter (λ b, bool_decide (payload b ∈ roots h1)) l
                      ↔ b ∈ l ∧ payload b ∈ roots h ∧ b ≠ a).
  { intros b. rewrite list_elem_of_In, List.filter_In, <- list_elem_of_In.
    rewrite bool_decide_eq_true, Hr1, (elem_of_remove_first _ _ _ Hnd).
    unfold payload. split.
    - intros (Hb & Hbr & Hne). repeat split; try done. intros ->. done.
    - intros (Hb & Hbr & Hne). repeat split; try done. lia. }
  split; [|done]. intros Hin'. apply Hiff in Hin' as (_ & _ & Hne). done.
Qed.

(** *** Exhaustion *)

(** X8 (exhaustion is permanent).  Once [gc_alloc] has returned null for a
    size on a heap at rest, it returns null for that size and for every
    larger size for which [heap_end + sizeof(gc_header_t) + size] still fits
    the machine word, after any further sequence of [gc_collect],
    [gc_remove_root], [gc_alloc] of sizes that fit in the same way, and
    [gc_add_root] of pointers that are null, outside the arena, or have the
    header of an allocated object 24 bytes below them ([calls_ok]): the bump
    allocator never reuses the space of collected objects. *)
Theorem gc_alloc_failure_is_permanent fuel cs s h l sz flgs s0 sz' flgs' :
  heap_ok s h l → (length l + length cs < fuel)%nat →
  0 ≤ sz ≤ sz' → heap_end h + sizeof_gc_header + sz' < 2 ^ 64 →
  gc_alloc fuel sz flgs s = Ok (NULL, s0) →
  calls_ok fuel cs s0 →
  ∃ s1 s2, gc_run fuel cs s0 = Ok s1 ∧ gc_alloc fuel sz' flgs' s1 = Ok (NULL, s2).
Proof.
  intros Hok Hfuel Hsz Hfit Hnull Hcalls.
  assert (Hfull : ∃ h0 l0, heap_ok s0 h0 l0 ∧ (length l0 + length cs < fuel)%nat ∧
            heap_end h0 = heap_end h ∧ heap_end h < free_ptr h0 + sizeof_gc_header + sz).
  { destruct (gc_alloc_cases s h l sz flgs fuel Hok) as [(Hfull & s1 & Hrun & Hal)|(Hroom & Hal)];
      [lia|lia|lia| |].
    - rewrite Hal in Hnull. injection Hnull as <-.
      destruct (gc_collect_spec s h l fuel Hok) as (s2 & h1 & Hrun2 & Hok1 & Har & _); [lia|].
      rewrite Hrun in Hrun2. injection Hrun2 as <-.
      exists h1, (List.filter (rooted s) l). split; [done|].
      destruct Har as (_ & -> & _ & -> & _).
      pose proof (List.filter_length_le (rooted s) l). split; [lia|]. by split.
    - destruct (gc_alloc_bump_effect s h l sz flgs Hok) as (s' & h' & Hb & _); [lia|done|].
      rewrite Hb in Hal. rewrite Hal in Hnull. injection Hnull as Hp _.
      destruct Hok as [_ _ ? ? _ _ _ _ _].
      unfold payload, sizeof_gc_header, NULL in Hp. lia. }
  clear Hok Hnull Hfuel. destruct Hfull as (h0 & l0 & Hok0 & Hfuel & He & Hfull).
  rewrite <- He in Hfit, Hfull. clear He h s l.
  revert s0 h0 l0 Hok0 Hfuel Hfit Hfull Hcalls.
  induction cs as [|c cs IH]; intros s h l Hok Hfuel Hfit Hfull Hcalls.
  - exists s. simpl in Hfuel.
    destruct (gc_alloc_cases s h l sz' flgs' fuel Hok) as [(_ & s1 & Hrun & Hal)|(Hroom & _)];
      [lia|lia|lia| |].
    + by exists s1.
    + lia.
  - simpl in Hcalls, Hfuel. destruct Hcalls as [Hcall Hcalls].
    destruct (gc_do_heap_ok fuel c s h l Hok Hcall) as (s' & h' & l' & Hdo & Hok' & Hlen & Hs & He & Hfp);
      [lia|].
    rewrite Hdo in Hcalls.
    destruct (IH s' h' l' Hok') as (s1 & s2 & Hrun & Hal); [lia|lia|lia|done|].
    exists s1, s2. split; [|done]. simpl. by rewrite Hdo.
Qed.

(** *** Shutdown *)

(** X9 ([gc_shutdown] with a live object).  [gc_shutdown] hands the header
    of every object on the list to [free].  On a heap at rest every such
    header is an address inside the arena block.  So with at least one live
    object the call is not defined: the first header it releases is an
    address that [malloc] never returned, or it is the arena itself, which
    the call then releases a second time.  The model reports a fault. *)
Theorem gc_shutdown_frees_headers_inside_arena s h l fuel :
  heap_ok s h l → l ≠ [] → (1 < fuel)%nat →
  gc_shutdown fuel s = Fault ∧
  (∀ a, a ∈ l → heap_start h ≤ a < heap_end h) ∧
  head l = Some (objects h).
Proof.
  intros [Hheap Hidle Hstart Hcur Hend Hc Hnd Hin Hroots] Hl Hfuel.
  destruct l as [|a l]; [done|]. simpl in Hc.
  destruct Hc as (Hobj & Hnz & hd & Hhd & Hc).
  split; [|split].
  - unfold gc_shutdown. rewrite Hheap, Hobj.
    destruct fuel as [|[|fuel]]; [lia|lia|].
    cbn [gc_shutdown_loop negb]. rewrite (eqb_null_false _ Hnz).
    unfold load. rewrite Hhd. cbn [mbind res_bind].
    destruct (a =? heap_start h) eqn:Harena; [|done].
    apply Z.eqb_eq in Harena.
    destruct (next hd =? NULL); [|done]. cbn [mbind res_bind].
    by rewrite (eqb_null_false (heap_start h)) by (unfold NULL; lia).
  - intros x Hx. destruct (Hin x Hx). unfold sizeof_gc_header in *. lia.
  - simpl. by rewrite Hobj.
Qed.

(** X10 ([gc_shutdown] with no live object, and restart).  On a heap at rest
    with no live object [gc_shutdown] returns and leaves the collector
    uninitialised: [gc_alloc] returns null and [gc_is_heap_ptr] is false for
    every pointer.  A [gc_init] after it succeeds and gives an empty heap with
    [used_bytes] and [collection_count] reset to 0, while [total_allocated]
    and [total_collected] keep the values they had in the heap that was shut
    down. *)
Theorem gc_init_after_shutdown_keeps_totals s h fuel n p_heap p_arena p_roots :
  heap_ok s h [] → (0 < fuel)%nat →
  p_heap ≠ NULL → p_roots ≠ NULL → 0 < p_arena → 0 ≤ n → p_arena + n < 2 ^ 64 →
  ∃ s1 s2 h2,
    gc_shutdown fuel s = Ok s1 ∧ gc_heap s1 = None ∧
    (∀ f sz flgs, gc_alloc f sz flgs s1 = Ok (NULL, s1)) ∧
    (∀ p, gc_is_heap_ptr s1 p = false) ∧
    gc_init n p_heap p_arena p_roots s1 = (true, s2) ∧
    heap_ok s2 h2 [] ∧ object_count h2 = 0 ∧
    used_bytes (gc_stats s2) = 0 ∧ collection_count (gc_stats s2) = 0 ∧
    total_allocated (gc_stats s2) = total_allocated (gc_stats s) ∧
    total_collected (gc_stats s2) = total_collected (gc_stats s).
Proof.
  intros [Hheap Hidle Hstart Hcur Hend Hc Hnd Hin Hroots] Hfuel Hph Hpr Hpa Hn Hfit.
  simpl in Hc.
  set (s1 := {| gc_heap := None; gc_stats := gc_stats s; mem := ∅ |}).
  assert (Hdown : gc_shutdown fuel s = Ok s1).
  { unfold gc_shutdown. rewrite Hheap, Hc.
    destruct fuel as [|fuel]; [lia|]. cbn [gc_shutdown_loop].
    change (NULL =? NULL) with true. cbn [mbind res_bind].
    by rewrite (eqb_null_false (heap_start h)) by (unfold NULL; lia). }
  destruct (gc_init n p_heap p_arena p_roots s1) as [b s2] eqn:Hinit.
  assert (Hb : b = true).
  { unfold gc_init in Hinit. simpl in Hinit.
    rewrite (eqb_null_false _ Hph), (eqb_null_false p_arena), (eqb_null_false _ Hpr) in Hinit
      by (unfold NULL; lia).
    by injection Hinit as <- _. }
  subst b.
  destruct (gc_init_ok _ _ _ _ _ _ Hinit Hpa Hn Hfit) as (h2 & Hok2 & _).
  exists s1, s2, h2. split; [done|]. split; [done|]. split; [done|].
  split; [done|]. split; [done|]. split; [done|].
  pose proof (ok_heap _ _ _ Hok2) as Hheap2.
  unfold gc_init in Hinit. simpl in Hinit.
  rewrite (eqb_null_false _ Hph), (eqb_null_false p_arena), (eqb_null_false _ Hpr) in Hinit
    by (unfold NULL; lia).
  injection Hinit as <-. simpl in *. by injection Hheap2 as <-.
Qed.

(** *** Instances *)

Lemma one_header_heap_ok :
  ∃ h, heap_ok one_header_heap h [] ∧ heap_end h = 65560 ∧ free_ptr h = 65536.
Proof.
  destruct (gc_init_ok 24 4096 65536 8192 boot one_header_heap) as (h & Hok & _ & He & Hf);
    [reflexivity|lia|lia|lia|].
  exists h. split; [done|]. split; [by rewrite He|done].
Defined.

Lemma two_objects_heap_counters :
  counters_ok two_objects_heap two_objects_heap_struct [65576; 65536].
Proof. split; vm_compute; reflexivity. Defined.

Lemma two_objects_heap_cursor : cursor_ok two_objects_heap two_objects_heap_struct.
Proof. split; vm_compute; reflexivity. Defined.

Lemma two_objects_heap_packed :
  packed (mem two_objects_heap) [65576; 65536] (free_ptr two_objects_heap_struct).
Proof.
  unfold packed, sizeof_gc_header. simpl.
  eexists. split; [reflexivity|]. simpl. split; [lia|]. split; [lia|].
  eexists. split; [reflexivity|]. simpl. split; [lia|]. split; [lia|done].
Defined.

Lemma gc_calls_keep_counters_witness :
  heap_ok two_objects_heap two_objects_heap_struct [65576; 65536] ∧
  counters_ok two_objects_heap two_objects_heap_struct [65576; 65536] ∧
  ∃ s' h' l',
    gc_do 3 Collect two_objects_heap = Ok s' ∧ heap_ok s' h' l' ∧
    counters_ok s' h' l' ∧ stats_object_count (gc_stats s') = 0.
Proof.
  split; [exact two_objects_heap_ok|]. split; [exact two_objects_heap_counters|].
  apply (proj2 gc_calls_keep_counters 3%nat Collect two_objects_heap
           two_objects_heap_struct [65576; 65536]
           two_objects_heap_ok two_objects_heap_counters I).
  simpl. lia.
Defined.

Lemma gc_calls_never_reclaim_witness :
  heap_ok two_objects_heap two_objects_heap_struct [65576; 65536] ∧
  cursor_ok two_objects_heap two_objects_heap_struct ∧
  call_ok (Alloc 16 0) two_objects_heap ∧
  ∃ s' h' l',
    gc_do 3 (Alloc 16 0) two_objects_heap = Ok s' ∧ heap_ok s' h' l' ∧
    cursor_ok s' h' ∧
    heap_start h' = 65536 ∧ heap_end h' = 65536 + 1048576 ∧
    65536 + 96 ≤ free_ptr h' ∧
    (free_ptr h' ≠ 65536 + 96 → ∃ sz flgs, Alloc 16 0 = Alloc sz flgs) ∧
    vela_gc_get_stats s' = (free_ptr h' - heap_start h', 1048576).
Proof.
  assert (Hcall : call_ok (Alloc 16 0) two_objects_heap).
  { split; [lia|]. intros h Hh. injection Hh as <-. simpl. unfold sizeof_gc_header. lia. }
  split; [exact two_objects_heap_ok|]. split; [exact two_objects_heap_cursor|].
  split; [exact Hcall|].
  apply (proj2 gc_calls_never_reclaim 3%nat (Alloc 16 0) two_objects_heap
           two_objects_heap_struct [65576; 65536]
           two_objects_heap_ok two_objects_heap_cursor Hcall).
  simpl. lia.
Defined.

Lemma gc_calls_keep_blocks_apart_witness :
  heap_ok two_objects_heap two_objects_heap_struct [65576; 65536] ∧
  packed (mem two_objects_heap) [65576; 65536] (65536 + 96) ∧
  ∃ s' h' l',
    gc_do 3 (Alloc 16 0) two_objects_heap = Ok s' ∧ heap_ok s' h' l' ∧
    packed (mem s') l' (free_ptr h') ∧
    (∀ x, x ∈ l' → ∃ hd, mem s' !! x = Some hd ∧ 0 ≤ size hd ∧ heap_start h' ≤ x ∧
                         x + sizeof_gc_header + size hd ≤ heap_end h') ∧
    (∀ x y, x ∈ l' → y ∈ l' → x ≠ y →
       ∃ hx hy, mem s' !! x = Some hx ∧ mem s' !! y = Some hy ∧
         (x + sizeof_gc_header + size hx ≤ y ∨ y + sizeof_gc_header + size hy ≤ x)).
Proof.
  assert (Hcall : call_ok (Alloc 16 0) two_objects_heap).
  { split; [lia|]. intros h Hh. injection Hh as <-. simpl. unfold sizeof_gc_header. lia. }
  split; [exact two_objects_heap_ok|]. split; [exact two_objects_heap_packed|].
  apply (gc_calls_keep_blocks_apart 3%nat (Alloc 16 0) two_objects_heap
           two_objects_heap_struct [65576; 65536]
           two_objects_heap_ok two_objects_heap_packed Hcall).
  simpl. lia.
Defined.

Lemma gc_alloc_wraps_oversized_request_witness :
  heap_ok default_heap default_heap_struct [] ∧
  ∃ s' h',
    gc_alloc 1 (2 ^ 64 - 1) 0 default_heap = Ok (65560, s') ∧
    65560 ≠ NULL ∧
    gc_heap s' = Some h' ∧ objects h' = 65536 ∧
    mem s' !! 65536 = Some {| flags := 0; size := 2 ^ 64 - 1; next := NULL |} ∧
    free_ptr h' = 65536 + 23 ∧
    free_ptr h' < 65560.
Proof.
  split; [exact default_heap_ok|].
  apply (gc_alloc_wraps_oversized_request default_heap default_heap_struct []
           (2 ^ 64 - 1) 0 1%nat default_heap_ok).
  - unfold sizeof_gc_header. lia.
  - simpl. unfold sizeof_gc_header. lia.
  - simpl. unfold sizeof_gc_header. lia.
Defined.

Lemma gc_collect_twice_unlinks_nothing_more_witness :
  heap_ok two_objects_heap two_objects_heap_struct [65576; 65536] ∧
  ∃ s1 h1 s2 h2,
    gc_collect 3 two_objects_heap = Ok s1 ∧ heap_ok s1 h1 [65536] ∧
    gc_collect 3 s1 = Ok s2 ∧ heap_ok s2 h2 [65536] ∧
    objects h2 = objects h1 ∧
    total_collected (gc_stats s2) = total_collected (gc_stats s1) ∧
    collection_count (gc_stats s2) = 2.
Proof.
  split; [exact two_objects_heap_ok|].
  apply (gc_collect_twice_unlinks_nothing_more two_objects_heap
           two_objects_heap_struct [65576; 65536] 3%nat two_objects_heap_ok).
  simpl. lia.
Defined.

Lemma gc_add_root_then_remove_root_witness :
  gc_heap default_heap = Some default_heap_struct ∧
  ∃ s1 h1,
    gc_add_root NULL 65560 default_heap = (true, s1) ∧ gc_heap s1 = Some h1 ∧
    roots h1 = [65560] ∧ NoDup (roots h1) ∧
    gc_add_root NULL 65560 s1 = (true, s1) ∧
    (roots <$> gc_heap (gc_remove_root 65560 s1)) = Some [] ∧
    mem (gc_remove_root 65560 s1) = mem default_heap ∧
    gc_stats (gc_remove_root 65560 s1) = gc_stats default_heap.
Proof.
  split; [reflexivity|].
  apply (gc_add_root_then_remove_root NULL NULL 65560 default_heap default_heap_struct).
  - reflexivity.
  - done.
  - apply NoDup_nil_2.
  - apply not_elem_of_nil.
  - simpl. unfold root_count. simpl. lia.
Defined.

Lemma gc_remove_root_then_collect_unlinks_witness :
  heap_ok two_objects_heap two_objects_heap_struct [65576; 65536] ∧
  ∃ s' h' l',
    gc_collect 3 (gc_remove_root 65560 two_objects_heap) = Ok s' ∧
    heap_ok s' h' l' ∧ (65536 ∉ l') ∧
    (∀ b, b ∈ l' ↔ b ∈ [65576; 65536] ∧ payload b ∈ [65560] ∧ b ≠ 65536).
Proof.
  split; [exact two_objects_heap_ok|].
  apply (gc_remove_root_then_collect_unlinks two_objects_heap
           two_objects_heap_struct [65576; 65536] 65536 3%nat two_objects_heap_ok).
  - apply NoDup_singleton.
  - intros b Hb. unfold payload, sizeof_gc_header. simpl.
    apply elem_of_cons in Hb as [->|Hb]; [lia|].
    apply list_elem_of_singleton in Hb as ->. lia.
  - apply list_elem_of_further, list_elem_of_here.
  - simpl. lia.
Defined.

Lemma gc_alloc_failure_is_permanent_witness :
  ∃ h s0,
    heap_ok one_header_heap h [] ∧
    gc_alloc 3 8 0 one_header_heap = Ok (NULL, s0) ∧
    calls_ok 3 [Collect; Alloc 0 0] s0 ∧
    ∃ s1 s2, gc_run 3 [Collect; Alloc 0 0] s0 = Ok s1 ∧
             gc_alloc 3 8 0 s1 = Ok (NULL, s2).
Proof.
  destruct one_header_heap_ok as (h & Hok & He & Hf).
  exists h. eexists. split; [exact Hok|].
  assert (Hal : gc_alloc 3 8 0 one_header_heap
                = Ok (NULL, match gc_collect 3 one_header_heap with
                            | Ok s => s
                            | _ => one_header_heap
                            end)) by (vm_compute; reflexivity).
  split; [exact Hal|].
  assert (Hcalls : calls_ok 3 [Collect; Alloc 0 0]
                     match gc_collect 3 one_header_heap with
                     | Ok s => s
                     | _ => one_header_heap
                     end).
  { split; [done|]. split; [|done]. split; [lia|].
    intros h' Hh'. vm_compute in Hh'. injection Hh' as <-. vm_compute. reflexivity. }
  split; [exact Hcalls|].
  apply (gc_alloc_failure_is_permanent 3%nat [Collect; Alloc 0 0] one_header_heap h []
           8 0 _ 8 0 Hok); [simpl; lia|lia| |exact Hal|exact Hcalls].
  rewrite He. unfold sizeof_gc_header. lia.
Defined.

Lemma gc_shutdown_frees_headers_inside_arena_witness :
  gc_shutdown 3 two_objects_heap = Fault ∧
  (∀ a, a ∈ [65576; 65536] → 65536 ≤ a < 65536 + 1048576) ∧
  head [65576; 65536] = Some 65576.
Proof.
  assert (Hl : [65576; 65536] ≠ []) by done.
  assert (Hfuel : (1 < 3)%nat) by lia.
  exact (gc_shutdown_frees_headers_inside_arena two_objects_heap
           two_objects_heap_struct [65576; 65536] 3%nat two_objects_heap_ok Hl Hfuel).
Defined.

Lemma swept_heap_ok :
  heap_ok swept_heap
    {| heap_start := 65536; heap_end := 65536 + 1048576; heap_size := 1048576;
       free_ptr := 65536 + 40 + 56; objects := NULL; object_count := 0;
       roots := []; root_capacity := 64; gc_running := false |} [].
Proof.
  split.
  - vm_compute. reflexivity.
  - reflexivity.
  - done.
  - done.
  - done.
  - reflexivity.
  - apply NoDup_nil_2.
  - intros a Ha. by apply elem_of_nil in Ha.
  - intros r Hr. by apply elem_of_nil in Hr.
Defined.

Lemma gc_init_after_shutdown_keeps_totals_witness :
  ∃ s1 s2 h2,
    gc_shutdown 1 swept_heap = Ok s1 ∧ gc_heap s1 = None ∧
    (∀ f sz flgs, gc_alloc f sz flgs s1 = Ok (NULL, s1)) ∧
    (∀ p, gc_is_heap_ptr s1 p = false) ∧
    gc_init 4096 4096 131072 8192 s1 = (true, s2) ∧
    heap_ok s2 h2 [] ∧ object_count h2 = 0 ∧
    used_bytes (gc_stats s2) = 0 ∧ collection_count (gc_stats s2) = 0 ∧
    total_allocated (gc_stats s2) = 48 ∧
    total_collected (gc_stats s2) = 48.
Proof.
  assert (Hfuel : (0 < 1)%nat) by lia.
  assert (Hph : 4096 ≠ NULL) by done.
  assert (Hpr : 8192 ≠ NULL) by done.
  assert (Hpa : 0 < 131072) by done.
  assert (Hn : 0 ≤ 4096) by done.
  assert (Hfit : 131072 + 4096 < 2 ^ 64) by done.
  exact (gc_init_after_shutdown_keeps_totals swept_heap _ 1%nat 4096 4096 131072 8192
           swept_heap_ok Hfuel Hph Hpr Hpa Hn Hfit).
Defined.

End GC_api.

(** ** Lists: entries at even and odd positions *)

Lemma list_pair_ind (P : list Z → Prop) :
  P [] → (∀ a, P [a]) → (∀ a b l, P l → P (a :: b :: l)) → ∀ l, P l.
Proof.
  intros H0 H1 H2.
  assert (H : ∀ l, P l ∧ ∀ a, P (a :: l)).
  { induction l as [|b l [IH1 IH2]]; [by split|]. split; [by apply IH2|].
    intros a. by apply H2. }
  intros l. by destruct (H l).
Qed.

Lemma evens_odds_lookup (l : list Z) (i : nat) :
  evens l !! i = l !! (2 * i)%nat ∧ odds l !! i = l !! (2 * i + 1)%nat.
Proof.
  revert i. induction l as [| a | a b l IH] using list_pair_ind; intros i.
  - done.
  - destruct i as [|i]; [done|]. simpl.
    replace (i + S (i + 0))%nat with (S (2 * i)) by lia. done.
  - destruct i as [|i]; [done|]. destruct (IH i) as [He Ho]. simpl in *.
    replace (i + S (i + 0))%nat with (S (2 * i)) by lia.
    replace (i + S (i + 0) + 1)%nat with (S (2 * i + 1)) by lia.
    simpl. replace (i + (i + 0))%nat with (2 * i)%nat by lia. by split.
Qed.

Lemma evens_odds_subset (l : list Z) (x : Z) :
  (x ∈ evens l → x ∈ l) ∧ (x ∈ odds l → x ∈ l).
Proof.
  induction l as [| a | a b l [IHe IHo]] using list_pair_ind; simpl.
  - by split.
  - split; [done|]. intros H. by apply elem_of_nil in H.
  - split.
    + intros H. apply elem_of_cons in H as [->|H]; [apply list_elem_of_here|].
      do 2 apply list_elem_of_further. by apply IHe.
    + intros H. apply list_elem_of_further.
      apply elem_of_cons in H as [->|H]; [apply list_elem_of_here|].
      apply list_elem_of_further. by apply IHo.
Qed.

Lemma remove_first_middle (A : Z) (pre rest : list Z) :
  A ∉ pre → GC.remove_first A (pre ++ A :: rest) = pre ++ rest.
Proof.
  induction pre as [|x pre IH]; intros Hnot; simpl.
  - by rewrite Z.eqb_refl.
  - apply not_elem_of_cons in Hnot as [Hne Hnot].
    replace (x =? A) with false by (symmetry; apply Z.eqb_neq; congruence).
    by rewrite IH.
Qed.


(** ** Signal graph *)

Section Signals_properties.
Import Signals.

Variable call : Z → state → res (Z * state).

Lemma signals_register_signal_true p_new signal st st' :
  signals_register_signal p_new signal st = (true, st') →
  ∃ ss cap, signals_state st = Some ss ∧
    st' = set_signals_state
            {| all_signals := all_signals ss ++ [signal]; signal_capacity := cap;
               propagation_running := propagation_running ss;
               dirty_signals := dirty_signals ss |} st.
Proof.
  unfold signals_register_signal. intros H.
  destruct (signals_state st) as [ss|]; [|done].
  destruct (signal =? NULL); [done|].
  destruct (_ && _); [done|]. injection H as <-. by eexists _, _.
Qed.

(** What a successful [signal_create] leaves behind. *)
Lemma signal_create_spec fuel p_deps p_reg v st s st1 :
  signal_create fuel p_deps p_reg v st = Ok (s, st1) → s ≠ NULL →
  ∃ ss ss1,
    signals_state st = Some ss ∧ signals_state st1 = Some ss1 ∧
    dirty_signals ss1 = dirty_signals ss ∧
    propagation_running ss1 = propagation_running ss ∧
    sigmem st1 = <[s := fresh_signal v]> (sigmem st).
Proof.
  unfold signal_create. intros H Hs.
  destruct (signals_state st) as [ss|] eqn:Hss; [|by injection H as <-].
  apply res_bind_ok in H as ([p g] & _ & H).
  destruct (p =? NULL); [by injection H as <-|]. cbv zeta in H.
  destruct (p_deps =? NULL); [by injection H as <-|].
  destruct (signals_register_signal _ _ _) as [ok st'] eqn:Hreg.
  destruct ok; simpl in H; [|by injection H as <-]. injection H as -> ->.
  apply signals_register_signal_true in Hreg as (ss' & cap & Hss' & ->).
  simpl in Hss'. rewrite Hss in Hss'. injection Hss' as <-.
  eexists ss, _. by repeat split.
Qed.

Lemma load_store_eq p c st : load (sigmem (store p c st)) p = Ok c.
Proof. unfold load, store. simpl. by rewrite lookup_insert_eq. Qed.

Lemma load_store_ne p q c st :
  p ≠ q → load (sigmem (store p c st)) q = load (sigmem st) q.
Proof. intros H. unfold load, store. simpl. by rewrite lookup_insert_ne. Qed.

Lemma load_set_signals_state ss st p :
  load (sigmem (set_signals_state ss st)) p = load (sigmem st) p.
Proof. reflexivity. Qed.

Lemma signals_state_store p c st : signals_state (store p c st) = signals_state st.
Proof. reflexivity. Qed.

Lemma signals_state_set ss st : signals_state (set_signals_state ss st) = Some ss.
Proof. reflexivity. Qed.

Lemma load_some (st : state) p c : sigmem st !! p = Some c → load (sigmem st) p = Ok c.
Proof. by apply load_ok. Qed.

Lemma signal_mark_dirty_unfold fuel p_new signal st ss :
  signal ≠ NULL → signals_state st = Some ss → signal ∉ dirty_signals ss →
  p_new ≠ NULL →
  signal_mark_dirty (S fuel) p_new signal st =
  let cap := if signal_capacity ss <=? dirty_count ss
             then wrap (signal_capacity ss * 2) else signal_capacity ss in
  let st1 := set_signals_state
               (set_dirty (dirty_signals ss ++ [signal]) cap ss) st in
  cell ← load (sigmem st1) signal;
  mark_dependents (signal_mark_dirty fuel p_new) (dependents cell) st1.
Proof.
  intros Hnz Hss Hnot Hp. simpl.
  by rewrite (eqb_null_false _ Hnz), Hss, (existsb_eqb_false _ _ Hnot),
             (eqb_null_false _ Hp), andb_false_r.
Qed.

Lemma propagate_loop_unfold fuel i st :
  propagate_loop call (S fuel) i st =
  match signals_state st with
  | None => Fault
  | Some ss =>
    match dirty_signals ss !! i with
    | None => Ok st
    | Some signal =>
      st ← (if signal =? NULL then Ok st
            else
              cell ← load (sigmem st) signal;
              if is_computed cell && needs_recompute cell
              then computed_recompute call signal st
              else Ok st);
      propagate_loop call fuel (S i) st
    end
  end.
Proof. reflexivity. Qed.

Local Opaque store set_signals_state.
Local Arguments signal_mark_dirty : simpl never.
Local Arguments propagate_loop : simpl never.
Local Arguments store : simpl never.
Local Arguments set_signals_state : simpl never.
Local Arguments load : simpl never.
Local Arguments Z.mul : simpl never.
Local Arguments wrap : simpl never.
Local Arguments Z.leb : simpl never.

Lemma signal_set_pushes fuel p_dirty st ss s c f cs cc v :
  signals_state st = Some ss → dirty_signals ss = [] →
  propagation_running ss = false →
  sigmem st !! s = Some cs → is_computed cs = false → dependents cs = [c] →
  sigmem st !! c = Some cc → is_computed cc = true →
  compute_fn cc = f → f ≠ NULL → dependents cc = [] →
  c ≠ s → s ≠ NULL → c ≠ NULL →
  (∀ st' cell, sigmem st' !! s = Some cell → is_computed cell = false →
               call f st' = Ok (2 * value cell, st')) →
  p_dirty ≠ NULL → (3 ≤ fuel)%nat →
  ∃ st4 cc4,
    signal_set_value call fuel p_dirty s v st = Ok st4 ∧
    sigmem st4 !! c = Some cc4 ∧ value cc4 = 2 * v ∧
    needs_recompute cc4 = false ∧
    signal_get_value call c st4 = Ok (2 * v, st4).
Proof.
  intros Hss Hdirty Hrun Hs Hps Hds Hc Hcc Hfn Hfnz Hdc Hcs Hsnz Hcnz Hf Hp Hfuel.
  destruct fuel as [|[|[|fuel]]]; try lia.
  assert (Hf' : ∀ st' cell, load (sigmem st') s = Ok cell → is_computed cell = false →
                 call f st' = Ok (2 * value cell, st')).
  { intros st' cell Hl. apply Hf. by apply load_ok. }
  apply load_some in Hs, Hc.
  unfold signal_set_value.
  rewrite eqb_null_false, Hs by assumption. simpl. rewrite Hps.
  (* signal_mark_dirty on s *)
  erewrite signal_mark_dirty_unfold; [|done|by rewrite signals_state_store| |done].
  2:{ rewrite Hdirty. apply not_elem_of_nil. }
  cbv zeta.
  rewrite load_set_signals_state, load_store_eq. simpl. rewrite Hds. simpl.
  rewrite load_set_signals_state, load_store_ne, Hc by done. simpl. rewrite Hcc.
  (* signal_mark_dirty on c *)
  erewrite signal_mark_dirty_unfold;
    [|done|by rewrite signals_state_store, signals_state_set| |done].
  2:{ simpl. rewrite Hdirty. simpl. intros H. apply list_elem_of_singleton in H. done. }
  cbv zeta. rewrite load_set_signals_state, load_store_eq. simpl. rewrite Hdc. simpl.
  (* signals_propagate_changes *)
  unfold signals_propagate_changes. rewrite signals_state_set. simpl. rewrite Hrun.
  rewrite propagate_loop_unfold, signals_state_set. simpl. 
  rewrite ?Hdirty. simpl.
  rewrite eqb_null_false by assumption.
  rewrite !load_set_signals_state, load_store_ne, load_set_signals_state, load_store_eq by done.
  simpl. rewrite Hps. simpl.
  rewrite propagate_loop_unfold, signals_state_set. simpl. rewrite ?Hdirty. simpl.
  rewrite eqb_null_false by assumption.
  rewrite !load_set_signals_state, load_store_eq. simpl. rewrite Hcc. simpl.
  unfold computed_recompute. rewrite eqb_null_false by assumption.
  rewrite !load_set_signals_state, load_store_eq. simpl. rewrite Hfn.
  rewrite eqb_null_false by assumption.
  rewrite (Hf' _ (set_data v (set_value v cs))); [| |exact Hps].
  2:{ rewrite !load_set_signals_state, load_store_ne, load_set_signals_state by done.
      apply load_store_eq. }
  simpl. rewrite !load_set_signals_state, load_store_eq. simpl.
  rewrite propagate_loop_unfold, signals_state_store, signals_state_set. simpl.
  rewrite ?Hdirty. simpl.
  rewrite signals_state_store, signals_state_set.
  eexists _, _. split; [reflexivity|].
  split; [apply load_ok; rewrite load_set_signals_state; apply load_store_eq|].
  split; [reflexivity|]. split; [reflexivity|].
  unfold signal_get_value. rewrite eqb_null_false by assumption.
  rewrite load_set_signals_state, load_store_eq. simpl. rewrite Hcc. simpl.
  rewrite load_set_signals_state, load_store_eq. reflexivity.
Qed.

(** The pull path on its own: a [signal_set_value] that arrives while a
    propagation is running only flags the dependent; the next
    [signal_get_value] on it recomputes. *)
Lemma signal_get_pulls fuel p_dirty st ss s c f cs cc v :
  signals_state st = Some ss → dirty_signals ss = [] →
  propagation_running ss = true →
  sigmem st !! s = Some cs → is_computed cs = false → dependents cs = [c] →
  sigmem st !! c = Some cc → is_computed cc = true →
  compute_fn cc = f → f ≠ NULL → dependents cc = [] →
  c ≠ s → s ≠ NULL → c ≠ NULL →
  (∀ st' cell, sigmem st' !! s = Some cell → is_computed cell = false →
               call f st' = Ok (2 * value cell, st')) →
  p_dirty ≠ NULL → (3 ≤ fuel)%nat →
  ∃ st4 cc4 st5 cc5,
    signal_set_value call fuel p_dirty s v st = Ok st4 ∧
    sigmem st4 !! c = Some cc4 ∧ value cc4 = value cc ∧
    needs_recompute cc4 = true ∧
    signal_get_value call c st4 = Ok (2 * v, st5) ∧
    sigmem st5 !! c = Some cc5 ∧ value cc5 = 2 * v ∧
    needs_recompute cc5 = false.
Proof.
  intros Hss Hdirty Hrun Hs Hps Hds Hc Hcc Hfn Hfnz Hdc Hcs Hsnz Hcnz Hf Hp Hfuel.
  destruct fuel as [|[|[|fuel]]]; try lia.
  assert (Hf' : ∀ st' cell, load (sigmem st') s = Ok cell → is_computed cell = false →
                 call f st' = Ok (2 * value cell, st')).
  { intros st' cell Hl. apply Hf. by apply load_ok. }
  apply load_some in Hs, Hc.
  unfold signal_set_value.
  rewrite eqb_null_false, Hs by assumption. simpl. rewrite Hps.
  erewrite signal_mark_dirty_unfold; [|done|by rewrite signals_state_store| |done].
  2:{ rewrite Hdirty. apply not_elem_of_nil. }
  cbv zeta. rewrite load_set_signals_state, load_store_eq. simpl. rewrite Hds. simpl.
  rewrite load_set_signals_state, load_store_ne, Hc by done. simpl. rewrite Hcc.
  erewrite signal_mark_dirty_unfold;
    [|done|by rewrite signals_state_store, signals_state_set| |done].
  2:{ simpl. rewrite Hdirty. simpl. intros H. apply list_elem_of_singleton in H. done. }
  cbv zeta. rewrite load_set_signals_state, load_store_eq. simpl. rewrite Hdc. simpl.
  unfold signals_propagate_changes. rewrite signals_state_set. simpl. rewrite Hrun.
  eexists _, _, _, _. split; [reflexivity|].
  split; [apply load_ok; rewrite load_set_signals_state; apply load_store_eq|].
  split; [reflexivity|]. split; [reflexivity|].
  unfold signal_get_value. rewrite eqb_null_false by assumption.
  rewrite load_set_signals_state, load_store_eq. simpl. rewrite Hcc. simpl.
  unfold computed_recompute. rewrite eqb_null_false by assumption.
  rewrite !load_set_signals_state, load_store_eq. simpl. rewrite Hfn.
  rewrite eqb_null_false by assumption.
  rewrite (Hf' _ (set_data v (set_value v cs))); [| |exact Hps].
  2:{ rewrite !load_set_signals_state, load_store_ne, load_set_signals_state by done.
      apply load_store_eq. }
  simpl. rewrite !load_set_signals_state, load_store_eq. simpl.
  rewrite load_store_eq. simpl.
  split; [reflexivity|].
  split; [apply load_ok; apply load_store_eq|]. by split.
Qed.

(** What a successful [computed_create] leaves behind when the compute
    function doubles the plain signal [s]. *)
Lemma computed_create_spec fuel p_deps p_reg f st s cs c st2 :
  computed_create call fuel p_deps p_reg f st = Ok (c, st2) →
  c ≠ NULL → c ≠ s →
  sigmem st !! s = Some cs → is_computed cs = false →
  (∀ st' cell, sigmem st' !! s = Some cell → is_computed cell = false →
               call f st' = Ok (2 * value cell, st')) →
  ∃ ss ss2,
    f ≠ NULL ∧
    signals_state st = Some ss ∧ signals_state st2 = Some ss2 ∧
    dirty_signals ss2 = dirty_signals ss ∧
    propagation_running ss2 = propagation_running ss ∧
    sigmem st2 !! c
      = Some (set_needs_recompute false (set_value (2 * value cs) (fresh_computed f))) ∧
    (∀ q, q ≠ c → sigmem st2 !! q = sigmem st !! q).
Proof.
  unfold computed_create. intros H Hc Hcs Hs Hps Hf.
  assert (Hf' : ∀ st' cell, load (sigmem st') s = Ok cell → is_computed cell = false →
                 call f st' = Ok (2 * value cell, st')).
  { intros st' cell Hl. apply Hf. by apply load_ok. }
  destruct (signals_state st) as [ss|] eqn:Hss; [|by injection H as <-].
  destruct (f =? NULL) eqn:Hfn; [by injection H as <-|]. apply Z.eqb_neq in Hfn.
  apply res_bind_ok in H as ([p g] & _ & H).
  destruct (p =? NULL) eqn:Hp; [by injection H as <-|]. apply Z.eqb_neq in Hp.
  cbv zeta in H.
  destruct (p_deps =? NULL); [by injection H as <-|].
  destruct (signals_register_signal _ _ _) as [ok st'] eqn:Hreg.
  destruct ok; simpl in H; [|by injection H as <-].
  apply signals_register_signal_true in Hreg as (ss' & cap & Hss' & ->).
  rewrite signals_state_store in Hss'. simpl in Hss'. rewrite Hss in Hss'.
  injection Hss' as <-.
  apply res_bind_ok in H as (st3 & Hrec & H). injection H as <- <-.
  unfold computed_recompute in Hrec. rewrite (eqb_null_false _ Hp) in Hrec.
  rewrite load_set_signals_state, load_store_eq in Hrec. simpl in Hrec.
  rewrite (eqb_null_false _ Hfn) in Hrec.
  rewrite (Hf' _ cs) in Hrec; [| |exact Hps].
  2:{ rewrite load_set_signals_state, load_store_ne by done. by apply load_ok. }
  simpl in Hrec. rewrite load_set_signals_state, load_store_eq in Hrec.
  simpl in Hrec. injection Hrec as <-.
  eexists ss, _. split; [done|]. split; [done|].
  split; [by rewrite signals_state_store, signals_state_set|].
  split; [done|]. split; [done|]. split.
  - apply load_ok. apply load_store_eq.
  - intros q Hq. apply option_eq. intros x. rewrite <- !load_ok.
    by rewrite load_store_ne, load_set_signals_state, load_store_ne.
Qed.

(** C3 (signal propagation, both paths).  [s] is created with value 1, [c] is
    created with a compute function that returns twice the value of [s], and
    [c] is registered as a dependent of [s].  Then
    - [signal_get_value(c)] returns 2 and changes nothing;
    - push: [signal_set_value(s, 5)] returns with [c] already recomputed
      (value 10, flag cleared), and [signal_get_value(c)] returns 10;
    - pull: when the same [signal_set_value(s, 5)] arrives while a propagation
      is running, it returns with [c] only flagged (value still 2), and
      [signal_get_value(c)] recomputes and returns 10, clearing the flag. *)
Theorem signal_propagation_push_and_pull
    fuel p_deps p_reg p_deps' p_reg' p_new p_dirty f st0 ss0 s st1 c st2 st3 :
  signals_state st0 = Some ss0 →
  dirty_signals ss0 = [] → propagation_running ss0 = false →
  signal_create fuel p_deps p_reg 1 st0 = Ok (s, st1) → s ≠ NULL →
  (∀ st' cell, sigmem st' !! s = Some cell → is_computed cell = false →
               call f st' = Ok (2 * value cell, st')) →
  computed_create call fuel p_deps' p_reg' f st1 = Ok (c, st2) →
  c ≠ NULL → c ≠ s →
  signal_add_dependent p_new s c st2 = Ok (true, st3) →
  p_dirty ≠ NULL → (3 ≤ fuel)%nat →
  signal_get_value call c st3 = Ok (2, st3) ∧
  (∃ st4 cc4,
     signal_set_value call fuel p_dirty s 5 st3 = Ok st4 ∧
     sigmem st4 !! c = Some cc4 ∧ value cc4 = 10 ∧
     needs_recompute cc4 = false ∧
     signal_get_value call c st4 = Ok (10, st4)) ∧
  (∃ ss3 st4 cc4 st5 cc5,
     signals_state st3 = Some ss3 ∧
     signal_set_value call fuel p_dirty s 5
       (set_signals_state (set_propagation_running true ss3) st3) = Ok st4 ∧
     sigmem st4 !! c = Some cc4 ∧ value cc4 = 2 ∧
     needs_recompute cc4 = true ∧
     signal_get_value call c st4 = Ok (10, st5) ∧
     sigmem st5 !! c = Some cc5 ∧ value cc5 = 10 ∧
     needs_recompute cc5 = false).
Proof.
  intros Hss0 Hdirty0 Hrun0 Hs Hsnz Hf Hc Hcnz Hcs Hadd Hp Hfuel.
  destruct (signal_create_spec _ _ _ _ _ _ _ Hs Hsnz)
    as (ss0' & ss1 & Hss0' & Hss1 & Hd1 & Hr1 & Hmem1).
  rewrite Hss0 in Hss0'. injection Hss0' as <-.
  assert (Hs1 : sigmem st1 !! s = Some (fresh_signal 1)).
  { rewrite Hmem1. apply lookup_insert_eq. }
  destruct (computed_create_spec _ _ _ _ _ _ _ _ _ Hc Hcnz Hcs Hs1 eq_refl Hf)
    as (ss1' & ss2 & Hfnz & Hss1' & Hss2 & Hd2 & Hr2 & Hc2 & Hother2).
  rewrite Hss1 in Hss1'. injection Hss1' as <-.
  assert (Hs2 : sigmem st2 !! s = Some (fresh_signal 1)).
  { rewrite Hother2 by done. exact Hs1. }
  unfold signal_add_dependent in Hadd.
  rewrite (eqb_null_false _ Hsnz), (eqb_null_false _ Hcnz) in Hadd. simpl in Hadd.
  rewrite (load_some _ _ _ Hs2) in Hadd. simpl in Hadd.
  injection Hadd as <-.
  set (S1 := set_dependents [c] 8 (fresh_signal 1)).
  set (C1 := set_needs_recompute false
               (set_value (2 * value (fresh_signal 1)) (fresh_computed f))) in *.
  assert (Hs3 : sigmem (store s S1 st2) !! s = Some S1)
    by apply load_ok, load_store_eq.
  assert (Hc3 : sigmem (store s S1 st2) !! c = Some C1).
  { apply load_ok. rewrite load_store_ne by done. by apply load_ok. }
  assert (Hss3 : signals_state (store s S1 st2) = Some ss2)
    by (by rewrite signals_state_store).
  split; [|split].
  - unfold signal_get_value. rewrite (eqb_null_false _ Hcnz).
    rewrite (load_some _ _ _ Hc3). simpl. by rewrite (load_some _ _ _ Hc3).
  - apply (signal_set_pushes fuel p_dirty (store s S1 st2) ss2 s c f S1 C1 5);
      try done; congruence.
  - destruct (signal_get_pulls fuel p_dirty
                (set_signals_state (set_propagation_running true ss2) (store s S1 st2))
                (set_propagation_running true ss2) s c f S1 C1 5)
      as (st4 & cc4 & st5 & cc5 & H4 & Hc4 & Hv4 & Hn4 & Hg & Hc5 & Hv5 & Hn5);
      try done; try (simpl; congruence);
      try (apply load_ok; rewrite load_set_signals_state; by apply load_ok).
    exists ss2, st4, cc4, st5, cc5. by repeat split.
Qed.

Local Transparent store set_signals_state.

(** C4, amended: [signal_set_value] on a computed signal is a silent no-op.
    The function has no return value; the call returns normally and the whole
    state, the value of the computed signal included, is what it was.
    Nothing reports the misuse to the caller. *)
Theorem signal_set_on_computed_is_silent_noop fuel p_new st c cell v :
  sigmem st !! c = Some cell → is_computed cell = true →
  signal_set_value call fuel p_new c v st = Ok st ∧
  ¬ reports_error st (signal_set_value call fuel p_new c v st).
Proof.
  intros Hcell Hcomputed.
  assert (Hrun : signal_set_value call fuel p_new c v st = Ok st).
  { unfold signal_set_value. destruct (c =? NULL); [done|].
    unfold load. rewrite Hcell. simpl. by rewrite Hcomputed. }
  split; [exact Hrun|]. unfold reports_error. intros H. exact (H Hrun).
Qed.

(** C8 (dependent dedup).  Adding the same dependent twice leaves exactly one
    entry equal to it in the dependents list, and both calls return [true].
    The list is taken free of duplicates, as the data model has it, and the
    [realloc] of a full array is taken to succeed. *)
Theorem signal_add_dependent_twice p1 p2 st s d cell :
  s ≠ NULL → d ≠ NULL →
  sigmem st !! s = Some cell → NoDup (dependents cell) →
  (dependent_capacity cell ≤ dependent_count cell → d ∉ dependents cell →
   p1 ≠ NULL) →
  ∃ st1 cell1,
    signal_add_dependent p1 s d st = Ok (true, st1) ∧
    signal_add_dependent p2 s d st1 = Ok (true, st1) ∧
    sigmem st1 !! s = Some cell1 ∧
    NoDup (dependents cell1) ∧
    count_occ Z.eq_dec (dependents cell1) d = 1%nat.
Proof.
  intros Hs Hd Hcell Hnd Hrealloc.
  assert (Hcount : ∀ l : list Z, NoDup l → d ∈ l → count_occ Z.eq_dec l d = 1%nat).
  { intros l Hl Hin. apply NoDup_ListNoDup in Hl.
    apply (proj1 (List.NoDup_count_occ' Z.eq_dec l) Hl). by apply list_elem_of_In. }
  unfold signal_add_dependent.
  rewrite (eqb_null_false _ Hs), (eqb_null_false _ Hd). simpl.
  unfold load. rewrite Hcell. simpl.
  destruct (decide (d ∈ dependents cell)) as [Hin|Hnotin].
  - rewrite (existsb_eqb_true _ _ Hin).
    exists st, cell. rewrite Hcell. simpl. rewrite (existsb_eqb_true _ _ Hin).
    repeat split; try done. by apply Hcount.
  - rewrite (existsb_eqb_false _ _ Hnotin).
    assert (Hgrow : (dependent_capacity cell <=? dependent_count cell)
                    && (p1 =? NULL) = false).
    { destruct (dependent_capacity cell <=? dependent_count cell) eqn:E; [|done].
      apply Z.leb_le in E. simpl. by apply eqb_null_false, Hrealloc. }
    rewrite Hgrow.
    eexists _, _. split; [reflexivity|].
    assert (Hin' : d ∈ dependents cell ++ [d]).
    { apply elem_of_app. right. apply list_elem_of_singleton. done. }
    unfold store. simpl. rewrite lookup_insert_eq. simpl.
    rewrite (existsb_eqb_true _ _ Hin').
    split; [done|]. split; [done|].
    assert (Hnd' : NoDup (dependents cell ++ [d])).
    { apply NoDup_app. split; [done|]. split; [|apply NoDup_singleton].
      intros x Hx Hxd. apply list_elem_of_singleton in Hxd. by subst x. }
    split; [exact Hnd'|]. by apply Hcount.
Qed.

End Signals_properties.

Section Signals_examples.
Import Signals.

Lemma double_of_65560_doubles (f : Z) (st' : state) (cell : vela_signal_t) :
  sigmem st' !! 65560 = Some cell → is_computed cell = false →
  double_of_65560 f st' = Ok (2 * value cell, st').
Proof.
  intros Hcell Hplain. unfold double_of_65560, load. rewrite Hcell. simpl.
  by rewrite Hplain.
Qed.

Lemma signal_propagation_push_and_pull_witness :
  signal_create 3 4096 4096 1 booted = Ok (65560, with_s) ∧
  computed_create double_of_65560 3 4096 4096 4198400 with_s
    = Ok (65632, with_s_c) ∧
  signal_add_dependent 4096 65560 65632 with_s_c = Ok (true, with_s_c_linked) ∧
  signal_get_value double_of_65560 65632 with_s_c_linked
    = Ok (2, with_s_c_linked) ∧
  (∃ st4, signal_set_value double_of_65560 3 4096 65560 5 with_s_c_linked = Ok st4 ∧
          signal_get_value double_of_65560 65632 st4 = Ok (10, st4)).
Proof.
  assert (H1 : signal_create 3 4096 4096 1 booted = Ok (65560, with_s))
    by (vm_compute; reflexivity).
  assert (H2 : computed_create double_of_65560 3 4096 4096 4198400 with_s
               = Ok (65632, with_s_c)) by (vm_compute; reflexivity).
  assert (H3 : signal_add_dependent 4096 65560 65632 with_s_c
               = Ok (true, with_s_c_linked)) by (vm_compute; reflexivity).
  split; [exact H1|]. split; [exact H2|]. split; [exact H3|].
  assert (H0 : signals_state booted
               = Some {| all_signals := []; signal_capacity := 64;
                         propagation_running := false; dirty_signals := [] |})
    by (vm_compute; reflexivity).
  assert (Hs : 65560 ≠ NULL) by discriminate.
  assert (Hc : 65632 ≠ NULL) by discriminate.
  assert (Hcs : 65632 ≠ 65560) by discriminate.
  assert (Hp : 4096 ≠ NULL) by discriminate.
  assert (Hfuel : (3 ≤ 3)%nat) by lia.
  destruct (signal_propagation_push_and_pull double_of_65560
              3 4096 4096 4096 4096 4096 4096 4198400 booted _
              65560 with_s 65632 with_s_c with_s_c_linked
              H0 eq_refl eq_refl H1 Hs
              (double_of_65560_doubles 4198400) H2 Hc Hcs H3 Hp Hfuel)
    as (Hget & (st4 & cc4 & Hset & _ & _ & _ & Hget4) & _).
  split; [exact Hget|]. exists st4. split; [exact Hset|exact Hget4].
Defined.

(** C4, as stated, fails: the computed signal at 65632 is set to 7, the call
    returns normally in the very same state, and no error reaches the
    caller. *)
Lemma signal_set_on_computed_reports_nothing :
  (∃ cell, sigmem with_s_c_linked !! 65632 = Some cell ∧
           is_computed cell = true ∧ value cell = 2) ∧
  signal_set_value double_of_65560 3 4096 65632 7 with_s_c_linked
    = Ok with_s_c_linked ∧
  ¬ reports_error with_s_c_linked
      (signal_set_value double_of_65560 3 4096 65632 7 with_s_c_linked).
Proof.
  assert (Hrun : signal_set_value double_of_65560 3 4096 65632 7 with_s_c_linked
                 = Ok with_s_c_linked) by (vm_compute; reflexivity).
  split; [eexists; repeat split; vm_compute; reflexivity|].
  split; [exact Hrun|]. unfold reports_error. intros H. exact (H Hrun).
Qed.

Lemma signal_set_on_computed_is_silent_noop_witness :
  (∃ cell, sigmem with_s_c_linked !! 65632 = Some cell ∧ is_computed cell = true) ∧
  signal_set_value double_of_65560 3 4096 65632 7 with_s_c_linked
    = Ok with_s_c_linked.
Proof.
  assert (Hcell : sigmem with_s_c_linked !! 65632
                  = Some {| value := 2; dependents := []; dependent_capacity := 8;
                            is_computed := true; data := NULL;
                            compute_fn := 4198400; needs_recompute := false |})
    by (vm_compute; reflexivity).
  split; [eexists; split; [exact Hcell|reflexivity]|].
  exact (proj1 (signal_set_on_computed_is_silent_noop double_of_65560
                  3 4096 with_s_c_linked 65632 _ 7 Hcell eq_refl)).
Defined.

Lemma signal_add_dependent_twice_witness :
  ∃ st1 cell1,
    signal_add_dependent 4096 65560 65632 with_s_c = Ok (true, st1) ∧
    signal_add_dependent 4096 65560 65632 st1 = Ok (true, st1) ∧
    sigmem st1 !! 65560 = Some cell1 ∧
    NoDup (dependents cell1) ∧
    count_occ Z.eq_dec (dependents cell1) 65632 = 1%nat.
Proof.
  assert (Hcell : sigmem with_s_c !! 65560 = Some (fresh_signal 1))
    by (vm_compute; reflexivity).
  assert (Hs : 65560 ≠ NULL) by discriminate.
  assert (Hd : 65632 ≠ NULL) by discriminate.
  assert (Hp : 4096 ≠ NULL) by discriminate.
  exact (signal_add_dependent_twice 4096 4096 with_s_c 65560 65632 _
           Hs Hd Hcell (NoDup_nil_2 : NoDup (dependents (fresh_signal 1)))
           (λ _ _, Hp)).
Defined.

End Signals_examples.

(** ** Signal graph: marking, propagation, destruction *)

Section Signals_api.
Import Signals.

Implicit Types (m : gmap Z vela_signal_t) (st : state) (ss : signals_state_t).

(** *** Raising flags *)

Lemma raised_refl c : raised c c.
Proof. by left. Qed.

Lemma raised_trans c c' c'' : raised c c' → raised c' c'' → raised c c''.
Proof.
  intros [->|[Hc ->]] [->|[Hc' ->]]; [by left|by right|by right|].
  right. split; [done|]. by destruct c.
Qed.

Lemma raised_fields c c' :
  raised c c' →
  dependents c' = dependents c ∧ is_computed c' = is_computed c ∧
  value c' = value c ∧ compute_fn c' = compute_fn c ∧
  (is_computed c' = false → c' = c) ∧
  (needs_recompute c = true → c' = c).
Proof.
  intros [->|[Hc ->]]; [done|]. simpl. repeat split; try done.
  - intros H. congruence.
  - intros H. destruct c. simpl in *. by subst.
Qed.

Lemma raised_from_refl m : raised_from m m.
Proof. intros x. destruct (m !! x) as [c|]; [|done]. exists c. split; [done|by left]. Qed.

Lemma raised_from_trans m m' m'' :
  raised_from m m' → raised_from m' m'' → raised_from m m''.
Proof.
  intros H1 H2 x. specialize (H1 x). specialize (H2 x).
  destruct (m !! x) as [c|].
  - destruct H1 as (c' & Hc' & Hr). rewrite Hc' in H2.
    destruct H2 as (c'' & Hc'' & Hr'). exists c''. split; [done|].
    by eapply raised_trans.
  - by rewrite H1 in H2.
Qed.

Lemma raised_from_lookup m m' x c :
  raised_from m m' → m !! x = Some c → ∃ c', m' !! x = Some c' ∧ raised c c'.
Proof. intros H Hx. specialize (H x). by rewrite Hx in H. Qed.

Lemma raised_from_flagged m m' x :
  raised_from m m' → flagged m x → flagged m' x.
Proof.
  intros H (c & Hc & Hf). destruct (raised_from_lookup m m' x c H Hc) as (c' & Hc' & Hr).
  exists c'. split; [done|]. intros Hcomp.
  destruct Hr as [->|[_ ->]]; [by apply Hf|done].
Qed.

Lemma raised_from_flag m x c :
  m !! x = Some c →
  raised_from m (<[x := if is_computed c then set_needs_recompute true c else c]> m).
Proof.
  intros Hx y. destruct (decide (y = x)) as [->|Hne].
  - rewrite Hx, lookup_insert_eq. eexists. split; [done|].
    destruct (is_computed c) eqn:Hc; [by right|by left].
  - rewrite lookup_insert_ne by done. destruct (m !! y) as [cy|]; [|done].
    exists cy. split; [done|by left].
Qed.

(** *** The measure of the marking *)

Lemma unmarked_shrinks m (dirty : list Z) (x : Z) :
  is_Some (m !! x) → x ∉ dirty →
  (size (unmarked m (dirty ++ [x])) < size (unmarked m dirty))%nat.
Proof.
  intros Hx Hnot. apply subset_size. unfold unmarked.
  apply elem_of_dom in Hx. rewrite list_to_set_app_L.
  assert (Hx' : x ∉ (list_to_set dirty : gset Z)) by (by rewrite elem_of_list_to_set).
  apply strict_spec_alt. split.
  - apply difference_mono_l, union_subseteq_l.
  - intros Heq. assert (Hin : x ∈ dom m ∖ (list_to_set dirty : gset Z)).
    { by apply elem_of_difference. }
    rewrite <- Heq in Hin. apply elem_of_difference in Hin as [_ Hin]. apply Hin.
    apply elem_of_union. right. apply elem_of_list_to_set, list_elem_of_here.
Qed.

Lemma unmarked_mono m (dirty new : list Z) :
  (size (unmarked m (dirty ++ new)) ≤ size (unmarked m dirty))%nat.
Proof.
  apply subseteq_size. unfold unmarked. rewrite list_to_set_app_L.
  apply difference_mono_l, union_subseteq_l.
Qed.

Lemma unmarked_dom m m' (dirty : list Z) :
  raised_from m m' → unmarked m' dirty = unmarked m dirty.
Proof.
  intros H. unfold unmarked. f_equal. apply set_eq. intros x.
  rewrite !elem_of_dom. specialize (H x). destruct (m !! x) as [c|].
  - destruct H as (c' & -> & _). split; by eexists.
  - rewrite H. split; by intros [? ?].
Qed.

(** *** Marking the dependents of a signal *)

Lemma signal_mark_dirty_seen fuel p_new signal st ss :
  signals_state st = Some ss → signal ∈ dirty_signals ss →
  signal_mark_dirty (S fuel) p_new signal st = Ok st.
Proof.
  intros Hss Hin. simpl. destruct (signal =? NULL); [done|]. rewrite Hss.
  by rewrite (existsb_eqb_true _ _ Hin).
Qed.

Lemma marks_nothing st ss :
  signals_state st = Some ss → NoDup (dirty_signals ss) → marks st ss st ss [].
Proof.
  intros Hss Hnd. split; try done; [by rewrite app_nil_r|apply raised_from_refl].
Qed.

(** [signal_mark_dirty] on a signal that is not yet dirty, with room in the
    dirty array: no [realloc]. *)
Lemma signal_mark_dirty_unfold_room fuel p_new signal st ss :
  signal ≠ NULL → signals_state st = Some ss → signal ∉ dirty_signals ss →
  dirty_count ss < signal_capacity ss →
  signal_mark_dirty (S fuel) p_new signal st =
  let st1 := set_signals_state
               (set_dirty (dirty_signals ss ++ [signal]) (signal_capacity ss) ss) st in
  cell ← load (sigmem st1) signal;
  mark_dependents (signal_mark_dirty fuel p_new) (dependents cell) st1.
Proof.
  intros Hnz Hss Hnot Hroom. simpl.
  rewrite (eqb_null_false _ Hnz), Hss, (existsb_eqb_false _ _ Hnot).
  by replace (signal_capacity ss <=? dirty_count ss) with false
    by (symmetry; apply Z.leb_gt; lia).
Qed.

(** Distinct entries that all come from a list of at most 64 are at most 64. *)
Lemma distinct_entries_bounded (l reg : list Z) :
  NoDup l → (∀ x, x ∈ l → x ∈ reg) → (length l ≤ length reg)%nat.
Proof. intros Hnd Hin. apply submseteq_length. by apply NoDup_submseteq. Qed.

Section Marking.

(** [m0] is the graph at the start; [reg] the registry, of at most 64
    signals; [P] a set of registered signals that is closed under the
    dependents arrays.  Marking inside [P] never fills the dirty array. *)
Variable m0 : gmap Z vela_signal_t.
Variable p_new : Z.
Variable reg : list Z.
Variable P : Z → Prop.
Hypothesis Hgraph : graph_ok m0.
Hypothesis Hreg : (length reg ≤ 64)%nat.
Hypothesis HP_reg : ∀ x, P x → x ∈ reg.
Hypothesis HP_closed : ∀ x c d, P x → m0 !! x = Some c → d ∈ dependents c → P d.

Lemma mark_dependents_spec (f : nat) :
  (∀ signal st ss,
     raised_from m0 (sigmem st) → signals_state st = Some ss →
     NoDup (dirty_signals ss) → is_Some (m0 !! signal) →
     (size (unmarked m0 (dirty_signals ss)) < f)%nat →
     64 ≤ signal_capacity ss → (∀ x, x ∈ dirty_signals ss → x ∈ reg) →
     P signal →
     ∃ st' ss' new,
       signal_mark_dirty f p_new signal st = Ok st' ∧ marks st ss st' ss' new ∧
       signal ∈ dirty_signals ss' ∧
       (∀ x, x ∈ new → x = signal ∨ depends_on m0 signal x) ∧
       closed_under_dependents m0 st' ss' new ∧
       (∀ x c c', sigmem st !! x = Some c → sigmem st' !! x = Some c' →
                  c' = c ∨ depends_on m0 signal x) ∧
       (∀ x, x ∈ new → P x)) →
  ∀ ds st ss,
    raised_from m0 (sigmem st) → signals_state st = Some ss →
    NoDup (dirty_signals ss) → (∀ d, d ∈ ds → is_Some (m0 !! d)) →
    (size (unmarked m0 (dirty_signals ss)) < f)%nat →
    64 ≤ signal_capacity ss → (∀ x, x ∈ dirty_signals ss → x ∈ reg) →
    (∀ d, d ∈ ds → P d) →
    ∃ st' ss' new,
      mark_dependents (signal_mark_dirty f p_new) ds st = Ok st' ∧
      marks st ss st' ss' new ∧
      (∀ d, d ∈ ds → d ∈ dirty_signals ss' ∧ flagged (sigmem st') d) ∧
      (∀ x, x ∈ new → ∃ d, d ∈ ds ∧ (x = d ∨ depends_on m0 d x)) ∧
      closed_under_dependents m0 st' ss' new ∧
      (∀ x c c', sigmem st !! x = Some c → sigmem st' !! x = Some c' →
                 c' = c ∨ ∃ d, d ∈ ds ∧ (x = d ∨ depends_on m0 d x)) ∧
      (∀ x, x ∈ new → P x).
Proof using All.
  intros IHf. induction ds as [|d ds IHds];
    intros st ss Hfrom Hss Hnd Hds Hsize Hcap Hdirty_reg HPds.
  - exists st, ss, []. split; [done|]. split; [by apply marks_nothing|].
    split; [intros d Hd; by apply elem_of_nil in Hd|].
    split; [intros x Hx; by apply elem_of_nil in Hx|].
    split; [intros x c0 d Hx; by apply elem_of_nil in Hx|].
    split; [|intros x Hx; by apply elem_of_nil in Hx].
    intros x c c' Hc Hc'. left. congruence.
  - destruct (Hds d (list_elem_of_here _ _)) as [cd0 Hcd0].
    destruct (raised_from_lookup _ _ _ _ Hfrom Hcd0) as (dcell & Hdcell & Hrd).
    set (flag := if is_computed dcell then set_needs_recompute true dcell else dcell).
    set (st_a := if is_computed dcell
                 then store d (set_needs_recompute true dcell) st else st).
    assert (Hmem_a : sigmem st_a = <[d := flag]> (sigmem st)).
    { unfold st_a, flag. destruct (is_computed dcell); [done|].
      by rewrite insert_id. }
    assert (Hss_a : signals_state st_a = Some ss).
    { unfold st_a. by destruct (is_computed dcell). }
    assert (Hgc_a : gc st_a = gc st).
    { unfold st_a. by destruct (is_computed dcell). }
    assert (Hra : raised_from (sigmem st) (sigmem st_a)).
    { rewrite Hmem_a. by apply raised_from_flag. }
    assert (Hflag_a : flagged (sigmem st_a) d).
    { exists flag. rewrite Hmem_a, lookup_insert_eq. split; [done|].
      unfold flag. destruct (is_computed dcell) eqn:Hc; [done|]. congruence. }
    destruct (IHf d st_a ss)
      as (st_b & ss_b & new_b & Hrun_b & Hm_b & Hd_b & Hsound_b & Hclosed_b & Hchg_b & HP_b);
      [by eapply raised_from_trans|done|done|by eexists|done|done|done
      |apply HPds, list_elem_of_here|].
    destruct (IHds st_b ss_b)
      as (st' & ss' & new_c & Hrun_c & Hm_c & Hds_c & Hsound_c & Hclosed_c & Hchg_c & HP_c).
    { eapply raised_from_trans; [|exact (marks_cells _ _ _ _ _ Hm_b)].
      by eapply raised_from_trans. }
    { exact (marks_state _ _ _ _ _ Hm_b). }
    { exact (marks_nodup _ _ _ _ _ Hm_b). }
    { intros d' Hd'. apply Hds. by apply list_elem_of_further. }
    { rewrite (marks_dirty _ _ _ _ _ Hm_b). pose proof (unmarked_mono m0 (dirty_signals ss) new_b). lia. }
    { by rewrite (marks_capacity _ _ _ _ _ Hm_b). }
    { intros x Hx. rewrite (marks_dirty _ _ _ _ _ Hm_b) in Hx.
      apply elem_of_app in Hx as [Hx|Hx]; [by apply Hdirty_reg|by apply HP_reg, HP_b]. }
    { intros d' Hd'. apply HPds. by apply list_elem_of_further. }
    exists st', ss', (new_b ++ new_c). split.
    { simpl. unfold load. rewrite Hdcell. cbn [mbind res_bind].
      fold st_a. rewrite Hrun_b. cbn [mbind res_bind]. exact Hrun_c. }
    assert (Hdirty' : dirty_signals ss' = dirty_signals ss ++ new_b ++ new_c).
    { by rewrite (marks_dirty _ _ _ _ _ Hm_c), (marks_dirty _ _ _ _ _ Hm_b), <- app_assoc. }
    assert (Hbc : ∀ x, x ∈ dirty_signals ss_b → x ∈ dirty_signals ss').
    { intros x Hx. rewrite (marks_dirty _ _ _ _ _ Hm_c). apply elem_of_app. by left. }
    split.
    { split.
      - by rewrite (marks_gc _ _ _ _ _ Hm_c), (marks_gc _ _ _ _ _ Hm_b).
      - exact (marks_state _ _ _ _ _ Hm_c).
      - by rewrite (marks_all _ _ _ _ _ Hm_c), (marks_all _ _ _ _ _ Hm_b).
      - by rewrite (marks_running _ _ _ _ _ Hm_c), (marks_running _ _ _ _ _ Hm_b).
      - by rewrite (marks_capacity _ _ _ _ _ Hm_c), (marks_capacity _ _ _ _ _ Hm_b).
      - exact Hdirty'.
      - exact (marks_nodup _ _ _ _ _ Hm_c).
      - eapply raised_from_trans; [exact Hra|].
        eapply raised_from_trans; [exact (marks_cells _ _ _ _ _ Hm_b)|].
        exact (marks_cells _ _ _ _ _ Hm_c). }
    split.
    { intros d' Hd'. apply elem_of_cons in Hd' as [->|Hd']; [|by apply Hds_c].
      split; [by apply Hbc|].
      eapply raised_from_flagged; [exact (marks_cells _ _ _ _ _ Hm_c)|].
      eapply raised_from_flagged; [exact (marks_cells _ _ _ _ _ Hm_b)|done]. }
    split.
    { intros x Hx. apply elem_of_app in Hx as [Hx|Hx].
      - exists d. split; [apply list_elem_of_here|]. by apply Hsound_b.
      - destruct (Hsound_c x Hx) as (d' & Hd' & H). exists d'.
        split; [by apply list_elem_of_further|done]. }
    split.
    { intros x c0 d' Hx Hc0 Hd'. apply elem_of_app in Hx as [Hx|Hx].
      - destruct (Hclosed_b x c0 d' Hx Hc0 Hd') as [Hin Hfl]. split; [by apply Hbc|].
        eapply raised_from_flagged; [exact (marks_cells _ _ _ _ _ Hm_c)|done].
      - by apply (Hclosed_c x c0 d'). }
    split; [|intros x Hx; apply elem_of_app in Hx as [Hx|Hx]; [by apply HP_b|by apply HP_c]].
    intros x c c' Hc Hc'.
    destruct (raised_from_lookup _ _ _ _ Hra Hc) as (c_a & Hc_a & _).
    destruct (raised_from_lookup _ _ _ _ (marks_cells _ _ _ _ _ Hm_b) Hc_a) as (c_b & Hc_b & _).
    destruct (decide (x = d)) as [->|Hne].
    { right. exists d. split; [apply list_elem_of_here|by left]. }
    assert (c_a = c) as ->.
    { rewrite Hmem_a, lookup_insert_ne in Hc_a by done. congruence. }
    destruct (Hchg_b x c c_b Hc_a Hc_b) as [->|Hdep].
    + destruct (Hchg_c x c c' Hc_b Hc') as [->|(d' & Hd' & H)]; [by left|].
      right. exists d'. split; [by apply list_elem_of_further|done].
    + right. exists d. split; [apply list_elem_of_here|by right].
Qed.

Lemma signal_mark_dirty_spec (f : nat) : ∀ signal st ss,
  raised_from m0 (sigmem st) → signals_state st = Some ss →
  NoDup (dirty_signals ss) → is_Some (m0 !! signal) →
  (size (unmarked m0 (dirty_signals ss)) < f)%nat →
  64 ≤ signal_capacity ss → (∀ x, x ∈ dirty_signals ss → x ∈ reg) →
  P signal →
  ∃ st' ss' new,
    signal_mark_dirty f p_new signal st = Ok st' ∧ marks st ss st' ss' new ∧
    signal ∈ dirty_signals ss' ∧
    (∀ x, x ∈ new → x = signal ∨ depends_on m0 signal x) ∧
    closed_under_dependents m0 st' ss' new ∧
    (∀ x c c', sigmem st !! x = Some c → sigmem st' !! x = Some c' →
               c' = c ∨ depends_on m0 signal x) ∧
    (∀ x, x ∈ new → P x) ∧
    (signal ∉ dirty_signals ss → head new = Some signal).
Proof using All.
  induction f as [|f IHf];
    intros signal st ss Hfrom Hss Hnd Hsig Hsize Hcap Hdirty_reg HPs; [lia|].
  assert (Hnz : signal ≠ NULL).
  { intros ->. rewrite (graph_null _ Hgraph) in Hsig. by destruct Hsig. }
  destruct (decide (signal ∈ dirty_signals ss)) as [Hin|Hnot].
  { exists st, ss, []. rewrite (signal_mark_dirty_seen f p_new signal st ss Hss Hin).
    split; [done|]. split; [by apply marks_nothing|]. split; [done|].
    split; [intros x Hx; by apply elem_of_nil in Hx|].
    split; [intros x c0 d Hx; by apply elem_of_nil in Hx|].
    split; [intros x c c' Hc Hc'; left; congruence|].
    split; [intros x Hx; by apply elem_of_nil in Hx|done]. }
  destruct Hsig as [c0 Hc0].
  destruct (raised_from_lookup _ _ _ _ Hfrom Hc0) as (cell & Hcell & Hrc).
  destruct (raised_fields _ _ Hrc) as (Hdeps & _).
  assert (Hnd1 : NoDup (dirty_signals ss ++ [signal])).
  { apply NoDup_app. split; [done|]. split; [|apply NoDup_singleton].
    intros x Hx Hx'. apply list_elem_of_singleton in Hx' as ->. done. }
  assert (Hreg1 : ∀ x, x ∈ dirty_signals ss ++ [signal] → x ∈ reg).
  { intros x Hx. apply elem_of_app in Hx as [Hx|Hx]; [by apply Hdirty_reg|].
    apply list_elem_of_singleton in Hx as ->. by apply HP_reg. }
  assert (Hroom : dirty_count ss < signal_capacity ss).
  { pose proof (distinct_entries_bounded _ _ Hnd1 Hreg1) as Hlen.
    rewrite length_app in Hlen. simpl in Hlen. unfold dirty_count. lia. }
  rewrite (signal_mark_dirty_unfold_room f p_new signal st ss Hnz Hss Hnot Hroom).
  cbv zeta.
  set (ss1 := set_dirty (dirty_signals ss ++ [signal]) (signal_capacity ss) ss).
  set (st1 := set_signals_state ss1 st).
  unfold load. change (sigmem st1) with (sigmem st). rewrite Hcell. cbn [mbind res_bind].
  rewrite Hdeps.
  assert (IHf' : ∀ signal st ss,
     raised_from m0 (sigmem st) → signals_state st = Some ss →
     NoDup (dirty_signals ss) → is_Some (m0 !! signal) →
     (size (unmarked m0 (dirty_signals ss)) < f)%nat →
     64 ≤ signal_capacity ss → (∀ x, x ∈ dirty_signals ss → x ∈ reg) →
     P signal →
     ∃ st' ss' new,
       signal_mark_dirty f p_new signal st = Ok st' ∧ marks st ss st' ss' new ∧
       signal ∈ dirty_signals ss' ∧
       (∀ x, x ∈ new → x = signal ∨ depends_on m0 signal x) ∧
       closed_under_dependents m0 st' ss' new ∧
       (∀ x c c', sigmem st !! x = Some c → sigmem st' !! x = Some c' →
                  c' = c ∨ depends_on m0 signal x) ∧
       (∀ x, x ∈ new → P x)).
  { intros sg st0 ss0 H1 H2 H3 H4 H5 H6 H7 H8.
    destruct (IHf sg st0 ss0 H1 H2 H3 H4 H5 H6 H7 H8)
      as (st' & ss' & new & Ha & Hb & Hc & Hd & He & Hf & Hg & _).
    by exists st', ss', new. }
  destruct (mark_dependents_spec f IHf' (dependents c0) st1 ss1)
    as (st' & ss' & new & Hrun & Hm & Hds & Hsound & Hclosed & Hchg & HPnew); try done.
  { intros d Hd. by apply (graph_closed _ Hgraph signal c0 d). }
  { simpl. pose proof (unmarked_shrinks m0 (dirty_signals ss) signal).
    assert (size (unmarked m0 (dirty_signals ss ++ [signal]))
            < size (unmarked m0 (dirty_signals ss)))%nat; [|lia].
    apply unmarked_shrinks; [by eexists|done]. }
  { intros d Hd. by apply (HP_closed signal c0 d). }
  exists st', ss', (signal :: new). split; [exact Hrun|].
  assert (Hdirty' : dirty_signals ss' = dirty_signals ss ++ signal :: new).
  { rewrite (marks_dirty _ _ _ _ _ Hm). simpl. by rewrite <- app_assoc. }
  split.
  { split.
    - exact (marks_gc _ _ _ _ _ Hm).
    - exact (marks_state _ _ _ _ _ Hm).
    - exact (marks_all _ _ _ _ _ Hm).
    - exact (marks_running _ _ _ _ _ Hm).
    - exact (marks_capacity _ _ _ _ _ Hm).
    - exact Hdirty'.
    - exact (marks_nodup _ _ _ _ _ Hm).
    - exact (marks_cells _ _ _ _ _ Hm). }
  split.
  { rewrite Hdirty'. apply elem_of_app. right. apply list_elem_of_here. }
  split.
  { intros x Hx. apply elem_of_cons in Hx as [->|Hx]; [by left|]. right.
    destruct (Hsound x Hx) as (d & Hd & [->|Hdep]).
    - by eapply depends_direct.
    - by eapply depends_trans. }
  split.
  { intros x cx d Hx Hcx Hd. apply elem_of_cons in Hx as [->|Hx].
    - rewrite Hc0 in Hcx. injection Hcx as <-. by apply Hds.
    - by apply (Hclosed x cx d). }
  split; [|split; [|done]].
  - intros x c c' Hc Hc'. destruct (Hchg x c c' Hc Hc') as [->|(d & Hd & [->|Hdep])].
    + by left.
    + right. by eapply depends_direct.
    + right. by eapply depends_trans.
  - intros x Hx. apply elem_of_cons in Hx as [->|Hx]; [done|by apply HPnew].
Qed.

End Marking.

(** [graph_ok] can be checked by computation on a concrete graph. *)
Lemma graph_ok_check m :
  m !! NULL = None →
  map_Forall (λ _ c, Forall (λ d, is_Some (m !! d)) (dependents c)) m →
  graph_ok m.
Proof.
  intros Hnull Hall. split; [done|]. intros x c d Hx Hd.
  specialize (Hall x c Hx). simpl in Hall. rewrite Forall_forall in Hall.
  by apply Hall.
Qed.

Lemma depends_on_cell m x y : depends_on m x y → is_Some (m !! x).
Proof. intros [? c ? H _|? c ? ? H _ _]; by exists c. Qed.

Lemma closed_reaches m0 st' ss' :
  closed_under_dependents m0 st' ss' (dirty_signals ss') →
  ∀ x y, depends_on m0 x y → x ∈ dirty_signals ss' →
         y ∈ dirty_signals ss' ∧ flagged (sigmem st') y.
Proof.
  intros Hclosed x y Hdep.
  induction Hdep as [x c d Hx Hd|x c d y Hx Hd Hdep IH]; intros Hxn.
  - by apply (Hclosed x c d).
  - apply IH. by apply (Hclosed x c d).
Qed.

Lemma depends_on_step m a x c d :
  depends_on m a x → m !! x = Some c → d ∈ dependents c → depends_on m a d.
Proof.
  intros Hdep. induction Hdep as [a c0 x Ha Hx|a c0 b x Ha Hb Hdep IH]; intros Hc Hd.
  - eapply depends_trans; [exact Ha|exact Hx|]. by eapply depends_direct.
  - eapply depends_trans; [exact Ha|exact Hb|]. by apply IH.
Qed.

(** What can be reached from a signal is closed under the dependents
    arrays. *)
Lemma reachable_closed m signal x c d :
  x = signal ∨ depends_on m signal x → m !! x = Some c → d ∈ dependents c →
  d = signal ∨ depends_on m signal d.
Proof.
  intros [->|Hdep] Hc Hd; right.
  - by eapply depends_direct.
  - by eapply depends_on_step.
Qed.

(** X19 ([signal_mark_dirty] on a graph of at most 64 signals).  The dirty
    array keeps the 64 slots that [signals_init] gave it, so the setting is a
    registry of at most 64 signals with a capacity of at least 64, in which
    the signal and every signal that depends on it are registered (none of
    them has been destroyed).  Starting there from an empty dirty list, on
    any such dependents graph, cyclic or not, [signal_mark_dirty] returns
    without calling [realloc].  The dirty list then begins with the signal and
    holds, once each, exactly the signal and the signals that depend on it, at
    most 64 entries; every computed signal among those that depend on it is
    flagged for recomputation; the only change to a cell is a raised flag, and
    the cells of the signals that do not depend on it are as before.  The
    collector, the registry and the capacity are untouched. *)
Theorem signal_mark_dirty_marks_what_depends fuel p_new signal st ss :
  graph_ok (sigmem st) → signals_state st = Some ss → dirty_signals ss = [] →
  is_Some (sigmem st !! signal) →
  64 ≤ signal_capacity ss → (length (all_signals ss) ≤ 64)%nat →
  signal ∈ all_signals ss →
  (∀ x, depends_on (sigmem st) signal x → x ∈ all_signals ss) →
  (size (dom (sigmem st)) < fuel)%nat →
  ∃ st' ss',
    signal_mark_dirty fuel p_new signal st = Ok st' ∧
    gc st' = gc st ∧ signals_state st' = Some ss' ∧
    all_signals ss' = all_signals ss ∧
    signal_capacity ss' = signal_capacity ss ∧
    propagation_running ss' = propagation_running ss ∧
    NoDup (dirty_signals ss') ∧ head (dirty_signals ss') = Some signal ∧
    (length (dirty_signals ss') ≤ 64)%nat ∧
    (∀ x, x ∈ dirty_signals ss' ↔ x = signal ∨ depends_on (sigmem st) signal x) ∧
    (∀ x, depends_on (sigmem st) signal x → flagged (sigmem st') x) ∧
    (∀ x, sigmem st !! x = None → sigmem st' !! x = None) ∧
    (∀ x c, sigmem st !! x = Some c →
            ∃ c', sigmem st' !! x = Some c' ∧ raised c c' ∧
                  (c' = c ∨ depends_on (sigmem st) signal x)).
Proof.
  intros Hgraph Hss Hdirty Hsig Hcap Hreg Hsig_reg Hreach Hfuel.
  assert (HPreg : ∀ x, x = signal ∨ depends_on (sigmem st) signal x →
                       x ∈ all_signals ss).
  { intros x [->|Hx]; [done|by apply Hreach]. }
  destruct (signal_mark_dirty_spec (sigmem st) p_new (all_signals ss)
              (λ x, x = signal ∨ depends_on (sigmem st) signal x) Hgraph Hreg HPreg
              (reachable_closed (sigmem st) signal) fuel signal st ss)
    as (st' & ss' & new & Hrun & Hm & Hin & Hsound & Hclosed & Hchg & HPnew & Hhead).
  { apply raised_from_refl. }
  { done. }
  { rewrite Hdirty. apply NoDup_nil_2. }
  { done. }
  { rewrite Hdirty. unfold unmarked. simpl. by rewrite difference_empty_L. }
  { done. }
  { rewrite Hdirty. intros x Hx. by apply elem_of_nil in Hx. }
  { by left. }
  assert (Hnew : dirty_signals ss' = new).
  { by rewrite (marks_dirty _ _ _ _ _ Hm), Hdirty. }
  rewrite <- Hnew in Hclosed, Hsound, Hhead.
  pose proof (closed_reaches (sigmem st) st' ss' Hclosed) as Hall.
  exists st', ss'. split; [done|].
  split; [exact (marks_gc _ _ _ _ _ Hm)|]. split; [exact (marks_state _ _ _ _ _ Hm)|].
  split; [exact (marks_all _ _ _ _ _ Hm)|].
  split; [exact (marks_capacity _ _ _ _ _ Hm)|].
  split; [exact (marks_running _ _ _ _ _ Hm)|].
  split; [exact (marks_nodup _ _ _ _ _ Hm)|].
  split.
  { apply Hhead. rewrite Hdirty. apply not_elem_of_nil. }
  split.
  { etrans; [|exact Hreg].
    apply distinct_entries_bounded; [exact (marks_nodup _ _ _ _ _ Hm)|].
    intros x Hx. destruct (Hsound x Hx) as [->|Hdep]; [done|by apply Hreach]. }
  split.
  { intros x. split; [apply Hsound|].
    intros [->|Hdep]; [done|]. by apply (Hall signal x Hdep). }
  split.
  { intros x Hdep. by apply (Hall signal x Hdep). }
  split.
  { intros x Hx. pose proof (marks_cells _ _ _ _ _ Hm x) as H. by rewrite Hx in H. }
  intros x c Hx.
  destruct (raised_from_lookup _ _ _ _ (marks_cells _ _ _ _ _ Hm) Hx) as (c' & Hc' & Hr).
  exists c'. split; [done|]. split; [done|]. by apply (Hchg x c c').
Qed.

Lemma depends_on_target m x y : graph_ok m → depends_on m x y → is_Some (m !! y).
Proof.
  intros Hg Hdep. induction Hdep as [x c d Hx Hd|x c d y Hx Hd Hdep IH]; [|done].
  by apply (graph_closed _ Hg x c d).
Qed.

(** Reachability only reads the dependents arrays. *)
Lemma depends_on_ext m m' x y :
  (∀ z c, m !! z = Some c → ∃ c', m' !! z = Some c' ∧ dependents c' = dependents c) →
  depends_on m x y → depends_on m' x y.
Proof.
  intros Hext Hdep. induction Hdep as [x c d Hx Hd|x c d y Hx Hd Hdep IH].
  - destruct (Hext x c Hx) as (c' & Hc' & Hds). eapply depends_direct; [done|].
    by rewrite Hds.
  - destruct (Hext x c Hx) as (c' & Hc' & Hds). eapply depends_trans; [done| |done].
    by rewrite Hds.
Qed.

(** *** Propagation with compute functions that write nothing *)

Lemma recomputed_trans c c' c'' : recomputed c c' → recomputed c' c'' → recomputed c c''.
Proof.
  intros [->|(Hc & Hf & v & ->)] [->|(Hc' & Hf' & v' & ->)].
  - by left.
  - right. split; [done|]. split; [done|]. by exists v'.
  - right. split; [done|]. split; [done|]. by exists v.
  - right. split; [done|]. split; [done|]. exists v'. by destruct c.
Qed.

Lemma recomputed_fields c c' :
  recomputed c c' →
  dependents c' = dependents c ∧ is_computed c' = is_computed c ∧
  compute_fn c' = compute_fn c ∧ data c' = data c ∧
  dependent_capacity c' = dependent_capacity c ∧
  (is_computed c = false → c' = c) ∧
  (needs_recompute c = false → needs_recompute c' = false).
Proof.
  intros [->|(Hc & Hf & v & ->)]; [done|]. simpl. repeat split; try done.
  intros H. congruence.
Qed.

Section Pure_compute.

Variable call : Z → state → res (Z * state).
Hypothesis Hpure : pure_compute call.

Lemma computed_recompute_pure computed st c :
  computed ≠ NULL → sigmem st !! computed = Some c → is_computed c = true →
  ∃ c', computed_recompute call computed st = Ok (store computed c' st) ∧
        recomputed c c' ∧
        (needs_recompute c = true → compute_fn c ≠ NULL → needs_recompute c' = false) ∧
        (c' = c → computed_recompute call computed st = Ok st).
Proof.
  intros Hnz Hc Hcomp. unfold computed_recompute.
  rewrite (eqb_null_false _ Hnz). unfold load. rewrite Hc. cbn [mbind res_bind].
  destruct (compute_fn c =? NULL) eqn:Hfn.
  - apply Z.eqb_eq in Hfn. exists c. split.
    + f_equal. destruct st as [g s m]. unfold store. simpl in *. f_equal.
      by rewrite insert_id.
    + split; [by left|]. split; [intros _ H; by rewrite Hfn in H|done].
  - apply Z.eqb_neq in Hfn. destruct (Hpure (compute_fn c) st) as [v Hv].
    rewrite Hv. cbn [mbind res_bind]. rewrite Hc. cbn [mbind res_bind].
    exists (set_needs_recompute false (set_value v c)). split; [done|].
    split; [right; split; [done|]; split; [done|]; by exists v|].
    split; [done|]. intros Heq. f_equal.
    destruct st as [g s m]. unfold store. simpl in *. f_equal.
    rewrite Heq. by rewrite insert_id.
Qed.

Lemma propagate_loop_pure ss : ∀ fuel i st,
  signals_state st = Some ss → sigmem st !! NULL = None →
  (∀ x, x ∈ dirty_signals ss → is_Some (sigmem st !! x)) →
  (length (dirty_signals ss) - i < fuel)%nat →
  ∃ st', propagate_loop call fuel i st = Ok st' ∧ gc st' = gc st ∧
         signals_state st' = Some ss ∧
         settles (drop i (dirty_signals ss)) (sigmem st) (sigmem st').
Proof.
  induction fuel as [|fuel IH]; intros i st Hss Hnull Hdom Hfuel; [lia|].
  simpl. rewrite Hss.
  destruct (dirty_signals ss !! i) as [x|] eqn:Hi.
  2: { exists st. split; [done|]. split; [done|]. split; [done|].
       apply lookup_ge_None in Hi. rewrite drop_ge by done.
       intros y. destruct (sigmem st !! y) as [c|]; [|done].
       exists c. split; [done|]. split; [by left|]. split; [done|].
       intros H. by apply elem_of_nil in H. }
  assert (Hx : x ∈ dirty_signals ss) by (by eapply list_elem_of_lookup_2).
  destruct (Hdom x Hx) as [c Hc].
  assert (Hnz : x ≠ NULL) by (intros ->; congruence).
  rewrite (eqb_null_false _ Hnz). unfold load at 1. rewrite Hc. cbn [mbind res_bind].
  assert (Hstep : ∃ c1,
    (if is_computed c && needs_recompute c
     then computed_recompute call x st else Ok st) = Ok (store x c1 st) ∧
    recomputed c c1 ∧
    (is_computed c = true → compute_fn c ≠ NULL → needs_recompute c1 = false)).
  { destruct (is_computed c) eqn:Hcomp; simpl.
    - destruct (needs_recompute c) eqn:Hneed.
      + destruct (computed_recompute_pure x st c Hnz Hc Hcomp) as (c1 & Hrun & Hr & Hfl & _).
        exists c1. split; [done|]. split; [done|]. intros _ Hf. by apply Hfl.
      + exists c. split; [|split; [by left|done]]. f_equal.
        destruct st as [g s m]. unfold store. simpl in *. f_equal. by rewrite insert_id.
    - exists c. split; [|split; [by left|done]]. f_equal.
      destruct st as [g s m]. unfold store. simpl in *. f_equal. by rewrite insert_id. }
  destruct Hstep as (c1 & -> & Hr1 & Hfl1). cbn [mbind res_bind].
  destruct (IH (S i) (store x c1 st)) as (st' & Hrun & Hgc & Hss' & Hset).
  { done. }
  { simpl. by rewrite lookup_insert_ne. }
  { intros y Hy. simpl. apply lookup_insert_is_Some.
    destruct (decide (x = y)) as [->|Hne]; [by left|right]. split; [done|]. by apply Hdom. }
  { apply lookup_lt_Some in Hi. lia. }
  exists st'. split; [done|]. split; [done|]. split; [done|].
  rewrite (drop_S _ _ _ Hi). intros y. specialize (Hset y). simpl in Hset.
  destruct (decide (y = x)) as [->|Hne].
  - rewrite lookup_insert_eq in Hset. rewrite Hc.
    destruct Hset as (c' & Hc' & Hr & Hkeep & Hfl). exists c'. split; [done|].
    split; [by eapply recomputed_trans|]. split.
    + intros H. exfalso. apply H. apply list_elem_of_here.
    + intros _ Hcomp Hf. destruct (recomputed_fields _ _ Hr) as (_ & _ & _ & _ & _ & _ & H).
      apply H. by apply Hfl1.
  - rewrite lookup_insert_ne in Hset by done.
    destruct (sigmem st !! y) as [cy|]; [|done].
    destruct Hset as (c' & Hc' & Hr & Hkeep & Hfl). exists c'. split; [done|].
    split; [done|]. split.
    + intros H. apply Hkeep. intros H'. apply H. by apply list_elem_of_further.
    + intros H. apply Hfl. apply elem_of_cons in H as [->|H]; done.
Qed.

End Pure_compute.

(** X20 ([signal_set_value] with compute functions that write nothing).  The
    setting is that of a dirty array with its 64 slots from [signals_init]: a
    registry of at most 64 signals with a capacity of at least 64, in which
    the signal and every signal that depends on it are registered (none of
    them has been destroyed).  There, on any dependents graph, cyclic or not,
    with the dirty list empty and no propagation running: a set of a plain
    signal returns, without calling [realloc], with the dirty list empty
    again and the propagation flag down; the signal holds the new value and
    [signal_get_value] returns it; every computed signal that depends on the
    signal and has a compute function is left unflagged, with its dependents
    array, kind and compute function as before; and the cells of the other
    signals are unchanged. *)
Theorem signal_set_value_settles_dependents
    (call : Z → state → res (Z * state)) fuel p_new signal v st ss cell :
  pure_compute call → graph_ok (sigmem st) →
  signals_state st = Some ss → dirty_signals ss = [] →
  propagation_running ss = false →
  sigmem st !! signal = Some cell → is_computed cell = false →
  64 ≤ signal_capacity ss → (length (all_signals ss) ≤ 64)%nat →
  signal ∈ all_signals ss →
  (∀ x, depends_on (sigmem st) signal x → x ∈ all_signals ss) →
  (size (dom (sigmem st)) < fuel)%nat →
  ∃ st' ss',
    signal_set_value call fuel p_new signal v st = Ok st' ∧
    gc st' = gc st ∧ signals_state st' = Some ss' ∧
    all_signals ss' = all_signals ss ∧ dirty_signals ss' = [] ∧
    signal_capacity ss' = signal_capacity ss ∧
    propagation_running ss' = false ∧
    sigmem st' !! signal = Some (set_data v (set_value v cell)) ∧
    signal_get_value call signal st' = Ok (v, st') ∧
    (∀ x c, sigmem st !! x = Some c → depends_on (sigmem st) signal x →
            ∃ c', sigmem st' !! x = Some c' ∧
                  dependents c' = dependents c ∧ is_computed c' = is_computed c ∧
                  compute_fn c' = compute_fn c ∧
                  (is_computed c = true → compute_fn c ≠ NULL →
                   needs_recompute c' = false)) ∧
    (∀ x, x ≠ signal → ¬ depends_on (sigmem st) signal x →
          sigmem st' !! x = sigmem st !! x).
Proof.
  intros Hpure Hgraph Hss Hdirty Hrun Hcell Hplain Hcap Hreg Hsig_reg Hreach_reg Hfuel.
  assert (Hnz : signal ≠ NULL).
  { intros ->. by rewrite (graph_null _ Hgraph) in Hcell. }
  set (cellv := set_data v (set_value v cell)).
  set (st_a := store signal cellv st).
  set (m := sigmem st). set (m_a := sigmem st_a).
  assert (Hm_a : m_a = <[signal := cellv]> m) by done.
  assert (Hext : ∀ z c, m !! z = Some c →
                   ∃ c', m_a !! z = Some c' ∧ dependents c' = dependents c).
  { intros z c Hz. rewrite Hm_a. destruct (decide (z = signal)) as [->|Hne].
    - rewrite lookup_insert_eq. exists cellv. split; [done|]. unfold m in Hz.
      rewrite Hcell in Hz. by injection Hz as <-.
    - rewrite lookup_insert_ne by done. by exists c. }
  assert (Hext' : ∀ z c, m_a !! z = Some c →
                    ∃ c', m !! z = Some c' ∧ dependents c' = dependents c).
  { intros z c. rewrite Hm_a. destruct (decide (z = signal)) as [->|Hne].
    - rewrite lookup_insert_eq. intros [= <-]. by exists cell.
    - rewrite lookup_insert_ne by done. intros Hz. by exists c. }
  assert (Hgraph_a : graph_ok m_a).
  { split.
    - rewrite Hm_a, lookup_insert_ne by done. apply (graph_null _ Hgraph).
    - intros x c d Hx Hd. destruct (Hext' x c Hx) as (c' & Hc' & Hds).
      rewrite <- Hds in Hd. destruct (graph_closed _ Hgraph x c' d Hc' Hd) as [cd Hcd].
      destruct (Hext d cd Hcd) as (cd' & Hcd' & _). by exists cd'. }
  assert (Hdom_a : dom m_a = dom m).
  { rewrite Hm_a, dom_insert_L. apply (elem_of_dom_2 (D := gset Z)) in Hcell.
    apply leibniz_equiv. apply subseteq_union_1. by apply singleton_subseteq_l. }
  assert (HPreg : ∀ x, x = signal ∨ depends_on m_a signal x → x ∈ all_signals ss).
  { intros x [->|Hx]; [done|]. apply Hreach_reg. by eapply depends_on_ext. }
  destruct (signal_mark_dirty_spec m_a p_new (all_signals ss)
              (λ x, x = signal ∨ depends_on m_a signal x) Hgraph_a Hreg HPreg
              (reachable_closed m_a signal) fuel signal st_a ss)
    as (st_b & ss_b & new & Hmark & Hm & Hin & Hsound & Hclosed & Hchg & _).
  { apply raised_from_refl. }
  { done. }
  { rewrite Hdirty. apply NoDup_nil_2. }
  { exists cellv. by rewrite Hm_a, lookup_insert_eq. }
  { rewrite Hdirty. unfold unmarked. simpl. rewrite difference_empty_L.
    fold m_a. by rewrite Hdom_a. }
  { done. }
  { rewrite Hdirty. intros x Hx. by apply elem_of_nil in Hx. }
  { by left. }
  assert (Hnew : dirty_signals ss_b = new).
  { by rewrite (marks_dirty _ _ _ _ _ Hm), Hdirty. }
  rewrite <- Hnew in Hclosed, Hsound.
  pose proof (closed_reaches m_a st_b ss_b Hclosed) as Hreach.
  assert (Hnew_dom : ∀ x, x ∈ dirty_signals ss_b → is_Some (m_a !! x)).
  { intros x Hx. destruct (Hsound x Hx) as [->|Hdep].
    - exists cellv. by rewrite Hm_a, lookup_insert_eq.
    - by eapply depends_on_target. }
  assert (Hlen : (length (dirty_signals ss_b) ≤ size (dom m))%nat).
  { rewrite <- Hdom_a.
    rewrite <- (size_list_to_set (C := gset Z) _ (marks_nodup _ _ _ _ _ Hm)).
    apply subseteq_size. intros x Hx. apply elem_of_list_to_set in Hx.
    apply elem_of_dom. by apply Hnew_dom. }
  set (ss_p := set_propagation_running true ss_b).
  destruct (propagate_loop_pure call Hpure ss_p fuel 0 (set_signals_state ss_p st_b))
    as (st_c & Hloop & Hgc_c & Hss_c & Hset).
  { done. }
  { simpl. pose proof (marks_cells _ _ _ _ _ Hm NULL) as H.
    fold m_a in H. by rewrite (graph_null _ Hgraph_a) in H. }
  { intros x Hx. simpl in *. destruct (Hnew_dom x Hx) as [c Hc].
    destruct (raised_from_lookup _ _ _ _ (marks_cells _ _ _ _ _ Hm) Hc) as (c' & Hc' & _).
    by exists c'. }
  { simpl. fold m in Hfuel. lia. }
  simpl in Hset. rewrite drop_0 in Hset.
  set (st' := set_signals_state
                (set_propagation_running false
                   (set_dirty [] (signal_capacity ss_p) ss_p)) st_c).
  assert (Hrun_all : signal_set_value call fuel p_new signal v st = Ok st').
  { unfold signal_set_value. rewrite (eqb_null_false _ Hnz).
    unfold load. rewrite Hcell. cbn [mbind res_bind]. rewrite Hplain.
    fold cellv st_a. rewrite Hmark. cbn [mbind res_bind].
    unfold signals_propagate_changes. rewrite (marks_state _ _ _ _ _ Hm).
    rewrite (marks_running _ _ _ _ _ Hm), Hrun. fold ss_p. rewrite Hloop.
    cbn [mbind res_bind]. by rewrite Hss_c. }
  (* the cell of a signal after marking and propagation *)
  assert (Hcells : ∀ x c, m_a !! x = Some c →
            ∃ c1 c', sigmem st_b !! x = Some c1 ∧ raised c c1 ∧
                     (c1 = c ∨ depends_on m_a signal x) ∧
                     sigmem st_c !! x = Some c' ∧ recomputed c1 c' ∧
                     (x ∉ dirty_signals ss_b → c' = c1) ∧
                     (x ∈ dirty_signals ss_b → is_computed c1 = true →
                      compute_fn c1 ≠ NULL → needs_recompute c' = false)).
  { intros x c Hx.
    destruct (raised_from_lookup _ _ _ _ (marks_cells _ _ _ _ _ Hm) Hx) as (c1 & Hc1 & Hr).
    specialize (Hset x). rewrite Hc1 in Hset.
    destruct Hset as (c' & Hc' & Hrc & Hkeep & Hfl).
    exists c1, c'. split; [done|]. split; [done|].
    split; [by apply (Hchg x c c1)|]. done. }
  assert (Hsignal' : sigmem st_c !! signal = Some cellv).
  { destruct (Hcells signal cellv) as (c1 & c' & Hc1 & Hr & _ & Hc' & Hrc & _).
    { by rewrite Hm_a, lookup_insert_eq. }
    destruct (raised_fields _ _ Hr) as (_ & Hcomp & _ & _ & Hsame & _).
    assert (c1 = cellv) as -> by (apply Hsame; by rewrite Hcomp).
    destruct (recomputed_fields _ _ Hrc) as (_ & _ & _ & _ & _ & Hsame' & _).
    rewrite Hc'. f_equal. by apply Hsame'. }
  exists st', (set_propagation_running false
                (set_dirty [] (signal_capacity ss_p) ss_p)).
  split; [exact Hrun_all|].
  split; [unfold st'; simpl; rewrite Hgc_c; simpl; by rewrite (marks_gc _ _ _ _ _ Hm)|].
  split; [reflexivity|].
  split; [simpl; exact (marks_all _ _ _ _ _ Hm)|].
  split; [reflexivity|].
  split; [simpl; exact (marks_capacity _ _ _ _ _ Hm)|]. split; [reflexivity|].
  split; [exact Hsignal'|].
  split.
  { unfold signal_get_value. rewrite (eqb_null_false _ Hnz). unfold load.
    change (sigmem st') with (sigmem st_c). rewrite Hsignal'. cbn [mbind res_bind].
    simpl. rewrite Hplain. simpl. change (sigmem st') with (sigmem st_c).
    by rewrite Hsignal'. }
  split.
  { intros x c Hx Hdep. change (sigmem st') with (sigmem st_c).
    destruct (Hext x c Hx) as (ca & Hca & Hds_a).
    assert (Hdep_a : depends_on m_a signal x) by (by eapply depends_on_ext).
    assert (Hx_in : x ∈ dirty_signals ss_b) by (by apply (Hreach signal x Hdep_a)).
    assert (Hca_eq : x ≠ signal → ca = c).
    { intros Hne. rewrite Hm_a, lookup_insert_ne in Hca by done. congruence. }
    destruct (Hcells x ca Hca) as (c1 & c' & Hc1 & Hr & _ & Hc' & Hrc & _ & Hfl).
    destruct (raised_fields _ _ Hr) as (Hd1 & Hk1 & _ & Hf1 & _).
    destruct (recomputed_fields _ _ Hrc) as (Hd2 & Hk2 & Hf2 & _).
    destruct (decide (x = signal)) as [->|Hne].
    - unfold m in Hx. rewrite Hcell in Hx. injection Hx as <-.
      rewrite Hsignal'. exists cellv. split; [done|]. split; [done|].
      split; [done|]. split; [done|]. intros H. congruence.
    - rewrite (Hca_eq Hne) in *. exists c'. split; [done|].
      split; [congruence|]. split; [congruence|]. split; [congruence|].
      intros Hcomp Hfn. apply Hfl; [done|congruence|congruence]. }
  intros x Hne Hnodep. change (sigmem st') with (sigmem st_c). fold m.
  assert (Hma_x : m_a !! x = m !! x) by (by rewrite Hm_a, lookup_insert_ne).
  destruct (m !! x) as [c|] eqn:Hx.
  - destruct (Hcells x c Hma_x) as (c1 & c' & Hc1 & Hr & Hsame & Hc' & Hrc & Hkeep & _).
    assert (Hnodep_a : ¬ depends_on m_a signal x).
    { intros H. apply Hnodep. by eapply depends_on_ext. }
    destruct Hsame as [->|H]; [|done]. rewrite Hc'. f_equal. apply Hkeep.
    intros Hin'. by destruct (Hsound x Hin') as [->|H].
  - pose proof (marks_cells _ _ _ _ _ Hm x) as H1. fold m_a in H1.
    rewrite Hma_x in H1. specialize (Hset x). by rewrite H1 in Hset.
Qed.

(** *** Creation, destruction and shutdown *)

Lemma signal_destroy_registered signal st ss :
  signal ≠ NULL → signals_state st = Some ss → signal ∈ all_signals ss →
  is_Some (sigmem st !! signal) →
  signal_destroy signal st
  = Ok (set_signals_state
          {| all_signals := GC.remove_first signal (all_signals ss);
             signal_capacity := signal_capacity ss;
             propagation_running := propagation_running ss;
             dirty_signals := dirty_signals ss |} st).
Proof.
  intros Hnz Hss Hin [c Hc]. unfold signal_destroy, signals_unregister_signal.
  rewrite (eqb_null_false _ Hnz), Hss, (existsb_eqb_true _ _ Hin).
  unfold load. simpl. by rewrite Hc.
Qed.

Lemma signals_shutdown_loop_skips : ∀ rest pre st ss fuel,
  signals_state st = Some ss → all_signals ss = pre ++ rest →
  NoDup (pre ++ rest) → NULL ∉ rest →
  (∀ x, x ∈ rest → is_Some (sigmem st !! x)) →
  (length rest < fuel)%nat →
  signals_shutdown_loop fuel (length pre) st
  = Ok (evens rest,
        set_signals_state
          {| all_signals := pre ++ odds rest;
             signal_capacity := signal_capacity ss;
             propagation_running := propagation_running ss;
             dirty_signals := dirty_signals ss |} st).
Proof.
  induction rest as [| a | a b rest IH] using list_pair_ind;
    intros pre st ss fuel Hss Hall Hnd Hnull Hmem Hfuel.
  - destruct fuel as [|fuel]; [simpl in Hfuel; lia|]. simpl. rewrite Hss, Hall.
    rewrite lookup_ge_None_2 by (rewrite app_nil_r; lia).
    do 2 f_equal. destruct st as [g s m]. unfold set_signals_state. simpl in *.
    rewrite Hss. do 2 f_equal. destruct ss. simpl in *. by subst.
  - destruct fuel as [|[|fuel]]; [simpl in Hfuel; lia..|].
    assert (Ha : a ≠ NULL).
    { intros ->. apply Hnull. apply list_elem_of_here. }
    cbn [signals_shutdown_loop]. rewrite Hss, Hall.
    rewrite lookup_app_r, Nat.sub_diag by lia. cbn [lookup list_lookup].
    rewrite (eqb_null_false _ Ha).
    rewrite (signal_destroy_registered a st ss Ha Hss)
      by (rewrite ?Hall; (apply elem_of_app; right; apply list_elem_of_here)
                         || apply Hmem, list_elem_of_here).
    cbn [mbind res_bind signals_state set_signals_state all_signals].
    rewrite Hall, remove_first_middle.
    2: { apply NoDup_app in Hnd as (_ & Hd & _). intros Hin. apply (Hd a Hin).
         apply list_elem_of_here. }
    rewrite app_nil_r. rewrite lookup_ge_None_2 by lia. by rewrite app_nil_r.
  - destruct fuel as [|fuel]; [simpl in Hfuel; lia|].
    assert (Ha : a ≠ NULL).
    { intros ->. apply Hnull. apply list_elem_of_here. }
    cbn [signals_shutdown_loop]. rewrite Hss, Hall.
    rewrite lookup_app_r, Nat.sub_diag by lia. cbn [lookup list_lookup].
    rewrite (eqb_null_false _ Ha).
    rewrite (signal_destroy_registered a st ss Ha Hss)
      by (rewrite ?Hall; (apply elem_of_app; right; apply list_elem_of_here)
                         || apply Hmem, list_elem_of_here).
    cbn [mbind res_bind]. rewrite Hall, remove_first_middle.
    2: { apply NoDup_app in Hnd as (_ & Hd & _). intros Hin. apply (Hd a Hin).
         apply list_elem_of_here. }
    set (ss1 := {| all_signals := pre ++ b :: rest;
                   signal_capacity := signal_capacity ss;
                   propagation_running := propagation_running ss;
                   dirty_signals := dirty_signals ss |}).
    assert (Hnd1 : NoDup ((pre ++ [b]) ++ rest)).
    { rewrite <- app_assoc. simpl. apply NoDup_app in Hnd as (Hp & Hd & Hr).
      apply NoDup_app. split; [done|]. split.
      - intros x Hx Hx'. apply (Hd x Hx). by apply list_elem_of_further.
      - by apply NoDup_cons_1_2 in Hr. }
    pose proof (IH (pre ++ [b]) (set_signals_state ss1 st) ss1 fuel eq_refl) as H.
    rewrite length_app in H. simpl in H.
    replace (length pre + 1)%nat with (S (length pre)) in H by lia.
    rewrite H; clear H.
    + cbn [mbind res_bind evens odds]. do 2 f_equal.
      unfold set_signals_state. simpl. by rewrite <- app_assoc.
    + unfold ss1. simpl. by rewrite <- app_assoc.
    + done.
    + intros Hin. apply Hnull. by do 2 apply list_elem_of_further.
    + intros x Hx. simpl. apply Hmem. by do 2 apply list_elem_of_further.
    + simpl in Hfuel. lia.
Qed.

(** X21 ([signals_shutdown] skips every other signal).  [signal_destroy]
    takes the signal out of the registry and moves the later entries down,
    while the loop of [signals_shutdown] goes on to the next index.  With
    distinct registered signals, the shutdown returns with the static state
    pointer null and the cells and the collector untouched, but it has handed
    to [signal_destroy] only the signals at the even positions of the
    registry, in order; a signal at an odd position is never destroyed, so
    its dependents array is never released. *)
Theorem signals_shutdown_destroys_every_other_signal fuel st ss :
  signals_state st = Some ss → NoDup (all_signals ss) →
  NULL ∉ all_signals ss →
  (∀ x, x ∈ all_signals ss → is_Some (sigmem st !! x)) →
  (length (all_signals ss) < fuel)%nat →
  ∃ destroyed st',
    signals_shutdown fuel st = Ok (destroyed, st') ∧
    signals_state st' = None ∧ sigmem st' = sigmem st ∧ gc st' = gc st ∧
    destroyed = evens (all_signals ss) ∧
    (∀ i x, all_signals ss !! (2 * i)%nat = Some x → destroyed !! i = Some x) ∧
    (∀ i x, all_signals ss !! (2 * i + 1)%nat = Some x → x ∉ destroyed).
Proof.
  intros Hss Hnd Hnull Hmem Hfuel.
  pose proof (signals_shutdown_loop_skips (all_signals ss) [] st ss fuel
                Hss eq_refl Hnd Hnull Hmem Hfuel) as Hloop.
  simpl in Hloop.
  eexists _, _. split.
  { unfold signals_shutdown. rewrite Hss, Hloop. cbn [mbind res_bind]. reflexivity. }
  split; [done|]. split; [done|]. split; [done|]. split; [done|]. split.
  - intros i x Hi. by rewrite (proj1 (evens_odds_lookup _ _)).
  - intros i x Hi Hin. apply list_elem_of_lookup in Hin as [j Hj].
    rewrite (proj1 (evens_odds_lookup _ _)) in Hj.
    pose proof (NoDup_lookup _ _ _ _ Hnd Hi Hj). lia.
Qed.

(** X17 ([signal_create], [signal_get_value] and [signal_destroy]).  When
    [signal_create] returns a signal that was not in the registry: the signal
    is the last entry of the registry, its cell is a plain one with the
    initial value and no dependents, the other cells and the dirty list are as
    before, and [signal_get_value] returns the initial value.  A
    [signal_destroy] of it then leaves the registry as it was before the
    creation, while the cell stays in collector memory. *)
Theorem signal_create_get_destroy
    (call : Z → state → res (Z * state)) fuel p_deps p_reg v st ss s st1 :
  signals_state st = Some ss →
  signal_create fuel p_deps p_reg v st = Ok (s, st1) → s ≠ NULL →
  s ∉ all_signals ss →
  ∃ ss1 st2 ss2,
    signals_state st1 = Some ss1 ∧
    all_signals ss1 = all_signals ss ++ [s] ∧
    dirty_signals ss1 = dirty_signals ss ∧
    sigmem st1 = <[s := fresh_signal v]> (sigmem st) ∧
    signal_get_value call s st1 = Ok (v, st1) ∧
    signal_dependent_count s st1 = Ok 0 ∧
    signal_destroy s st1 = Ok st2 ∧
    signals_state st2 = Some ss2 ∧
    all_signals ss2 = all_signals ss ∧ dirty_signals ss2 = dirty_signals ss ∧
    sigmem st2 = sigmem st1 ∧ gc st2 = gc st1.
Proof.
  intros Hss Hcreate Hs Hfresh.
  unfold signal_create in Hcreate. rewrite Hss in Hcreate.
  apply res_bind_ok in Hcreate as ([p g] & _ & H).
  destruct (p =? NULL); [by injection H as <-|]. cbv zeta in H.
  destruct (p_deps =? NULL); [by injection H as <-|].
  destruct (signals_register_signal _ _ _) as [ok st'] eqn:Hreg.
  destruct ok; simpl in H; [|by injection H as <-]. injection H as -> ->.
  apply signals_register_signal_true in Hreg as (ss' & cap & Hss' & ->).
  simpl in Hss'. rewrite Hss in Hss'. injection Hss' as <-.
  set (ss1 := {| all_signals := all_signals ss ++ [s]; signal_capacity := cap;
                 propagation_running := propagation_running ss;
                 dirty_signals := dirty_signals ss |}).
  set (st1 := set_signals_state ss1 _).
  assert (Hcell : sigmem st1 !! s = Some (fresh_signal v)).
  { unfold st1. simpl. by rewrite lookup_insert_eq. }
  eexists ss1, _, _. split; [done|]. split; [done|]. split; [done|].
  split; [done|]. split.
  { unfold signal_get_value. rewrite (eqb_null_false _ Hs). unfold load.
    rewrite Hcell. cbn [mbind res_bind]. simpl. by rewrite lookup_insert_eq. }
  split.
  { unfold signal_dependent_count. rewrite (eqb_null_false _ Hs). unfold load.
    by rewrite Hcell. }
  split.
  { apply (signal_destroy_registered s st1 ss1 Hs eq_refl); [|by eexists].
    apply elem_of_app. right. apply list_elem_of_here. }
  split; [reflexivity|]. split.
  { simpl. by rewrite (remove_first_middle s (all_signals ss) []), app_nil_r. }
  done.
Qed.

(** X18 ([signal_add_dependent] and [signal_remove_dependent]).  Adding a
    signal that is not yet a dependent appends it to the dependents array,
    which grows to twice its capacity when it was full; removing it again
    gives back the dependents array as it was, the capacity staying at its
    new value.  No other cell changes, and a second removal changes
    nothing. *)
Theorem signal_add_then_remove_dependent p_new signal dependent st cell :
  signal ≠ NULL → dependent ≠ NULL →
  sigmem st !! signal = Some cell → dependent ∉ dependents cell →
  (dependent_capacity cell ≤ dependent_count cell → p_new ≠ NULL) →
  ∃ st1 st2 cap,
    signal_add_dependent p_new signal dependent st = Ok (true, st1) ∧
    sigmem st1 = <[signal := set_dependents (dependents cell ++ [dependent]) cap cell]>
                   (sigmem st) ∧
    cap = (if dependent_capacity cell <=? dependent_count cell
           then wrap (dependent_capacity cell * 2) else dependent_capacity cell) ∧
    signal_dependent_count signal st1 = Ok (dependent_count cell + 1) ∧
    signal_remove_dependent signal dependent st1 = Ok st2 ∧
    sigmem st2 = <[signal := set_dependents (dependents cell) cap cell]> (sigmem st) ∧
    signals_state st2 = signals_state st ∧ gc st2 = gc st ∧
    signal_remove_dependent signal dependent st2 = Ok st2.
Proof.
  intros Hs Hd Hcell Hnot Hgrow.
  set (cap := if dependent_capacity cell <=? dependent_count cell
              then wrap (dependent_capacity cell * 2) else dependent_capacity cell).
  set (c1 := set_dependents (dependents cell ++ [dependent]) cap cell).
  set (c2 := set_dependents (dependents cell) cap cell).
  assert (Hrm : GC.remove_first dependent (dependents cell ++ [dependent])
                = dependents cell).
  { by rewrite (remove_first_middle dependent (dependents cell) []), app_nil_r. }
  assert (Hrm2 : GC.remove_first dependent (dependents cell) = dependents cell).
  { clear -Hnot. induction (dependents cell) as [|x l IH]; [done|]. simpl.
    apply not_elem_of_cons in Hnot as [Hne Hnot].
    replace (x =? dependent) with false by (symmetry; apply Z.eqb_neq; congruence).
    by rewrite IH. }
  exists (store signal c1 st), (store signal c2 (store signal c1 st)), cap.
  assert (Hadd : signal_add_dependent p_new signal dependent st
                 = Ok (true, store signal c1 st)).
  { unfold signal_add_dependent. rewrite (eqb_null_false _ Hs), (eqb_null_false _ Hd).
    simpl. unfold load. rewrite Hcell. cbn [mbind res_bind].
    rewrite (existsb_eqb_false _ _ Hnot). fold cap.
    destruct (dependent_capacity cell <=? dependent_count cell) eqn:Hfull; simpl.
    - apply Z.leb_le in Hfull. by rewrite (eqb_null_false _ (Hgrow Hfull)).
    - done. }
  split; [exact Hadd|]. split; [done|]. split; [done|]. split.
  { unfold signal_dependent_count. rewrite (eqb_null_false _ Hs). unfold load. simpl.
    rewrite lookup_insert_eq. cbn [mbind res_bind]. f_equal. unfold dependent_count.
    simpl. rewrite length_app. simpl. lia. }
  split.
  { unfold signal_remove_dependent. rewrite (eqb_null_false _ Hs), (eqb_null_false _ Hd).
    simpl. unfold load. rewrite lookup_insert_eq. cbn [mbind res_bind].
    simpl. by rewrite Hrm. }
  split; [simpl; by rewrite insert_insert_eq|]. split; [done|]. split; [done|].
  unfold signal_remove_dependent. rewrite (eqb_null_false _ Hs), (eqb_null_false _ Hd).
  simpl. unfold load. rewrite lookup_insert_eq. cbn [mbind res_bind].
  simpl. rewrite Hrm2. f_equal. unfold store. simpl. f_equal.
  by rewrite insert_insert_eq.
Qed.

End Signals_api.

Section Signals_api_examples.
Import Signals.

Lemma cyclic_graph_ok : graph_ok (sigmem cyclic_graph).
Proof.
  apply graph_ok_check; [reflexivity|].
  refine (bool_decide_unpack _ _). vm_compute. exact I.
Defined.

Lemma cyclic_graph_state :
  signals_state cyclic_graph
  = Some {| all_signals := [100; 200; 300; 400; 500]; signal_capacity := 64;
            propagation_running := false; dirty_signals := [] |}.
Proof. reflexivity. Defined.

Lemma cyclic_graph_size : (size (dom (sigmem cyclic_graph)) < 6)%nat.
Proof. refine (bool_decide_unpack _ _). vm_compute. exact I. Defined.

Lemma twice_value_of_100_pure : pure_compute twice_value_of_100.
Proof. intros fn st. eexists. reflexivity. Defined.

(** Every cell of the example graph is registered. *)
Lemma cyclic_graph_registered (x : Z) :
  is_Some (sigmem cyclic_graph !! x) → x ∈ [100; 200; 300; 400; 500].
Proof.
  intros [c Hx]. simpl in Hx. unfold cyclic_cells in Hx.
  repeat (apply lookup_insert_Some in Hx as [[<- _]|[_ Hx]];
          [repeat ((by apply list_elem_of_here) || apply list_elem_of_further)|]).
  by rewrite lookup_empty in Hx.
Defined.

Lemma cyclic_graph_reach (x : Z) :
  depends_on (sigmem cyclic_graph) 100 x → x ∈ [100; 200; 300; 400; 500].
Proof.
  intros Hdep. apply cyclic_graph_registered.
  exact (depends_on_target _ _ _ cyclic_graph_ok Hdep).
Defined.

Lemma signal_mark_dirty_marks_what_depends_witness :
  ∃ st' ss',
    signal_mark_dirty 6 NULL 100 cyclic_graph = Ok st' ∧
    gc st' = gc cyclic_graph ∧ signals_state st' = Some ss' ∧
    all_signals ss' = [100; 200; 300; 400; 500] ∧
    signal_capacity ss' = 64 ∧
    propagation_running ss' = false ∧
    NoDup (dirty_signals ss') ∧ head (dirty_signals ss') = Some 100 ∧
    (length (dirty_signals ss') ≤ 64)%nat ∧
    (∀ x, x ∈ dirty_signals ss' ↔
          x = 100 ∨ depends_on (sigmem cyclic_graph) 100 x) ∧
    (∀ x, depends_on (sigmem cyclic_graph) 100 x → flagged (sigmem st') x) ∧
    (∀ x, sigmem cyclic_graph !! x = None → sigmem st' !! x = None) ∧
    (∀ x c, sigmem cyclic_graph !! x = Some c →
            ∃ c', sigmem st' !! x = Some c' ∧ raised c c' ∧
                  (c' = c ∨ depends_on (sigmem cyclic_graph) 100 x)).
Proof.
  assert (Hsig : is_Some (sigmem cyclic_graph !! 100)) by (by eexists).
  assert (Hcap : 64 ≤ 64) by done.
  assert (Hreg : (length [100; 200; 300; 400; 500]%Z ≤ 64)%nat) by (simpl; lia).
  assert (Hin : 100 ∈ [100; 200; 300; 400; 500]) by apply list_elem_of_here.
  exact (signal_mark_dirty_marks_what_depends 6%nat NULL 100 cyclic_graph _
           cyclic_graph_ok cyclic_graph_state eq_refl Hsig Hcap Hreg Hin
           cyclic_graph_reach cyclic_graph_size).
Defined.

Lemma signal_set_value_settles_dependents_witness :
  ∃ st' ss',
    signal_set_value twice_value_of_100 6 NULL 100 7 cyclic_graph = Ok st' ∧
    gc st' = gc cyclic_graph ∧ signals_state st' = Some ss' ∧
    all_signals ss' = [100; 200; 300; 400; 500] ∧ dirty_signals ss' = [] ∧
    signal_capacity ss' = 64 ∧
    propagation_running ss' = false ∧
    sigmem st' !! 100 = Some (set_data 7 (set_value 7 (plain_cell 1 [200; 300]))) ∧
    signal_get_value twice_value_of_100 100 st' = Ok (7, st') ∧
    (∀ x c, sigmem cyclic_graph !! x = Some c →
            depends_on (sigmem cyclic_graph) 100 x →
            ∃ c', sigmem st' !! x = Some c' ∧
                  dependents c' = dependents c ∧ is_computed c' = is_computed c ∧
                  compute_fn c' = compute_fn c ∧
                  (is_computed c = true → compute_fn c ≠ NULL →
                   needs_recompute c' = false)) ∧
    (∀ x, x ≠ 100 → ¬ depends_on (sigmem cyclic_graph) 100 x →
          sigmem st' !! x = sigmem cyclic_graph !! x).
Proof.
  assert (Hcap : 64 ≤ 64) by done.
  assert (Hreg : (length [100; 200; 300; 400; 500]%Z ≤ 64)%nat) by (simpl; lia).
  assert (Hin : 100 ∈ [100; 200; 300; 400; 500]) by apply list_elem_of_here.
  exact (signal_set_value_settles_dependents twice_value_of_100 6%nat NULL 100 7
           cyclic_graph _ (plain_cell 1 [200; 300])
           twice_value_of_100_pure cyclic_graph_ok cyclic_graph_state
           eq_refl eq_refl eq_refl eq_refl Hcap Hreg Hin cyclic_graph_reach
           cyclic_graph_size).
Defined.

Lemma cyclic_graph_registry :
  NoDup [100; 200; 300; 400; 500] ∧ (NULL ∉ [100; 200; 300; 400; 500]) ∧
  ∀ x, x ∈ [100; 200; 300; 400; 500] → is_Some (sigmem cyclic_graph !! x).
Proof.
  split; [refine (bool_decide_unpack _ _); vm_compute; exact I|].
  split; [refine (bool_decide_unpack _ _); vm_compute; exact I|].
  apply Forall_forall. refine (bool_decide_unpack _ _). vm_compute. exact I.
Defined.

Lemma signals_shutdown_destroys_every_other_signal_witness :
  ∃ destroyed st',
    signals_shutdown 6 cyclic_graph = Ok (destroyed, st') ∧
    signals_state st' = None ∧ sigmem st' = sigmem cyclic_graph ∧
    gc st' = gc cyclic_graph ∧
    destroyed = evens [100; 200; 300; 400; 500] ∧
    (∀ i x, [100; 200; 300; 400; 500] !! (2 * i)%nat = Some x →
            destroyed !! i = Some x) ∧
    (∀ i x, [100; 200; 300; 400; 500] !! (2 * i + 1)%nat = Some x →
            x ∉ destroyed).
Proof.
  assert (Hfuel : (length [100; 200; 300; 400; 500] < 6)%nat) by (simpl; lia).
  exact (signals_shutdown_destroys_every_other_signal 6%nat cyclic_graph _
           cyclic_graph_state (proj1 cyclic_graph_registry)
           (proj1 (proj2 cyclic_graph_registry))
           (proj2 (proj2 cyclic_graph_registry)) Hfuel).
Defined.

Lemma booted_state :
  signals_state booted
  = Some {| all_signals := []; signal_capacity := 64;
            propagation_running := false; dirty_signals := [] |}.
Proof. reflexivity. Defined.

Lemma signal_create_get_destroy_witness :
  ∃ ss1 st2 ss2,
    signals_state with_s = Some ss1 ∧
    all_signals ss1 = [] ++ [65560] ∧ dirty_signals ss1 = [] ∧
    sigmem with_s = <[65560 := fresh_signal 1]> (sigmem booted) ∧
    signal_get_value twice_value_of_100 65560 with_s = Ok (1, with_s) ∧
    signal_dependent_count 65560 with_s = Ok 0 ∧
    signal_destroy 65560 with_s = Ok st2 ∧
    signals_state st2 = Some ss2 ∧
    all_signals ss2 = [] ∧ dirty_signals ss2 = [] ∧
    sigmem st2 = sigmem with_s ∧ gc st2 = gc with_s.
Proof.
  assert (Hcreate : signal_create 1 4096 4096 1 booted = Ok (65560, with_s))
    by (vm_compute; reflexivity).
  assert (Hs : 65560 ≠ NULL) by done.
  assert (Hfresh : 65560 ∉ []) by apply not_elem_of_nil.
  exact (signal_create_get_destroy twice_value_of_100 1%nat 4096 4096 1 booted _
           65560 with_s booted_state Hcreate Hs Hfresh).
Defined.

Lemma signal_add_then_remove_dependent_witness :
  ∃ st1 st2 cap,
    signal_add_dependent 4096 400 500 cyclic_graph = Ok (true, st1) ∧
    sigmem st1 = <[400 := set_dependents ([] ++ [500]) cap (plain_cell 4 [])]>
                   (sigmem cyclic_graph) ∧
    cap = (if 8 <=? 0 then wrap (8 * 2) else 8) ∧
    signal_dependent_count 400 st1 = Ok (0 + 1) ∧
    signal_remove_dependent 400 500 st1 = Ok st2 ∧
    sigmem st2 = <[400 := set_dependents [] cap (plain_cell 4 [])]>
                   (sigmem cyclic_graph) ∧
    signals_state st2 = signals_state cyclic_graph ∧ gc st2 = gc cyclic_graph ∧
    signal_remove_dependent 400 500 st2 = Ok st2.
Proof.
  assert (H400 : 400 ≠ NULL) by done.
  assert (H500 : 500 ≠ NULL) by done.
  assert (Hnot : 500 ∉ dependents (plain_cell 4 [])) by apply not_elem_of_nil.
  assert (Hgrow : dependent_capacity (plain_cell 4 []) ≤ dependent_count (plain_cell 4 [])
                  → 4096 ≠ NULL) by done.
  exact (signal_add_then_remove_dependent 4096 400 500 cyclic_graph (plain_cell 4 [])
           H400 H500 eq_refl Hnot Hgrow).
Defined.

End Signals_api_examples.

(** ** Actor mailboxes *)

Section Actors_properties.
Import Actors.

Variable invoke : Z → Z → Z → world → res world.

Lemma mod_add_distinct (c h i j : Z) :
  0 < c → 0 ≤ i < j → j < c → (h + i) mod c ≠ (h + j) mod c.
Proof.
  intros Hc Hij Hj Heq.
  assert (H0 : ((h + j) - (h + i)) mod c = 0).
  { rewrite Zminus_mod, Heq, Z.sub_diag. by apply Z.mod_0_l, Z.neq_sym, Z.lt_neq. }
  replace (h + j - (h + i)) with (j - i) in H0 by lia.
  rewrite Z.mod_small in H0; lia.
Qed.

(** A put into a running system with room in the mailbox: it returns [true]
    and the message is behind the ones already there. *)
Lemma message_queue_put_ring self qp m w sys q l :
  qp ≠ NULL → m ≠ NULL →
  actor_system w = Some sys → system_running sys = true →
  queuemem w !! qp = Some q → ring q l → count q < capacity q →
  ∃ q', message_queue_put self qp m w = Ok (Returned true, store_queue qp q' w) ∧
        capacity q' = capacity q ∧ ring q' (l ++ [m]).
Proof.
  intros Hqp Hm Hsys Hrun Hq [Hcap Hlen Hcount Hfits Hhead Htail Hslots] Hroom.
  unfold message_queue_put.
  rewrite (eqb_null_false _ Hqp), (eqb_null_false _ Hm). simpl.
  unfold load. rewrite Hq, Hsys, Hrun. simpl.
  unfold message_queue_full.
  replace (capacity q <=? count q) with false by (symmetry; apply Z.leb_gt; lia).
  simpl.
  assert (Htl : 0 ≤ tail q < capacity q).
  { rewrite Htail. apply Z.mod_pos_bound. lia. }
  rewrite bool_decide_eq_true_2 by lia.
  eexists. split; [reflexivity|]. split; [reflexivity|].
  assert (Hcount_nn : 0 ≤ count q) by lia.
  split; simpl; try done.
  - rewrite length_insert. done.
  - rewrite wrap_small by lia. rewrite length_app. simpl. lia.
  - rewrite wrap_small by lia. lia.
  - rewrite !wrap_small by lia. rewrite Htail.
    rewrite Zplus_mod_idemp_l. f_equal. lia.
  - intros i x Hx.
    destruct (decide (i < length l)%nat) as [Hi|Hi].
    + rewrite lookup_app_l in Hx by done.
      rewrite list_lookup_insert_ne; [by apply Hslots|].
      rewrite Htail. intros Heq. apply Z2Nat.inj in Heq.
      * symmetry in Heq. revert Heq. apply mod_add_distinct; lia.
      * apply Z.mod_pos_bound. lia.
      * apply Z.mod_pos_bound. lia.
    + assert (i = length l) as ->.
      { apply lookup_lt_Some in Hx. rewrite length_app in Hx. simpl in Hx. lia. }
      rewrite lookup_app_r in Hx by lia. rewrite Nat.sub_diag in Hx.
      simpl in Hx. injection Hx as <-.
      rewrite <- Hcount, <- Htail. apply list_lookup_insert_eq. lia.
Qed.

(** A get from a running system with a message in the mailbox: it returns the
    oldest message and the others stay in order. *)
Lemma message_queue_get_ring self qp w sys q m l :
  qp ≠ NULL →
  actor_system w = Some sys → system_running sys = true →
  queuemem w !! qp = Some q → ring q (m :: l) →
  ∃ q', message_queue_get self qp w
          = Ok (Returned (Some m), store_queue qp q' w) ∧
        ring q' l.
Proof.
  intros Hqp Hsys Hrun Hq [Hcap Hlen Hcount Hfits Hhead Htail Hslots].
  unfold message_queue_get. rewrite (eqb_null_false _ Hqp).
  unfold load. rewrite Hq, Hsys, Hrun. simpl.
  unfold message_queue_empty. simpl in Hcount.
  replace (count q =? 0) with false by (symmetry; apply Z.eqb_neq; lia).
  simpl.
  assert (H0 : messages q !! Z.to_nat (head q) = Some m).
  { specialize (Hslots 0%nat m eq_refl). simpl in Hslots.
    by rewrite Z.add_0_r, Z.mod_small in Hslots by lia. }
  rewrite H0. eexists. split; [reflexivity|].
  split; simpl; try done; try lia.
  - rewrite wrap_small by lia. lia.
  - rewrite wrap_small by lia. lia.
  - rewrite wrap_small by lia. apply Z.mod_pos_bound. lia.
  - rewrite !wrap_small by lia. rewrite Zplus_mod_idemp_l, Htail. f_equal. lia.
  - intros i x Hx. rewrite wrap_small by lia. rewrite Zplus_mod_idemp_l.
    specialize (Hslots (S i) x Hx).
    by replace (head q + 1 + Z.of_nat i) with (head q + Z.of_nat (S i)) by lia.
Qed.

Lemma send_all_ring self A a ms : ∀ w sys q l,
  A ≠ NULL → mailbox a ≠ NULL →
  actor_system w = Some sys → system_running sys = true →
  actormem w !! A = Some a →
  queuemem w !! mailbox a = Some q → ring q l →
  Forall (λ m, m ≠ NULL) ms →
  Z.of_nat (length l) + Z.of_nat (length ms) ≤ capacity q →
  ∃ w' q',
    send_all self A ms w = Ok (replicate (length ms) (Returned true), w') ∧
    actor_system w' = Some sys ∧ actormem w' = actormem w ∧
    calls w' = calls w ∧
    queuemem w' !! mailbox a = Some q' ∧ ring q' (l ++ ms).
Proof.
  induction ms as [|m ms IH]; intros w sys q l HA Hmb Hsys Hrun Ha Hq Hring Hms Hroom.
  - exists w, q. rewrite app_nil_r. repeat (split; [done|]). done.
  - apply Forall_cons in Hms as [Hm Hms]. simpl in Hroom.
    destruct (message_queue_put_ring self (mailbox a) m w sys q l)
      as (q1 & Hput & Hcap1 & Hring1); try done.
    { rewrite (ring_count _ _ Hring). lia. }
    destruct (IH (store_queue (mailbox a) q1 w) sys q1 (l ++ [m]))
      as (w' & q' & Hsend & Hsys' & Hmem' & Hcalls' & Hq' & Hring'); try done.
    { simpl. by rewrite lookup_insert_eq. }
    { rewrite length_app, Hcap1. simpl. lia. }
    exists w', q'. split.
    { simpl. unfold actor_send.
      rewrite (eqb_null_false _ HA), (eqb_null_false _ Hm). simpl.
      unfold load. rewrite Ha. simpl. rewrite (eqb_null_false _ Hmb).
      rewrite Hput. simpl. by rewrite Hsend. }
    rewrite <- app_assoc in Hring'. repeat (split; [done|]). done.
Qed.

Lemma schedule_times_ring self A a l : ∀ w sys q,
  A ≠ NULL → mailbox a ≠ NULL → behavior a ≠ NULL → running a = true →
  behavior_frames invoke A a →
  actor_system w = Some sys → system_running sys = true →
  actormem w !! A = Some a →
  queuemem w !! mailbox a = Some q → ring q l →
  ∃ w' q',
    schedule_times invoke (length l) self A w
      = Ok (replicate (length l) (Returned true), w') ∧
    calls w' = calls w ++ map (λ m, (A, m)) l ∧
    actor_system w' = Some sys ∧ actormem w' !! A = Some a ∧
    queuemem w' !! mailbox a = Some q' ∧ ring q' [].
Proof.
  induction l as [|m l IH]; intros w sys q HA Hmb Hbeh Hrun Hframe Hsys Hsrun Ha Hq Hring.
  - exists w, q. rewrite app_nil_r. repeat (split; [done|]). done.
  - destruct (message_queue_get_ring self (mailbox a) w sys q m l)
      as (q1 & Hget & Hring1); try done.
    destruct (Hframe m (store_queue (mailbox a) q1 w))
      as (w2 & Hinv & Hsys2 & Ha2 & Hq2).
    set (w3 := log_call A m (calls (store_queue (mailbox a) q1 w)) w2).
    destruct (IH w3 sys q1) as (w' & q' & Hrun' & Hcalls' & Hsys' & Ha' & Hq' & Hring');
      try done.
    { simpl. by rewrite Hsys2. }
    { simpl. by rewrite Ha2. }
    { simpl. rewrite Hq2. simpl. by rewrite lookup_insert_eq. }
    exists w', q'. split.
    { simpl. unfold actor_schedule. rewrite (eqb_null_false _ HA).
      unfold load. rewrite Ha. simpl. rewrite Hrun. simpl.
      rewrite Hget. cbn [mbind res_bind]. rewrite (eqb_null_false _ Hbeh).
      rewrite Hinv. unfold w3 in Hrun'. cbn [mbind res_bind].
      by rewrite Hrun'. }
    split; [rewrite Hcalls'; simpl; by rewrite <- app_assoc|].
    repeat (split; [done|]). done.
Qed.

(** C5 (mailbox FIFO).  The system is running, the mailbox of the actor holds
    the messages [old] (none, for an empty mailbox) and has room for [ms].
    Then every send of [ms] returns [true] without suspending, and scheduling
    the actor once per held message calls its behavior with the messages of
    [old] and then those of [ms], in the order of the sends; the mailbox ends
    up empty.  The behavior is any code that returns and leaves the actor's
    own mailbox and the system flags alone. *)
Theorem mailbox_fifo sender scheduler w sys A a q old ms :
  A ≠ NULL → mailbox a ≠ NULL → behavior a ≠ NULL → running a = true →
  behavior_frames invoke A a →
  actor_system w = Some sys → system_running sys = true →
  actormem w !! A = Some a →
  queuemem w !! mailbox a = Some q → ring q old →
  Forall (λ m, m ≠ NULL) ms →
  Z.of_nat (length old) + Z.of_nat (length ms) ≤ capacity q →
  ∃ w1 w2 q2,
    send_all sender A ms w = Ok (replicate (length ms) (Returned true), w1) ∧
    schedule_times invoke (length (old ++ ms)) scheduler A w1
      = Ok (replicate (length (old ++ ms)) (Returned true), w2) ∧
    calls w2 = calls w ++ map (λ m, (A, m)) (old ++ ms) ∧
    queuemem w2 !! mailbox a = Some q2 ∧ ring q2 [].
Proof.
  intros HA Hmb Hbeh Hrun Hframe Hsys Hsrun Ha Hq Hring Hms Hroom.
  destruct (send_all_ring sender A a ms w sys q old)
    as (w1 & q1 & Hsend & Hsys1 & Hmem1 & Hcalls1 & Hq1 & Hring1); try done.
  destruct (schedule_times_ring scheduler A a (old ++ ms) w1 sys q1)
    as (w2 & q2 & Hsched & Hcalls2 & _ & _ & Hq2 & Hring2); try done.
  { by rewrite Hmem1. }
  exists w1, w2, q2. rewrite Hcalls1 in Hcalls2. repeat (split; [done|]). done.
Qed.

(** A put into a full mailbox of a running system parks the caller in the
    wait set of [not_full] and stores nothing. *)
Lemma message_queue_put_full_suspends self qp m w sys q :
  qp ≠ NULL → m ≠ NULL →
  actor_system w = Some sys → system_running sys = true →
  queuemem w !! qp = Some q → capacity q ≤ count q →
  ∃ q', message_queue_put self qp m w = Ok (Suspended, store_queue qp q' w) ∧
        self ∈ not_full q' ∧ messages q' = messages q ∧ count q' = count q.
Proof.
  intros Hqp Hm Hsys Hrun Hq Hfull. unfold message_queue_put.
  rewrite (eqb_null_false _ Hqp), (eqb_null_false _ Hm). simpl.
  unfold load. rewrite Hq, Hsys, Hrun. simpl. unfold message_queue_full.
  replace (capacity q <=? count q) with true by (symmetry; by apply Z.leb_le).
  simpl. eexists. split; [reflexivity|]. simpl. split; [|done].
  unfold cond_wait. case_bool_decide; [done|].
  apply elem_of_app. right. by apply list_elem_of_singleton.
Qed.

(** *** Stopping the system *)

(** [actors_stop] writes the running flag and nothing else: every mailbox,
    with both of its wait sets, is what it was. *)
Lemma actors_stop_keeps_mailboxes w :
  queuemem (actors_stop w) = queuemem w ∧ actormem (actors_stop w) = actormem w.
Proof.
  unfold actors_stop. destruct (actor_system w) as [sys|]; [|done].
  by destruct (system_running sys).
Qed.

(** In a stopped system neither a put nor a get signals a condition
    variable: both return at once and leave the state as it is. *)
Lemma stopped_system_wakes_nobody self qp m w sys q :
  actor_system w = Some sys → system_running sys = false →
  queuemem w !! qp = Some q →
  message_queue_get self qp w = Ok (Returned None, w) ∧
  (m ≠ NULL → message_queue_put self qp m w = Ok (Returned false, w)).
Proof.
  intros Hsys Hrun Hq. split.
  - unfold message_queue_get. destruct (qp =? NULL); [done|].
    unfold load. rewrite Hq, Hsys, Hrun. simpl. by rewrite andb_false_r.
  - intros Hm. unfold message_queue_put. rewrite (eqb_null_false _ Hm).
    destruct (qp =? NULL); [done|]. simpl.
    unfold load. rewrite Hq, Hsys, Hrun. simpl. by rewrite andb_false_r.
Qed.

End Actors_properties.

Section Actors_examples.
Import Actors.

Lemma idle_behavior_frames (A : Z) (a : vela_actor_t) :
  behavior_frames idle_behavior A a.
Proof. intros m w. by exists w. Qed.

Lemma mailbox_fifo_witness :
  ∃ w1 w2 q2,
    send_all 1%nat 12288 [1000; 1001; 1002] one_actor
      = Ok ([Returned true; Returned true; Returned true], w1) ∧
    schedule_times idle_behavior 3 0%nat 12288 w1
      = Ok ([Returned true; Returned true; Returned true], w2) ∧
    calls w2 = [(12288, 1000); (12288, 1001); (12288, 1002)] ∧
    queuemem w2 !! 16384 = Some q2 ∧ ring q2 [].
Proof.
  set (a := {| id := 1; behavior := 4198400; state := 0; mailbox := 16384;
               running := true; stopped := false |}).
  set (q := {| messages := replicate 256 NULL; count := 0; capacity := 256;
               head := 0; tail := 0; not_empty := []; not_full := [] |}).
  set (sys := {| actors := [12288]; actor_capacity := 1024; next_actor_id := 2;
                 system_running := true; worker_count := 4 |}).
  assert (Hsys : actor_system one_actor = Some sys) by (vm_compute; reflexivity).
  assert (Ha : actormem one_actor !! 12288 = Some a) by (vm_compute; reflexivity).
  assert (Hq : queuemem one_actor !! mailbox a = Some q) by (vm_compute; reflexivity).
  assert (Hring : ring q []).
  { split; try reflexivity; try (by vm_compute). }
  assert (Hms : Forall (λ m, m ≠ NULL) [1000; 1001; 1002]).
  { repeat (apply Forall_cons; split; [discriminate|]). apply Forall_nil_2. }
  assert (Hroom : Z.of_nat (length (@nil Z)) + Z.of_nat (length [1000; 1001; 1002])
                  ≤ capacity q) by (by vm_compute).
  assert (HA : 12288 ≠ NULL) by discriminate.
  assert (Hmb : mailbox a ≠ NULL) by discriminate.
  assert (Hbeh : behavior a ≠ NULL) by discriminate.
  exact (mailbox_fifo idle_behavior 1%nat 0%nat one_actor sys 12288 a q []
           [1000; 1001; 1002] HA Hmb Hbeh eq_refl (idle_behavior_frames 12288 a)
           Hsys eq_refl Ha Hq Hring Hms Hroom).
Defined.

(** C6 (send blocking and shutdown), evaluated where the code departs from it.
    The mailbox at 16384 of the actor at 12288 is full (256 of 256) and the
    system is running.  Thread 7 calls [actor_send]: it is suspended in the
    wait set of [not_full], as the claim says.  Then [actors_stop] runs.  The
    system is stopped, but the mailbox is untouched: thread 7 is still in the
    wait set, it has not been woken and its send has not returned.  Had it
    been woken, the test after the loop would have made the send return
    [false]. *)
Theorem actors_stop_leaves_blocked_sender_parked :
  ∃ q0 w1 q1,
    queuemem full_mailbox !! 16384 = Some q0 ∧
    count q0 = 256 ∧ capacity q0 = 256 ∧ not_full q0 = [] ∧
    (system_running <$> actor_system full_mailbox) = Some true ∧
    actor_send 7%nat 12288 2000 full_mailbox = Ok (Suspended, w1) ∧
    queuemem w1 !! 16384 = Some q1 ∧ not_full q1 = [7%nat] ∧
    (system_running <$> actor_system (actors_stop w1)) = Some false ∧
    queuemem (actors_stop w1) !! 16384 = Some q1 ∧
    message_queue_put 7%nat 16384 2000 (actors_stop w1)
      = Ok (Returned false, actors_stop w1).
Proof.
  do 3 eexists.
  split; [vm_compute; reflexivity|].
  split; [reflexivity|]. split; [reflexivity|]. split; [reflexivity|].
  split; [vm_compute; reflexivity|].
  split; [vm_compute; reflexivity|].
  split; [vm_compute; reflexivity|].
  split; [reflexivity|].
  split; [vm_compute; reflexivity|].
  split; vm_compute; reflexivity.
Qed.

End Actors_examples.

(** ** Actors: registry, destruction, shutdown, scheduling *)

Section Actors_api.
Import Actors.

(** *** The registry *)

Lemma find_by_id_loop_found am id0 (entries : list Z) p a :
  (∀ x, x ∈ entries → x ≠ NULL ∧ is_Some (am !! x)) →
  (∀ x b, x ∈ entries → am !! x = Some b → id b = id0 → x = p) →
  p ∈ entries → am !! p = Some a → id a = id0 →
  find_by_id_loop am id0 entries = Ok p.
Proof.
  intros Hall Huniq Hp Ha Hid.
  induction entries as [|x entries IH]; [by apply elem_of_nil in Hp|].
  simpl. destruct (Hall x (list_elem_of_here _ _)) as [Hx [b Hb]].
  rewrite (eqb_null_false _ Hx). unfold load. rewrite Hb. simpl.
  destruct (Z.eqb_spec (id b) id0) as [Heq|Hne].
  - by rewrite (Huniq x b (list_elem_of_here _ _) Hb Heq).
  - apply IH.
    + intros y Hy. apply Hall. by apply list_elem_of_further.
    + intros y c Hy. apply Huniq. by apply list_elem_of_further.
    + apply elem_of_cons in Hp as [->|Hp]; [|done]. congruence.
Qed.

Lemma find_by_id_loop_missing am id0 (entries : list Z) :
  (∀ x, x ∈ entries → x ≠ NULL ∧ ∃ b, am !! x = Some b ∧ id b ≠ id0) →
  find_by_id_loop am id0 entries = Ok NULL.
Proof.
  induction entries as [|x entries IH]; intros Hall; [done|].
  simpl. destruct (Hall x (list_elem_of_here _ _)) as (Hx & b & Hb & Hne).
  rewrite (eqb_null_false _ Hx). unfold load. rewrite Hb. simpl.
  replace (id b =? id0) with false by (symmetry; by apply Z.eqb_neq).
  apply IH. intros y Hy. apply Hall. by apply list_elem_of_further.
Qed.

(** X11 ([actor_create] and [actor_find_by_id]).  In a registry whose actors
    have distinct ids below [next_actor_id], with room for one more actor and
    the id counter below its wrap-around: [actor_create] with a behavior and
    three successful [malloc]s returns the new actor, gives it the id that
    was next, leaves such a registry, and [actor_find_by_id] finds the new
    actor under its id and every older actor under its own; id 0 is found
    nowhere.  The new actor is running, holds the initial state, and owns an
    empty mailbox of 256 slots. *)
Theorem actor_create_registers_actor p_actor p_queue p_messages fn st0 w sys :
  registry_ok w sys → fn ≠ NULL →
  actor_count sys < actor_capacity sys →
  p_actor ≠ NULL → p_queue ≠ NULL → p_messages ≠ NULL →
  actormem w !! p_actor = None →
  next_actor_id sys + 1 < 2 ^ 32 →
  ∃ w' sys' a q,
    actor_create p_actor p_queue p_messages fn st0 w = (p_actor, w') ∧
    registry_ok w' sys' ∧ actors sys' = actors sys ++ [p_actor] ∧
    actors_count w' = actors_count w + 1 ∧
    actormem w' !! p_actor = Some a ∧ id a = next_actor_id sys ∧
    actor_find_by_id (id a) w' = Ok p_actor ∧
    (∀ p b, p ∈ actors sys → actormem w !! p = Some b →
            actor_find_by_id (id b) w' = Ok p) ∧
    actor_find_by_id 0 w' = Ok NULL ∧
    actor_get_state p_actor w' = Ok st0 ∧
    actor_is_running p_actor w' = Ok true ∧
    mailbox a = p_queue ∧ queuemem w' !! p_queue = Some q ∧
    ring q [] ∧ capacity q = max_mailbox_size.
Proof.
  intros [Hsys Hnd Hnn Hids Hdist Hnext] Hfn Hroom Hpa Hpq Hpm Hfresh Hwrap.
  assert (Hnotin : p_actor ∉ actors sys).
  { intros Hin. destruct (Hids _ Hin) as (a & Ha & _). congruence. }
  unfold actor_create. rewrite Hsys, (eqb_null_false _ Hfn).
  replace (actor_capacity sys <=? actor_count sys) with false
    by (symmetry; apply Z.leb_gt; lia).
  rewrite (eqb_null_false _ Hpa). unfold message_queue_create.
  rewrite (eqb_null_false _ Hpq), (eqb_null_false _ Hpm), (eqb_null_false _ Hpq).
  cbn [actor_system store_actor store_queue set_system].
  rewrite (Z.mod_small (next_actor_id sys + 1)) by lia.
  eexists _, _, _, _. split; [reflexivity|].
  assert (Hold : ∀ p, p ∈ actors sys →
            <[p_actor := {| id := next_actor_id sys; behavior := fn; state := st0;
                            mailbox := p_queue; running := true; stopped := false |}]>
              (actormem w) !! p = actormem w !! p).
  { intros p Hp. rewrite lookup_insert_ne; [done|]. by intros ->. }
  split.
  { split; cbn.
    - reflexivity.
    - apply NoDup_app. split; [done|]. split; [|apply NoDup_singleton].
      intros x Hx Hx'. apply list_elem_of_singleton in Hx' as ->. done.
    - intros p Hp. apply elem_of_app in Hp as [Hp|Hp]; [by apply Hnn|].
      by apply list_elem_of_singleton in Hp as ->.
    - intros p Hp. apply elem_of_app in Hp as [Hp|Hp].
      + rewrite (Hold p Hp). destruct (Hids p Hp) as (a & Ha & Hlo & Hhi).
        exists a. split; [done|]. simpl. lia.
      + apply list_elem_of_singleton in Hp as ->. rewrite lookup_insert_eq.
        eexists. split; [done|]. simpl. lia.
    - intros p p' a a' Hp Hp' Ha Ha' Hid.
      apply elem_of_app in Hp as [Hp|Hp]; apply elem_of_app in Hp' as [Hp'|Hp'].
      + rewrite (Hold p Hp) in Ha. rewrite (Hold p' Hp') in Ha'. by eapply Hdist.
      + apply list_elem_of_singleton in Hp' as ->. rewrite lookup_insert_eq in Ha'.
        injection Ha' as <-. simpl in Hid. rewrite (Hold p Hp) in Ha.
        destruct (Hids p Hp) as (b & Hb & Hlo & Hhi). rewrite Hb in Ha.
        injection Ha as <-. lia.
      + apply list_elem_of_singleton in Hp as ->. rewrite lookup_insert_eq in Ha.
        injection Ha as <-. simpl in Hid. rewrite (Hold p' Hp') in Ha'.
        destruct (Hids p' Hp') as (b & Hb & Hlo & Hhi). rewrite Hb in Ha'.
        injection Ha' as <-. lia.
      + apply list_elem_of_singleton in Hp as ->.
        by apply list_elem_of_singleton in Hp' as ->.
    - simpl. lia. }
  split; [reflexivity|].
  split.
  { unfold actors_count, actor_count. cbn. rewrite Hsys, length_app. simpl. lia. }
  cbn. rewrite lookup_insert_eq. split; [reflexivity|]. split; [reflexivity|].
  assert (Hall : ∀ x, x ∈ actors sys ++ [p_actor] → x ≠ NULL ∧
            is_Some (<[p_actor := {| id := next_actor_id sys; behavior := fn;
                                     state := st0; mailbox := p_queue;
                                     running := true; stopped := false |}]>
                       (actormem w) !! x)).
  { intros x Hx. apply elem_of_app in Hx as [Hx|Hx].
    - split; [by apply Hnn|]. rewrite (Hold x Hx).
      destruct (Hids x Hx) as (b & Hb & _). by eexists.
    - apply list_elem_of_singleton in Hx as ->. split; [done|].
      rewrite lookup_insert_eq. by eexists. }
  split.
  { unfold actor_find_by_id. cbn.
    eapply find_by_id_loop_found; [exact Hall| | |apply lookup_insert_eq|done].
    - intros x b Hx Hb Hid. apply elem_of_app in Hx as [Hx|Hx].
      + rewrite (Hold x Hx) in Hb. destruct (Hids x Hx) as (c & Hc & Hlo & Hhi).
        rewrite Hc in Hb. injection Hb as <-. simpl in Hid. lia.
      + by apply list_elem_of_singleton in Hx as ->.
    - apply elem_of_app. right. by apply list_elem_of_singleton. }
  split.
  { intros p b Hp Hb. unfold actor_find_by_id. cbn.
    eapply find_by_id_loop_found; [exact Hall| | |by rewrite (Hold p Hp)|done].
    - intros x c Hx Hc Hid. apply elem_of_app in Hx as [Hx|Hx].
      + rewrite (Hold x Hx) in Hc. by eapply Hdist.
      + apply list_elem_of_singleton in Hx as ->. rewrite lookup_insert_eq in Hc.
        injection Hc as <-. simpl in Hid.
        destruct (Hids p Hp) as (c & Hc & Hlo & Hhi). rewrite Hc in Hb.
        injection Hb as <-. lia.
    - apply elem_of_app. by left. }
  split.
  { unfold actor_find_by_id. cbn. apply find_by_id_loop_missing.
    intros x Hx. apply elem_of_app in Hx as [Hx|Hx].
    - split; [by apply Hnn|]. rewrite (Hold x Hx).
      destruct (Hids x Hx) as (b & Hb & Hlo & _). exists b. split; [done|]. lia.
    - apply list_elem_of_singleton in Hx as ->. split; [done|].
      rewrite lookup_insert_eq. eexists. split; [done|]. simpl. lia. }
  split.
  { unfold actor_get_state. rewrite (eqb_null_false _ Hpa). unfold load. cbn.
    by rewrite lookup_insert_eq. }
  split.
  { unfold actor_is_running. rewrite (eqb_null_false _ Hpa). unfold load. cbn.
    by rewrite lookup_insert_eq. }
  split; [reflexivity|]. rewrite lookup_insert_eq. split; [reflexivity|].
  split; [|reflexivity].
  split; cbn; unfold max_mailbox_size; try lia; try done.
Qed.

(** *** Destroying a mailbox *)

Lemma message_queue_drain_stopped self qp w sys q fuel :
  actor_system w = Some sys → system_running sys = false →
  queuemem w !! qp = Some q → count q ≠ 0 →
  message_queue_drain fuel self qp w = OutOfFuel.
Proof.
  intros Hsys Hrun Hq Hcount. induction fuel as [|fuel IH]; [done|].
  simpl. unfold load. rewrite Hq. simpl. unfold message_queue_empty.
  replace (count q =? 0) with false by (symmetry; by apply Z.eqb_neq).
  destruct (stopped_system_wakes_nobody self qp 0 w sys q Hsys Hrun Hq) as [-> _].
  simpl. exact IH.
Qed.

Lemma message_queue_drain_running self qp sys (l : list Z) : ∀ w q,
  qp ≠ NULL → actor_system w = Some sys → system_running sys = true →
  queuemem w !! qp = Some q → ring q l →
  ∃ w' q',
    message_queue_drain (S (length l)) self qp w = Ok (Returned l, w') ∧
    actor_system w' = Some sys ∧ actormem w' = actormem w ∧ calls w' = calls w ∧
    queuemem w' !! qp = Some q' ∧ ring q' [] ∧
    (∀ p, p ≠ qp → queuemem w' !! p = queuemem w !! p).
Proof.
  induction l as [|m l IH]; intros w q Hqp Hsys Hrun Hq Hring.
  - exists w, q. simpl. unfold load. rewrite Hq. simpl. unfold message_queue_empty.
    rewrite (ring_count _ _ Hring). simpl. do 6 (split; [done|]). done.
  - destruct (message_queue_get_ring self qp w sys q m l Hqp Hsys Hrun Hq Hring)
      as (q1 & Hget & Hring1).
    destruct (IH (store_queue qp q1 w) q1 Hqp Hsys Hrun) as
      (w' & q' & Hdrain & Hsys' & Ham & Hcalls & Hq' & Hring' & Hothers);
      [by simpl; rewrite lookup_insert_eq|done|].
    exists w', q'. split.
    { change (message_queue_drain (S (length (m :: l))) self qp w)
        with (q0 ← load (queuemem w) qp;
              if message_queue_empty q0 then Ok (Returned [], w)
              else '(got, w1) ← message_queue_get self qp w;
                   match got with
                   | Suspended => Ok (Suspended, w1)
                   | Returned None => message_queue_drain (S (length l)) self qp w1
                   | Returned (Some message) =>
                     '(r, w2) ← message_queue_drain (S (length l)) self qp w1;
                     match r with
                     | Suspended => Ok (Suspended, w2)
                     | Returned freed => Ok (Returned (message :: freed), w2)
                     end
                   end).
      unfold load. rewrite Hq. cbn [mbind res_bind]. unfold message_queue_empty.
      rewrite (ring_count _ _ Hring).
      replace (Z.of_nat (length (m :: l)) =? 0) with false
        by (symmetry; apply Z.eqb_neq; simpl; lia).
      rewrite Hget. cbn [mbind res_bind]. by rewrite Hdrain. }
    do 5 (split; [done|]).
    intros p Hp. rewrite (Hothers p Hp). simpl. by rewrite lookup_insert_ne.
Qed.

(** X12 ([message_queue_destroy] in a running system).  The destruction of
    a mailbox returns: it takes the queued messages out oldest first, hands
    each of them to [free], and releases the mailbox; the other mailboxes, the
    actors and the system are untouched. *)
Theorem message_queue_destroy_frees_queued_messages self qp w sys q (l : list Z) :
  qp ≠ NULL → actor_system w = Some sys → system_running sys = true →
  queuemem w !! qp = Some q → ring q l →
  ∃ w', message_queue_destroy (S (length l)) self qp w = Ok (Returned l, w') ∧
        queuemem w' !! qp = None ∧
        (∀ p, p ≠ qp → queuemem w' !! p = queuemem w !! p) ∧
        actor_system w' = Some sys ∧ actormem w' = actormem w.
Proof.
  intros Hqp Hsys Hrun Hq Hring.
  destruct (message_queue_drain_running self qp sys l w q Hqp Hsys Hrun Hq Hring)
    as (w' & q' & Hdrain & Hsys' & Ham & Hcalls & Hq' & Hring' & Hothers).
  unfold message_queue_destroy. rewrite (eqb_null_false _ Hqp), Hdrain.
  eexists. split; [reflexivity|]. simpl. split; [apply lookup_delete_eq|].
  split; [|done]. intros p Hp. rewrite lookup_delete_ne by done. by apply Hothers.
Qed.

(** *** Shutting the system down *)

Lemma actors_stop_system w sys :
  actor_system w = Some sys →
  ∃ sys', actor_system (actors_stop w) = Some sys' ∧
    system_running sys' = false ∧ actors sys' = actors sys ∧
    actormem (actors_stop w) = actormem w ∧ queuemem (actors_stop w) = queuemem w.
Proof.
  intros Hsys. unfold actors_stop. rewrite Hsys.
  destruct (system_running sys) eqn:Hrun; simpl; [by eexists|].
  exists sys. by rewrite Hsys.
Qed.

Lemma actor_destroy_hangs self A w sys a q :
  actor_system w = Some sys → system_running sys = false →
  A ≠ NULL → actormem w !! A = Some a → mailbox a ≠ NULL →
  queuemem w !! mailbox a = Some q → count q ≠ 0 →
  ∀ fuel, actor_destroy fuel self A w = OutOfFuel.
Proof.
  intros Hsys Hrun HA Ha Hmb Hq Hcount fuel. unfold actor_destroy.
  rewrite (eqb_null_false _ HA). unfold load. rewrite Ha. cbn [mbind res_bind].
  rewrite (eqb_null_false _ Hmb). unfold message_queue_destroy.
  rewrite (eqb_null_false _ Hmb).
  by rewrite (message_queue_drain_stopped self (mailbox a) _ sys q fuel).
Qed.

(** X13 (shutdown with a message pending).  [actors_shutdown] stops the
    system before it destroys the actors, and in a stopped system
    [message_queue_get] answers false at once.  The loop of
    [message_queue_destroy], which runs until the mailbox is empty, therefore
    never ends on a mailbox that still holds a message; and if the first actor
    of the array has such a mailbox, [actors_shutdown] never returns. *)
Theorem actors_shutdown_hangs_on_pending_message self w sys A rest a q (l : list Z) :
  actor_system w = Some sys → actors sys = A :: rest →
  A ≠ NULL → actormem w !! A = Some a → mailbox a ≠ NULL →
  queuemem w !! mailbox a = Some q → ring q l → l ≠ [] →
  ∀ fuel,
    message_queue_destroy fuel self (mailbox a) (actors_stop w) = OutOfFuel ∧
    actors_shutdown fuel self w = OutOfFuel.
Proof.
  intros Hsys Hactors HA Ha Hmb Hq Hring Hne fuel.
  destruct (actors_stop_system w sys Hsys) as (sys' & Hsys' & Hrun' & Hact' & Ham & Hqm).
  assert (Hcount : count q ≠ 0).
  { rewrite (ring_count _ _ Hring). destruct l; [done|]. simpl. lia. }
  split.
  { unfold message_queue_destroy. rewrite (eqb_null_false _ Hmb).
    rewrite (message_queue_drain_stopped self (mailbox a) _ sys' q fuel); try done.
    by rewrite Hqm. }
  unfold actors_shutdown. rewrite Hsys.
  destruct fuel as [|fuel]; [done|].
  cbn [actors_shutdown_loop]. rewrite Hsys', Hact', Hactors. cbn [lookup list_lookup].
  rewrite (eqb_null_false _ HA).
  rewrite (actor_destroy_hangs self A (actors_stop w) sys' a q); try done.
  - by rewrite Ham.
  - by rewrite Hqm.
Qed.

(** The destruction of an actor with an empty mailbox. *)
Lemma actor_destroy_idle self A w sys fuel :
  actor_system w = Some sys → idle_actor w A → (0 < fuel)%nat →
  ∃ a,
    actormem w !! A = Some a ∧
    actor_destroy fuel self A w
    = Ok (Returned [],
          {| actor_system := Some (set_actors (GC.remove_first A (actors sys)) sys);
             actormem := delete A (actormem w);
             queuemem := delete (mailbox a) (queuemem w);
             calls := calls w |}).
Proof.
  intros Hsys (HA & a & q & Ha & Hmb & Hq & Hcount) Hfuel.
  exists a. split; [done|]. unfold actor_destroy.
  rewrite (eqb_null_false _ HA). unfold load. rewrite Ha. cbn [mbind res_bind].
  rewrite (eqb_null_false _ Hmb). unfold message_queue_destroy.
  rewrite (eqb_null_false _ Hmb).
  destruct fuel as [|fuel]; [lia|]. simpl. unfold load. rewrite Hq. simpl.
  unfold message_queue_empty. rewrite Hcount. simpl. rewrite Hsys.
  unfold free_actor, set_system. simpl. do 3 f_equal.
  by rewrite delete_insert_eq.
Qed.

Lemma actors_shutdown_loop_idle self (rest : list Z) : ∀ pre w sys fuel,
  actor_system w = Some sys → actors sys = pre ++ rest →
  NoDup (pre ++ rest) →
  (∀ A, A ∈ rest → idle_actor w A) → own_mailboxes w (pre ++ rest) →
  (∀ A, A ∈ pre → is_Some (actormem w !! A)) →
  (length rest + 1 < fuel)%nat →
  ∃ w',
    actors_shutdown_loop fuel self (length pre) w = Ok (Returned (), w') ∧
    (∀ A, A ∈ evens rest → actormem w' !! A = None) ∧
    (∀ A, A ∉ evens rest → actormem w' !! A = actormem w !! A) ∧
    (∀ A a, A ∈ pre ++ odds rest → actormem w !! A = Some a →
            queuemem w' !! mailbox a = queuemem w !! mailbox a).
Proof.
  induction rest as [| A | A B rest IH] using list_pair_ind;
    intros pre w sys fuel Hsys Hact Hnd Hidle Hown Hpre Hfuel.
  - exists w. destruct fuel as [|fuel]; [simpl in Hfuel; lia|]. simpl.
    rewrite Hsys, Hact, app_nil_r, lookup_ge_None_2 by lia.
    split; [done|]. split; [intros A HA; by apply elem_of_nil in HA|]. by split.
  - destruct fuel as [|fuel]; [simpl in Hfuel; lia|].
    cbn [actors_shutdown_loop]. rewrite Hsys, Hact.
    rewrite lookup_app_r, Nat.sub_diag by lia. cbn [lookup list_lookup].
    pose proof (Hidle A (list_elem_of_here _ _)) as HidA.
    destruct (actor_destroy_idle self A w sys fuel Hsys HidA) as (a & Ha & Hdes);
      [simpl in Hfuel; lia|].
    rewrite (eqb_null_false _ (proj1 HidA)), Hdes. cbn [mbind res_bind].
    destruct fuel as [|fuel]; [simpl in Hfuel; lia|].
    cbn [actors_shutdown_loop actor_system]. rewrite Hact.
    apply NoDup_app in Hnd as (Hndp & Hdisj & _).
    rewrite remove_first_middle by (intros Hin; by apply (Hdisj A Hin), list_elem_of_here).
    cbn [actors set_actors]. rewrite app_nil_r, lookup_ge_None_2 by lia.
    eexists. split; [reflexivity|]. cbn [actormem queuemem evens odds].
    split.
    { intros X HX. apply list_elem_of_singleton in HX as ->. apply lookup_delete_eq. }
    split.
    { intros X HX. rewrite lookup_delete_ne; [done|]. intros ->. apply HX.
      apply list_elem_of_here. }
    intros X x HX Hx. rewrite app_nil_r in HX. rewrite lookup_delete_ne; [done|].
    intros Heq. assert (A = X) as <-.
    { eapply (Hown A X a x); try done.
      - apply elem_of_app. right. apply list_elem_of_here.
      - apply elem_of_app. by left. }
    by apply (Hdisj A HX), list_elem_of_here.
  - destruct fuel as [|fuel]; [simpl in Hfuel; lia|].
    cbn [actors_shutdown_loop]. rewrite Hsys, Hact.
    rewrite lookup_app_r, Nat.sub_diag by lia. cbn [lookup list_lookup].
    pose proof (Hidle A (list_elem_of_here _ _)) as HidA.
    destruct (actor_destroy_idle self A w sys fuel Hsys HidA) as (a & Ha & Hdes);
      [simpl in Hfuel; lia|].
    rewrite (eqb_null_false _ (proj1 HidA)), Hdes. cbn [mbind res_bind].
    pose proof Hnd as Hnd0.
    apply NoDup_app in Hnd as (Hndp & Hdisj & Hndr).
    apply NoDup_cons in Hndr as [HAr Hndr]. apply NoDup_cons in Hndr as [HBr Hndr].
    assert (HAB : A ≠ B) by (intros ->; apply HAr, list_elem_of_here).
    assert (HApre : A ∉ pre) by (intros Hin; by apply (Hdisj A Hin), list_elem_of_here).
    set (w1 := {| actor_system := _ |}).
    assert (Hmem1 : ∀ X, X ≠ A → actormem w1 !! X = actormem w !! X).
    { intros X HX. unfold w1. simpl. by rewrite lookup_delete_ne. }
    assert (Hq1 : ∀ X x, X ∈ pre ++ A :: B :: rest → X ≠ A → actormem w !! X = Some x →
              queuemem w1 !! mailbox x = queuemem w !! mailbox x).
    { intros X x HX HXA Hx. unfold w1. simpl. rewrite lookup_delete_ne; [done|].
      intros Heq. apply HXA. symmetry. eapply (Hown A X a x); try done.
      apply elem_of_app. right. apply list_elem_of_here. }
    destruct (IH (pre ++ [B]) w1 (set_actors (pre ++ B :: rest) sys) fuel)
      as (w' & Hloop & Hev & Hkeep & Hqs).
    + unfold w1. simpl. by rewrite Hact, remove_first_middle.
    + simpl. by rewrite <- app_assoc.
    + rewrite <- app_assoc. simpl. apply NoDup_app. split; [done|]. split.
      * intros X HX HX'. apply (Hdisj X HX). by apply list_elem_of_further.
      * apply NoDup_cons. by split.
    + intros X HX.
      assert (HXA : X ≠ A) by (intros ->; apply HAr; by apply list_elem_of_further).
      destruct (Hidle X) as (HXn & x & q & Hx & Hmb & Hq & Hc).
      { by do 2 apply list_elem_of_further. }
      split; [done|]. exists x, q. rewrite (Hmem1 X HXA). split; [done|].
      split; [done|]. split; [|done]. rewrite (Hq1 X x); try done.
      apply elem_of_app. right. by do 2 apply list_elem_of_further.
    + intros X Y x y HX HY Hx Hy Heq. rewrite <- app_assoc in HX, HY. simpl in HX, HY.
      assert (HXA : X ≠ A).
      { intros ->. apply elem_of_app in HX as [HX|HX]; [done|]. done. }
      assert (HYA : Y ≠ A).
      { intros ->. apply elem_of_app in HY as [HY|HY]; [done|]. done. }
      rewrite (Hmem1 X HXA) in Hx. rewrite (Hmem1 Y HYA) in Hy.
      eapply (Hown X Y x y); try done.
      * apply elem_of_app in HX as [HX|HX]; apply elem_of_app; [by left|right].
        by apply list_elem_of_further.
      * apply elem_of_app in HY as [HY|HY]; apply elem_of_app; [by left|right].
        by apply list_elem_of_further.
    + intros X HX. apply elem_of_app in HX as [HX|HX].
      * rewrite Hmem1; [by apply Hpre|]. by intros ->.
      * apply list_elem_of_singleton in HX as ->. rewrite Hmem1 by done.
        destruct (Hidle B) as (_ & b & q & Hb & _); [apply list_elem_of_further, list_elem_of_here|].
        by eexists.
    + simpl in Hfuel. lia.
    + rewrite length_app in Hloop. simpl in Hloop.
      replace (length pre + 1)%nat with (S (length pre)) in Hloop by lia.
      exists w'. split; [exact Hloop|]. cbn [evens odds].
      assert (HAe : A ∉ evens rest).
      { intros H. apply evens_odds_subset in H. apply HAr. by apply list_elem_of_further. }
      split.
      { intros X HX. apply elem_of_cons in HX as [->|HX]; [|by apply Hev].
        rewrite Hkeep by done. unfold w1. simpl. apply lookup_delete_eq. }
      split.
      { intros X HX. apply not_elem_of_cons in HX as [HXA HX].
        rewrite Hkeep by done. by apply Hmem1. }
      intros X x HX Hx.
      assert (HXin : X ∈ pre ++ A :: B :: rest ∧ X ≠ A).
      { apply elem_of_app in HX as [HX|HX].
        - split; [apply elem_of_app; by left|]. by intros ->.
        - apply elem_of_cons in HX as [->|HX].
          + split; [|done]. apply elem_of_app. right.
            apply list_elem_of_further, list_elem_of_here.
          + apply evens_odds_subset in HX. split.
            * apply elem_of_app. right. by do 2 apply list_elem_of_further.
            * intros ->. apply HAr. by apply list_elem_of_further. }
      destruct HXin as [HXin HXA].
      rewrite (Hqs X x).
      * by apply (Hq1 X x).
      * rewrite <- app_assoc. exact HX.
      * by rewrite Hmem1.
Qed.

(** X14 ([actors_shutdown] with empty mailboxes).  [actor_destroy] takes
    the actor out of the array and moves the later entries down, while the
    loop of [actors_shutdown] goes on to the next index.  With distinct
    actors whose mailboxes are empty, the shutdown returns and the static
    system pointer is null, but only the actors at the even positions of the
    array were destroyed: those at the odd positions are still allocated,
    unchanged, together with their mailboxes. *)
Theorem actors_shutdown_destroys_every_other_actor self w sys fuel :
  actor_system w = Some sys → NoDup (actors sys) →
  (∀ A, A ∈ actors sys → idle_actor w A) → own_mailboxes w (actors sys) →
  (length (actors sys) + 1 < fuel)%nat →
  ∃ w',
    actors_shutdown fuel self w = Ok (Returned (), w') ∧
    actor_system w' = None ∧
    (∀ i A, actors sys !! (2 * i)%nat = Some A → actormem w' !! A = None) ∧
    (∀ i A a, actors sys !! (2 * i + 1)%nat = Some A → actormem w !! A = Some a →
       actormem w' !! A = Some a ∧
       queuemem w' !! mailbox a = queuemem w !! mailbox a).
Proof.
  intros Hsys Hnd Hidle Hown Hfuel.
  destruct (actors_stop_system w sys Hsys) as (sys' & Hsys' & Hrun' & Hact' & Ham & Hqm).
  destruct (actors_shutdown_loop_idle self (actors sys) [] (actors_stop w) sys' fuel)
    as (w' & Hloop & Hev & Hkeep & Hqs); try done.
  { intros A HA. destruct (Hidle A HA) as (HAn & a & q & Ha & Hmb & Hq & Hc).
    split; [done|]. exists a, q. by rewrite Ham, Hqm. }
  { intros A B a b HA HB. rewrite Ham. by apply Hown. }
  { intros A HA. by apply elem_of_nil in HA. }
  unfold actors_shutdown. rewrite Hsys. simpl in Hloop. rewrite Hloop.
  eexists. split; [reflexivity|]. simpl. split; [done|]. split.
  - intros i A Hi. apply Hev. apply list_elem_of_lookup. exists i.
    by rewrite (proj1 (evens_odds_lookup _ _)).
  - intros i A a Hi Ha. split.
    + rewrite Hkeep, Ham; [done|]. intros HAe.
      apply list_elem_of_lookup in HAe as [j Hj].
      rewrite (proj1 (evens_odds_lookup _ _)) in Hj.
      pose proof (NoDup_lookup _ _ _ _ Hnd Hi Hj). lia.
    + rewrite (Hqs A a), Hqm; [done| |by rewrite Ham]. simpl.
      apply list_elem_of_lookup. exists i.
      by rewrite (proj2 (evens_odds_lookup _ _)).
Qed.

(** *** A sender parked on a full mailbox *)

Lemma message_queue_get_step self qp w sys q m :
  qp ≠ NULL → actor_system w = Some sys → system_running sys = true →
  queuemem w !! qp = Some q → count q ≠ 0 →
  messages q !! Z.to_nat (head q) = Some m →
  message_queue_get self qp w
  = Ok (Returned (Some m),
        store_queue qp
          {| messages := messages q; count := wrap (count q - 1);
             capacity := capacity q; head := wrap (head q + 1) mod capacity q;
             tail := tail q; not_empty := not_empty q;
             not_full := cond_signal (not_full q) |} w).
Proof.
  intros Hqp Hsys Hrun Hq Hcount Hm. unfold message_queue_get.
  rewrite (eqb_null_false _ Hqp). unfold load. rewrite Hq, Hsys, Hrun. simpl.
  unfold message_queue_empty.
  replace (count q =? 0) with false by (symmetry; by apply Z.eqb_neq).
  simpl. by rewrite Hm.
Qed.

Lemma store_queue_inj qp q q' w :
  store_queue qp q w = store_queue qp q' w → q = q'.
Proof.
  intros H. apply (f_equal (λ x, queuemem x !! qp)) in H. simpl in H.
  rewrite !lookup_insert_eq in H. by injection H.
Qed.

(** X15 (a parked sender is released by the next get).  With the system
    running, a send into a full mailbox parks the sender in the wait set of
    [not_full].  The next [message_queue_get] takes the oldest message and
    signals [not_full]; the sender leaves the wait set, and its send, resumed
    at the loop test, now returns true with its message last in the queue. *)
Theorem parked_sender_completes_after_get t sched qp m w sys q m0 (l : list Z) :
  qp ≠ NULL → m ≠ NULL →
  actor_system w = Some sys → system_running sys = true →
  queuemem w !! qp = Some q → ring q (m0 :: l) →
  count q = capacity q → not_full q = [] →
  ∃ w1 w2 w3 q1 q2 q3,
    message_queue_put t qp m w = Ok (Suspended, w1) ∧
    queuemem w1 !! qp = Some q1 ∧ not_full q1 = [t] ∧ ring q1 (m0 :: l) ∧
    message_queue_get sched qp w1 = Ok (Returned (Some m0), w2) ∧
    queuemem w2 !! qp = Some q2 ∧ not_full q2 = [] ∧ ring q2 l ∧
    message_queue_put t qp m w2 = Ok (Returned true, w3) ∧
    queuemem w3 !! qp = Some q3 ∧ ring q3 (l ++ [m]).
Proof.
  intros Hqp Hm Hsys Hrun Hq Hring Hfull Hnf.
  set (q1 := {| messages := messages q; count := count q; capacity := capacity q;
                head := head q; tail := tail q; not_empty := not_empty q;
                not_full := [t] |}).
  assert (Hring1 : ring q1 (m0 :: l)) by (destruct Hring; by split).
  assert (Hput1 : message_queue_put t qp m w = Ok (Suspended, store_queue qp q1 w)).
  { unfold message_queue_put. rewrite (eqb_null_false _ Hqp), (eqb_null_false _ Hm).
    simpl. unfold load. rewrite Hq, Hsys, Hrun. simpl. unfold message_queue_full.
    replace (capacity q <=? count q) with true by (symmetry; apply Z.leb_le; lia).
    simpl. by rewrite Hnf. }
  set (w1 := store_queue qp q1 w).
  assert (Hq1 : queuemem w1 !! qp = Some q1) by (simpl; apply lookup_insert_eq).
  assert (Hsys1 : actor_system w1 = Some sys) by done.
  pose proof (ring_capacity _ _ Hring) as Hcap.
  pose proof (ring_head _ _ Hring) as Hhead.
  assert (Hm0 : messages q1 !! Z.to_nat (head q1) = Some m0).
  { pose proof (ring_slots _ _ Hring1 0%nat m0 eq_refl) as Hs. simpl in Hs.
    rewrite Z.add_0_r, Z.mod_small in Hs by lia. exact Hs. }
  assert (Hc1 : count q1 ≠ 0) by (simpl; lia).
  pose proof (message_queue_get_step sched qp w1 sys q1 m0 Hqp Hsys1 Hrun Hq1 Hc1 Hm0)
    as Hget.
  match type of Hget with
  | _ = Ok (_, store_queue _ ?x _) => set (q2 := x) in *
  end.
  assert (Hring2 : ring q2 l).
  { destruct (message_queue_get_ring sched qp w1 sys q1 m0 l Hqp Hsys1 Hrun Hq1 Hring1)
      as (q2' & Hget' & Hring2).
    rewrite Hget in Hget'.
    assert (Heq : store_queue qp q2 w1 = store_queue qp q2' w1) by congruence.
    by rewrite (store_queue_inj _ _ _ _ Heq). }
  set (w2 := store_queue qp q2 w1) in *.
  assert (Hq2 : queuemem w2 !! qp = Some q2) by (simpl; apply lookup_insert_eq).
  assert (Hsys2 : actor_system w2 = Some sys) by done.
  destruct (message_queue_put_ring t qp m w2 sys q2 l Hqp Hm Hsys2 Hrun Hq2 Hring2)
    as (q3 & Hput3 & _ & Hring3).
  { rewrite (ring_count _ _ Hring2). pose proof (ring_count _ _ Hring) as Hc.
    simpl. simpl in Hc. lia. }
  exists w1, w2, (store_queue qp q3 w2), q1, q2, q3.
  do 9 (split; [done|]). split; [|done].
  simpl. apply lookup_insert_eq.
Qed.

(** *** A pass of the scheduler *)

Section Scheduler.

Variable invoke : Z → Z → Z → world → res world.
Hypothesis Hkeeps : behaviors_keep_system invoke.

Lemma actor_schedule_turn self A w sys a q m (l : list Z) :
  actor_system w = Some sys → system_running sys = true →
  A ≠ NULL → actormem w !! A = Some a → running a = true →
  behavior a ≠ NULL → mailbox a ≠ NULL →
  queuemem w !! mailbox a = Some q → ring q (m :: l) →
  ∃ w' q',
    actor_schedule invoke self A w = Ok (Returned true, w') ∧
    calls w' = calls w ++ [(A, m)] ∧
    actor_system w' = Some sys ∧ actormem w' = actormem w ∧
    queuemem w' = <[mailbox a := q']> (queuemem w) ∧ ring q' l.
Proof.
  intros Hsys Hrun HA Ha Hra Hfn Hmb Hq Hring.
  destruct (message_queue_get_ring self (mailbox a) w sys q m l Hmb Hsys Hrun Hq Hring)
    as (q' & Hget & Hring').
  destruct (Hkeeps (behavior a) A m (store_queue (mailbox a) q' w))
    as (w1 & Hinv & Hs1 & Ham1 & Hq1).
  unfold actor_schedule. rewrite (eqb_null_false _ HA). unfold load. rewrite Ha.
  cbn [mbind res_bind]. rewrite Hra. cbn [negb]. rewrite Hget. cbn [mbind res_bind].
  rewrite (eqb_null_false _ Hfn), Hinv. cbn [mbind res_bind].
  eexists _, q'. split; [reflexivity|]. simpl. rewrite Hs1, Ham1, Hq1. by simpl.
Qed.

Lemma scheduler_pass_loop self sys (pending : Z → list Z) (rest : list Z) :
  ∀ pre w fuel,
  actor_system w = Some sys → system_running sys = true →
  actors sys = pre ++ rest → NoDup (pre ++ rest) →
  own_mailboxes w (pre ++ rest) →
  (∀ A, A ∈ rest → ready_actor w A (pending A)) →
  (length rest < fuel)%nat →
  ∃ w',
    scheduler_pass invoke fuel self (length pre) w = Ok (Returned (), w') ∧
    calls w' = calls w ++ flat_map (λ A, turn A (pending A)) rest ∧
    actor_system w' = Some sys ∧ actormem w' = actormem w ∧
    (∀ A a, A ∈ rest → actormem w !! A = Some a →
       ∃ q', queuemem w' !! mailbox a = Some q' ∧ ring q' (List.tl (pending A))) ∧
    (∀ p, (∀ A a, A ∈ rest → actormem w !! A = Some a → mailbox a ≠ p) →
          queuemem w' !! p = queuemem w !! p).
Proof.
  induction rest as [|A rest IH]; intros pre w fuel Hsys Hrun Hact Hnd Hown Hready Hfuel;
    (destruct fuel as [|fuel]; [simpl in Hfuel; lia|]).
  - exists w. simpl. rewrite Hsys, Hact, app_nil_r, lookup_ge_None_2 by lia.
    split; [done|]. split; [by rewrite app_nil_r|]. do 2 (split; [done|]).
    split; [|done]. intros A a HA. by apply elem_of_nil in HA.
  - cbn [scheduler_pass]. rewrite Hsys, Hact.
    rewrite lookup_app_r, Nat.sub_diag by lia. cbn [lookup list_lookup].
    rewrite Hrun. cbn [negb].
    destruct (Hready A (list_elem_of_here _ _))
      as (HA & a & q & Ha & Hra & Hfn & Hmb & Hq & Hring).
    rewrite (eqb_null_false _ HA). unfold load. rewrite Ha. cbn [mbind res_bind].
    rewrite Hra. cbn [negb]. rewrite (eqb_null_false _ Hmb).
    rewrite Hq. cbn [mbind res_bind].
    unfold message_queue_empty. rewrite (ring_count _ _ Hring).
    pose proof Hnd as Hnd0.
    apply NoDup_app in Hnd as (Hndp & Hdisj & Hndr).
    apply NoDup_cons in Hndr as [HAr Hndr].
    assert (Hnd' : NoDup ((pre ++ [A]) ++ rest)) by (by rewrite <- app_assoc).
    assert (Hact' : actors sys = (pre ++ [A]) ++ rest) by (by rewrite <- app_assoc).
    assert (Hlen : length (pre ++ [A]) = S (length pre)) by (rewrite length_app; simpl; lia).
    assert (Hother : ∀ B b, B ∈ rest → actormem w !! B = Some b → mailbox b ≠ mailbox a).
    { intros B b HB Hb Heq. assert (A = B) as <-; [|done].
      eapply (Hown A B a b); try done; apply elem_of_app; right;
        [apply list_elem_of_here|by apply list_elem_of_further]. }
    destruct (pending A) as [|m l] eqn:Hpend.
    + (* empty mailbox: the actor is skipped *)
      simpl. 
      destruct (IH (pre ++ [A]) w fuel Hsys Hrun Hact' Hnd')
        as (w' & Hloop & Hcalls & Hsys' & Ham' & Hqs & Hfr).
      { by rewrite <- app_assoc. }
      { intros B HB. apply Hready. by apply list_elem_of_further. }
      { simpl in Hfuel. lia. }
      rewrite Hlen in Hloop. exists w'. split; [exact Hloop|].
      split; [by rewrite Hpend|]. do 2 (split; [done|]). split.
      * intros B b HB Hb. apply elem_of_cons in HB as [->|HB]; [|by apply Hqs].
        rewrite Ha in Hb. injection Hb as <-. rewrite Hpend. exists q.
        split; [|done]. rewrite Hfr; [done|]. intros B b HB Hb. by apply (Hother B b).
      * intros p Hp. apply Hfr. intros B b HB. apply Hp. by apply list_elem_of_further.
    + (* a message is pending: one turn *)
      replace (Z.of_nat (length (m :: l)) =? 0) with false
        by (symmetry; apply Z.eqb_neq; simpl; lia).
      destruct (actor_schedule_turn self A w sys a q m l Hsys Hrun HA Ha Hra Hfn Hmb Hq Hring)
        as (w1 & q1 & Hsched & Hcalls1 & Hsys1 & Ham1 & Hq1 & Hring1).
      rewrite Hsched. cbn [mbind res_bind].
      destruct (IH (pre ++ [A]) w1 fuel Hsys1 Hrun Hact' Hnd')
        as (w' & Hloop & Hcalls & Hsys' & Ham' & Hqs & Hfr).
      { intros X Y x y. rewrite Ham1, <- app_assoc. apply Hown. }
      { intros B HB. destruct (Hready B) as (HBn & b & qb & Hb & Hrb & Hfb & Hmbb & Hqb & Hrgb).
        { by apply list_elem_of_further. }
        split; [done|]. exists b, qb. rewrite Ham1, Hq1. do 4 (split; [done|]).
        split; [|done]. rewrite lookup_insert_ne; [done|].
        intros Heq. by apply (Hother B b HB Hb). }
      { simpl in Hfuel. lia. }
      rewrite Hlen in Hloop. exists w'. split; [exact Hloop|].
      split.
      { rewrite Hcalls, Hcalls1. simpl. rewrite Hpend. simpl. by rewrite <- app_assoc. }
      split; [done|]. split; [by rewrite Ham'|]. split.
      * intros B b HB Hb. apply elem_of_cons in HB as [->|HB].
        -- rewrite Ha in Hb. injection Hb as <-. rewrite Hpend. exists q1.
           split; [|done]. rewrite Hfr; [by rewrite Hq1, lookup_insert_eq|].
           intros B b HB Hb. rewrite Ham1 in Hb. by apply (Hother B b).
        -- apply Hqs; [done|by rewrite Ham1].
      * intros p Hp. rewrite Hfr.
        -- rewrite Hq1, lookup_insert_ne; [done|]. apply (Hp A a); [apply list_elem_of_here|done].
        -- intros B b HB Hb. rewrite Ham1 in Hb. apply (Hp B b); [|done].
           by apply list_elem_of_further.
Qed.

(** X16 (one pass of the scheduler).  With the system running, distinct
    running actors that own their mailboxes, and behaviors that leave the
    structs of the actor system alone: one pass of the loop of
    [actor_scheduler] returns without parking the scheduler thread; it calls
    the behavior of every actor whose mailbox is not empty exactly once, with
    the oldest message of that mailbox, in the order of the actor array, and
    skips the actors whose mailbox is empty.  Each mailbox is left with the
    messages behind the one that was delivered. *)
Theorem scheduler_pass_gives_each_actor_one_turn self w sys
    (pending : Z → list Z) fuel :
  actor_system w = Some sys → system_running sys = true →
  NoDup (actors sys) → own_mailboxes w (actors sys) →
  (∀ A, A ∈ actors sys → ready_actor w A (pending A)) →
  (length (actors sys) < fuel)%nat →
  ∃ w',
    scheduler_pass invoke fuel self 0 w = Ok (Returned (), w') ∧
    calls w' = calls w ++ flat_map (λ A, turn A (pending A)) (actors sys) ∧
    actor_system w' = Some sys ∧ actormem w' = actormem w ∧
    (∀ A a, A ∈ actors sys → actormem w !! A = Some a →
       ∃ q', queuemem w' !! mailbox a = Some q' ∧ ring q' (List.tl (pending A))).
Proof.
  intros Hsys Hrun Hnd Hown Hready Hfuel.
  destruct (scheduler_pass_loop self sys pending (actors sys) [] w fuel)
    as (w' & Hloop & Hcalls & Hsys' & Ham' & Hqs & _); try done.
  by exists w'.
Qed.

End Scheduler.

(** *** Instances *)

Lemma idle_behavior_keeps_system : behaviors_keep_system idle_behavior.
Proof. intros fn actor m w. by exists w. Qed.

Lemma one_actor_registry :
  registry_ok one_actor
    {| actors := [12288]; actor_capacity := 1024; next_actor_id := 2;
       system_running := true; worker_count := 4 |}.
Proof.
  split; simpl.
  - vm_compute. reflexivity.
  - apply NoDup_singleton.
  - intros p Hp. apply list_elem_of_singleton in Hp as ->. done.
  - intros p Hp. apply list_elem_of_singleton in Hp as ->.
    eexists. split; [vm_compute; reflexivity|]. simpl. lia.
  - intros p p' a a' Hp Hp' _ _ _. apply list_elem_of_singleton in Hp as ->.
    by apply list_elem_of_singleton in Hp' as ->.
  - lia.
Defined.

Lemma actor_create_registers_actor_witness :
  ∃ w' sys' a q,
    actor_create 12352 24576 28672 4198400 7 one_actor = (12352, w') ∧
    registry_ok w' sys' ∧ actors sys' = [12288; 12352] ∧
    actors_count w' = 2 ∧
    actormem w' !! 12352 = Some a ∧ id a = 2 ∧
    actor_find_by_id (id a) w' = Ok 12352 ∧
    (∀ p b, p ∈ [12288] → actormem one_actor !! p = Some b →
            actor_find_by_id (id b) w' = Ok p) ∧
    actor_find_by_id 0 w' = Ok NULL ∧
    actor_get_state 12352 w' = Ok 7 ∧
    actor_is_running 12352 w' = Ok true ∧
    mailbox a = 24576 ∧ queuemem w' !! 24576 = Some q ∧
    ring q [] ∧ capacity q = 256.
Proof.
  apply (actor_create_registers_actor 12352 24576 28672 4198400 7 one_actor _
           one_actor_registry); done.
Defined.

Lemma three_actors_system :
  actor_system three_actors
  = Some {| actors := [12288; 12352; 12416]; actor_capacity := 1024;
            next_actor_id := 4; system_running := true; worker_count := 4 |}.
Proof. vm_compute. reflexivity. Defined.

Lemma three_actors_busy_system :
  actor_system three_actors_busy
  = Some {| actors := [12288; 12352; 12416]; actor_capacity := 1024;
            next_actor_id := 4; system_running := true; worker_count := 4 |}.
Proof. vm_compute. reflexivity. Defined.

Lemma three_distinct : NoDup [12288; 12352; 12416].
Proof.
  repeat (apply NoDup_cons; split;
          [intros H; repeat (apply elem_of_cons in H as [H|H]; [done|]);
           by apply elem_of_nil in H|]).
  apply NoDup_nil_2.
Defined.

Lemma empty_mailbox_ring (ws ws' : list tid) :
  ring {| messages := replicate 256 NULL; count := 0; capacity := 256;
          head := 0; tail := 0; not_empty := ws; not_full := ws' |} [].
Proof. split; try reflexivity; try (by vm_compute). Defined.

Lemma busy_mailbox_ring :
  ∃ q, queuemem three_actors_busy !! 16384 = Some q ∧ ring q [1000; 1001; 1002].
Proof.
  eexists. split; [vm_compute; reflexivity|].
  split; try reflexivity; try (by vm_compute).
  intros i m Hi. destruct i as [|[|[|i]]]; simpl in Hi; try done;
    injection Hi as <-; vm_compute; reflexivity.
Defined.

Lemma three_actors_own_mailboxes (w : world) :
  actormem w !! 12288 = Some {| id := 1; behavior := 4198400; state := 0;
                                mailbox := 16384; running := true; stopped := false |} →
  actormem w !! 12352 = Some {| id := 2; behavior := 4198400; state := 0;
                                mailbox := 24576; running := true; stopped := false |} →
  actormem w !! 12416 = Some {| id := 3; behavior := 4198400; state := 0;
                                mailbox := 32768; running := true; stopped := false |} →
  own_mailboxes w [12288; 12352; 12416].
Proof.
  intros H1 H2 H3 A B a b HA HB Ha Hb Heq.
  repeat (apply elem_of_cons in HA as [->|HA]);
    [| | |by apply elem_of_nil in HA];
    (repeat (apply elem_of_cons in HB as [->|HB]);
     [| | |by apply elem_of_nil in HB]);
    try done; rewrite ?H1, ?H2, ?H3 in Ha, Hb; by simplify_eq/=.
Defined.

Lemma message_queue_destroy_frees_queued_messages_witness :
  ∃ w',
    message_queue_destroy 4 9%nat 16384 three_actors_busy
      = Ok (Returned [1000; 1001; 1002], w') ∧
    queuemem w' !! 16384 = None ∧
    (∀ p, p ≠ 16384 → queuemem w' !! p = queuemem three_actors_busy !! p) ∧
    actor_system w'
      = Some {| actors := [12288; 12352; 12416]; actor_capacity := 1024;
                next_actor_id := 4; system_running := true; worker_count := 4 |} ∧
    actormem w' = actormem three_actors_busy.
Proof.
  destruct busy_mailbox_ring as (q & Hq & Hring).
  assert (Hqp : 16384 ≠ NULL) by done.
  exact (message_queue_destroy_frees_queued_messages 9%nat 16384 three_actors_busy _ q
           [1000; 1001; 1002] Hqp three_actors_busy_system eq_refl Hq Hring).
Defined.

Lemma actors_shutdown_hangs_on_pending_message_witness :
  message_queue_destroy 1000 9%nat 16384 (actors_stop three_actors_busy) = OutOfFuel ∧
  actors_shutdown 1000 9%nat three_actors_busy = OutOfFuel.
Proof.
  destruct busy_mailbox_ring as (q & Hq & Hring).
  assert (HA : 12288 ≠ NULL) by done.
  assert (Ha : actormem three_actors_busy !! 12288
               = Some {| id := 1; behavior := 4198400; state := 0; mailbox := 16384;
                         running := true; stopped := false |})
    by (vm_compute; reflexivity).
  assert (Hmb : 16384 ≠ NULL) by done.
  assert (Hne : [1000; 1001; 1002] ≠ []) by done.
  exact (actors_shutdown_hangs_on_pending_message 9%nat three_actors_busy _ 12288
           [12352; 12416] _ q [1000; 1001; 1002]
           three_actors_busy_system eq_refl HA Ha Hmb Hq Hring Hne 1000%nat).
Defined.

Lemma three_actors_idle (A : Z) :
  A ∈ [12288; 12352; 12416] → idle_actor three_actors A.
Proof.
  assert (H : ∀ B mb, B ≠ NULL → mb ≠ NULL →
            actormem three_actors !! B
            = Some {| id := (B - 12224) / 64; behavior := 4198400; state := 0;
                      mailbox := mb; running := true; stopped := false |} →
            queuemem three_actors !! mb
            = Some {| messages := replicate 256 NULL; count := 0; capacity := 256;
                      head := 0; tail := 0; not_empty := []; not_full := [] |} →
            idle_actor three_actors B).
  { intros B mb HB Hmb Ha Hq. split; [done|]. eexists _, _.
    split; [exact Ha|]. split; [exact Hmb|]. split; [exact Hq|]. reflexivity. }
  intros HA.
  apply elem_of_cons in HA as [->|HA];
    [apply (H 12288 16384); [done|done|vm_compute; reflexivity|vm_compute; reflexivity]|].
  apply elem_of_cons in HA as [->|HA];
    [apply (H 12352 24576); [done|done|vm_compute; reflexivity|vm_compute; reflexivity]|].
  apply elem_of_cons in HA as [->|HA];
    [apply (H 12416 32768); [done|done|vm_compute; reflexivity|vm_compute; reflexivity]|].
  by apply elem_of_nil in HA.
Defined.

Lemma three_actors_mailboxes : own_mailboxes three_actors [12288; 12352; 12416].
Proof. apply three_actors_own_mailboxes; vm_compute; reflexivity. Defined.

Lemma actors_shutdown_destroys_every_other_actor_witness :
  ∃ w',
    actors_shutdown 5 9%nat three_actors = Ok (Returned (), w') ∧
    actor_system w' = None ∧
    (∀ i A, [12288; 12352; 12416] !! (2 * i)%nat = Some A → actormem w' !! A = None) ∧
    (∀ i A a, [12288; 12352; 12416] !! (2 * i + 1)%nat = Some A →
       actormem three_actors !! A = Some a →
       actormem w' !! A = Some a ∧
       queuemem w' !! mailbox a = queuemem three_actors !! mailbox a).
Proof.
  assert (Hfuel : (length [12288; 12352; 12416]%Z + 1 < 5)%nat) by (simpl; lia).
  exact (actors_shutdown_destroys_every_other_actor 9%nat three_actors _ 5%nat
           three_actors_system three_distinct three_actors_idle
           three_actors_mailboxes Hfuel).
Defined.

Lemma small_full_queue_ring :
  ∃ q, queuemem small_full_queue !! 16384 = Some q ∧ ring q [1000; 1001] ∧
       count q = capacity q ∧ not_full q = [].
Proof.
  eexists. split; [vm_compute; reflexivity|]. split; [|by split].
  split; try reflexivity; try (by vm_compute).
  intros i m Hi. destruct i as [|[|i]]; simpl in Hi; try done;
    injection Hi as <-; vm_compute; reflexivity.
Defined.

Lemma parked_sender_completes_after_get_witness :
  ∃ w1 w2 w3 q1 q2 q3,
    message_queue_put 7%nat 16384 2000 small_full_queue = Ok (Suspended, w1) ∧
    queuemem w1 !! 16384 = Some q1 ∧ not_full q1 = [7%nat] ∧ ring q1 [1000; 1001] ∧
    message_queue_get 0%nat 16384 w1 = Ok (Returned (Some 1000), w2) ∧
    queuemem w2 !! 16384 = Some q2 ∧ not_full q2 = [] ∧ ring q2 [1001] ∧
    message_queue_put 7%nat 16384 2000 w2 = Ok (Returned true, w3) ∧
    queuemem w3 !! 16384 = Some q3 ∧ ring q3 [1001; 2000].
Proof.
  destruct small_full_queue_ring as (q & Hq & Hring & Hfull & Hnf).
  assert (Hqp : 16384 ≠ NULL) by done.
  assert (Hm : 2000 ≠ NULL) by done.
  assert (Hsys : actor_system small_full_queue
                 = Some {| actors := []; actor_capacity := 1024; next_actor_id := 1;
                           system_running := true; worker_count := 4 |})
    by (vm_compute; reflexivity).
  exact (parked_sender_completes_after_get 7%nat 0%nat 16384 2000 small_full_queue _ q
           1000 [1001] Hqp Hm Hsys eq_refl Hq Hring Hfull Hnf).
Defined.

Lemma three_actors_busy_ready (A : Z) :
  A ∈ [12288; 12352; 12416] → ready_actor three_actors_busy A (busy_pending A).
Proof.
  assert (H : ∀ B mb q l, B ≠ NULL → mb ≠ NULL →
            actormem three_actors_busy !! B
            = Some {| id := (B - 12224) / 64; behavior := 4198400; state := 0;
                      mailbox := mb; running := true; stopped := false |} →
            queuemem three_actors_busy !! mb = Some q → ring q l →
            ready_actor three_actors_busy B l).
  { intros B mb q l HB Hmb Ha Hq Hring. split; [done|]. eexists _, q.
    split; [exact Ha|]. split; [reflexivity|]. split; [done|].
    split; [exact Hmb|]. split; [exact Hq|exact Hring]. }
  intros HA. destruct busy_mailbox_ring as (q & Hq & Hring).
  set (q0 := {| messages := replicate 256 NULL; count := 0; capacity := 256;
                head := 0; tail := 0; not_empty := []; not_full := [] |}).
  apply elem_of_cons in HA as [->|HA];
    [apply (H 12288 16384 q); [done|done|vm_compute; reflexivity|exact Hq|exact Hring]|].
  apply elem_of_cons in HA as [->|HA];
    [apply (H 12352 24576 q0 []); [done|done|vm_compute; reflexivity|vm_compute; reflexivity|
       apply empty_mailbox_ring]|].
  apply elem_of_cons in HA as [->|HA];
    [apply (H 12416 32768 q0 []); [done|done|vm_compute; reflexivity|vm_compute; reflexivity|
       apply empty_mailbox_ring]|].
  by apply elem_of_nil in HA.
Defined.

Lemma three_actors_busy_mailboxes :
  own_mailboxes three_actors_busy [12288; 12352; 12416].
Proof. apply three_actors_own_mailboxes; vm_compute; reflexivity. Defined.

Lemma scheduler_pass_gives_each_actor_one_turn_witness :
  ∃ w',
    scheduler_pass idle_behavior 4 0%nat 0 three_actors_busy = Ok (Returned (), w') ∧
    calls w' = [(12288, 1000)] ∧
    actor_system w'
      = Some {| actors := [12288; 12352; 12416]; actor_capacity := 1024;
                next_actor_id := 4; system_running := true; worker_count := 4 |} ∧
    actormem w' = actormem three_actors_busy ∧
    (∀ A a, A ∈ [12288; 12352; 12416] → actormem three_actors_busy !! A = Some a →
       ∃ q', queuemem w' !! mailbox a = Some q' ∧ ring q' (List.tl (busy_pending A))).
Proof.
  assert (Hfuel : (length [12288; 12352; 12416]%Z < 4)%nat) by (simpl; lia).
  exact (scheduler_pass_gives_each_actor_one_turn idle_behavior
           idle_behavior_keeps_system 0%nat three_actors_busy _ busy_pending 4%nat
           three_actors_busy_system eq_refl three_distinct
           three_actors_busy_mailboxes three_actors_busy_ready Hfuel).
Defined.

End Actors_api.

(** ** Boxed objects *)

Section Runtime_properties.
Import Runtime.

Implicit Types (tbl : list (string * Z)) (entries : list Z) (cs : gmap Z string).

Local Arguments object_set_scan : simpl never.
Local Arguments object_get_scan : simpl never.

Lemma updated_at tbl : ∀ j s v v0,
  NoDup (tbl.*1) → tbl !! j = Some (s, v0) →
  updated s v tbl = <[j := (s, v)]> tbl.
Proof.
  induction tbl as [|[s' v'] tbl IH]; intros j s v v0 Hnd Hj; [done|].
  simpl in Hnd. apply NoDup_cons in Hnd as [Hnotin Hnd].
  destruct j as [|j]; simpl in *.
  - injection Hj as -> ->. by rewrite bool_decide_eq_true_2.
  - rewrite bool_decide_eq_false_2.
    + f_equal. by eapply IH.
    + intros ->. apply Hnotin. apply list_elem_of_fmap. exists (s, v0).
      split; [done|]. by eapply list_elem_of_lookup_2.
Qed.

Lemma updated_new tbl s v : s ∉ tbl.*1 → updated s v tbl = tbl ++ [(s, v)].
Proof.
  induction tbl as [|[s' v'] tbl IH]; intros Hnotin; [done|].
  simpl in *. apply not_elem_of_cons in Hnotin as [Hne Hnotin].
  rewrite bool_decide_eq_false_2 by done. f_equal. by apply IH.
Qed.

Lemma stored_at tbl : ∀ j s v,
  NoDup (tbl.*1) → tbl !! j = Some (s, v) → stored s tbl = v.
Proof.
  induction tbl as [|[s' v'] tbl IH]; intros j s v Hnd Hj; [done|].
  simpl in Hnd. apply NoDup_cons in Hnd as [Hnotin Hnd].
  destruct j as [|j]; simpl in *.
  - injection Hj as -> ->. by rewrite bool_decide_eq_true_2.
  - rewrite bool_decide_eq_false_2; [by eapply IH|].
    intros ->. apply Hnotin. apply list_elem_of_fmap. exists (s, v).
    split; [done|]. by eapply list_elem_of_lookup_2.
Qed.

Lemma stored_none tbl s : s ∉ tbl.*1 → stored s tbl = NULL.
Proof.
  induction tbl as [|[s' v'] tbl IH]; intros Hnotin; [done|].
  simpl in *. apply not_elem_of_cons in Hnotin as [Hne Hnotin].
  rewrite bool_decide_eq_false_2 by done. by apply IH.
Qed.

(** Reading a key after a set: the value just set for the same key string,
    the old value for any other. *)
Lemma stored_updated tbl s v s' :
  stored s' (updated s v tbl) = if bool_decide (s' = s) then v else stored s' tbl.
Proof.
  induction tbl as [|[s0 v0] tbl IH]; simpl.
  - destruct (decide (s' = s)) as [->|Hne].
    + by rewrite !bool_decide_eq_true_2.
    + rewrite !bool_decide_eq_false_2; [done|done|congruence].
  - destruct (decide (s0 = s)) as [->|Hne0].
    + rewrite bool_decide_eq_true_2 by done. simpl.
      destruct (decide (s' = s)) as [->|Hne].
      * by rewrite !bool_decide_eq_true_2.
      * rewrite !bool_decide_eq_false_2; [done|done|congruence].
    + rewrite (bool_decide_eq_false_2 (s0 = s)) by done. simpl.
      destruct (decide (s0 = s')) as [->|Hne1].
      * rewrite bool_decide_eq_true_2 by done.
        by rewrite (bool_decide_eq_false_2 (s' = s)).
      * rewrite bool_decide_eq_false_2 by done. apply IH.
Qed.

Lemma updated_length tbl s v :
  length (updated s v tbl)
  = if bool_decide (s ∈ tbl.*1) then length tbl else S (length tbl).
Proof.
  induction tbl as [|[s0 v0] tbl IH]; simpl; [done|].
  destruct (decide (s0 = s)) as [->|Hne].
  - rewrite bool_decide_eq_true_2 by done. simpl.
    rewrite bool_decide_eq_true_2; [done|]. apply list_elem_of_here.
  - rewrite bool_decide_eq_false_2 by done. simpl. rewrite IH.
    destruct (decide (s ∈ tbl.*1)) as [Hin|Hnotin].
    + rewrite !bool_decide_eq_true_2; [done| |done]. by apply list_elem_of_further.
    + rewrite !bool_decide_eq_false_2; [done| |done].
      apply not_elem_of_cons. split; [congruence|done].
Qed.

Lemma table_in_update cs entries tbl j s v v0 :
  table_in cs entries tbl → tbl !! j = Some (s, v0) →
  table_in cs (<[S (2 * j) := v]> entries) (<[j := (s, v)]> tbl).
Proof.
  intros [Hwords Hbound Hnd Hpairs Hunused] Hj.
  assert (Hjlt : (j < length tbl)%nat) by (by eapply lookup_lt_Some).
  unfold iterations, object_words in *.
  split.
  - by rewrite length_insert.
  - by rewrite length_insert.
  - rewrite list_fmap_insert. simpl. rewrite list_insert_id; [done|].
    by rewrite list_lookup_fmap, Hj.
  - intros j' s' v' Hj'.
    destruct (decide (j' = j)) as [->|Hne].
    + rewrite list_lookup_insert_eq in Hj' by done. injection Hj' as <- <-.
      destruct (Hpairs _ _ _ Hj) as (kp & Hkp & Hnz & Hcs & _).
      exists kp. rewrite list_lookup_insert_ne by lia.
      repeat split; try done. apply list_lookup_insert_eq. lia.
    + rewrite list_lookup_insert_ne in Hj' by done.
      destruct (Hpairs _ _ _ Hj') as (kp & Hkp & Hnz & Hcs & Hv).
      exists kp. rewrite !list_lookup_insert_ne by lia. done.
  - intros j' Hj'. rewrite length_insert in Hj'. unfold iterations in *.
    rewrite list_lookup_insert_ne by lia. by apply Hunused.
Qed.

Lemma table_in_append cs entries tbl key s v :
  table_in cs entries tbl → (length tbl < iterations)%nat →
  key ≠ NULL → cs !! key = Some s → s ∉ tbl.*1 →
  table_in cs (<[S (2 * length tbl) := v]> (<[(2 * length tbl)%nat := key]> entries))
    (tbl ++ [(s, v)]).
Proof.
  intros [Hwords Hbound Hnd Hpairs Hunused] Hroom Hkey Hcs Hnew.
  unfold iterations, object_words in *.
  split.
  - by rewrite !length_insert.
  - rewrite length_app. simpl. unfold iterations. lia.
  - rewrite fmap_app. simpl. apply NoDup_app. split; [done|].
    split; [|apply NoDup_singleton].
    intros x Hx Hx'. apply list_elem_of_singleton in Hx'. by subst x.
  - intros j s' v' Hj.
    destruct (decide (j < length tbl)%nat) as [Hlt|Hge].
    + rewrite lookup_app_l in Hj by done.
      destruct (Hpairs _ _ _ Hj) as (kp & Hkp & Hnz & Hcs' & Hv).
      exists kp. rewrite !list_lookup_insert_ne by lia. done.
    + assert (j = length tbl) as ->.
      { apply lookup_lt_Some in Hj. rewrite length_app in Hj. simpl in Hj. lia. }
      rewrite lookup_app_r in Hj by lia. rewrite Nat.sub_diag in Hj. simpl in Hj.
      injection Hj as <- <-. exists key.
      rewrite list_lookup_insert_ne by lia.
      rewrite list_lookup_insert_eq by lia.
      repeat split; try done. apply list_lookup_insert_eq.
      rewrite length_insert. lia.
  - intros j Hj. rewrite length_app in Hj. simpl in Hj. unfold iterations in *.
    rewrite !list_lookup_insert_ne by lia. apply Hunused. lia.
Qed.

Lemma strcmp_is_zero_spec cs a b sa sb :
  cs !! a = Some sa → cs !! b = Some sb →
  strcmp_is_zero cs a b = Ok (bool_decide (sa = sb)).
Proof. intros Ha Hb. unfold strcmp_is_zero, load. by rewrite Ha, Hb. Qed.

Lemma read_entry_spec entries i x : entries !! i = Some x → read_entry entries i = Ok x.
Proof. intros H. unfold read_entry. by rewrite H. Qed.

Lemma prefix_not_in tbl s :
  (∀ j s' v', (j < length tbl)%nat → tbl !! j = Some (s', v') → s' ≠ s) →
  s ∉ tbl.*1.
Proof.
  intros Hprefix Hin. apply list_elem_of_fmap in Hin as ([s' v'] & -> & Hin).
  apply list_elem_of_lookup in Hin as [j Hj].
  by apply (Hprefix j s' v' (lookup_lt_Some _ _ _ Hj) Hj).
Qed.

Lemma object_set_scan_step n i cs entries key value :
  object_set_scan (S n) i cs entries key value =
  existing_key ← read_entry entries i;
  if existing_key =? NULL then
    Ok (Some (<[S i := value]> (<[i := key]> entries)))
  else
    same ← strcmp_is_zero cs existing_key key;
    if same : bool then Ok (Some (<[S i := value]> entries))
    else object_set_scan n (i + 2)%nat cs entries key value.
Proof. reflexivity. Qed.

Lemma object_get_scan_step n i cs entries key :
  object_get_scan (S n) i cs entries key =
  existing_key ← read_entry entries i;
  if existing_key =? NULL then Ok NULL
  else
    same ← strcmp_is_zero cs existing_key key;
    if same : bool then read_entry entries (S i)
    else object_get_scan n (i + 2)%nat cs entries key.
Proof. reflexivity. Qed.

(** The loop of [vela_object_set], from pair [j0] on, the pairs before it
    holding other keys. *)
Lemma object_set_scan_spec cs entries tbl key value s n : ∀ j0,
  (n + j0 = iterations)%nat → (j0 ≤ length tbl)%nat →
  table_in cs entries tbl → key ≠ NULL → cs !! key = Some s →
  (∀ j s' v', (j < j0)%nat → tbl !! j = Some (s', v') → s' ≠ s) →
  ∃ r, object_set_scan n (2 * j0) cs entries key value = Ok r ∧
    (s ∈ tbl.*1 ∨ (length tbl < iterations)%nat →
       ∃ entries', r = Some entries' ∧ table_in cs entries' (updated s value tbl)) ∧
    (s ∉ tbl.*1 → length tbl = iterations → r = None).
Proof.
  induction n as [|n IH]; intros j0 Hn Hj0 Htable Hkey Hcs Hprefix.
  - simpl in Hn. subst j0. exists None. split; [done|].
    pose proof (table_bound _ _ _ Htable) as Hbound.
    assert (Hnotin : s ∉ tbl.*1).
    { apply prefix_not_in. intros j s' v' Hj. apply Hprefix. lia. }
    split; [|done]. intros [Hin|Hlt]; [done|lia].
  - destruct (decide (j0 < length tbl)%nat) as [Hlt|Hge].
    + destruct (lookup_lt_is_Some_2 tbl j0 Hlt) as [[s0 v0] Hj].
      destruct (table_pairs _ _ _ Htable _ _ _ Hj) as (kp & Hkp & Hnz & Hcs0 & Hv0).
      rewrite object_set_scan_step. rewrite (read_entry_spec _ _ _ Hkp). simpl.
      rewrite (eqb_null_false _ Hnz).
      rewrite (strcmp_is_zero_spec _ _ _ _ _ Hcs0 Hcs). simpl.
      destruct (decide (s0 = s)) as [->|Hne].
      * rewrite bool_decide_eq_true_2 by done.
        eexists. split; [reflexivity|]. split.
        -- intros _. eexists. split; [reflexivity|].
           rewrite (updated_at tbl j0 s value v0 (table_nodup _ _ _ Htable) Hj).
           by eapply table_in_update.
        -- intros Hnotin. exfalso. apply Hnotin. apply list_elem_of_fmap.
           exists (s, v0). split; [done|]. by eapply list_elem_of_lookup_2.
      * rewrite bool_decide_eq_false_2 by done.
        match goal with
        | |- context [object_set_scan n ?i] =>
          replace i with (2 * S j0)%nat by lia
        end.
        apply IH; try done; try lia.
        intros j s' v' Hjlt Hj'. destruct (decide (j = j0)) as [->|Hjne].
        -- rewrite Hj in Hj'. by injection Hj' as <- <-.
        -- apply (Hprefix j s' v'); [lia|done].
    + assert (j0 = length tbl) as -> by lia.
      assert (Hroom : (length tbl < iterations)%nat) by lia.
      assert (Hnotin : s ∉ tbl.*1) by (by apply prefix_not_in).
      rewrite object_set_scan_step.
      rewrite (read_entry_spec _ _ _ (table_unused _ _ _ Htable _ (conj (le_n _) Hroom))).
      simpl. eexists. split; [reflexivity|]. split.
      * intros _. eexists. split; [reflexivity|].
        rewrite (updated_new _ _ _ Hnotin). by apply table_in_append.
      * intros _ Hfull. lia.
Qed.

(** The loop of [vela_object_get], from pair [j0] on. *)
Lemma object_get_scan_spec cs entries tbl key s n : ∀ j0,
  (n + j0 = iterations)%nat → (j0 ≤ length tbl)%nat →
  table_in cs entries tbl → cs !! key = Some s →
  (∀ j s' v', (j < j0)%nat → tbl !! j = Some (s', v') → s' ≠ s) →
  object_get_scan n (2 * j0) cs entries key = Ok (stored s tbl).
Proof.
  induction n as [|n IH]; intros j0 Hn Hj0 Htable Hcs Hprefix.
  - simpl in Hn. subst j0. simpl. rewrite stored_none; [done|].
    apply prefix_not_in. intros j s' v' Hj. apply Hprefix.
    pose proof (table_bound _ _ _ Htable). lia.
  - destruct (decide (j0 < length tbl)%nat) as [Hlt|Hge].
    + destruct (lookup_lt_is_Some_2 tbl j0 Hlt) as [[s0 v0] Hj].
      destruct (table_pairs _ _ _ Htable _ _ _ Hj) as (kp & Hkp & Hnz & Hcs0 & Hv0).
      rewrite object_get_scan_step. rewrite (read_entry_spec _ _ _ Hkp).
      cbn [mbind res_bind]. rewrite (eqb_null_false _ Hnz).
      rewrite (strcmp_is_zero_spec _ _ _ _ _ Hcs0 Hcs). cbn [mbind res_bind].
      destruct (decide (s0 = s)) as [->|Hne].
      * rewrite bool_decide_eq_true_2 by done.
        rewrite (read_entry_spec _ _ _ Hv0).
        by rewrite (stored_at tbl j0 s v0 (table_nodup _ _ _ Htable) Hj).
      * rewrite bool_decide_eq_false_2 by done.
        match goal with
        | |- context [object_get_scan n ?i] =>
          replace i with (2 * S j0)%nat by lia
        end.
        apply IH; try done; try lia.
        intros j s' v' Hjlt Hj'. destruct (decide (j = j0)) as [->|Hjne].
        -- rewrite Hj in Hj'. by injection Hj' as <- <-.
        -- apply (Hprefix j s' v'); [lia|done].
    + assert (j0 = length tbl) as -> by lia.
      assert (Hroom : (length tbl < iterations)%nat) by lia.
      rewrite object_get_scan_step.
      rewrite (read_entry_spec _ _ _ (table_unused _ _ _ Htable _ (conj (le_n _) Hroom))).
      simpl. rewrite stored_none; [done|]. by apply prefix_not_in.
Qed.

Lemma vela_object_get_spec st o tbl key s :
  o ≠ NULL → key ≠ NULL → holds st o tbl → cstrings st !! key = Some s →
  vela_object_get o key st = Ok (stored s tbl).
Proof.
  intros Ho Hkey (entries & Hpayload & Htable) Hcs.
  unfold vela_object_get. rewrite (eqb_null_false _ Ho), (eqb_null_false _ Hkey).
  simpl. unfold load. rewrite Hpayload. simpl.
  apply (object_get_scan_spec _ _ tbl _ _ iterations 0); try done; try lia.
Qed.

Lemma vela_object_create_holds fuel st o st' :
  vela_object_create fuel st = Ok (o, st') → o ≠ NULL →
  holds st' o [] ∧ cstrings st' = cstrings st.
Proof.
  unfold vela_object_create. intros H Ho.
  apply res_bind_ok in H as ([p g] & _ & H).
  destruct (p =? NULL); [by injection H as <-|].
  apply res_bind_ok in H as (g' & _ & H). injection H as <- <-.
  split; [|done]. exists (replicate object_words 0).
  split; [cbn [payloads]; apply lookup_insert_eq|].
  split.
  - apply length_replicate.
  - unfold iterations. simpl. lia.
  - apply NoDup_nil_2.
  - intros j s v Hj. by rewrite lookup_nil in Hj.
  - intros j Hj. apply lookup_replicate_2. unfold object_words, iterations in *. lia.
Qed.

(** C9, amended to the capacity the code has: 128 key/value pairs (the 256
    pointer slots hold a key and a value each).
    - A freshly created object stores no pair.
    - On an object that stores the pairs [tbl], [vela_object_set] of a key
      that is already stored, or of a new key while fewer than 128 pairs are
      stored, returns [true]; the object then stores [updated s value tbl]
      (one pair more for a new key, the same number otherwise), and
      [vela_object_get] returns [value] for that key string and what it
      returned before for every other.
    - A set of a new key on an object that stores 128 pairs returns [false]
      and changes nothing.
    - [vela_object_get] returns the value stored under the key string, [NULL]
      when there is none. *)
Theorem object_stores_up_to_128_pairs :
  (∀ fuel st o st',
     vela_object_create fuel st = Ok (o, st') → o ≠ NULL →
     holds st' o [] ∧ cstrings st' = cstrings st) ∧
  (∀ st o tbl key value s,
     o ≠ NULL → key ≠ NULL → holds st o tbl → cstrings st !! key = Some s →
     (s ∈ tbl.*1 ∨ (length tbl < 128)%nat →
      ∃ st',
        vela_object_set o key value st = Ok (true, st') ∧
        holds st' o (updated s value tbl) ∧
        cstrings st' = cstrings st ∧
        length (updated s value tbl)
          = (if bool_decide (s ∈ tbl.*1) then length tbl else S (length tbl)) ∧
        ∀ key' s', key' ≠ NULL → cstrings st !! key' = Some s' →
          vela_object_get o key' st'
            = Ok (if bool_decide (s' = s) then value else stored s' tbl)) ∧
     (s ∉ tbl.*1 → length tbl = 128%nat →
      vela_object_set o key value st = Ok (false, st))) ∧
  (∀ st o tbl key s,
     o ≠ NULL → key ≠ NULL → holds st o tbl → cstrings st !! key = Some s →
     vela_object_get o key st = Ok (stored s tbl)).
Proof.
  split; [exact vela_object_create_holds|]. split; [|exact vela_object_get_spec].
  intros st o tbl key value s Ho Hkey (entries & Hpayload & Htable) Hcs.
  destruct (object_set_scan_spec (cstrings st) entries tbl key value s iterations 0)
    as (r & Hscan & Hroom & Hfull); try done; try lia.
  change (2 * 0)%nat with 0%nat in Hscan.
  assert (Hset : vela_object_set o key value st
                 = r' ← Ok r;
                   match r' with
                   | Some entries' =>
                     Ok (true, {| gc := gc st;
                                  payloads := <[o := entries']> (payloads st);
                                  cstrings := cstrings st |})
                   | None => Ok (false, st)
                   end).
  { unfold vela_object_set. rewrite (eqb_null_false _ Ho), (eqb_null_false _ Hkey).
    simpl. unfold load. rewrite Hpayload. simpl. by rewrite Hscan. }
  split.
  - intros Hcan. destruct (Hroom Hcan) as (entries' & -> & Htable').
    eexists. split; [exact Hset|].
    assert (Hholds : holds {| gc := gc st; payloads := <[o := entries']> (payloads st);
                              cstrings := cstrings st |} o (updated s value tbl)).
    { exists entries'. split; [apply lookup_insert_eq|done]. }
    split; [exact Hholds|]. split; [done|]. split; [apply updated_length|].
    intros key' s' Hkey' Hcs'.
    rewrite (vela_object_get_spec _ o (updated s value tbl) key' s' Ho Hkey' Hholds Hcs').
    by rewrite stored_updated.
  - intros Hnew Hlen. rewrite (Hfull Hnew Hlen) in Hset. exact Hset.
Qed.

End Runtime_properties.

Section Runtime_examples.
Import Runtime.

(** C9, as stated, fails: on a fresh object the sets of 129 distinct keys are
    well within the claimed 256 pairs, yet the first 128 return [true] and
    the 129th returns [false]; its key reads back as [NULL]. *)
Lemma object_set_fails_at_129th_pair :
  ∃ st',
    set_all 65560 (sets_of 0 129) with_object
      = Ok (replicate 128 true ++ [false], st') ∧
    vela_object_get 65560 (1000 + 127) st' = Ok (5000 + 127) ∧
    vela_object_get 65560 (1000 + 128) st' = Ok NULL.
Proof.
  eexists. split; [vm_compute; reflexivity|]. split; vm_compute; reflexivity.
Qed.

Lemma with_object_holds : holds with_object 65560 [].
Proof.
  refine (proj1 (vela_object_create_holds 1%nat
            {| gc := GC.default_heap; payloads := ∅; cstrings := example_strings |}
            65560 with_object _ _)); [vm_compute; reflexivity|discriminate].
Defined.

Lemma object_stores_up_to_128_pairs_witness :
  holds with_object 65560 [] ∧
  ∃ st',
    vela_object_set 65560 1000 5000 with_object = Ok (true, st') ∧
    holds st' 65560 [(String (Ascii.ascii_of_nat 1) EmptyString, 5000)] ∧
    vela_object_get 65560 1000 st' = Ok 5000 ∧
    vela_object_get 65560 1001 st' = Ok NULL.
Proof.
  split; [exact with_object_holds|].
  destruct object_stores_up_to_128_pairs as (_ & Hset & _).
  assert (Ho : 65560 ≠ NULL) by discriminate.
  assert (Hk : 1000 ≠ NULL) by discriminate.
  assert (Hk' : 1001 ≠ NULL) by discriminate.
  assert (Hcs : cstrings with_object !! 1000
                = Some (String (Ascii.ascii_of_nat 1) EmptyString))
    by (vm_compute; reflexivity).
  assert (Hcs' : cstrings with_object !! 1001
                 = Some (String (Ascii.ascii_of_nat 2) EmptyString))
    by (vm_compute; reflexivity).
  destruct (Hset with_object 65560 [] 1000 5000 _ Ho Hk with_object_holds Hcs)
    as [Hok _].
  destruct Hok as (st' & Hrun & Hholds & _ & _ & Hget); [right; simpl; lia|].
  exists st'. split; [exact Hrun|]. split; [exact Hholds|].
  split; [exact (Hget 1000 _ Hk Hcs)|exact (Hget 1001 _ Hk' Hcs')].
Defined.

End Runtime_examples.

(** ** Boxed objects: the stored key pointers *)

Section Runtime_keys.
Import Runtime.

Implicit Types (tbl : list (string * Z)) (entries : list Z) (cs : gmap Z string).

Local Arguments object_set_scan : simpl never.

(** The loop of [vela_object_set] on a key string that is not stored: the
    key pointer itself goes into the first unused entry. *)
Lemma object_set_scan_new cs entries tbl key value s n : ∀ j0,
  (n + j0 = iterations)%nat → (j0 ≤ length tbl)%nat →
  table_in cs entries tbl → key ≠ NULL → cs !! key = Some s →
  s ∉ tbl.*1 → (length tbl < iterations)%nat →
  object_set_scan n (2 * j0) cs entries key value
  = Ok (Some (<[S (2 * length tbl) := value]>
                (<[(2 * length tbl)%nat := key]> entries))).
Proof.
  induction n as [|n IH]; intros j0 Hn Hj0 Htable Hkey Hcs Hnew Hroom.
  - simpl in Hn. lia.
  - destruct (decide (j0 < length tbl)%nat) as [Hlt|Hge].
    + destruct (lookup_lt_is_Some_2 tbl j0 Hlt) as [[s0 v0] Hj].
      destruct (table_pairs _ _ _ Htable _ _ _ Hj) as (kp & Hkp & Hnz & Hcs0 & Hv0).
      rewrite object_set_scan_step. rewrite (read_entry_spec _ _ _ Hkp).
      cbn [mbind res_bind]. rewrite (eqb_null_false _ Hnz).
      rewrite (strcmp_is_zero_spec _ _ _ _ _ Hcs0 Hcs). cbn [mbind res_bind].
      assert (Hne : s0 ≠ s).
      { intros ->. apply Hnew. apply list_elem_of_fmap. exists (s, v0).
        split; [done|]. by eapply list_elem_of_lookup_2. }
      rewrite bool_decide_eq_false_2 by done.
      replace (2 * j0 + 2)%nat with (2 * S j0)%nat by lia.
      apply IH; try done; lia.
    + assert (j0 = length tbl) as -> by lia.
      rewrite object_set_scan_step.
      rewrite (read_entry_spec _ _ _ (table_unused _ _ _ Htable _ (conj (le_n _) Hroom))).
      done.
Qed.

(** Key pointers that hold other strings are not affected by a change of
    the string at [key]. *)
Lemma table_in_other_string cs entries tbl key s s' :
  table_in cs entries tbl → cs !! key = Some s → s ∉ tbl.*1 →
  table_in (<[key := s']> cs) entries tbl.
Proof.
  intros [Hwords Hbound Hnd Hpairs Hunused] Hcs Hnew. split; try done.
  intros j s0 v0 Hj. destruct (Hpairs j s0 v0 Hj) as (kp & Hkp & Hnz & Hcs0 & Hv0).
  exists kp. split; [done|]. split; [done|]. split; [|done].
  rewrite lookup_insert_ne; [done|]. intros <-. apply Hnew.
  apply list_elem_of_fmap. exists (s0, v0). split; [simpl; congruence|].
  by eapply list_elem_of_lookup_2.
Qed.

(** X27 (the object keeps the caller's key pointer).  [vela_object_set] of
    a new key stores the key pointer, not a copy of the string.  The value
    reads back under the key; but once the program has overwritten the string
    at that address with another one, the object holds the pair under the new
    string: a [vela_object_get] with the old string returns [NULL], and one
    with the new string returns the value. *)
Theorem object_keeps_callers_key_pointer st o tbl key value s s' :
  o ≠ NULL → key ≠ NULL → holds st o tbl → cstrings st !! key = Some s →
  s ∉ tbl.*1 → (length tbl < 128)%nat → s' ∉ tbl.*1 → s' ≠ s →
  ∃ st1,
    vela_object_set o key value st = Ok (true, st1) ∧
    vela_object_get o key st1 = Ok value ∧
    holds (with_cstring key s' st1) o (tbl ++ [(s', value)]) ∧
    (∀ k, k ≠ NULL → cstrings (with_cstring key s' st1) !! k = Some s →
          vela_object_get o k (with_cstring key s' st1) = Ok NULL) ∧
    (∀ k, k ≠ NULL → cstrings (with_cstring key s' st1) !! k = Some s' →
          vela_object_get o k (with_cstring key s' st1) = Ok value).
Proof.
  intros Ho Hkey (entries & Hpayload & Htable) Hcs Hnew Hroom Hnew' Hne.
  set (entries' := <[S (2 * length tbl) := value]>
                     (<[(2 * length tbl)%nat := key]> entries)).
  set (st1 := {| gc := gc st; payloads := <[o := entries']> (payloads st);
                 cstrings := cstrings st |}).
  assert (Hset : vela_object_set o key value st = Ok (true, st1)).
  { unfold vela_object_set. rewrite (eqb_null_false _ Ho), (eqb_null_false _ Hkey).
    cbn [orb]. unfold load. rewrite Hpayload. cbn [mbind res_bind].
    pose proof (object_set_scan_new (cstrings st) entries tbl key value s
                  iterations 0) as Hscan.
    change (2 * 0)%nat with 0%nat in Hscan.
    rewrite Hscan; try done; unfold iterations; lia. }
  assert (Hholds1 : holds st1 o (tbl ++ [(s, value)])).
  { exists entries'. split; [apply lookup_insert_eq|].
    apply table_in_append; [done|unfold iterations; lia|done|done|done]. }
  assert (Hholds2 : holds (with_cstring key s' st1) o (tbl ++ [(s', value)])).
  { exists entries'. split; [apply lookup_insert_eq|].
    cbn [with_cstring cstrings st1].
    apply table_in_append;
      [by eapply table_in_other_string|unfold iterations; lia|done
      |apply lookup_insert_eq|done]. }
  assert (Hstored : ∀ x v, x ∉ tbl.*1 → stored x (tbl ++ [(x, v)]) = v).
  { intros x v Hx. rewrite <- (updated_new tbl x v Hx), stored_updated.
    by rewrite bool_decide_eq_true_2. }
  exists st1. split; [done|]. split.
  { rewrite (vela_object_get_spec st1 o _ key s Ho Hkey Hholds1 Hcs).
    f_equal. by apply Hstored. }
  split; [done|]. split.
  - intros k Hk Hks.
    rewrite (vela_object_get_spec _ o _ k s Ho Hk Hholds2 Hks). f_equal.
    apply stored_none. rewrite fmap_app. simpl. intros Hin.
    apply elem_of_app in Hin as [Hin|Hin]; [done|].
    apply list_elem_of_singleton in Hin. congruence.
  - intros k Hk Hks.
    rewrite (vela_object_get_spec _ o _ k s' Ho Hk Hholds2 Hks). f_equal.
    by apply Hstored.
Qed.

End Runtime_keys.

Section Runtime_keys_examples.
Import Runtime.

Lemma object_keeps_callers_key_pointer_witness :
  ∃ st1,
    vela_object_set 65560 1000 5000 with_object = Ok (true, st1) ∧
    vela_object_get 65560 1000 st1 = Ok 5000 ∧
    holds (with_cstring 1000 "renamed" st1) 65560 ([] ++ [("renamed"%string, 5000)]) ∧
    (∀ k, k ≠ NULL →
          cstrings (with_cstring 1000 "renamed" st1) !! k
          = Some (String (Ascii.ascii_of_nat 1) EmptyString) →
          vela_object_get 65560 k (with_cstring 1000 "renamed" st1) = Ok NULL) ∧
    (∀ k, k ≠ NULL →
          cstrings (with_cstring 1000 "renamed" st1) !! k = Some "renamed"%string →
          vela_object_get 65560 k (with_cstring 1000 "renamed" st1) = Ok 5000).
Proof.
  assert (Ho : 65560 ≠ NULL) by discriminate.
  assert (Hk : 1000 ≠ NULL) by discriminate.
  assert (Hcs : cstrings with_object !! 1000
                = Some (String (Ascii.ascii_of_nat 1) EmptyString))
    by (vm_compute; reflexivity).
  assert (Hnew : String (Ascii.ascii_of_nat 1) EmptyString ∉ ([] : list (string * Z)).*1)
    by apply not_elem_of_nil.
  assert (Hnew' : "renamed"%string ∉ ([] : list (string * Z)).*1)
    by apply not_elem_of_nil.
  assert (Hroom : (length ([] : list (string * Z)) < 128)%nat) by (simpl; lia).
  assert (Hne : "renamed"%string ≠ String (Ascii.ascii_of_nat 1) EmptyString)
    by discriminate.
  exact (object_keeps_callers_key_pointer with_object 65560 [] 1000 5000 _ "renamed"
           Ho Hk with_object_holds Hcs Hnew Hroom Hnew' Hne).
Defined.

End Runtime_keys_examples.

(** ** Arrays and strings *)

Section Arrays_properties.
Import Arrays.

Implicit Types (m : gmap Z Z) (st : state) (bs : list Z).

(** *** Bytes *)

Lemma size_t_value_digits (v : Z) : ∀ (n k : nat),
  0 ≤ v →
  size_t_value (map (λ i : nat, (v / 2 ^ (8 * Z.of_nat i)) mod 256) (seq k n))
  = (v / 2 ^ (8 * Z.of_nat k)) mod 2 ^ (8 * Z.of_nat n).
Proof.
  induction n as [|n IH]; intros k Hv.
  - simpl. by rewrite Z.mod_1_r.
  - cbn [seq map size_t_value]. rewrite (IH (S k) Hv).
    replace (8 * Z.of_nat (S n)) with (8 + 8 * Z.of_nat n) by lia.
    replace (8 * Z.of_nat (S k)) with (8 * Z.of_nat k + 8) by lia.
    rewrite !Z.pow_add_r by lia.
    rewrite <- Z.div_div by lia.
    change (2 ^ 8) with 256.
    set (x := v / 2 ^ (8 * Z.of_nat k)).
    rewrite (Z.rem_mul_r x 256 (2 ^ (8 * Z.of_nat n))) by lia. done.
Qed.

Lemma size_t_value_bytes (v : Z) :
  0 ≤ v < 2 ^ 64 → size_t_value (size_t_bytes v) = v.
Proof.
  intros Hv. unfold size_t_bytes. rewrite size_t_value_digits by lia.
  change (8 * Z.of_nat 0) with 0. change (8 * Z.of_nat 8) with 64.
  rewrite Z.pow_0_r, Z.div_1_r. by apply Z.mod_small.
Qed.

Lemma length_size_t_bytes (v : Z) : length (size_t_bytes v) = 8%nat.
Proof. reflexivity. Qed.

Lemma write_bytes_out bs : ∀ p m a,
  a < p ∨ p + Z.of_nat (length bs) ≤ a → write_bytes p bs m !! a = m !! a.
Proof.
  induction bs as [|b bs IH]; intros p m a Ha; [done|]. simpl in *.
  rewrite lookup_insert_ne by lia. apply IH. lia.
Qed.

Lemma write_bytes_in bs : ∀ p m (i : nat) b,
  bs !! i = Some b → write_bytes p bs m !! (p + Z.of_nat i) = Some b.
Proof.
  induction bs as [|b' bs IH]; intros p m i b Hi; [done|]. simpl.
  destruct i as [|i]; simpl in Hi.
  - injection Hi as ->. rewrite Z.add_0_r. apply lookup_insert_eq.
  - rewrite lookup_insert_ne by lia.
    replace (p + Z.of_nat (S i)) with (p + 1 + Z.of_nat i) by lia. by apply IH.
Qed.

Lemma read_bytes_ok m : ∀ bs p,
  (∀ (i : nat) b, bs !! i = Some b → m !! (p + Z.of_nat i) = Some b) →
  read_bytes m p (length bs) = Ok bs.
Proof.
  induction bs as [|b bs IH]; intros p H; [done|]. simpl.
  pose proof (H 0%nat b eq_refl) as H0. rewrite Z.add_0_r in H0.
  unfold load. rewrite H0. cbn [mbind res_bind]. rewrite IH; [done|].
  intros i b' Hi. replace (p + 1 + Z.of_nat i) with (p + Z.of_nat (S i)) by lia.
  by apply H.
Qed.

Lemma read_bytes_inv m : ∀ n p bs,
  read_bytes m p n = Ok bs →
  length bs = n ∧ ∀ (i : nat) b, bs !! i = Some b → m !! (p + Z.of_nat i) = Some b.
Proof.
  induction n as [|n IH]; intros p bs H; simpl in H.
  - injection H as <-. by split.
  - apply res_bind_ok in H as (b & Hb & H).
    apply res_bind_ok in H as (bs' & Hbs & H). injection H as <-.
    destruct (IH _ _ Hbs) as [Hlen Hget]. split; [simpl; by rewrite Hlen|].
    intros i b' Hi. destruct i as [|i]; simpl in Hi.
    + injection Hi as <-. rewrite Z.add_0_r. unfold load in Hb.
      by destruct (m !! p); [injection Hb as ->|].
    + replace (p + Z.of_nat (S i)) with (p + 1 + Z.of_nat i) by lia. by apply Hget.
Qed.

Lemma read_bytes_ext m m' n p :
  (∀ a, p ≤ a < p + Z.of_nat n → m' !! a = m !! a) →
  read_bytes m' p n = read_bytes m p n.
Proof.
  revert p. induction n as [|n IH]; intros p H; [done|]. simpl.
  unfold load. rewrite (H p) by lia. destruct (m !! p); [|done].
  cbn [mbind res_bind]. rewrite IH; [done|]. intros a Ha. apply H. lia.
Qed.

Lemma read_bytes_written m p bs : read_bytes (write_bytes p bs m) p (length bs) = Ok bs.
Proof. apply read_bytes_ok. intros i b Hi. by apply write_bytes_in. Qed.

Lemma load_size_t_ok m p v :
  0 ≤ v < 2 ^ 64 → read_bytes m p 8 = Ok (size_t_bytes v) → load_size_t m p = Ok v.
Proof.
  intros Hv H. unfold load_size_t. rewrite H. cbn [mbind res_bind].
  by rewrite size_t_value_bytes.
Qed.

Lemma inside_true block size p n :
  block ≤ p → p + n ≤ block + size → inside block size p n = true.
Proof.
  intros H1 H2. unfold inside. apply andb_true_iff. by rewrite Z.leb_le, Z.leb_le.
Qed.

(** *** The collector's side of a creation *)

Lemma set_type_flag_spec flag g h l a hd :
  GC.heap_ok g h l → a ∈ l → GC.mem g !! a = Some hd →
  a + GC.sizeof_gc_header < GC.heap_end h →
  ∃ g',
    set_type_flag flag g (a + GC.sizeof_gc_header) = Ok g' ∧
    GC.heap_ok g' h l ∧ GC.gc_stats g' = GC.gc_stats g ∧
    GC.mem g' = <[a := GC.set_flags (Z.lor (GC.flags hd) flag) hd]> (GC.mem g) ∧
    GC.gc_get_header g' (a + GC.sizeof_gc_header) = a.
Proof.
  intros Hok Ha Hhd Hend.
  pose proof Hok as [Hheap Hidle Hstart Hcur Hfin Hc Hnd Hin Hroots].
  destruct (Hin a Ha) as [Ha1 Ha2].
  assert (Hptr : ∀ g0, GC.gc_heap g0 = Some h →
                   GC.gc_get_header g0 (a + GC.sizeof_gc_header) = a).
  { intros g0 Hg0. unfold GC.gc_get_header.
    replace (GC.gc_is_heap_ptr g0 (a + GC.sizeof_gc_header)) with true.
    - simpl. replace (a + GC.sizeof_gc_header - GC.sizeof_gc_header) with a by lia.
      apply wrap_small. unfold GC.sizeof_gc_header in *. lia.
    - symmetry. apply (proj2 (gc_is_heap_ptr_true g0 h _ Hg0)).
      unfold GC.sizeof_gc_header, NULL in *. lia. }
  unfold set_type_flag. rewrite (Hptr g Hheap).
  assert (Hnz : a ≠ NULL) by (unfold NULL; lia).
  rewrite (eqb_null_false _ Hnz). unfold load. rewrite Hhd. cbn [mbind res_bind].
  eexists. split; [reflexivity|]. split; [|split; [done|]; split; [done|by apply Hptr]].
  split; try done.
  - cbn [GC.mem]. eapply chain_ext; [|exact Hc]. intros b Hb.
    destruct (decide (b = a)) as [->|Hne].
    + by rewrite lookup_insert_eq, Hhd.
    + by rewrite lookup_insert_ne.
  - intros r Hr Hheap_r Hnz_r. cbn [GC.mem].
    set (g' := {| GC.gc_heap := GC.gc_heap g |}) in *.
    assert (Hg' : GC.gc_heap g' = GC.gc_heap g) by done.
    rewrite (gc_get_header_heap g g' r Hg') in *.
    rewrite (gc_is_heap_ptr_heap g g' r Hg') in Hheap_r.
    destruct (Hroots r Hr Hheap_r Hnz_r) as [x Hx].
    apply lookup_insert_is_Some.
    destruct (decide (a = GC.gc_get_header g r)) as [->|Hne]; [by left|right].
    split; [done|]. by exists x.
Qed.

Lemma vela_gc_alloc_room fuel sz g h l :
  GC.heap_ok g h l → 0 ≤ sz →
  GC.free_ptr h + GC.sizeof_gc_header + sz ≤ GC.heap_end h →
  ∃ g' h',
    GC.vela_gc_alloc fuel sz g = Ok (GC.free_ptr h + GC.sizeof_gc_header, g') ∧
    GC.heap_ok g' h' (GC.free_ptr h :: l) ∧
    GC.free_ptr h' = GC.free_ptr h + GC.sizeof_gc_header + sz ∧
    GC.heap_start h' = GC.heap_start h ∧ GC.heap_end h' = GC.heap_end h ∧
    GC.roots h' = GC.roots h ∧
    GC.mem g' = <[GC.free_ptr h := {| GC.flags := 0; GC.size := sz;
                                      GC.next := GC.objects h |}]> (GC.mem g).
Proof.
  intros Hok Hsz Hroom.
  pose proof Hok as [Hheap Hidle Hstart Hcur Hfin Hc Hnd Hin Hroots].
  destruct (gc_alloc_bump_effect g h l sz 0 Hok Hsz Hroom)
    as (g' & h' & Hbump & Hok' & Hfp & Hs & He & Hr & _ & Hmem & _).
  exists g', h'. split; [|done].
  unfold GC.vela_gc_alloc, GC.gc_alloc. rewrite Hheap. cbv zeta.
  unfold GC.sizeof_gc_header in *.
  rewrite (wrap_small (24 + sz)) by lia.
  rewrite (wrap_small (GC.free_ptr h + (24 + sz))) by lia.
  replace (GC.heap_end h <? GC.free_ptr h + (24 + sz)) with false
    by (symmetry; apply Z.ltb_ge; lia).
  rewrite (wrap_small (24 + sz)) in Hbump by lia. by rewrite Hbump.
Qed.

(** [vela_array_get] on a block whose first word is a count. *)
Lemma vela_array_get_spec st array count hd i :
  array ≠ NULL → 0 ≤ count < 2 ^ 64 →
  read_bytes (bytes st) array 8 = Ok (size_t_bytes count) →
  GC.gc_get_header (gc st) array ≠ NULL →
  GC.mem (gc st) !! GC.gc_get_header (gc st) array = Some hd →
  vela_array_get array i st
  = Ok (if count <=? i then NULL
        else wrap (wrap (array + sizeof_size_t)
                   + wrap (i * (wrap (GC.size hd - sizeof_size_t) / count)))).
Proof.
  intros Hnz Hcount Hlen Hhdr Hhd. unfold vela_array_get.
  rewrite (eqb_null_false _ Hnz), (load_size_t_ok _ _ count Hcount Hlen).
  cbn [mbind res_bind]. destruct (count <=? i); [done|].
  rewrite (eqb_null_false _ Hhdr). unfold load. by rewrite Hhd.
Qed.

(** What a creation leaves, with the byte count of the elements taken
    modulo 2^64 as the code computes it. *)
Lemma vela_array_create_spec fuel count width st h l :
  GC.heap_ok (gc st) h l → 0 < count < 2 ^ 64 → 0 < width < 2 ^ 64 →
  wrap (count * width) < 2 ^ 64 - 8 →
  GC.free_ptr h + GC.sizeof_gc_header + 8 + wrap (count * width) ≤ GC.heap_end h →
  (length l < fuel)%nat →
  ∃ g' h',
    vela_array_create fuel count width st
    = Ok (GC.free_ptr h + GC.sizeof_gc_header,
          {| gc := g';
             bytes := write_bytes (GC.free_ptr h + GC.sizeof_gc_header + 8)
                        (replicate (Z.to_nat (wrap (count * width))) 0)
                        (write_bytes (GC.free_ptr h + GC.sizeof_gc_header)
                           (size_t_bytes count) (bytes st)) |}) ∧
    GC.heap_ok g' h' (GC.free_ptr h :: l) ∧
    GC.free_ptr h' = GC.free_ptr h + GC.sizeof_gc_header + 8 + wrap (count * width) ∧
    GC.heap_start h' = GC.heap_start h ∧ GC.heap_end h' = GC.heap_end h ∧
    GC.mem g' = <[GC.free_ptr h := {| GC.flags := GC.GC_FLAG_ARRAY;
                                      GC.size := 8 + wrap (count * width);
                                      GC.next := GC.objects h |}]> (GC.mem (gc st)) ∧
    GC.gc_get_header g' (GC.free_ptr h + GC.sizeof_gc_header) = GC.free_ptr h.
Proof.
  intros Hok Hcount Hwidth Hn Hroom Hfuel.
  pose proof Hok as [Hheap Hidle Hstart Hcur Hfin Hc Hnd Hin Hroots].
  set (n := wrap (count * width)) in *.
  pose proof (wrap_range (count * width)) as Hn0. fold n in Hn0.
  set (array := GC.free_ptr h + GC.sizeof_gc_header).
  destruct (vela_gc_alloc_room fuel (8 + n) (gc st) h l Hok)
    as (g1 & h1 & Halloc & Hok1 & Hfp1 & Hs1 & He1 & Hr1 & Hmem1); [lia|lia|].
  destruct (set_type_flag_spec GC.GC_FLAG_ARRAY g1 h1 (GC.free_ptr h :: l)
              (GC.free_ptr h)
              {| GC.flags := 0; GC.size := 8 + n; GC.next := GC.objects h |} Hok1)
    as (g2 & Hflag & Hok2 & _ & Hmem2 & Hhdr2).
  { apply list_elem_of_here. }
  { rewrite Hmem1. apply lookup_insert_eq. }
  { rewrite He1. unfold GC.sizeof_gc_header in *. lia. }
  exists g2, h1. split.
  - unfold vela_array_create.
    replace (count =? 0) with false by (symmetry; apply Z.eqb_neq; lia).
    replace (width =? 0) with false by (symmetry; apply Z.eqb_neq; lia).
    cbn [orb]. cbv zeta. fold n. unfold sizeof_size_t.
    rewrite (wrap_small (8 + n)) by lia.
    rewrite Halloc. cbn [mbind res_bind]. fold array.
    assert (Hnz : array ≠ NULL).
    { unfold array, NULL, GC.sizeof_gc_header. lia. }
    rewrite (eqb_null_false _ Hnz). fold array in Hflag. rewrite Hflag.
    cbn [mbind res_bind]. unfold store_in.
    rewrite length_size_t_bytes.
    rewrite inside_true by lia. cbn [mbind res_bind].
    assert (Hel : wrap (array + 8) = array + 8).
    { apply wrap_small. unfold array, GC.sizeof_gc_header in *. lia. }
    rewrite Hel. unfold memset_in. rewrite inside_true by lia. done.
  - split; [done|]. split; [lia|]. split; [done|]. split; [done|].
    split; [|done]. rewrite Hmem2, Hmem1. by rewrite insert_insert_eq.
Qed.

Lemma array_at_get st array count width i :
  array_at st array count width → 0 ≤ i →
  vela_array_get array i st
  = Ok (if count <=? i then NULL else element array width i).
Proof.
  intros [Hcount Hwidth Hfits Hheader (hd & Hhd & Hsize) Hnz Hlen] Hi.
  unfold sizeof_size_t, GC.sizeof_gc_header in *.
  rewrite (vela_array_get_spec st array count hd i); try done.
  - destruct (Z.leb_spec count i) as [Hout|Hin]; [done|]. f_equal.
    unfold sizeof_size_t. rewrite Hsize.
    replace (8 + count * width - 8) with (width * count) by lia.
    assert (Hcw : i * width < count * width) by nia.
    rewrite (wrap_small (width * count)) by nia.
    rewrite Z.div_mul by lia.
    rewrite (wrap_small (array + 8)) by nia.
    rewrite (wrap_small (i * width)) by nia.
    unfold element, sizeof_size_t. apply wrap_small. nia.
  - unfold NULL. lia.
  - lia.
  - rewrite Hheader. unfold NULL. lia.
  - by rewrite Hheader.
Qed.



(** X23 ([vela_array_set]).  On an array of [count] elements [width] bytes
    wide, a set at an index below [count] copies [width] bytes from the value
    into the element and returns true: the element then holds these bytes, and
    no byte outside the element is changed, so the length and the other
    elements are as before.  A set at an index from [count] on, or with a null
    value, returns false and changes nothing. *)
Theorem vela_array_set_stores_element st array count width i value src :
  array_at st array count width → 0 ≤ i < count → value ≠ NULL →
  read_bytes (bytes st) value (Z.to_nat width) = Ok src →
  ∃ st',
    vela_array_set array i value st = Ok (true, st') ∧
    gc st' = gc st ∧ array_at st' array count width ∧
    read_bytes (bytes st') (element array width i) (Z.to_nat width) = Ok src ∧
    (∀ a, a < element array width i ∨ element array width (i + 1) ≤ a →
          bytes st' !! a = bytes st !! a) ∧
    (∀ j, count ≤ j → vela_array_set array j value st = Ok (false, st)) ∧
    vela_array_set array i NULL st = Ok (false, st).
Proof.
  intros Hat Hi Hvalue Hsrc.
  pose proof Hat as [Hcount Hwidth Hfits Hheader (hd & Hhd & Hsize) Hnz Hlen].
  unfold sizeof_size_t, GC.sizeof_gc_header in *.
  assert (Harr : array ≠ NULL) by (unfold NULL; lia).
  destruct (read_bytes_inv _ _ _ _ Hsrc) as [Hlen_src _].
  assert (Hel : element array width i ≠ NULL).
  { unfold element, sizeof_size_t, NULL. nia. }
  assert (Hesize : wrap (GC.size hd - 8) / count = width).
  { rewrite Hsize. replace (8 + count * width - 8) with (width * count) by lia.
    rewrite wrap_small by nia. apply Z.div_mul. lia. }
  set (st' := {| gc := gc st; bytes := write_bytes (element array width i) src (bytes st) |}).
  exists st'. split.
  { unfold vela_array_set. rewrite (eqb_null_false _ Harr), (eqb_null_false _ Hvalue).
    cbn [orb]. rewrite (array_at_get st array count width i Hat) by lia.
    replace (count <=? i) with false by (symmetry; apply Z.leb_gt; lia).
    cbn [mbind res_bind]. rewrite (eqb_null_false _ Hel).
    rewrite (load_size_t_ok _ _ count) by (done || lia). cbn [mbind res_bind].
    rewrite Hheader. unfold GC.sizeof_gc_header.
    rewrite eqb_null_false by (unfold NULL; lia).
    unfold load. rewrite Hhd. cbn [mbind res_bind]. unfold sizeof_size_t.
    rewrite Hesize, Hsrc. cbn [mbind res_bind]. unfold store_in.
    rewrite inside_true; [done| |].
    - unfold element, sizeof_size_t. nia.
    - rewrite Hlen_src, Hsize. unfold element, sizeof_size_t. nia. }
  split; [done|]. split.
  { split; try done.
    - by exists hd.
    - unfold st'. cbn [bytes]. rewrite (read_bytes_ext (bytes st)); [done|].
      intros a Ha. apply write_bytes_out. unfold element, sizeof_size_t. nia. }
  split.
  { unfold st'. cbn [bytes]. rewrite <- Hlen_src. apply read_bytes_written. }
  split.
  { intros a Ha. unfold st'. cbn [bytes]. apply write_bytes_out. rewrite Hlen_src.
    unfold element, sizeof_size_t in *. nia. }
  split.
  - intros j Hj. unfold vela_array_set.
    rewrite (eqb_null_false _ Harr), (eqb_null_false _ Hvalue). cbn [orb].
    rewrite (array_at_get st array count width j Hat) by lia.
    by replace (count <=? j) with true by (symmetry; apply Z.leb_le; lia).
  - unfold vela_array_set. rewrite (eqb_null_false _ Harr). done.
Qed.

(** X24 (overflow of [element_count * element_size]).  When the product
    does not fit a [size_t], [vela_array_create] still succeeds as soon as
    the arena has room for the wrapped size: the block holds
    [8 + (count * width) mod 2^64] bytes while the stored length is [count].
    [vela_array_get] then derives an element width from the block size that is
    smaller than [width]: consecutive elements lie less than [width] bytes
    apart, while every address it returns, with the derived width, stays
    inside the block. *)
Theorem vela_array_create_overflow_narrows_elements fuel count width st h l :
  GC.heap_ok (gc st) h l → 0 < count < 2 ^ 64 → 0 < width < 2 ^ 64 →
  2 ^ 64 ≤ count * width → wrap (count * width) < 2 ^ 64 - 8 →
  GC.free_ptr h + GC.sizeof_gc_header + 8 + wrap (count * width) ≤ GC.heap_end h →
  (length l < fuel)%nat →
  ∃ st' hd,
    vela_array_create fuel count width st
    = Ok (GC.free_ptr h + GC.sizeof_gc_header, st') ∧
    GC.mem (gc st') !! GC.free_ptr h = Some hd ∧
    GC.size hd = 8 + wrap (count * width) ∧
    vela_array_length (GC.free_ptr h + GC.sizeof_gc_header) st' = Ok count ∧
    wrap (count * width) / count < width ∧
    (∀ i, 0 ≤ i < count →
          vela_array_get (GC.free_ptr h + GC.sizeof_gc_header) i st'
          = Ok (element (GC.free_ptr h + GC.sizeof_gc_header)
                  (wrap (count * width) / count) i) ∧
          element (GC.free_ptr h + GC.sizeof_gc_header)
            (wrap (count * width) / count) (i + 1)
          ≤ GC.free_ptr h + GC.sizeof_gc_header + GC.size hd).
Proof.
  intros Hok Hcount Hwidth Hover Hn Hroom Hfuel.
  pose proof Hok as [Hheap Hidle Hstart Hcur Hfin Hc Hnd Hin Hroots].
  destruct (vela_array_create_spec fuel count width st h l Hok)
    as (g' & h' & Hrun & Hok' & Hfp' & Hs' & He' & Hmem' & Hhdr'); try done.
  set (n := wrap (count * width)) in *.
  pose proof (wrap_range (count * width)) as Hn0. fold n in Hn0.
  set (array := GC.free_ptr h + GC.sizeof_gc_header) in *.
  set (st' := {| gc := g'; bytes := _ |}) in Hrun.
  set (e := n / count).
  assert (He0 : 0 ≤ e) by (apply Z.div_pos; lia).
  assert (Hce : count * e ≤ n) by (apply Z.mul_div_le; lia).
  assert (Harr : array ≠ NULL).
  { unfold array, NULL, GC.sizeof_gc_header. lia. }
  assert (Hlen : read_bytes (bytes st') array 8 = Ok (size_t_bytes count)).
  { unfold st'. cbn [bytes].
    rewrite (read_bytes_ext (write_bytes array (size_t_bytes count) (bytes st))).
    - apply (read_bytes_written _ _ (size_t_bytes count)).
    - intros a Ha. apply write_bytes_out. lia. }
  eexists st', _. split; [done|]. split.
  { simpl. rewrite Hmem'. apply lookup_insert_eq. }
  split; [done|]. split.
  { unfold vela_array_length. rewrite (eqb_null_false _ Harr).
    apply load_size_t_ok; [lia|done]. }
  split.
  { apply Z.div_lt_upper_bound; lia. }
  intros i Hi. cbn [GC.size]. split.
  - rewrite (vela_array_get_spec st' array count
               {| GC.flags := GC.GC_FLAG_ARRAY; GC.size := 8 + n;
                  GC.next := GC.objects h |} i Harr); try done.
    + replace (count <=? i) with false by (symmetry; apply Z.leb_gt; lia).
      f_equal. cbn [GC.size]. unfold sizeof_size_t.
      replace (8 + n - 8) with n by lia. rewrite (wrap_small n) by lia.
      fold e. unfold array, GC.sizeof_gc_header in *.
      assert (i * e ≤ n) by nia.
      rewrite (wrap_small (GC.free_ptr h + 24 + 8)) by lia.
      rewrite (wrap_small (i * e)) by nia.
      unfold element, sizeof_size_t. apply wrap_small. nia.
    + lia.
    + simpl. rewrite Hhdr'. unfold NULL. lia.
    + simpl. rewrite Hhdr', Hmem'. apply lookup_insert_eq.
  - unfold element, sizeof_size_t. fold e. nia.
Qed.

(** X25 (a total size that wraps below the length word).  When
    [count * width mod 2^64] lies within 8 of 2^64, the size that
    [vela_array_create] passes to the collector wraps around to fewer than 8
    bytes.  With room for such a block the allocation succeeds, and the
    store of the 8-byte length through the returned pointer already leaves the
    block: the call goes outside the model. *)
Theorem vela_array_create_size_wraps_below_length_word fuel count width st h l :
  GC.heap_ok (gc st) h l → 0 < count < 2 ^ 64 → 0 < width < 2 ^ 64 →
  2 ^ 64 - 8 ≤ wrap (count * width) →
  GC.free_ptr h + GC.sizeof_gc_header + (wrap (count * width) - (2 ^ 64 - 8))
  ≤ GC.heap_end h →
  (length l < fuel)%nat →
  ∃ g,
    wrap (sizeof_size_t + wrap (count * width)) < 8 ∧
    GC.vela_gc_alloc fuel (wrap (sizeof_size_t + wrap (count * width))) (gc st)
    = Ok (GC.free_ptr h + GC.sizeof_gc_header, g) ∧
    GC.free_ptr h + GC.sizeof_gc_header ≠ NULL ∧
    vela_array_create fuel count width st = Fault.
Proof.
  intros Hok Hcount Hwidth Hn Hroom Hfuel.
  pose proof Hok as [Hheap Hidle Hstart Hcur Hfin Hc Hnd Hin Hroots].
  set (n := wrap (count * width)) in *.
  pose proof (wrap_range (count * width)) as Hn0. fold n in Hn0.
  set (array := GC.free_ptr h + GC.sizeof_gc_header).
  unfold sizeof_size_t.
  assert (Htotal : wrap (8 + n) = n - (2 ^ 64 - 8)).
  { unfold wrap. rewrite <- (Z.mod_add _ (-1)) by lia.
    rewrite Z.mod_small; lia. }
  destruct (vela_gc_alloc_room fuel (wrap (8 + n)) (gc st) h l Hok)
    as (g1 & h1 & Halloc & Hok1 & Hfp1 & Hs1 & He1 & Hr1 & Hmem1); [lia|lia|].
  assert (Harr : array ≠ NULL).
  { unfold array, NULL, GC.sizeof_gc_header. lia. }
  assert (Hflag : ∃ g2, set_type_flag GC.GC_FLAG_ARRAY g1 array = Ok g2).
  { destruct (decide (array < GC.heap_end h)) as [Hlt|Hge].
    - destruct (set_type_flag_spec GC.GC_FLAG_ARRAY g1 h1 (GC.free_ptr h :: l)
                  (GC.free_ptr h)
                  {| GC.flags := 0; GC.size := wrap (8 + n);
                     GC.next := GC.objects h |} Hok1)
        as (g2 & Hflag & _).
      + apply list_elem_of_here.
      + rewrite Hmem1. apply lookup_insert_eq.
      + by rewrite He1.
      + by exists g2.
    - exists g1. unfold set_type_flag, GC.gc_get_header.
      replace (GC.gc_is_heap_ptr g1 array) with false; [done|].
      symmetry. apply not_true_is_false. intros Htrue.
      apply (gc_is_heap_ptr_true g1 h1 _ (GC.ok_heap _ _ _ Hok1)) in Htrue. lia. }
  destruct Hflag as [g2 Hflag].
  exists g1. split; [lia|]. split; [done|]. split; [done|].
  unfold vela_array_create.
  replace (count =? 0) with false by (symmetry; apply Z.eqb_neq; lia).
  replace (width =? 0) with false by (symmetry; apply Z.eqb_neq; lia).
  cbn [orb]. cbv zeta. fold n. unfold sizeof_size_t.
  rewrite Halloc. cbn [mbind res_bind]. fold array.
  rewrite (eqb_null_false _ Harr), Hflag. cbn [mbind res_bind].
  unfold store_in. rewrite length_size_t_bytes.
  replace (inside array (wrap (8 + n)) array (Z.of_nat 8)) with false; [done|].
  symmetry. unfold inside. apply andb_false_iff. right. apply Z.leb_gt. lia.
Qed.

(** *** Strings *)






End Arrays_properties.

Section Arrays_examples.
Import Arrays.

Lemma fresh_heap_ok : GC.heap_ok (gc fresh) GC.default_heap_struct [].
Proof. exact default_heap_ok. Defined.


Lemma with_array_at : array_at with_array 65560 3 4.
Proof.
  split.
  - done.
  - done.
  - done.
  - vm_compute. reflexivity.
  - eexists. split; [vm_compute; reflexivity|reflexivity].
  - done.
  - vm_compute. reflexivity.
Defined.

Lemma vela_array_set_stores_element_witness :
  ∃ st',
    vela_array_set 65560 1 6000 with_array = Ok (true, st') ∧
    gc st' = gc with_array ∧ array_at st' 65560 3 4 ∧
    read_bytes (bytes st') (element 65560 4 1) (Z.to_nat 4) = Ok [1; 2; 3; 4] ∧
    (∀ a, a < element 65560 4 1 ∨ element 65560 4 (1 + 1) ≤ a →
          bytes st' !! a = bytes with_array !! a) ∧
    (∀ j, 3 ≤ j → vela_array_set 65560 j 6000 with_array = Ok (false, with_array)) ∧
    vela_array_set 65560 1 NULL with_array = Ok (false, with_array).
Proof.
  assert (Hi : 0 ≤ 1 < 3) by done.
  assert (Hvalue : 6000 ≠ NULL) by done.
  assert (Hsrc : read_bytes (bytes with_array) 6000 (Z.to_nat 4) = Ok [1; 2; 3; 4])
    by (vm_compute; reflexivity).
  exact (vela_array_set_stores_element with_array 65560 3 4 1 6000 [1; 2; 3; 4]
           with_array_at Hi Hvalue Hsrc).
Defined.

Lemma vela_array_create_overflow_narrows_elements_witness :
  ∃ st' hd,
    vela_array_create 1 (2 ^ 61) 8 fresh = Ok (65536 + GC.sizeof_gc_header, st') ∧
    GC.mem (gc st') !! 65536 = Some hd ∧
    GC.size hd = 8 + wrap (2 ^ 61 * 8) ∧
    vela_array_length (65536 + GC.sizeof_gc_header) st' = Ok (2 ^ 61) ∧
    wrap (2 ^ 61 * 8) / 2 ^ 61 < 8 ∧
    (∀ i, 0 ≤ i < 2 ^ 61 →
          vela_array_get (65536 + GC.sizeof_gc_header) i st'
          = Ok (element (65536 + GC.sizeof_gc_header) (wrap (2 ^ 61 * 8) / 2 ^ 61) i) ∧
          element (65536 + GC.sizeof_gc_header) (wrap (2 ^ 61 * 8) / 2 ^ 61) (i + 1)
          ≤ 65536 + GC.sizeof_gc_header + GC.size hd).
Proof.
  assert (Hcount : 0 < 2 ^ 61 < 2 ^ 64) by done.
  assert (Hwidth : 0 < 8 < 2 ^ 64) by done.
  assert (Hover : 2 ^ 64 ≤ 2 ^ 61 * 8) by done.
  assert (Hn : wrap (2 ^ 61 * 8) < 2 ^ 64 - 8) by done.
  assert (Hroom : GC.free_ptr GC.default_heap_struct + GC.sizeof_gc_header + 8
                  + wrap (2 ^ 61 * 8) ≤ GC.heap_end GC.default_heap_struct) by done.
  assert (Hfuel : (length (@nil Z) < 1)%nat) by (simpl; lia).
  exact (vela_array_create_overflow_narrows_elements 1%nat (2 ^ 61) 8 fresh
           GC.default_heap_struct [] fresh_heap_ok Hcount Hwidth Hover Hn Hroom Hfuel).
Defined.

Lemma vela_array_create_size_wraps_below_length_word_witness :
  ∃ g,
    wrap (sizeof_size_t + wrap ((2 ^ 61 - 1) * 8)) < 8 ∧
    GC.vela_gc_alloc 1 (wrap (sizeof_size_t + wrap ((2 ^ 61 - 1) * 8))) (gc fresh)
    = Ok (65536 + GC.sizeof_gc_header, g) ∧
    65536 + GC.sizeof_gc_header ≠ NULL ∧
    vela_array_create 1 (2 ^ 61 - 1) 8 fresh = Fault.
Proof.
  assert (Hcount : 0 < 2 ^ 61 - 1 < 2 ^ 64) by done.
  assert (Hwidth : 0 < 8 < 2 ^ 64) by done.
  assert (Hn : 2 ^ 64 - 8 ≤ wrap ((2 ^ 61 - 1) * 8)) by done.
  assert (Hroom : GC.free_ptr GC.default_heap_struct + GC.sizeof_gc_header
                  + (wrap ((2 ^ 61 - 1) * 8) - (2 ^ 64 - 8))
                  ≤ GC.heap_end GC.default_heap_struct) by done.
  assert (Hfuel : (length (@nil Z) < 1)%nat) by (simpl; lia).
  exact (vela_array_create_size_wraps_below_length_word 1%nat (2 ^ 61 - 1) 8 fresh
           GC.default_heap_struct [] fresh_heap_ok Hcount Hwidth Hn Hroom Hfuel).
Defined.



End Arrays_examples.
